(* ===== verification/_CoqProject ===== *)
-Q . S2P
Prelude.v
BufferAddressing.v
Transform.v
MultiIndex.v
TensorDescriptor.v
DeviceGemmXdl.v
ConvDriver.v
ConvDriverMain.v
StaticConvDriver.v
SliceTransfer.v
GridwiseGemm.v
BlockwiseGemm.v
