(* ===== verification/Prelude.v ===== *)
(** * A verification development for composable_kernel's tiled GEMM core

    This library models, in Rocq, the index-transformation algebra and the
    hierarchical tiled GEMM of the composable_kernel repository (the sources
    under [src/]), and proves the properties that make them correct.  It is a
    shallow embedding: every C++ function modelled becomes a Rocq function
    over explicit state, every static_assert becomes a boolean guard that the
    theorems assume, loops become folds over the list of their indices, and
    index_t values are integers [Z], reduced to 32 bits where the code's
    conversions make the width matter (the buffer addressing).

    ** The program and how its parts interact

    A GEMM [C[m,n] += A[k,m] * B[k,n]] is executed by a grid of blocks.  The
    host ([src/host/device/include/device_gemm_xdl.hpp], the convolution
    drivers under [src/host/driver_offline] and [src/driver]) builds tensor
    descriptors, checks the tiling configuration and launches the kernel.
    On the device, the gridwise GEMM
    ([src/composable_kernel/include/tensor_operation/gridwise_dynamic_gemm_v1r2.hpp])
    maps a block id to an output tile and runs the double-buffered main loop
    over the reduction dimension: blockwise copies move tiles from global
    memory to the scratchpad (LDS), the blockwise GEMM multiplies them into
    per-lane registers.  Slice copies go through
    [threadwise_tensor_slice_transfer_v6r2.hpp].  The blockwise GEMM
    ([src/src/include/blockwise_gemm.hip.hpp], over the matrix descriptor of
    [src/src/include/ConstantMatrixDescriptor.hip.hpp]) gives each lane a
    sub-tile of the block's output and multiplies A and B rows into it, in
    four variants.  Every address goes through tensor descriptors (chains of
    index transforms).

    ** Files, in dependency order

    - [Prelude] (this file): the [ck_scope] notations, the [ck] hint
      databases, the tactics [ck_simpl] and [zify_nat], and the generic
      lemmas on lists, folds, products of lengths and div/mod that the
      components share.
    - [BufferAddressing]: [amd_buffer_addressing_v2.hpp]: the buffer
      resource constant and [amd_buffer_load_v2] / [amd_buffer_store_v2] in
      both builds (with and without the out-of-range offset trick), with the
      [int32_t]/[uint32_t] conversions written out ([i32], [u32]); the
      buffer intrinsics are hardware, and their range-check contract is the
      class [BufferHardware], with a reference instance.
    - [Transform]: the index transforms (PassThrough, Pad, Embed, Merge,
      Unmerge) with [calculate_lower_index], the incremental
      [update_lower_index] and the Pad validity flag, behind the
      [CoordTransform] class whose law is step-equivalence; the pointwise
      index sum is [add_idx].  The transforms' own header is not in the
      repository: this file is the model the other components assume,
      written from the spec (section 4.1) and from the way [src/] calls
      the transforms; it maps to no source lines.
    - [MultiIndex]: [MultiIndex<N>] and the operators of [multi_index.hpp] ([+=], [-=], [+],
      [-], [*]) and the tuple helpers of [tuple_helper.hpp]
      ([generate_tuple], [merge_tuples], [transform_tuples]) on lists, a
      size mismatch (a compile error in the code) giving [None].
    - [TensorDescriptor]: tensor descriptors (their header is not in the
      repository; like [Transform], an assumed model from the spec,
      section 4.2): a naive strided bottom
      and a list of [transform_tensor_descriptor] stages, each naming the
      dimensions its transforms read and produce, generic in the
      [CoordTransform] interface; [CalculateOffset], [GetLengths] and the
      validity flag.
    - [DeviceGemmXdl]: [device_gemm_xdl.hpp]: the [K0 x M x K1] and
      [K0 x N x K1] views of A and B and the [M x N] view of C, the
      [Argument] constructor, [Invoker::Run] and [IsSupportedArgument],
      with the [assert] modelled for debug and release builds, and the
      polymorphic layer: the class [DeviceGemmOperator] is what a client
      holding [BaseArgument*] pointers sees, with this operator's instance
      (its [BaseArgument*] overrides go through [dynamic_cast]).  The device
      kernel [GridwiseGemm_k0mk1_k0nk1_mn_xdlops_v2r3] (not under [src/]) is
      the class [GridwiseGemmXdlops], whose laws are the spec's pre-flight
      contract; [gridwise_v2r3] implements its check.
    - [ConvDriver]: the v4r4r4 implicit-GEMM convolution driver: its
      chain of eight [#if 0 / #elif] tuning branches with the
      preprocessor's choice ([select_branch]) and the configuration checks
      every branch passes, the step hacks it passes, the right-padding of GEMM M on the input and output
      views, and its five [driver_gemm_xdlops_v2r3] calls, over the GEMM
      views of the convolution (whose conversion header is not under
      [src/]).
    - [ConvDriverMain]: [main] in [conv_driver_v2_olc.cpp]: the argument
      check and parsing, the output sizes [Ho]/[Wo] with C++'s truncating
      division, the tensor lengths of each layout through
      [static_cast<size_t>], the generators of [init_method], and the rest
      of [main] as the trace of the calls it makes, in order (tensors,
      generation, the device convolution, the reference and
      [check_error], logs, release of the handle and stream).
    - [StaticConvDriver]: the static v5r1 convolution driver: host tensors
      (packed strides, data as a function from offsets), the parallel
      tensor functor as the enumeration of its index range, the channel
      re-layouts [f_nchw2nc0hwc1], [f_kcyx2kc0yxc1] and
      [f_nk0hwk1_to_nkhw], and the driver around a device convolution
      given as a parameter.
    - [SliceTransfer]: [ThreadwiseTensorSliceTransfer_v6r2]: the serpentine
      traversal of [Run] ([forward_sweep], [move_on_dim], the
      forward/backward steps), [GetCoordinateResetStep] and the
      slice-window moves, with each coordinate modelled by its data index.
    - [GridwiseGemm]: [GridwiseDynamicGemm_km_kn_m0m1n0n1_v1r2]: the LDS
      sizes and buffers, the grid descriptors, the block-to-tile map, and
      [Run]'s pipeline (preload, do-while main loop of even/odd iterations,
      single or double tail) as explicit state passing over abstract tiles
      with an event trace, in a [Section] generic in the copy and GEMM
      operations; the same control flow as the step relation [run_step] on
      the spec's phases [PRELOAD], [MAIN_LOOP k], [TAIL], [DONE], which
      [run_pipeline] refines; and the entry point
      [kernel_dynamic_gemm_v1r2].
    - [BlockwiseGemm]: [ConstantMatrixDescriptor] and
      [BlockwiseGemmBlockABlockBThreadCTransANormalBNormalC_v2]: the
      constructor's static_asserts ([blockwise_ctor_ok]) and thread offsets,
      the lane partition ([GetBeginOfThreadMatrixC],
      [GetDistanceFromBeginOfThreadMatrixC]), and [Run],
      [Run_RegisterDoubleBuffer], [Run_PipelineReadAndCompute] and [Run_asm]
      (its compiled [#if 1] branch) over memory and register arrays
      modelled as functions from offsets to values, with [threadwise_matrix_copy] and [threadwise_gemm] (whose
      header is not under [src/]) as folds of point updates.

    ** What the theorems show

    - Transform: the incremental update of the lower index equals
      recomputation from the moved upper index for every transform (the
      Merge carry propagation included), mixed-radix compose/decompose are
      inverse, and the Pad validity flag is exactly the physical range.
    - SliceTransfer (C1-C4, C11): [Run] accesses every vector position of the
      slice exactly once; before its n-th access each coordinate is at its
      origin plus the serpentine image of the n-th lexicographic index;
      after [Run] a coordinate with its reset flag is back at its origin;
      and a slice-window move lands on origin plus step whether [Run] reset
      the coordinate or not.  (C11) When the destination vectors of the
      valid accesses do not overlap, after [Run] every scalar of such a
      vector holds [element_op] of the two source scalars read at that
      access (added to the old value for [AtomicAdd]), and every other
      offset of the destination keeps its value.
    - GridwiseGemm (C5-C10, C24, C36): for every number of K blocks the pipeline run
      with the host's [HasMainKBlockLoop]/[HasDoubleTailKBlockLoop] flags
      makes the same blockwise GEMM calls on the same tiles as the naive
      single-buffered loop (so the accumulator is bit-identical: values and
      accumulation are abstract); the do-while loop terminates; every event
      trace has a barrier between each LDS write and each GEMM reading that
      buffer, in either order; the four LDS buffers are aligned, disjoint and
      inside the allocation; the block-to-tile map is a bijection onto the
      output tiles; the A grid descriptor is a bijection (the B one too,
      as a lemma); (C24) with [KPerBlock > 0] the [run_step] machine
      reaches [DONE] from every state, for any flags and K, and every run
      stays on the way to that state (it is deterministic and [DONE] is
      final); and (C36)
      every state of the [run_step] machine reachable from windows at 0
      satisfies the phase invariant: the loop counter is the windows' K
      offset [j * KPerBlock], block [j] is in the even LDS buffers and
      blocks [0 .. j-1] are accumulated, and at [DONE] blocks [0 .. j]
      are.
    - BlockwiseGemm (C12-C17): the lanes' thread matrices partition the
      block's C tile exactly; [Run] leaves in each cell of the lane's tile
      the in-order accumulation of [A[k][row] * B[k][col]] over [k] and
      changes nothing else; [Run_asm], [Run_RegisterDoubleBuffer] and
      [Run_PipelineReadAndCompute] equal [Run] at every register under,
      respectively, the layout the assembly hard-codes,
      [KPerThreadLoop = 1], and a packed C tile; and (C17) for every
      configuration the constructor accepts with [KPerThreadLoop]
      dividing [K], [Run_RegisterDoubleBuffer] accumulates into each cell
      the GEMMs of [K / KPerThreadLoop] chunks of [KPerThreadLoop] rows
      starting at rows [0, 1, KPerThreadLoop + 1, 2 KPerThreadLoop + 1,
      ...] (the prefetch reads row [k_begin + 1] instead of
      [k_begin + KPerThreadLoop]), and changes nothing else.
    - BufferAddressing (C18-C23): a valid access inside the buffer reads
      or writes exactly its floats, and an invalid access reads zeros and
      writes nothing, in both builds, provided the buffer's size in bytes
      fits in [int32_t] and an invalid byte offset lies above
      [size - 2^31]; for every offset in [int32_t], an invalid load
      under the trick reads memory at byte [2^31 - 1 + 4 off] whenever
      that falls inside the buffer; and for every buffer size a valid
      load compares against the range in bytes modulo [2^32], so from
      [2^30] floats on valid loads past the wrapped range read zeros.
    - MultiIndex (lemmas): [add_idx] is what [operator+] and
      [transform_tuples] with [+] compute wherever they compile, and [-=]
      undoes [+=] on equal sizes.
    - DeviceGemmXdl (C25-C29): the A and B views read element
      [(m, k0 * K1 + k1)] of A and [(k0 * K1 + k1, n)] of B, and when [K1]
      divides [K] reach every element from exactly one index; [Run] throws
      exactly when the argument is unsupported and otherwise launches one
      block per C tile with the constructor's tile map (proved against the
      class, for every implementation of the check); and a concrete
      release-build argument with [K = 36], [K1 = 8] passes the check and
      launches while never reading the last four columns of A.  A client
      proved against [DeviceGemmOperator] that checks
      [IsSupportedArgument] before [Run] on a pointer it made neither
      dereferences a null pointer nor sees the [std::runtime_error].
    - ConvDriver (C30): every GEMM call gets input and output views padded
      to the same multiple of [GemmMPerBlock], equal to the unpadded views
      below [GemmMRaw] and invalid from it on.
    - ConvDriverMain (C31-C32): [Ho] and [Wo] count the filter positions
      when the filter fits in the padded input; and for every argument
      list whose dilated filter is taller than the padded input, [Ho] is
      [1 - (overhang / stride)] by C++'s truncating division: one output
      row where no window fits when the overhang is below the stride, and
      a negative [Ho] becoming a [size_t] length of [2^64 + Ho] when it is
      at least twice the stride.
      Lemmas on the trace of [main]: a wrong [argc] exits after making the
      stream and handle, never released; with [do_verification] the
      reference and [check_error] follow the one device run, on inputs
      generated before it.
    - StaticConvDriver (C33-C35): when the vector width divides [C] and
      [K] the kernel receives exactly the vectorised input and weights and
      every output element is its output at the vectorised position; the
      two re-layouts are inverse; and for every input whose [C] the
      vector width does not divide, the input re-layout writes the last
      element [(N-1, C-1, H-1, W-1)] at an offset past the end of the
      vectorised tensor's [Π lengths] elements.

    ** Bounds and fuel

    Loops whose trip count is computed by the code ([static_ford], the
    [k_begin], [m_repeat] and [n_repeat] loops) are folds over the list of
    their indices ([for_range] is [for (x = lo; x < hi; x += step)]), so no
    fuel is needed except for the do-while main loop of the gridwise GEMM,
    whose fuel is [K / (2 * KPerBlock)]; C6 shows it never runs out.  The
    step relation [run_step] needs no fuel: C24 shows it reaches [DONE]
    from every state when [KPerBlock > 0], the loop counter rising by
    [2 * KPerBlock] each step.  The
    index ranges in the theorems are the ones the static_asserts give.
    Integers are unbounded except where the code's conversions are the
    subject of the theorems: the 32-bit [int32_t]/[uint32_t] conversions of
    [BufferAddressing] and the 64-bit [size_t] conversion of
    [ConvDriverMain].  Host tensors and the parallel tensor functor of
    [StaticConvDriver] enumerate their index box, [Π lengths] indices, with
    no fuel.

    ** Not modelled

    Host I/O, timing and printing, the kernel launch itself and the device
    memory allocator (in [device_gemm_xdl.hpp] and the v4r4r4 driver a
    launch is the record of what the kernel receives; the v5r1 driver's
    device convolution is a parameter); what the callees of [main]
    compute (the online-compiled convolution, the host reference, the
    generators); the XDL device kernel beyond its host interface; the
    buffer intrinsics themselves (only their contract is stated); the
    headers the sources include but the repository does not contain: the
    index transforms, the tensor descriptors and [threadwise_gemm] are
    modelled here from the spec and from their call sites, as the meaning
    the other theorems assume, and map to no lines; the [#if 0
    MakePaddedGridDescriptors] block of the v4r4r4 driver, which does not
    compile; the gridwise GEMM's output write and its blockwise GEMM v2r2
    (their headers are not in the repository); and floating-point
    arithmetic: values are abstract, so the equivalences proved are exact
    for any value type.  The compiled-out [#else] branch of [Run_asm]
    (blockwise_gemm.hip.hpp, the single [asm] statement holding the loads
    and the [v_mac_f32]s) is not modelled: its outputs are declared ["=v"]
    without the earlyclobber [&], so the compiler may give an output the
    register of an input, and what the statement computes depends on that
    register allocation, which the source does not fix. *)

From Stdlib Require Export ZArith Lia List.
From stdpp Require Export base list decidable.

Declare Scope ck_scope.
Delimit Scope ck_scope with ck.
Open Scope Z_scope.

(** ** Products of lengths *)

(** The product of a list of lengths, [Π ls]. *)
Definition prodZ (ls : list Z) : Z := fold_right Z.mul 1 ls.
Notation "'Π' ls" := (prodZ ls) (at level 35) : ck_scope.

(** A list of positive lengths (the code's lengths are compile-time
    positive numbers or checked runtime lengths). *)
Definition all_pos (ls : list Z) : Prop := Forall (fun l => 0 < l) ls.

Create HintDb ck.
Create Rewrite HintDb ck_rw.

Lemma prodZ_cons l ls : prodZ (l :: ls) = l * prodZ ls.
Proof. reflexivity. Qed.

Lemma prodZ_pos ls : all_pos ls -> 0 < prodZ ls.
Proof. induction 1; simpl; [lia | nia]. Qed.

Lemma all_pos_cons l ls : all_pos (l :: ls) <-> 0 < l /\ all_pos ls.
Proof. split; [inversion 1; auto | intros []; constructor; auto]. Qed.

#[export] Hint Resolve prodZ_pos : ck.
#[export] Hint Rewrite prodZ_cons : ck_rw.

(** ** Division and modulo *)

Lemma Z_div_mod_range x d : 0 < d -> 0 <= x mod d < d.
Proof. intros. apply Z.mod_pos_bound; lia. Qed.

Lemma Z_div_range x a b : 0 < b -> 0 <= x < a * b -> 0 <= x / b < a.
Proof.
  intros Hb Hx. split.
  - apply Z.div_pos; lia.
  - apply Z.div_lt_upper_bound; lia.
Qed.

(** [math::integer_least_multiple(x, a)] (math.hpp, not under [src/]):
    the least multiple of [a] not below [x]. *)
Definition integer_least_multiple (x a : Z) : Z := a * ((x + a - 1) / a).

Lemma integer_least_multiple_ge x a : 0 < a -> x <= integer_least_multiple x a.
Proof. intros Ha. unfold integer_least_multiple. Z.div_mod_to_equations. lia. Qed.

Lemma integer_least_multiple_lt x a : 0 < a -> integer_least_multiple x a < x + a.
Proof. intros Ha. unfold integer_least_multiple. Z.div_mod_to_equations. lia. Qed.

Lemma integer_least_multiple_mod x a : 0 < a -> integer_least_multiple x a mod a = 0.
Proof. intros Ha. unfold integer_least_multiple. rewrite Z.mul_comm. apply Z.mod_mul. lia. Qed.

(** The digit decomposition of [x = q * b + r] with [0 <= r < b] is unique. *)
Lemma Z_div_mod_unique_pos b q r x :
  0 < b -> 0 <= r < b -> x = q * b + r -> x / b = q /\ x mod b = r.
Proof.
  intros Hb Hr ->. split.
  - rewrite Z.div_add_l by lia. rewrite Z.div_small by lia. lia.
  - rewrite Z.add_comm, Z.mod_add by lia. apply Z.mod_small; lia.
Qed.

(** ** Lists *)

Lemma nth_error_seq_lt (start len i : nat) :
  (i < len)%nat -> nth_error (seq start len) i = Some (start + i)%nat.
Proof.
  revert start i. induction len as [|len IH]; intros start [|i] Hi; simpl; try lia.
  - f_equal; lia.
  - rewrite IH by lia. f_equal; lia.
Qed.

(** [ck_simpl] unfolds the library's products and closes arithmetic. *)
Ltac ck_simpl := autorewrite with ck_rw in *; simpl in *; try lia.

(** [zify_nat] moves [nat] facts about [Z.of_nat] into [Z]. *)
Ltac zify_nat := repeat rewrite ?Nat2Z.inj_add, ?Nat2Z.inj_mul, ?Nat2Z.inj_sub by lia.

Lemma Z_even_add_1 q : Z.even (q + 1) = negb (Z.even q).
Proof. rewrite Z.even_add. simpl. by destruct (Z.even q). Qed.

Lemma fold_left_map_comm {A B C} (f : A -> B -> A) (g : C -> B) (l : list C) (a : A) :
  fold_left f (map g l) a = fold_left (fun acc x => f acc (g x)) l a.
Proof. revert a. induction l; simpl; auto. Qed.

Lemma forallb_map_comm {A B} (f : B -> bool) (g : A -> B) (l : list A) :
  forallb f (map g l) = forallb (fun x => f (g x)) l.
Proof. induction l; simpl; auto. by rewrite IHl. Qed.

(** ** Sums over lists *)

Definition sumZ (l : list Z) : Z := fold_right Z.add 0 l.

Lemma sumZ_app l1 l2 : sumZ (l1 ++ l2) = sumZ l1 + sumZ l2.
Proof. induction l1; simpl; lia. Qed.

Lemma sumZ_map_add {A} (f g : A -> Z) (l : list A) :
  sumZ (map (fun x => f x + g x) l) = sumZ (map f l) + sumZ (map g l).
Proof. induction l; simpl; lia. Qed.

Lemma sumZ_map_zero {A} (f : A -> Z) (l : list A) :
  (forall x, In x l -> f x = 0) -> sumZ (map f l) = 0.
Proof. induction l as [|a l IH]; simpl; intros H; [done|]. rewrite H, IH; auto. Qed.

(** A sum with a single non-zero term, selected by an injective key. *)
Lemma sumZ_map_single {A} (key : A -> nat) (g : A -> Z) (l : list A) (x0 : A) :
  List.NoDup (map key l) -> In x0 l ->
  sumZ (map (fun x => if (key x =? key x0)%nat then g x else 0) l) = g x0.
Proof.
  induction l as [|a l IH]; simpl; [done|]. intros Hnd Hin.
  apply List.NoDup_cons_iff in Hnd as [Hnin Hnd].
  destruct Hin as [->|Hin].
  - rewrite Nat.eqb_refl, sumZ_map_zero; [lia|].
    intros x Hx. destruct (Nat.eqb_spec (key x) (key x0)) as [E|]; [|done].
    exfalso. apply Hnin. rewrite <- E. apply in_map, Hx.
  - rewrite IH by done. destruct (Nat.eqb_spec (key a) (key x0)) as [E|]; [|lia].
    exfalso. apply Hnin. rewrite E. apply in_map, Hin.
Qed.

(** ** [nth] on generated lists *)

Lemma nth_map_seq {A} (f : nat -> A) (n d : nat) (dflt : A) :
  (d < n)%nat -> nth d (map f (seq 0 n)) dflt = f d.
Proof.
  intros Hd. rewrite nth_indep with (d' := f O) by (rewrite length_map, length_seq; lia).
  rewrite map_nth, seq_nth by lia. reflexivity.
Qed.

Lemma nth_map_seq_ge {A} (f : nat -> A) (n d : nat) (dflt : A) :
  (n <= d)%nat -> nth d (map f (seq 0 n)) dflt = dflt.
Proof. intros Hd. apply nth_overflow. rewrite length_map, length_seq. lia. Qed.

Lemma nth_zip_with {A B C} (f : A -> B -> C) (l : list A) (k : list B) i da db dc :
  (i < length l)%nat -> (i < length k)%nat ->
  nth i (zip_with f l k) dc = f (nth i l da) (nth i k db).
Proof.
  revert k i. induction l as [|a l IH]; intros [|b k] [|i] Hl Hk; simpl in *; try lia; auto.
  apply IH; lia.
Qed.

Lemma fold_left_ext_in {A B} (f g : A -> B -> A) (l : list B) (a : A) :
  (forall x b, In b l -> f x b = g x b) -> fold_left f l a = fold_left g l a.
Proof.
  revert a. induction l as [|b l IH]; intros a H; simpl; [done|].
  rewrite H by (left; done). apply IH. intros. apply H. by right.
Qed.

(** A left fold threading a pair whose first component does not depend on
    the second. *)
Lemma fold_left_pair_fst {A B X} (f : X -> A -> A) (g : X -> A -> B -> B) (l : list X) a b :
  fst (fold_left (fun '(a, b) x => (f x a, g x a b)) l (a, b)) =
  fold_left (fun a x => f x a) l a.
Proof. revert a b. induction l as [|x l IH]; intros a b; simpl; auto. Qed.

(** A map is duplicate-free when the function is injective on the list. *)
Lemma NoDup_map_on {A B} (f : A -> B) (l : list A) :
  (forall x y, In x l -> In y l -> f x = f y -> x = y) ->
  List.NoDup l -> List.NoDup (map f l).
Proof.
  induction l as [|a l IH]; simpl; intros Hinj Hnd; [constructor|].
  apply List.NoDup_cons_iff in Hnd as [Hnin Hnd]. constructor.
  - intros (x & Hx & Hin)%in_map_iff. apply Hinj in Hx; [|by right|by left].
    subst. contradiction.
  - apply IH; [|done]. intros x y Hx Hy. apply Hinj; by right.
Qed.

Lemma Z_even_of_nat n : Z.even (Z.of_nat n) = Nat.even n.
Proof.
  induction n as [|n IH]; [done|].
  rewrite Nat2Z.inj_succ, Z.even_succ, <- Z.negb_even, IH, Nat.even_succ, <- Nat.negb_even.
  done.
Qed.

Lemma fold_left_flat_map {A B C} (f : A -> B -> A) (g : C -> list B) (l : list C) (a : A) :
  fold_left f (flat_map g l) a = fold_left (fun a x => fold_left f (g x) a) l a.
Proof. revert a. induction l as [|x l IH]; intros a; simpl; [done|]. by rewrite fold_left_app. Qed.

Lemma filter_flat_map {A B} (P : B -> bool) (g : A -> list B) (l : list A) :
  List.filter P (flat_map g l) = flat_map (fun x => List.filter P (g x)) l.
Proof. induction l as [|x l IH]; simpl; [done|]. by rewrite filter_app, IH. Qed.

Lemma filter_map_comm {A B} (P : B -> bool) (g : A -> B) (l : list A) :
  List.filter P (map g l) = map g (List.filter (fun x => P (g x)) l).
Proof. induction l as [|x l IH]; simpl; [done|]. destruct (P (g x)); simpl; by rewrite IH. Qed.

Lemma flat_map_ext_in {A B} (f g : A -> list B) (l : list A) :
  (forall x, In x l -> f x = g x) -> flat_map f l = flat_map g l.
Proof.
  induction l as [|x l IH]; simpl; intros H; [done|].
  rewrite H, IH; auto.
Qed.

(** A left fold seen through a projection that the step commutes with. *)
Lemma fold_left_proj {S V X} (proj : S -> V) (F : S -> X -> S) (G : V -> X -> V) (l : list X) s :
  (forall s x, In x l -> proj (F s x) = G (proj s) x) ->
  proj (fold_left F l s) = fold_left G l (proj s).
Proof.
  revert s. induction l as [|x l IH]; intros s H; simpl; [done|].
  rewrite IH by (intros; apply H; by right). rewrite H by (by left). done.
Qed.

(** The second component of such a fold: the step at index [k] sees the
    first component after the first [k] elements. *)
Lemma fold_left_pair_snd {A B X} (f : X -> A -> A) (g : A -> B -> B) (l : list X) a b :
  snd (fold_left (fun '(a, b) x => (f x a, g a b)) l (a, b)) =
  fold_left (fun b k => g (fold_left (fun a x => f x a) (firstn k l) a) b) (seq 0 (length l)) b.
Proof.
  revert a b. induction l as [|x l IH]; intros a b; simpl; [done|].
  by rewrite IH, <- seq_shift, fold_left_map_comm.
Qed.

(** A fold of memory writes none of which touches [o] leaves [o] alone. *)
Lemma fold_frame {T} (W : nat -> (Z -> T) -> Z -> T) (l : list nat) o bd :
  (forall j b, In j l -> W j b o = b o) -> fold_left (fun b j => W j b) l bd o = bd o.
Proof.
  revert bd. induction l as [|j l IH]; intros bd H; simpl; [done|].
  rewrite IH by (intros; apply H; by right). apply H. by left.
Qed.

(** A fold of memory writes of which only the [k]-th touches [o]. *)
Lemma fold_touch_once {T} (W : nat -> (Z -> T) -> Z -> T) (l : list nat) k o (h : T -> T) bd :
  List.NoDup l -> In k l ->
  (forall j b, In j l -> j <> k -> W j b o = b o) -> (forall b, W k b o = h (b o)) ->
  fold_left (fun b j => W j b) l bd o = h (bd o).
Proof.
  revert bd. induction l as [|j l IH]; intros bd Hnd Hin Hf Hk; [done|].
  apply List.NoDup_cons_iff in Hnd as [Hnin Hnd]. simpl.
  destruct (decide (j = k)) as [->|Hjk].
  - rewrite fold_frame; [apply Hk|]. intros j' b Hj'. apply Hf; [by right|]. by intros ->.
  - destruct Hin as [->|Hin]; [done|]. rewrite IH by (auto; intros; apply Hf; auto; by right).
    rewrite Hf by (auto; by left). done.
Qed.

(** ** Integer ranges and arrays as functions *)

(** [0, 1, ..., n-1] as integers. *)
Definition zseq (n : Z) : list Z := map Z.of_nat (seq 0 (Z.to_nat n)).

(** An array modelled as a function from offsets to values, with [k] set
    to [v]: the store [p[k] = v]. *)
Definition upd {T} (p : Z -> T) (k : Z) (v : T) : Z -> T := fun x => if x =? k then v else p x.

Lemma in_zseq x n : In x (zseq n) <-> 0 <= x < n.
Proof.
  unfold zseq. rewrite in_map_iff. split.
  - intros (k & <- & Hk%in_seq). lia.
  - intros Hx. exists (Z.to_nat x). rewrite in_seq. lia.
Qed.

Lemma zseq_NoDup n : List.NoDup (zseq n).
Proof.
  unfold zseq. apply NoDup_map_on; [|apply seq_NoDup]. intros. lia.
Qed.

Lemma zseq_S n : 0 <= n -> zseq (n + 1) = zseq n ++ [n].
Proof.
  intros Hn. unfold zseq. rewrite Z2Nat.inj_add, seq_app, map_app by lia. simpl.
  rewrite Z2Nat.id by lia. done.
Qed.

(** Only the updates at [x] matter for the value at [x]. *)
Lemma fold_upd_point {T E} (loc : E -> Z) (h : E -> T -> T) (l : list E) (p : Z -> T) x :
  fold_left (fun p e => upd p (loc e) (h e (p (loc e)))) l p x =
  fold_left (fun v e => h e v) (List.filter (fun e => loc e =? x) l) (p x).
Proof.
  revert p. induction l as [|e l IH]; intros p; simpl; [done|].
  rewrite IH. unfold upd. rewrite (Z.eqb_sym x (loc e)).
  by destruct (Z.eqb_spec (loc e) x) as [->|].
Qed.

(** Filtering [zseq n] down to one element. *)
Lemma filter_zseq_single (P : Z -> bool) n x0 :
  (forall x, 0 <= x < n -> P x = true <-> x = x0) ->
  List.filter P (zseq n) = if (0 <=? x0) && (x0 <? n) then [x0] else [].
Proof.
  intros HP. unfold zseq.
  assert (Hgen : forall s len, 0 <= Z.of_nat s -> Z.of_nat (s + len) <= n ->
            List.filter P (map Z.of_nat (seq s len)) =
            if (Z.of_nat s <=? x0) && (x0 <? Z.of_nat (s + len)) then [x0] else []).
  { intros s len. revert s. induction len as [|len IH]; intros s Hs Hn; simpl.
    - destruct (Z.leb_spec (Z.of_nat s) x0), (Z.ltb_spec x0 (Z.of_nat (s + 0))); simpl; try done; lia.
    - rewrite IH by lia. destruct (P (Z.of_nat s)) eqn:E.
      + apply HP in E; [|lia]. subst x0.
        destruct (Z.leb_spec (Z.of_nat (S s)) (Z.of_nat s)); [lia|].
        destruct (Z.leb_spec (Z.of_nat s) (Z.of_nat s)); [|lia].
        destruct (Z.ltb_spec (Z.of_nat s) (Z.of_nat (s + S len))); [|lia]. done.
      + assert (x0 <> Z.of_nat s)
          by (intros ->; rewrite (proj2 (HP (Z.of_nat s) ltac:(lia)) eq_refl) in E; done).
        replace (s + S len)%nat with (S s + len)%nat by lia.
        destruct (Z.leb_spec (Z.of_nat (S s)) x0), (Z.leb_spec (Z.of_nat s) x0),
                 (Z.ltb_spec x0 (Z.of_nat (S s + len))); simpl; try done; lia. }
  destruct (Z.le_gt_cases 0 n).
  - rewrite Hgen by lia. simpl. by rewrite Z2Nat.id by lia.
  - replace (Z.to_nat n) with O by lia. simpl.
    destruct (Z.leb_spec 0 x0), (Z.ltb_spec x0 n); simpl; try done; lia.
Qed.

Lemma filter_zseq_eq n x0 : 0 <= x0 < n -> List.filter (fun i => i =? x0) (zseq n) = [x0].
Proof.
  intros Hx. rewrite (filter_zseq_single _ n x0) by (intros; apply Z.eqb_eq).
  destruct (Z.leb_spec 0 x0), (Z.ltb_spec x0 n); simpl; try done; lia.
Qed.

Lemma filter_zseq_none (P : Z -> bool) n :
  (forall x, 0 <= x < n -> P x = false) -> List.filter P (zseq n) = [].
Proof.
  intros HP. rewrite (filter_zseq_single _ n (-1)).
  - destruct (Z.leb_spec 0 (-1)); simpl; [lia|done].
  - intros x Hx. rewrite HP by done. split; [done|lia].
Qed.

Lemma fold_upd_const_point {T E} (loc : E -> Z) (h : E -> T) (l : list E) (p : Z -> T) x :
  fold_left (fun p e => upd p (loc e) (h e)) l p x =
  fold_left (fun _ e => h e) (List.filter (fun e => loc e =? x) l) (p x).
Proof. exact (fold_upd_point loc (fun e _ => h e) l p x). Qed.

Lemma filter_none {E} (P : E -> bool) (l : list E) :
  (forall e, In e l -> P e = true -> False) -> List.filter P l = [].
Proof.
  induction l as [|e l IH]; intros H; simpl; [done|].
  destruct (P e) eqn:HPe; [exfalso; by apply (H e (or_introl eq_refl))|].
  apply IH. intros e' Hin. apply H. by right.
Qed.

(** Filtering a duplicate-free list on a predicate that exactly one of its
    elements satisfies. *)
Lemma filter_single {E} (P : E -> bool) (l : list E) e0 :
  List.NoDup l -> In e0 l -> P e0 = true -> (forall e, In e l -> P e = true -> e = e0) ->
  List.filter P l = [e0].
Proof.
  induction l as [|e l IH]; intros Hnd Hin HP Huniq; [done|].
  apply List.NoDup_cons_iff in Hnd as [Hnin Hnd]. simpl.
  destruct Hin as [<-|Hin].
  - rewrite HP. f_equal. apply filter_none. intros e' He' HPe'.
    apply Hnin. by rewrite <- (Huniq e' (or_intror He') HPe').
  - assert (HPe : P e = false).
    { destruct (P e) eqn:HPe; [|done]. exfalso. apply Hnin. by rewrite (Huniq e (or_introl eq_refl) HPe). }
    rewrite HPe. apply IH; auto. intros e' ??. apply Huniq; [by right|done].
Qed.
