(* ===== verification/BufferAddressing.v ===== *)
(** * AMD buffer addressing: [amd_buffer_load_v2] and [amd_buffer_store_v2]

    Models [src/composable_kernel/include/utility/amd_buffer_addressing_v2.hpp]:
    the wave-wide buffer resource constant the functions build, and the float
    loads and stores of 1, 2 and 4 elements, in both builds: with the offset
    trick ([CK_EXPERIMENTAL_USE_BUFFER_LOAD_OOB_CHECK_OFFSET_TRICK] and its
    store twin), where an invalid access is sent to offset [0x7fffffff +
    offset] for the hardware range check to drop, and without it, where the
    code selects zero or skips the store itself.  [index_t] is [int32_t] and
    the code converts between [int32_t], [uint32_t] and [size_t]: [i32] and
    [u32] write those conversions out, so the wrap-around is part of the model.

    The buffer instructions are hardware.  Their contract, for the raw
    buffers of stride 0 the resource describes, is the class
    [BufferHardware]: each dword of an access is range-checked against the
    resource's range in bytes, and reads zero or is not written outside it.
    Memory is a function from byte addresses to the float stored there.

    The theorems: a valid access inside the range reads or writes exactly
    its floats, and an invalid access reads zeros and writes nothing, in
    both builds, under bounds on the range and the offset that keep the
    trick's addition from wrapping back into the buffer.  Two theorems
    say, for every offset and buffer size, what happens past those bounds:
    an invalid load under the trick reads memory at [2^31 - 1 + 4 off]
    whenever that address falls inside the buffer, and the range in bytes,
    stored in an [int32_t], wraps modulo [2^32] from [2^30] floats on, so
    valid loads past the wrapped range return zeros. *)

From S2P Require Import Prelude.

(** ** 32-bit integers *)

(** The [uint32_t] and [int32_t] values of an integer: reduction modulo
    [2^32], the conversions the C++ code makes. *)
Definition u32 (x : Z) : Z := x mod 2 ^ 32.
Definition i32 (x : Z) : Z := (x + 2 ^ 31) mod 2 ^ 32 - 2 ^ 31.

(** [sizeof(float)]. *)
Definition sizeof_float : Z := 4.

(** ** The buffer resource *)

(** [BufferResourceConstant<float>] (lines 9-20): the 64-bit wave base
    address [address[0]], the [int32_t] range in bytes [range[2]] and the
    configuration dword [config[3]]. *)
Record BufferResourceConstant := mk_resource {
  address : Z;
  range : Z;
  config : Z
}.

(** Lines 71-78: the resource of a wave's buffer of [data_range] floats. *)
Definition make_buffer_resource (p_wave data_range : Z) : BufferResourceConstant :=
  {| address := p_wave; range := i32 (data_range * sizeof_float); config := 0x00027000 |}.

(** ** The hardware contract *)

(** [llvm.amdgcn.buffer.load.*] and [llvm.amdgcn.buffer.store.*] with
    [vindex = 0]: dword [i] of an access at byte offset [off] is in range when
    [off + 4 i + 4] does not exceed the resource's range read as an unsigned
    number of bytes. *)
Class BufferHardware (T : Type) := {
  float_zero : T;
  buffer_load : (Z -> T) -> BufferResourceConstant -> Z -> Z -> list T;
  buffer_store : list T -> BufferResourceConstant -> Z -> (Z -> T) -> Z -> T;
  buffer_load_spec mem res n off :
    buffer_load mem res n off =
    map (fun i => if off + sizeof_float * i + sizeof_float <=? u32 (range res)
                  then mem (address res + off + sizeof_float * i) else float_zero) (zseq n);
  buffer_store_spec src res off mem :
    buffer_store src res off mem =
    fold_left (fun m i => if off + sizeof_float * i + sizeof_float <=? u32 (range res)
                          then upd m (address res + off + sizeof_float * i) (nth (Z.to_nat i) src float_zero)
                          else m)
              (zseq (Z.of_nat (length src))) mem
}.

(** A hardware with exactly that behaviour, over integer values. *)
#[export] Instance reference_buffer_hardware : BufferHardware Z := {|
  float_zero := 0;
  buffer_load mem res n off :=
    map (fun i => if off + sizeof_float * i + sizeof_float <=? u32 (range res)
                  then mem (address res + off + sizeof_float * i) else 0) (zseq n);
  buffer_store src res off mem :=
    fold_left (fun m i => if off + sizeof_float * i + sizeof_float <=? u32 (range res)
                          then upd m (address res + off + sizeof_float * i) (nth (Z.to_nat i) src 0)
                          else m)
              (zseq (Z.of_nat (length src))) mem;
  buffer_load_spec _ _ _ _ := eq_refl;
  buffer_store_spec _ _ _ _ := eq_refl
|}.

(** ** The loads and stores *)

Section Buffer.

Context `{BufferHardware T}.

(** The build: [true] when the offset trick is enabled. *)
Variable offset_trick : bool.

(** [amd_buffer_load_v2<float, VectorSize>] (lines 65-153, the three
    specialisations differ only in [VectorSize]). *)
Definition amd_buffer_load_v2 (VectorSize : Z) (mem : Z -> T) (p_src_wave src_thread_data_offset : Z)
    (src_thread_data_valid : bool) (src_data_range : Z) : list T :=
  let src_wave_buffer_resource := make_buffer_resource p_src_wave src_data_range in
  let src_thread_addr_offset := i32 (src_thread_data_offset * sizeof_float) in
  if offset_trick then
    let src_addr_shift := if src_thread_data_valid then 0 else 0x7fffffff in
    buffer_load mem src_wave_buffer_resource VectorSize (u32 (src_addr_shift + u32 src_thread_addr_offset))
  else
    let tmp := buffer_load mem src_wave_buffer_resource VectorSize (u32 src_thread_addr_offset) in
    if src_thread_data_valid then tmp else repeat float_zero (Z.to_nat VectorSize).

(** [amd_buffer_store_v2<float, VectorSize>] (lines 155-273), with
    [VectorSize] the length of [src_thread_data]. *)
Definition amd_buffer_store_v2 (src_thread_data : list T) (mem : Z -> T) (p_dst_wave dst_thread_data_offset : Z)
    (dst_thread_data_valid : bool) (dst_data_range : Z) : Z -> T :=
  let dst_wave_buffer_resource := make_buffer_resource p_dst_wave dst_data_range in
  let dst_thread_addr_offset := i32 (dst_thread_data_offset * sizeof_float) in
  if offset_trick then
    let dst_addr_shift := if dst_thread_data_valid then 0 else 0x7fffffff in
    buffer_store src_thread_data dst_wave_buffer_resource (u32 (dst_addr_shift + u32 dst_thread_addr_offset)) mem
  else if dst_thread_data_valid then
    buffer_store src_thread_data dst_wave_buffer_resource (u32 dst_thread_addr_offset) mem
  else mem.

End Buffer.

(** ** Integer facts *)

Lemma u32_small x : 0 <= x < 2 ^ 32 -> u32 x = x.
Proof. intros. by apply Z.mod_small. Qed.

Lemma i32_small x : - 2 ^ 31 <= x < 2 ^ 31 -> i32 x = x.
Proof. intros. unfold i32. rewrite Z.mod_small; lia. Qed.

(** Adding a multiple of [2^32] does not change the [uint32_t] value. *)
Lemma u32_shift x k : u32 (x + k * 2 ^ 32) = u32 x.
Proof. unfold u32. apply Z_mod_plus_full. Qed.

(** Reading an [int32_t] back as a [uint32_t] gives the value modulo [2^32]. *)
Lemma u32_i32 x : u32 (i32 x) = u32 x.
Proof.
  unfold u32, i32. rewrite Zminus_mod, Zmod_mod, <- Zminus_mod. f_equal. lia.
Qed.

(** A range of [data_range] floats that fits in [int32_t] bytes is read back
    unchanged by the hardware. *)
Lemma resource_range p data_range :
  0 <= data_range * sizeof_float < 2 ^ 31 ->
  u32 (range (make_buffer_resource p data_range)) = data_range * sizeof_float.
Proof. intros. simpl. rewrite i32_small, u32_small; lia. Qed.

(** The offset of an invalid access under the trick is out of the range,
    when the range and the byte offset fit in [int32_t] and the offset is
    above [range - 2^31]. *)
Lemma trick_offset_out off R :
  0 <= R < 2 ^ 31 -> R - 2 ^ 31 < off * sizeof_float < 2 ^ 31 ->
  R <= u32 (0x7fffffff + u32 (i32 (off * sizeof_float))).
Proof.
  intros HR Ho. rewrite i32_small by lia. unfold sizeof_float in *.
  destruct (Z.le_gt_cases 0 (off * 4)).
  - rewrite (u32_small (off * 4)), u32_small; lia.
  - rewrite <- (u32_shift (off * 4) 1), (u32_small (off * 4 + 1 * 2 ^ 32)) by lia.
    replace (0x7fffffff + (off * 4 + 1 * 2 ^ 32)) with (0x7fffffff + off * 4 + 1 * 2 ^ 32) by lia.
    rewrite u32_shift, u32_small; lia.
Qed.

Lemma map_const_zseq {A} (c : A) n : map (fun _ => c) (zseq n) = repeat c (Z.to_nat n).
Proof. unfold zseq. rewrite map_map. generalize 0%nat. induction (Z.to_nat n); intros; simpl; by f_equal. Qed.

Section HardwareFacts.

Context `{BufferHardware T}.

Lemma buffer_load_out mem res n off :
  u32 (range res) < off + sizeof_float -> buffer_load mem res n off = repeat float_zero (Z.to_nat n).
Proof.
  intros Hout. rewrite buffer_load_spec, <- map_const_zseq. apply map_ext_in.
  intros i Hi%in_zseq. destruct (Z.leb_spec (off + sizeof_float * i + sizeof_float) (u32 (range res)));
    unfold sizeof_float in *; [lia|done].
Qed.

Lemma buffer_load_in mem res n off :
  off + sizeof_float * n <= u32 (range res) ->
  buffer_load mem res n off = map (fun i => mem (address res + off + sizeof_float * i)) (zseq n).
Proof.
  intros Hin. rewrite buffer_load_spec. apply map_ext_in.
  intros i Hi%in_zseq. destruct (Z.leb_spec (off + sizeof_float * i + sizeof_float) (u32 (range res)));
    unfold sizeof_float in *; [done|lia].
Qed.

Lemma buffer_store_out src res off mem :
  u32 (range res) < off + sizeof_float -> buffer_store src res off mem = mem.
Proof.
  intros Hout. rewrite buffer_store_spec. rewrite (fold_left_ext_in _ (fun m _ => m)).
  - generalize mem. induction (zseq _); simpl; auto.
  - intros m i Hi%in_zseq. destruct (Z.leb_spec (off + sizeof_float * i + sizeof_float) (u32 (range res)));
      unfold sizeof_float in *; [lia|done].
Qed.

(** A store inside the range writes dword [i] of [src] at [off + 4 i] and
    nothing else. *)
Lemma buffer_store_in src res off mem x :
  off + sizeof_float * Z.of_nat (length src) <= u32 (range res) ->
  buffer_store src res off mem x =
  if (0 <=? (x - address res - off) / sizeof_float) && ((x - address res - off) / sizeof_float <? Z.of_nat (length src))
     && ((x - address res - off) mod sizeof_float =? 0)
  then nth (Z.to_nat ((x - address res - off) / sizeof_float)) src float_zero else mem x.
Proof.
  intros Hin. rewrite buffer_store_spec.
  rewrite (fold_left_ext_in _ (fun m i => upd m (address res + off + sizeof_float * i)
                                           (nth (Z.to_nat i) src float_zero))).
  2:{ intros m i Hi%in_zseq. destruct (Z.leb_spec (off + sizeof_float * i + sizeof_float) (u32 (range res)));
        unfold sizeof_float in *; [done|lia]. }
  rewrite (fold_upd_const_point (fun i => address res + off + sizeof_float * i)).
  set (q := (x - address res - off) / sizeof_float).
  pose proof (Z.div_mod (x - address res - off) sizeof_float ltac:(unfold sizeof_float; lia)) as Hq.
  pose proof (Z.mod_pos_bound (x - address res - off) sizeof_float ltac:(unfold sizeof_float; lia)).
  destruct (Z.eqb_spec ((x - address res - off) mod sizeof_float) 0) as [Hr|Hr].
  - rewrite (filter_zseq_single _ _ q) by (intros; rewrite Z.eqb_eq; unfold sizeof_float in *; lia).
    rewrite andb_true_r. by destruct ((0 <=? q) && (q <? Z.of_nat (length src))).
  - rewrite filter_zseq_none; [by rewrite andb_false_r|].
    intros i Hi. apply Z.eqb_neq. unfold sizeof_float in *. lia.
Qed.

End HardwareFacts.

Section Accesses.

Context `{BufferHardware T}.

(** The byte offset of element [off], when it fits in [int32_t]. *)
Lemma thread_addr_offset off :
  - 2 ^ 31 <= off * sizeof_float < 2 ^ 31 -> i32 (off * sizeof_float) = off * sizeof_float.
Proof. apply i32_small. Qed.

(** C18: a valid load of [VectorSize] floats starting at element [off] of a
    buffer of [src_data_range] floats, inside the buffer, returns those
    floats, in both builds, when the buffer's size in bytes fits in
    [int32_t]. *)
Theorem amd_buffer_load_v2_valid (trick : bool) VectorSize mem p off src_data_range :
  0 <= VectorSize -> 0 <= off -> off + VectorSize <= src_data_range ->
  src_data_range * sizeof_float < 2 ^ 31 ->
  amd_buffer_load_v2 trick VectorSize mem p off true src_data_range =
  map (fun i => mem (p + sizeof_float * (off + i))) (zseq VectorSize).
Proof.
  intros Hn Ho Hr HR. unfold amd_buffer_load_v2.
  rewrite thread_addr_offset, Z.add_0_l, !(u32_small (off * sizeof_float)) by (unfold sizeof_float in *; lia).
  destruct trick; (rewrite buffer_load_in; [|rewrite resource_range; unfold sizeof_float in *; lia]);
    apply map_ext; intros i; simpl; f_equal; unfold sizeof_float; ring.
Qed.

(** C19: an invalid load returns zeros, in both builds: without the trick
    the code selects zero; with it the hardware range check does, when the
    buffer's size in bytes fits in [int32_t] and the byte offset is above
    [size - 2^31] (below that, [0x7fffffff + offset] wraps back into the
    buffer). *)
Theorem amd_buffer_load_v2_invalid (trick : bool) VectorSize mem p off src_data_range :
  0 <= src_data_range * sizeof_float < 2 ^ 31 ->
  src_data_range * sizeof_float - 2 ^ 31 < off * sizeof_float < 2 ^ 31 ->
  amd_buffer_load_v2 trick VectorSize mem p off false src_data_range = repeat float_zero (Z.to_nat VectorSize).
Proof.
  intros HR Ho. unfold amd_buffer_load_v2. destruct trick; [|done].
  apply buffer_load_out. rewrite resource_range by done.
  pose proof (trick_offset_out off _ HR Ho). unfold sizeof_float in *. lia.
Qed.

(** C20: a valid store of [src_thread_data] at element [off] of a buffer
    of [dst_data_range] floats, inside the buffer, writes element [i] of
    the data at byte [p + 4 (off + i)] and leaves every other byte address
    unchanged, in both builds, when the buffer's size in bytes fits in
    [int32_t]. *)
Theorem amd_buffer_store_v2_valid (trick : bool) (src_thread_data : list T) mem p off dst_data_range :
  0 <= off -> off + Z.of_nat (length src_thread_data) <= dst_data_range ->
  dst_data_range * sizeof_float < 2 ^ 31 ->
  (forall i, 0 <= i < Z.of_nat (length src_thread_data) ->
     amd_buffer_store_v2 trick src_thread_data mem p off true dst_data_range (p + sizeof_float * (off + i)) =
     nth (Z.to_nat i) src_thread_data float_zero) /\
  (forall x, (forall i, 0 <= i < Z.of_nat (length src_thread_data) -> x <> p + sizeof_float * (off + i)) ->
     amd_buffer_store_v2 trick src_thread_data mem p off true dst_data_range x = mem x).
Proof.
  intros Ho Hr HR. unfold amd_buffer_store_v2.
  rewrite thread_addr_offset, Z.add_0_l, !(u32_small (off * sizeof_float)) by (unfold sizeof_float in *; lia).
  assert (Hin : forall x, buffer_store src_thread_data (make_buffer_resource p dst_data_range) (off * sizeof_float) mem x =
     if (0 <=? (x - p - off * sizeof_float) / sizeof_float) &&
        ((x - p - off * sizeof_float) / sizeof_float <? Z.of_nat (length src_thread_data)) &&
        ((x - p - off * sizeof_float) mod sizeof_float =? 0)
     then nth (Z.to_nat ((x - p - off * sizeof_float) / sizeof_float)) src_thread_data float_zero else mem x).
  { intros x. apply buffer_store_in. rewrite resource_range; unfold sizeof_float in *; lia. }
  split; intros; destruct trick; rewrite Hin.
  1,2: replace (p + sizeof_float * (off + i) - p - off * sizeof_float) with (i * sizeof_float) by ring;
       rewrite Z.div_mul, Z_mod_mult by (unfold sizeof_float; lia);
       destruct (Z.leb_spec 0 i), (Z.ltb_spec i (Z.of_nat (length src_thread_data))); simpl; done || lia.
  all: destruct (Z.eqb_spec ((x - p - off * sizeof_float) mod sizeof_float) 0) as [Hm|Hm];
       [|by rewrite andb_false_r].
  all: pose proof (Z.div_mod (x - p - off * sizeof_float) sizeof_float ltac:(unfold sizeof_float; lia)).
  all: destruct (Z.leb_spec 0 ((x - p - off * sizeof_float) / sizeof_float)),
         (Z.ltb_spec ((x - p - off * sizeof_float) / sizeof_float) (Z.of_nat (length src_thread_data))); simpl; try done;
       exfalso; apply (H0 ((x - p - off * sizeof_float) / sizeof_float)); [lia|unfold sizeof_float in *; lia].
Qed.

(** C21: an invalid store writes nothing, in both builds, under the bounds
    of C19. *)
Theorem amd_buffer_store_v2_invalid (trick : bool) (src_thread_data : list T) mem p off dst_data_range :
  0 <= dst_data_range * sizeof_float < 2 ^ 31 ->
  dst_data_range * sizeof_float - 2 ^ 31 < off * sizeof_float < 2 ^ 31 ->
  amd_buffer_store_v2 trick src_thread_data mem p off false dst_data_range = mem.
Proof.
  intros HR Ho. unfold amd_buffer_store_v2. destruct trick; [|done].
  apply buffer_store_out. rewrite resource_range by done.
  pose proof (trick_offset_out off _ HR Ho). unfold sizeof_float in *. lia.
Qed.

End Accesses.

(** ** Where the bounds fail, and witnesses *)

(** A buffer whose float at byte address [x] is [x]. *)
Definition ex_mem (x : Z) : Z := x.

Section Wraps.

Context `{BufferHardware T}.

(** C22: what an invalid load returns under the offset trick, for every
    byte offset that fits in [int32_t] (but its minimum) and every buffer
    whose size in bytes does: the load goes to byte [2^31 - 1 + 4 off]
    of the buffer, and its dword [i] is read from memory exactly when that
    dword ends inside the buffer.  So an offset above [size - 2^31] reads
    zeros (C19), and one below it wraps back into the buffer and reads
    memory, at an address that is not even float-aligned. *)
Theorem amd_buffer_load_v2_trick_wraps VectorSize mem p off src_data_range :
  0 <= src_data_range * sizeof_float < 2 ^ 31 -> - 2 ^ 31 < off * sizeof_float < 2 ^ 31 ->
  amd_buffer_load_v2 true VectorSize mem p off false src_data_range =
  map (fun i => if 2 ^ 31 - 1 + off * sizeof_float + sizeof_float * i + sizeof_float <=? src_data_range * sizeof_float
                then mem (p + (2 ^ 31 - 1 + off * sizeof_float) + sizeof_float * i) else float_zero)
      (zseq VectorSize).
Proof.
  intros HR Ho. unfold amd_buffer_load_v2. rewrite buffer_load_spec, resource_range by lia.
  rewrite i32_small by lia.
  replace (u32 (0x7fffffff + u32 (off * sizeof_float))) with (2 ^ 31 - 1 + off * sizeof_float); [done|].
  destruct (Z.le_gt_cases 0 (off * sizeof_float)).
  - rewrite (u32_small (off * sizeof_float)), u32_small; lia.
  - rewrite <- (u32_shift (off * sizeof_float) 1), (u32_small (off * sizeof_float + 1 * 2 ^ 32)) by lia.
    replace (0x7fffffff + (off * sizeof_float + 1 * 2 ^ 32)) with (2 ^ 31 - 1 + off * sizeof_float + 1 * 2 ^ 32)
      by lia.
    rewrite u32_shift, u32_small; lia.
Qed.

(** C23: the range in bytes is stored in an [int32_t], so the hardware
    sees [src_data_range * sizeof(float)] modulo [2^32]: for every buffer
    size, a valid load whose byte offsets fit in [int32_t] returns, in both
    builds, its dword [i] from memory exactly when the dword ends below
    that wrapped range, and zero otherwise.  A buffer of fewer than [2^30]
    floats keeps its whole range (C18); from [2^30] floats on the range
    wraps and valid loads past it return zeros. *)
Theorem amd_buffer_load_v2_range_wraps (trick : bool) VectorSize mem p off src_data_range :
  0 <= off -> 0 <= VectorSize -> (off + VectorSize) * sizeof_float < 2 ^ 31 ->
  amd_buffer_load_v2 trick VectorSize mem p off true src_data_range =
  map (fun i => if (off + i) * sizeof_float + sizeof_float <=? (src_data_range * sizeof_float) mod 2 ^ 32
                then mem (p + sizeof_float * (off + i)) else float_zero)
      (zseq VectorSize).
Proof.
  intros Ho Hn Hb. unfold amd_buffer_load_v2, sizeof_float in *.
  rewrite i32_small, Z.add_0_l, !(u32_small (off * 4)) by lia.
  destruct trick; rewrite buffer_load_spec; cbn [range address make_buffer_resource];
    rewrite u32_i32; unfold u32, sizeof_float; apply map_ext_in; intros i Hi%in_zseq;
    replace (off * 4 + 4 * i + 4) with ((off + i) * 4 + 4) by ring;
    replace (p + off * 4 + 4 * i) with (p + 4 * (off + i)) by ring; reflexivity.
Qed.

End Wraps.

(** ** Witnesses *)

Lemma amd_buffer_load_v2_valid_witness :
  amd_buffer_load_v2 true 4 ex_mem 1000 3 true 16 =
  map (fun i => ex_mem (1000 + sizeof_float * (3 + i))) (zseq 4).
Proof. apply amd_buffer_load_v2_valid; unfold sizeof_float; lia. Defined.

Lemma amd_buffer_load_v2_invalid_witness :
  amd_buffer_load_v2 true 4 ex_mem 1000 (-5) false 16 = repeat float_zero (Z.to_nat 4).
Proof. apply (amd_buffer_load_v2_invalid true 4 ex_mem 1000 (-5) 16); unfold sizeof_float; lia. Defined.

Lemma amd_buffer_store_v2_valid_witness :
  amd_buffer_store_v2 true [7; 8] ex_mem 1000 3 true 16 (1000 + sizeof_float * (3 + 1)) = 8.
Proof.
  apply (proj1 (amd_buffer_store_v2_valid true [7; 8] ex_mem 1000 3 16 ltac:(lia) ltac:(simpl; lia)
                  ltac:(unfold sizeof_float; lia)) 1).
  simpl. lia.
Defined.

Lemma amd_buffer_store_v2_invalid_witness :
  amd_buffer_store_v2 true [7; 8] ex_mem 1000 (-5) false 16 = ex_mem.
Proof. apply amd_buffer_store_v2_invalid; unfold sizeof_float; lia. Defined.

(** Witness of C22: an invalid load at element [-2^29 + 1] (byte offset
    [-2^31 + 4]) of a 16-float buffer goes to byte 3 and returns the float
    stored there. *)
Lemma amd_buffer_load_v2_trick_wraps_witness :
  amd_buffer_load_v2 true 1 ex_mem 1000 (- 2 ^ 29 + 1) false 16 = [1003].
Proof.
  rewrite (amd_buffer_load_v2_trick_wraps 1 ex_mem 1000 (- 2 ^ 29 + 1) 16) by (unfold sizeof_float; lia).
  vm_compute. reflexivity.
Defined.

(** Witness of C23: a buffer of [2^30] floats has range 0, and a valid load
    of its first float returns zero. *)
Lemma amd_buffer_load_v2_range_wraps_witness :
  amd_buffer_load_v2 true 1 ex_mem 1000 0 true (2 ^ 30) = [0].
Proof.
  rewrite (amd_buffer_load_v2_range_wraps true 1 ex_mem 1000 0 (2 ^ 30)) by (unfold sizeof_float; lia).
  vm_compute. reflexivity.
Defined.
