(* ===== verification/Transform.v ===== *)
(** * Index transforms: PassThrough, Pad, Embed, Merge, Unmerge

    The transforms of composable_kernel's multi-index transform header (not
    under [src/]: modelled from the spec, section 4.1, with the semantics the
    call sites under [src/] rely on: [make_unmerge_transform(make_tuple(M0,
    M1))] maps two upper dimensions to one lower dimension, [M = m0 * M1 +
    m1]; [make_right_pad_transform(L, P)] extends a length-[L] dimension by
    [P] invalid positions).  Each transform maps an upper index (a [list Z],
    one entry per upper dimension) to a lower index, updates a lower index
    incrementally from an upper step, and flags padded positions.  The
    [CoordTransform] class is the interface the tensor descriptor relies on:
    its law [ct_step] is step-equivalence. *)

From S2P Require Import Prelude.

(** ** Mixed-radix composition and decomposition (row-major) *)

(** [compose ls idx = Σ idx[i] * Π ls[i+1..]]. *)
Fixpoint compose (ls idx : list Z) : Z :=
  match ls, idx with
  | _ :: ls', i :: idx' => i * prodZ ls' + compose ls' idx'
  | _, _ => 0
  end.

(** [decompose ls x]: the leading digit is [x / Π ls[1..]], unbounded, the
    others are the remainders, so [compose] inverts it for every [x]. *)
Fixpoint decompose (ls : list Z) (x : Z) : list Z :=
  match ls with
  | [] => []
  | _ :: ls' => x / prodZ ls' :: decompose ls' (x mod prodZ ls')
  end.

(** An index inside the box of the given lengths. *)
Definition in_box (ls idx : list Z) : Prop := Forall2 (fun l i => 0 <= i < l) ls idx.

Definition in_boxb (ls idx : list Z) : bool :=
  (length ls =? length idx)%nat &&
  forallb (fun '(l, i) => (0 <=? i) && (i <? l)) (zip ls idx).

(** Pointwise sum of two indices. *)
Definition add_idx (a b : list Z) : list Z := zip_with Z.add a b.

(** Weighted sum [Σ xs[i] * cs[i]]. *)
Definition dotZ (xs cs : list Z) : Z := fold_right Z.add 0 (zip_with Z.mul xs cs).

(** Digit-wise addition with carry, least significant digit last. *)
Fixpoint add_digits (ls a b : list Z) : list Z * Z :=
  match ls, a, b with
  | l :: ls', x :: a', y :: b' =>
      let '(r, c) := add_digits ls' a' b' in
      let s := x + y + c in
      if l <=? s then (s - l :: r, 1) else (s :: r, 0)
  | _, _, _ => ([], 0)
  end.

(** Merge's incremental update: decompose the upper step, add it digit-wise
    to the old lower index with carry; the leading digit takes the carry
    without wrapping. *)
Definition merge_update (ls low : list Z) (d : Z) : list Z :=
  match ls, low with
  | _ :: ls', x :: low' =>
      let '(r, c) := add_digits ls' low' (decompose ls' (d mod prodZ ls')) in
      (x + d / prodZ ls' + c) :: r
  | _, _ => low
  end.

(** ** The transforms *)

Inductive transform :=
| PassThrough (len : Z)
| Pad (low_len left_pad right_pad : Z)
| Embed (up_lengths coefficients : list Z) (offset : Z)
| Merge (low_lengths : list Z)
| Unmerge (up_lengths : list Z).

(** [make_right_pad_transform(L, P)] and [make_left_pad_transform(L, P)]. *)
Definition make_right_pad_transform (low_len right_pad : Z) : transform :=
  Pad low_len 0 right_pad.
Definition make_left_pad_transform (low_len left_pad : Z) : transform :=
  Pad low_len left_pad 0.

Definition up_lengths (t : transform) : list Z :=
  match t with
  | PassThrough l => [l]
  | Pad l lp rp => [lp + l + rp]
  | Embed ls _ _ => ls
  | Merge ls => [prodZ ls]
  | Unmerge ls => ls
  end.

Definition low_lengths (t : transform) : list Z :=
  match t with
  | PassThrough l => [l]
  | Pad l _ _ => [l]
  | Embed ls cs off => [dotZ (map (fun l => l - 1) ls) cs + off + 1]
  | Merge ls => ls
  | Unmerge ls => [prodZ ls]
  end.

Definition calculate_lower_index (t : transform) (up : list Z) : list Z :=
  match t with
  | PassThrough _ => up
  | Pad _ lp _ => map (fun x => x - lp) up
  | Embed _ cs off => [dotZ up cs + off]
  | Merge ls => decompose ls (hd 0 up)
  | Unmerge ls => [compose ls up]
  end.

(** The incremental update: the new lower index from the old one and the
    upper step, without recomputing from the upper index. *)
Definition update_lower_index (t : transform) (low up_diff : list Z) : list Z :=
  match t with
  | PassThrough _ | Pad _ _ _ => add_idx low up_diff
  | Embed _ cs _ => [hd 0 low + dotZ up_diff cs]
  | Merge ls => merge_update ls low (hd 0 up_diff)
  | Unmerge ls => [hd 0 low + compose ls up_diff]
  end.

Definition is_valid_upper_index_mapped_to_valid_lower_index
    (t : transform) (up : list Z) : bool :=
  match t with
  | Pad l lp _ => forallb (fun x => (lp <=? x) && (x <? lp + l)) up
  | _ => true
  end.

(** Well-formedness: positive lengths, matching arities (the code's
    static_asserts on transform construction). *)
Definition transform_wf (t : transform) : Prop :=
  match t with
  | PassThrough l => 0 < l
  | Pad l lp rp => 0 < l /\ 0 <= lp /\ 0 <= rp
  | Embed ls cs _ => length ls = length cs /\ all_pos ls
  | Merge ls => ls <> [] /\ all_pos ls
  | Unmerge ls => ls <> [] /\ all_pos ls
  end.

(** ** The interface the descriptor relies on *)

Class CoordTransform (T : Type) := {
  ct_up_lengths : T -> list Z;
  ct_lower : T -> list Z -> list Z;
  ct_update : T -> list Z -> list Z -> list Z;
  ct_valid : T -> list Z -> bool;
  ct_wf : T -> Prop;
  ct_low_arity : T -> nat;
  ct_lower_length : forall t up, ct_wf t -> in_box (ct_up_lengths t) up ->
    length (ct_lower t up) = ct_low_arity t;
  ct_step : forall t up du, ct_wf t ->
    in_box (ct_up_lengths t) up -> in_box (ct_up_lengths t) (add_idx up du) ->
    ct_update t (ct_lower t up) du = ct_lower t (add_idx up du)
}.

(** ** Mixed radix: round trips and ranges *)

Section MixedRadix.

Lemma in_box_cons l ls i idx : in_box (l :: ls) (i :: idx) <-> 0 <= i < l /\ in_box ls idx.
Proof. split; [inversion 1; auto | intros []; constructor; auto]. Qed.

Lemma in_box_length ls idx : in_box ls idx -> length idx = length ls.
Proof. intros H. symmetry. by eapply Forall2_length. Qed.

Lemma in_boxb_spec ls idx : in_boxb ls idx = true <-> in_box ls idx.
Proof.
  revert idx. induction ls as [|l ls IH]; intros [|i idx]; simpl.
  - split; [constructor | done].
  - split; [done | inversion 1].
  - split; [done | inversion 1].
  - rewrite in_box_cons, <- IH. unfold in_boxb. simpl.
    rewrite !andb_true_iff, Nat.eqb_eq, Z.leb_le, Z.ltb_lt. tauto.
Qed.

Lemma compose_range ls idx : in_box ls idx -> 0 <= compose ls idx < prodZ ls.
Proof.
  induction 1 as [|l i ls idx Hi _ IH]; simpl; [lia|]. nia.
Qed.

Lemma compose_decompose l ls x :
  all_pos ls -> compose (l :: ls) (decompose (l :: ls) x) = x.
Proof.
  revert l x. induction ls as [|l' ls IH]; intros l x Hpos; simpl.
  - rewrite Z.div_1_r. lia.
  - apply all_pos_cons in Hpos as [Hl' Hpos].
    pose proof (prodZ_pos ls Hpos) as Hp.
    specialize (IH l' (x mod (l' * prodZ ls)) Hpos). simpl in IH.
    rewrite IH. rewrite Z.mul_comm. symmetry. apply Z.div_mod. nia.
Qed.

Lemma decompose_in_box ls x : all_pos ls -> 0 <= x < prodZ ls -> in_box ls (decompose ls x).
Proof.
  intros Hpos. revert x. induction Hpos as [|l ls Hl Hpos IH]; intros x Hx; simpl.
  - constructor.
  - pose proof (prodZ_pos ls Hpos). constructor.
    + apply Z_div_range; simpl in Hx; lia.
    + apply IH, Z_div_mod_range; lia.
Qed.

Lemma decompose_tail_in_box l ls x :
  all_pos ls -> in_box ls (tail (decompose (l :: ls) x)).
Proof.
  intros Hpos. simpl. apply decompose_in_box; [done|].
  apply Z_div_mod_range, prodZ_pos, Hpos.
Qed.

Lemma decompose_compose ls idx : in_box ls idx -> decompose ls (compose ls idx) = idx.
Proof.
  induction 1 as [|l i ls idx Hi Hidx IH]; simpl; [done|].
  pose proof (compose_range ls idx Hidx) as Hr.
  destruct (Z_div_mod_unique_pos (prodZ ls) i (compose ls idx)
              (i * prodZ ls + compose ls idx)) as [-> ->]; [lia|lia|lia|].
  by rewrite IH.
Qed.

(** [compose] is injective on a box. *)
Lemma compose_inj ls a b : in_box ls a -> in_box ls b -> compose ls a = compose ls b -> a = b.
Proof. intros Ha Hb E. rewrite <- (decompose_compose ls a Ha), <- (decompose_compose ls b Hb). by rewrite E. Qed.

Lemma length_decompose ls x : length (decompose ls x) = length ls.
Proof. revert x. induction ls; simpl; auto. Qed.

(** The leading digit absorbs the overflow: a list whose trailing digits are
    in range is the decomposition of its composition. *)
Lemma decompose_compose_lead l ls d r :
  in_box ls r -> decompose (l :: ls) (compose (l :: ls) (d :: r)) = d :: r.
Proof.
  intros Hr. simpl. pose proof (compose_range ls r Hr).
  destruct (Z_div_mod_unique_pos (prodZ ls) d (compose ls r)
              (d * prodZ ls + compose ls r)) as [-> ->]; [lia|lia|lia|].
  by rewrite decompose_compose.
Qed.

Lemma add_digits_spec ls a b :
  in_box ls a -> in_box ls b ->
  let '(r, c) := add_digits ls a b in
  in_box ls r /\ (c = 0 \/ c = 1) /\ compose ls r + c * prodZ ls = compose ls a + compose ls b.
Proof.
  intros Ha. revert b. induction Ha as [|l x ls a Hx Ha IH]; intros b Hb.
  - inversion Hb; subst; simpl. split; [constructor | lia].
  - inversion Hb as [|l' y ls' b' Hy Hb']; subst. simpl.
    specialize (IH b' Hb'). destruct (add_digits ls a b') as [r c].
    destruct IH as (Hr & Hc & Heq).
    destruct (Z.leb_spec l (x + y + c)); simpl.
    + split; [constructor; auto; lia|]. split; [auto|]. nia.
    + split; [constructor; auto; lia|]. split; [auto|]. nia.
Qed.

Lemma compose_decompose_small ls y :
  all_pos ls -> 0 <= y < prodZ ls -> compose ls (decompose ls y) = y.
Proof.
  destruct ls as [|l ls]; intros Hpos Hy.
  - simpl in *. lia.
  - apply all_pos_cons in Hpos as [_ Hpos]. by apply compose_decompose.
Qed.

(** Merge step-equivalence: the carry-propagating update of the
    decomposition of [u] by [d] is the decomposition of [u + d]. *)
Lemma merge_update_correct ls u d :
  all_pos ls -> merge_update ls (decompose ls u) d = decompose ls (u + d).
Proof.
  destruct ls as [|l ls]; [done|]. intros Hpos.
  apply all_pos_cons in Hpos as [Hl Hpos].
  pose proof (prodZ_pos ls Hpos) as Hp.
  pose proof (Z_div_mod_range u _ Hp). pose proof (Z_div_mod_range d _ Hp).
  simpl decompose at 1. unfold merge_update.
  pose proof (add_digits_spec ls (decompose ls (u mod prodZ ls))
                (decompose ls (d mod prodZ ls))) as Hadd.
  destruct (add_digits ls _ _) as [r c].
  destruct Hadd as (Hr & Hc & Heq); [apply decompose_in_box; auto ..|].
  rewrite !compose_decompose_small in Heq by auto.
  assert (Hsum : compose (l :: ls) ((u / prodZ ls + d / prodZ ls + c) :: r) = u + d).
  { simpl. pose proof (Z.div_mod u (prodZ ls)). pose proof (Z.div_mod d (prodZ ls)). lia. }
  by rewrite <- Hsum, decompose_compose_lead.
Qed.

End MixedRadix.

(** ** Step-equivalence of each transform *)

Section Steps.

Lemma dotZ_add a b cs :
  length a = length cs -> (length a <= length b)%nat ->
  dotZ (add_idx a b) cs = dotZ a cs + dotZ b cs.
Proof.
  revert b cs. induction a as [|x a IH]; intros b cs Hl Hle.
  - destruct cs; simpl in *; [unfold dotZ; destruct b; reflexivity | lia].
  - destruct b as [|y b], cs as [|c cs]; simpl in *; try lia.
    unfold dotZ in *. simpl. rewrite (IH b cs) by lia. lia.
Qed.

Lemma compose_add ls a b :
  length a = length ls -> (length a <= length b)%nat ->
  compose ls (add_idx a b) = compose ls a + compose ls b.
Proof.
  revert a b. induction ls as [|l ls IH]; intros a b Hl Hle.
  - destruct a; simpl in *; [reflexivity | lia].
  - destruct a as [|x a], b as [|y b]; simpl in *; try lia.
    rewrite (IH a b) by lia. lia.
Qed.

Lemma add_idx_map_sub lp a b :
  add_idx (map (fun x => x - lp) a) b = map (fun x => x - lp) (add_idx a b).
Proof.
  revert b. induction a as [|x a IH]; intros [|y b]; simpl; auto.
  unfold add_idx in *. simpl. rewrite IH. f_equal. lia.
Qed.

Lemma length_add_idx a b : length (add_idx a b) = Nat.min (length a) (length b).
Proof. apply length_zip_with. Qed.

Lemma calculate_lower_index_step t up du :
  transform_wf t -> in_box (up_lengths t) up -> in_box (up_lengths t) (add_idx up du) ->
  update_lower_index t (calculate_lower_index t up) du =
  calculate_lower_index t (add_idx up du).
Proof.
  intros Hwf Hup Hup'.
  pose proof (in_box_length _ _ Hup) as Hl.
  pose proof (in_box_length _ _ Hup') as Hl'. rewrite length_add_idx in Hl'.
  destruct t as [len|l lp rp|ls cs off|ls|ls]; simpl in *.
  - done.
  - apply add_idx_map_sub.
  - destruct Hwf as [Hcs _]. rewrite dotZ_add by lia. f_equal. lia.
  - destruct up as [|x [|]]; simpl in Hl; try lia.
    destruct du as [|d du]; simpl in Hl'; try lia. simpl.
    apply merge_update_correct, Hwf.
  - rewrite compose_add by lia. done.
Qed.

(** The validity flag of a pad is exactly the physical range of the lower
    dimension: [lp <= x < lp + l], i.e. lower index [x - lp] in [0, l). *)
Lemma pad_valid_iff l lp rp x :
  is_valid_upper_index_mapped_to_valid_lower_index (Pad l lp rp) [x] = true <->
  0 <= x - lp < l.
Proof.
  simpl. rewrite andb_true_r, andb_true_iff, Z.leb_le, Z.ltb_lt. lia.
Qed.

Lemma calculate_lower_index_length t up :
  transform_wf t -> in_box (up_lengths t) up ->
  length (calculate_lower_index t up) = length (low_lengths t).
Proof.
  intros Hwf Hup. pose proof (in_box_length _ _ Hup) as Hl.
  destruct t; simpl in *; rewrite ?length_map, ?length_decompose; auto.
Qed.

End Steps.

#[export] Instance transform_coord : CoordTransform transform := {
  ct_up_lengths := up_lengths;
  ct_lower := calculate_lower_index;
  ct_update := update_lower_index;
  ct_valid := is_valid_upper_index_mapped_to_valid_lower_index;
  ct_wf := transform_wf;
  ct_low_arity t := length (low_lengths t);
  ct_lower_length := calculate_lower_index_length;
  ct_step := calculate_lower_index_step
}.
