(* ===== verification/MultiIndex.v ===== *)
(** * Multi-indices and tuple helpers

    Models [src/composable_kernel/include/tensor_description/multi_index.hpp]
    and [src/composable_kernel/include/utility/tuple_helper.hpp].  A
    [MultiIndex<NSize>] is a [list Z] of length [NSize]; the tuples the
    helpers build are lists.  The size checks of the code are compile-time
    ([static_assert(X::Size() == NSize)], or an [At] past the end of a
    tuple): an operation whose sizes do not fit returns [None], one that
    compiles returns [Some].

    The theorems: [operator-=] undoes [operator+=] on equal sizes, and the
    pointwise sum [add_idx] the transform and slice-transfer models use is
    the code's [operator+] wherever that compiles, also when it is computed
    through [transform_tuples]. *)

From S2P Require Import Prelude Transform.

(** ** [multi_index.hpp] *)

(** [MultiIndex<N>] and [make_multi_index(xs...)] (lines 8-35): an
    [Array<index_t, N>] or a [StaticallyIndexedArray<index_t, N>], as
    [CK_USE_DYNAMICALLY_INDEXED_MULTI_INDEX] selects; in both the [N]
    values in order. *)
Definition MultiIndex := list Z.
Definition make_multi_index (xs : list Z) : MultiIndex := xs.

(** [make_zero_multi_index<NSize>()] (lines 37-42). *)
Definition make_zero_multi_index (NSize : nat) : list Z := repeat 0 NSize.

(** The pointwise operators, after their [static_assert] on the sizes. *)
Definition pointwise (op : Z -> Z -> Z) (a b : list Z) : option (list Z) :=
  if (length a =? length b)%nat then Some (zip_with op a b) else None.

(** [operator+=(y, x)] (lines 50-56) and [operator-=(y, x)] (lines 58-64):
    the updated [y]. *)
Definition multi_index_add_assign (y x : list Z) : option (list Z) := pointwise Z.add y x.
Definition multi_index_sub_assign (y x : list Z) : option (list Z) := pointwise Z.sub y x.

(** [operator+(a, b)], [operator-(a, b)] and [operator*(a, b)] (lines 66-94). *)
Definition multi_index_add (a b : list Z) : option (list Z) := pointwise Z.add a b.
Definition multi_index_sub (a b : list Z) : option (list Z) := pointwise Z.sub a b.
Definition multi_index_mul (a b : list Z) : option (list Z) := pointwise Z.mul a b.

(** ** [tuple_helper.hpp] *)

(** [generate_tuple(f, Number<N>)] (lines 14-19): [f] at [0 .. N-1]. *)
Definition generate_tuple {A} (f : Z -> A) (N : Z) : list A := map f (zseq N).

(** [merge_tuples(tuples...)] (lines 21-25): the concatenation. *)
Definition merge_tuples {A} (tuples : list (list A)) : list A := concat tuples.

(** [transform_tuples(f, x)], [transform_tuples(f, x, y)] and
    [transform_tuples(f, x, y, z)] (lines 27-70): [f] at every index of [x],
    reading [y] and [z] at the same index, which must exist. *)
Definition transform_tuples {A B} (f : A -> B) (x : list A) : list B := map f x.

Definition transform_tuples2 {A B C} (f : A -> B -> C) (x : list A) (y : list B) : option (list C) :=
  if (length x <=? length y)%nat then Some (zip_with f x y) else None.

Definition transform_tuples3 {A B C D} (f : A -> B -> C -> D) (x : list A) (y : list B) (z : list C)
    : option (list D) :=
  if (length x <=? length y)%nat && (length x <=? length z)%nat
  then Some (zip_with (fun a '(b, c) => f a b c) x (zip y z)) else None.

(** ** Lemmas *)

Lemma pointwise_some op a b : length a = length b -> pointwise op a b = Some (zip_with op a b).
Proof. intros E. unfold pointwise. by rewrite E, Nat.eqb_refl. Qed.

Lemma pointwise_none op a b : length a <> length b -> pointwise op a b = None.
Proof. intros E. unfold pointwise. by destruct (Nat.eqb_spec (length a) (length b)). Qed.

Lemma length_zip_with_eq {A B C} (f : A -> B -> C) a b :
  length a = length b -> length (zip_with f a b) = length a.
Proof. intros E. rewrite length_zip_with. lia. Qed.

Lemma zip_with_sub_add (a b : list Z) :
  length a = length b -> zip_with Z.sub (zip_with Z.add a b) b = a.
Proof.
  revert b. induction a as [|x a IH]; intros [|y b] E; simpl in *; try done.
  f_equal; [lia|]. apply IH. lia.
Qed.

(** [operator-=] undoes [operator+=]: for multi-indices of the same
    size, [y += x; y -= x] compiles and gives back [y]; for different sizes
    neither compiles. *)
Theorem multi_index_add_sub_assign (y x : list Z) :
  (length y = length x ->
   exists s, multi_index_add_assign y x = Some s /\ multi_index_sub_assign s x = Some y) /\
  (length y <> length x -> multi_index_add_assign y x = None /\ multi_index_sub_assign y x = None).
Proof.
  split; intros E.
  - exists (zip_with Z.add y x). unfold multi_index_add_assign, multi_index_sub_assign.
    rewrite !pointwise_some by (rewrite ?length_zip_with_eq; auto). by rewrite zip_with_sub_add.
  - unfold multi_index_add_assign, multi_index_sub_assign. by rewrite !pointwise_none.
Qed.

(** The pointwise sum [add_idx] of the transform and slice-transfer
    models refines the code's [operator+]: wherever [operator+] compiles
    (equal sizes) it returns [add_idx a b], and [transform_tuples] with
    [+] computes the same. *)
Theorem add_idx_refines_operator_plus (a b : list Z) :
  length a = length b ->
  multi_index_add a b = Some (add_idx a b) /\ transform_tuples2 Z.add a b = Some (add_idx a b).
Proof.
  intros E. split; [by apply pointwise_some|].
  unfold transform_tuples2. rewrite E, Nat.leb_refl. done.
Qed.

Lemma multi_index_add_sub_assign_example :
  length [3; 4] = length [1; 2] /\
  exists s, multi_index_add_assign [3; 4] [1; 2] = Some s /\ multi_index_sub_assign s [1; 2] = Some [3; 4].
Proof. split; [reflexivity|]. apply (proj1 (multi_index_add_sub_assign [3; 4] [1; 2])). reflexivity. Defined.

Lemma add_idx_refines_operator_plus_example :
  multi_index_add [3; 4] [1; 2] = Some (add_idx [3; 4] [1; 2]) /\
  transform_tuples2 Z.add [3; 4] [1; 2] = Some (add_idx [3; 4] [1; 2]).
Proof. apply add_idx_refines_operator_plus. reflexivity. Defined.
