(* ===== verification/TensorDescriptor.v ===== *)
(** * Tensor descriptors: a naive strided view and a chain of transform stages

    composable_kernel's [tensor_descriptor.hpp] and
    [tensor_descriptor_helper.hpp] are not under [src/]; this file models
    them from the spec (section 4.2) with the semantics their calls under
    [src/] use ([make_naive_tensor_descriptor(lengths, strides)],
    [transform_tensor_descriptor(desc, transforms, lower_dims, upper_dims)],
    [GetLength(i)], [CalculateOffset(idx)]).  A descriptor is the naive
    strided tensor at the bottom and the list of transform stages above it,
    newest first.  Each stage lists its transforms with, for each, the
    dimensions of the stage below it reads its lower index from and the
    dimensions of the new top its upper index occupies.  The stages are
    generic in any [CoordTransform]: the descriptor only uses the
    interface. *)

From S2P Require Import Prelude Transform.

Section Descriptor.
Context `{CoordTransform T}.

(** One [transform_tensor_descriptor] stage. *)
Record stage := mk_stage {
  st_transforms : list T;
  st_low_dims : list (list nat);
  st_up_dims : list (list nat)
}.

Record tensor_descriptor := mk_tensor_descriptor {
  td_lengths0 : list Z;
  td_strides : list Z;
  td_stages : list stage
}.

(** [make_naive_tensor_descriptor(lengths, strides)]. *)
Definition make_naive_tensor_descriptor (lengths strides : list Z) : tensor_descriptor :=
  mk_tensor_descriptor lengths strides [].

(** [transform_tensor_descriptor(desc, transforms, lower_dims, upper_dims)]. *)
Definition transform_tensor_descriptor (d : tensor_descriptor) (ts : list T)
    (low_dims up_dims : list (list nat)) : tensor_descriptor :=
  mk_tensor_descriptor (td_lengths0 d) (td_strides d) (mk_stage ts low_dims up_dims :: td_stages d).

(** Reading the dimensions [dims] of an index, and assembling an index of
    [n] dimensions from parts that each fill the dimensions they list. *)
Definition gather (idx : list Z) (dims : list nat) : list Z := map (fun d => nth d idx 0) dims.

Fixpoint find_dim (d : nat) (dims : list nat) : option nat :=
  match dims with
  | [] => None
  | x :: xs => if Nat.eqb x d then Some 0%nat else option_map S (find_dim d xs)
  end.

Fixpoint assemble (d : nat) (parts : list (list nat * list Z)) : Z :=
  match parts with
  | [] => 0
  | (dims, vals) :: ps =>
      match find_dim d dims with Some j => nth j vals 0 | None => assemble d ps end
  end.

Definition scatter (n : nat) (parts : list (list nat * list Z)) : list Z :=
  map (fun d => assemble d parts) (seq 0 n).

Definition ndims (dimss : list (list nat)) : nat := sum_list_with length dimss.

(** The visible lengths of a stage, and of a descriptor ([GetLengths]). *)
Definition stage_lengths (s : stage) : list Z :=
  scatter (ndims (st_up_dims s)) (zip (st_up_dims s) (map ct_up_lengths (st_transforms s))).

Definition GetLengths (d : tensor_descriptor) : list Z :=
  match td_stages d with [] => td_lengths0 d | s :: _ => stage_lengths s end.

Definition GetLength (d : tensor_descriptor) (i : nat) : Z := nth i (GetLengths d) 0.

(** The lower index of one stage, and whether every transform of it maps
    the upper index to a valid lower index. *)
Definition stage_lower (s : stage) (up : list Z) : list Z * bool :=
  let ups := map (gather up) (st_up_dims s) in
  (scatter (ndims (st_low_dims s))
     (zip (st_low_dims s) (zip_with ct_lower (st_transforms s) ups)),
   forallb id (zip_with ct_valid (st_transforms s) ups)).

Fixpoint lower_index (ss : list stage) (idx : list Z) : list Z * bool :=
  match ss with
  | [] => (idx, true)
  | s :: ss' =>
      let '(low, v) := stage_lower s idx in
      let '(bottom, v') := lower_index ss' low in (bottom, v && v')
  end.

(** [CalculateOffset(idx)] and the validity flag of the coordinate. *)
Definition CalculateOffset (d : tensor_descriptor) (idx : list Z) : Z :=
  dotZ (fst (lower_index (td_stages d) idx)) (td_strides d).

Definition coordinate_has_valid_offset (d : tensor_descriptor) (idx : list Z) : bool :=
  snd (lower_index (td_stages d) idx).

(** [GetElementSpaceSize()] of a naive descriptor: the last offset plus one. *)
Definition GetElementSpaceSize (d : tensor_descriptor) : Z :=
  1 + dotZ (map (fun l => l - 1) (td_lengths0 d)) (td_strides d).

(** ** Lemmas *)

Lemma CalculateOffset_transform d ts lows ups idx :
  CalculateOffset (transform_tensor_descriptor d ts lows ups) idx =
  CalculateOffset d (fst (stage_lower (mk_stage ts lows ups) idx)).
Proof.
  unfold CalculateOffset, transform_tensor_descriptor. cbn [td_stages lower_index].
  destruct (stage_lower (mk_stage ts lows ups) idx) as [low v]. simpl.
  by destruct (lower_index (td_stages d) low).
Qed.

Lemma coordinate_has_valid_offset_transform d ts lows ups idx :
  coordinate_has_valid_offset (transform_tensor_descriptor d ts lows ups) idx =
  snd (stage_lower (mk_stage ts lows ups) idx) &&
  coordinate_has_valid_offset d (fst (stage_lower (mk_stage ts lows ups) idx)).
Proof.
  unfold coordinate_has_valid_offset, transform_tensor_descriptor. cbn [td_stages lower_index].
  destruct (stage_lower (mk_stage ts lows ups) idx) as [low v]. simpl.
  by destruct (lower_index (td_stages d) low).
Qed.

Lemma GetLengths_transform d ts lows ups :
  GetLengths (transform_tensor_descriptor d ts lows ups) = stage_lengths (mk_stage ts lows ups).
Proof. done. Qed.

End Descriptor.

Arguments stage T : clear implicits.
Arguments tensor_descriptor T : clear implicits.

(** The offset of a naive descriptor is the dot product with its strides. *)
Lemma CalculateOffset_naive {T} `{CoordTransform T} lengths strides idx :
  CalculateOffset (make_naive_tensor_descriptor (T:=T) lengths strides) idx = dotZ idx strides.
Proof. done. Qed.

#[export] Hint Rewrite @CalculateOffset_transform @coordinate_has_valid_offset_transform
  @GetLengths_transform @CalculateOffset_naive : ck_rw.
