(* ===== verification/DeviceGemmXdl.v ===== *)
(** * The host side of the XDL GEMM: [DeviceGemmXdl]

    Models [src/host/device/include/device_gemm_xdl.hpp]: the grid
    descriptors [MakeAGridDescriptor_K0_M_K1], [MakeBGridDescriptor_K0_N_K1]
    and [MakeCGridDescriptor_M_N] over the tensor descriptors of
    [TensorDescriptor], the [Argument] constructor, [Invoker::Run],
    [IsSupportedArgument], [IsValidCompilationParameter] and [MakeArgument],
    and the polymorphic layer: the class [DeviceGemmOperator] is what a
    client holding [BaseArgument*] pointers sees ([MakeArgumentPointer] and
    the two virtual calls, whose [dynamic_cast] may yield a null pointer),
    [device_gemm_xdl_operator] is this operator's instance, and
    [checked_run_defined] is a client lemma proved against the class.
    The template parameters that matter to these functions form the record
    [xdl_config]; the block-transfer parameters only reach the device
    kernel and are not modelled.

    The device GEMM [GridwiseGemm_k0mk1_k0nk1_mn_xdlops_v2r3] is not under
    [src/]: the operations the host calls on it are the class
    [GridwiseGemmXdlops], whose laws are the pre-flight contract of the spec
    (section 6: the check accepts only a problem its tiles divide), and
    [gridwise_v2r3] is an instance with the check of the v2r3 header.  The
    [assert(K % K1 == 0)] of the descriptor makers is a [Section] variable
    [assertions_enabled]: in a debug build a failed assertion aborts (the
    maker returns [None]), in a release build it does nothing.  The
    [std::cout] of the descriptor lengths in [Run] and the timing are I/O and
    not modelled; a launch is the record of what the kernel receives. *)

From S2P Require Import Prelude Transform TensorDescriptor.

Inductive tensor_layout := RowMajor | ColumnMajor.

(** The template parameters of [DeviceGemmXdl] the host code reads. *)
Record xdl_config := mk_xdl_config {
  ALayout : tensor_layout;
  BLayout : tensor_layout;
  CLayout : tensor_layout;
  BlockSize : Z;
  MPerBlock : Z;
  NPerBlock : Z;
  K0PerBlock : Z;
  K1 : Z;
  MPerXDL : Z;
  NPerXDL : Z;
  MXdlPerWave : Z;
  NXdlPerWave : Z
}.

Abbreviation grid_desc := (tensor_descriptor transform).

(** The operations of [GridwiseGemm_k0mk1_k0nk1_mn_xdlops_v2r3] the host
    calls, and what their pre-flight check promises. *)
Class GridwiseGemmXdlops (cfg : xdl_config) := {
  CGridDesc_M0_N0_M1_N1_M2_M3_M4_N2 : Type;
  Block2CTileMap : Type;
  CheckValidity : grid_desc -> grid_desc -> grid_desc -> Z -> Z -> bool;
  CalculateGridSize : grid_desc -> Z;
  CalculateHasMainK0BlockLoop : Z -> bool;
  MakeCGridDescriptor_M0_N0_M1_N1_M2_M3_M4_N2 : grid_desc -> CGridDesc_M0_N0_M1_N1_M2_M3_M4_N2;
  MakeBlock2CTileMap : grid_desc -> Z -> Z -> Block2CTileMap;
  CheckValidity_sound : forall a b c M01 N01, CheckValidity a b c M01 N01 = true ->
    GetLength a 1 = GetLength c 0 /\ GetLength b 1 = GetLength c 1 /\
    GetLength a 0 = GetLength b 0 /\ GetLength a 2 = K1 cfg /\ GetLength b 2 = K1 cfg /\
    GetLength c 0 mod MPerBlock cfg = 0 /\ GetLength c 1 mod NPerBlock cfg = 0 /\
    GetLength a 0 mod K0PerBlock cfg = 0;
  CalculateGridSize_spec : forall c,
    CalculateGridSize c = GetLength c 0 / MPerBlock cfg * (GetLength c 1 / NPerBlock cfg)
}.

Section DeviceGemm.
Variable cfg : xdl_config.
Variable assertions_enabled : bool.

(** [assert(cond)]: aborts in a debug build, does nothing in a release one. *)
Definition assert_ {A} (cond : bool) (x : A) : option A :=
  if assertions_enabled && negb cond then None else Some x.

(** [MakeAGridDescriptor_K0_M_K1(M, K, StrideA)] (lines 75-100). *)
Definition MakeAGridDescriptor_K0_M_K1 (M K StrideA : Z) : option grid_desc :=
  assert_ (Z.rem K (K1 cfg) =? 0) (
  let K0 := K ÷ K1 cfg in
  let a_grid_desc_m_k :=
    match ALayout cfg with
    | RowMajor => make_naive_tensor_descriptor [M; K] [StrideA; 1]
    | ColumnMajor => make_naive_tensor_descriptor [M; K] [1; StrideA]
    end in
  transform_tensor_descriptor a_grid_desc_m_k
    [Unmerge [K0; K1 cfg]; PassThrough M] [[1%nat]; [0%nat]] [[0%nat; 2%nat]; [1%nat]]).

(** [MakeBGridDescriptor_K0_N_K1(K, N, StrideB)] (lines 102-127). *)
Definition MakeBGridDescriptor_K0_N_K1 (K N StrideB : Z) : option grid_desc :=
  assert_ (Z.rem K (K1 cfg) =? 0) (
  let K0 := K ÷ K1 cfg in
  let b_grid_desc_k_n :=
    match BLayout cfg with
    | RowMajor => make_naive_tensor_descriptor [K; N] [StrideB; 1]
    | ColumnMajor => make_naive_tensor_descriptor [K; N] [1; StrideB]
    end in
  transform_tensor_descriptor b_grid_desc_k_n
    [Unmerge [K0; K1 cfg]; PassThrough N] [[0%nat]; [1%nat]] [[0%nat; 2%nat]; [1%nat]]).

(** [MakeCGridDescriptor_M_N(M, N, StrideC)] (lines 129-139). *)
Definition MakeCGridDescriptor_M_N (M N StrideC : Z) : grid_desc :=
  match CLayout cfg with
  | RowMajor => make_naive_tensor_descriptor [M; N] [StrideC; 1]
  | ColumnMajor => make_naive_tensor_descriptor [M; N] [1; StrideC]
  end.

Context `{GridwiseGemmXdlops cfg}.

(** [struct Argument] (lines 236-285): the C descriptor of the kernel and
    the block-to-tile map are default-constructed ([None]) unless
    [CheckValidity] held in the constructor. *)
Record Argument := mk_Argument {
  p_a_grid_ : Z;
  p_b_grid_ : Z;
  p_c_grid_ : Z;
  a_grid_desc_k0_m_k1_ : grid_desc;
  b_grid_desc_k0_n_k1_ : grid_desc;
  c_grid_desc_m_n_ : grid_desc;
  c_grid_desc_m0_n0_m1_n1_m2_m3_m4_n2_ : option CGridDesc_M0_N0_M1_N1_M2_M3_M4_N2;
  block_2_ctile_map_ : option Block2CTileMap;
  M01_ : Z;
  N01_ : Z
}.

(** The constructor [Argument(p_a, p_b, p_c, M, N, K, StrideA, StrideB,
    StrideC, M01, N01)] (lines 238-272). *)
Definition make_Argument (p_a p_b p_c M N K StrideA StrideB StrideC M01 N01 : Z) : option Argument :=
  match MakeAGridDescriptor_K0_M_K1 M K StrideA with
  | None => None
  | Some a =>
    match MakeBGridDescriptor_K0_N_K1 K N StrideB with
    | None => None
    | Some b =>
      let c := MakeCGridDescriptor_M_N M N StrideC in
      let valid := CheckValidity a b c M01 N01 in
      Some {| p_a_grid_ := p_a; p_b_grid_ := p_b; p_c_grid_ := p_c;
              a_grid_desc_k0_m_k1_ := a; b_grid_desc_k0_n_k1_ := b; c_grid_desc_m_n_ := c;
              c_grid_desc_m0_n0_m1_n1_m2_m3_m4_n2_ :=
                if valid then Some (MakeCGridDescriptor_M0_N0_M1_N1_M2_M3_M4_N2 c) else None;
              block_2_ctile_map_ := if valid then Some (MakeBlock2CTileMap c M01 N01) else None;
              M01_ := M01; N01_ := N01 |}
    end
  end.

(** What [launch_and_time_kernel] hands to [kernel_gemm_xdlops_v2r3]. *)
Record kernel_launch := mk_kernel_launch {
  kl_HasMainK0BlockLoop : bool;
  kl_nrepeat : Z;
  kl_grid_size : Z;
  kl_block_size : Z;
  kl_p_a_grid : Z;
  kl_p_b_grid : Z;
  kl_p_c_grid : Z;
  kl_a_grid_desc_k0_m_k1 : grid_desc;
  kl_b_grid_desc_k0_n_k1 : grid_desc;
  kl_c_grid_desc_m0_n0_m1_n1_m2_m3_m4_n2 : option CGridDesc_M0_N0_M1_N1_M2_M3_M4_N2;
  kl_block_2_ctile_map : option Block2CTileMap
}.

(** [Run] throws [std::runtime_error] or launches one kernel. *)
Inductive run_result :=
| RuntimeError
| Launched (k : kernel_launch).

Definition launch (has_main : bool) (arg : Argument) (nrepeat grid_size : Z) : kernel_launch :=
  mk_kernel_launch has_main nrepeat grid_size (BlockSize cfg)
    (p_a_grid_ arg) (p_b_grid_ arg) (p_c_grid_ arg)
    (a_grid_desc_k0_m_k1_ arg) (b_grid_desc_k0_n_k1_ arg)
    (c_grid_desc_m0_n0_m1_n1_m2_m3_m4_n2_ arg) (block_2_ctile_map_ arg).

(** [Invoker::Run(arg, nrepeat)] (lines 292-377). *)
Definition Invoker_Run (arg : Argument) (nrepeat : Z) : run_result :=
  if negb (CheckValidity (a_grid_desc_k0_m_k1_ arg) (b_grid_desc_k0_n_k1_ arg)
             (c_grid_desc_m_n_ arg) (M01_ arg) (N01_ arg))
  then RuntimeError
  else
    let grid_size := CalculateGridSize (c_grid_desc_m_n_ arg) in
    let K0 := GetLength (a_grid_desc_k0_m_k1_ arg) 0 in
    let has_main_k0_block_loop := CalculateHasMainK0BlockLoop K0 in
    if has_main_k0_block_loop
    then Launched (launch true arg nrepeat grid_size)
    else Launched (launch false arg nrepeat grid_size).

(** [IsValidCompilationParameter()] (lines 386-390). *)
Definition IsValidCompilationParameter : bool := true.

(** [IsSupportedArgument(arg)] (lines 392-399). *)
Definition IsSupportedArgument (arg : Argument) : bool :=
  CheckValidity (a_grid_desc_k0_m_k1_ arg) (b_grid_desc_k0_n_k1_ arg)
    (c_grid_desc_m_n_ arg) (M01_ arg) (N01_ arg).

(** [MakeArgument(p_a, p_b, p_c, M, N, K, StrideA, StrideB, StrideC)]
    (lines 407-418). *)
Definition MakeArgument (p_a p_b p_c M N K StrideA StrideB StrideC : Z) : option Argument :=
  make_Argument p_a p_b p_c M N K StrideA StrideB StrideC 1 1.

End DeviceGemm.

(** ** The check of [GridwiseGemm_k0mk1_k0nk1_mn_xdlops_v2r3] *)

Section GridwiseV2r3.
Variable cfg : xdl_config.
Context (CDesc Map : Type) (MakeCDesc : grid_desc -> CDesc) (MakeMap : grid_desc -> Z -> Z -> Map).

(** [CheckValidity]: the lengths of the three descriptors agree, the tiles
    divide [M], [N] and [K0], and [M01], [N01] divide the tile counts. *)
Definition v2r3_CheckValidity (a b c : grid_desc) (M01 N01 : Z) : bool :=
  let M := GetLength a 1 in
  let N := GetLength b 1 in
  let K0 := GetLength a 0 in
  (M =? GetLength c 0) && (N =? GetLength c 1) && (K0 =? GetLength b 0) &&
  (K1 cfg =? GetLength a 2) && (K1 cfg =? GetLength b 2) &&
  (M mod MPerBlock cfg =? 0) && (N mod NPerBlock cfg =? 0) && (K0 mod K0PerBlock cfg =? 0) &&
  ((M / MPerBlock cfg) mod M01 =? 0) && ((N / NPerBlock cfg) mod N01 =? 0).

Definition v2r3_CalculateGridSize (c : grid_desc) : Z :=
  GetLength c 0 / MPerBlock cfg * (GetLength c 1 / NPerBlock cfg).

Definition v2r3_CalculateHasMainK0BlockLoop (K0 : Z) : bool := 1 <? K0 / K0PerBlock cfg.

Lemma v2r3_CheckValidity_sound a b c M01 N01 :
  v2r3_CheckValidity a b c M01 N01 = true ->
  GetLength a 1 = GetLength c 0 /\ GetLength b 1 = GetLength c 1 /\
  GetLength a 0 = GetLength b 0 /\ GetLength a 2 = K1 cfg /\ GetLength b 2 = K1 cfg /\
  GetLength c 0 mod MPerBlock cfg = 0 /\ GetLength c 1 mod NPerBlock cfg = 0 /\
  GetLength a 0 mod K0PerBlock cfg = 0.
Proof.
  unfold v2r3_CheckValidity. intros Hv. repeat (apply andb_prop in Hv as [Hv ?]).
  rewrite !Z.eqb_eq in *. repeat split; congruence.
Qed.

#[export] Instance gridwise_v2r3 : GridwiseGemmXdlops cfg := {
  CGridDesc_M0_N0_M1_N1_M2_M3_M4_N2 := CDesc;
  Block2CTileMap := Map;
  CheckValidity := v2r3_CheckValidity;
  CalculateGridSize := v2r3_CalculateGridSize;
  CalculateHasMainK0BlockLoop := v2r3_CalculateHasMainK0BlockLoop;
  MakeCGridDescriptor_M0_N0_M1_N1_M2_M3_M4_N2 := MakeCDesc;
  MakeBlock2CTileMap := MakeMap;
  CheckValidity_sound := v2r3_CheckValidity_sound;
  CalculateGridSize_spec c := eq_refl
}.

End GridwiseV2r3.

(** ** Matrices and their offsets *)

(** The offset of element [(row, col)] of a matrix of layout [l] and
    leading stride [stride], as the naive descriptors of lines 84, 88, 111,
    115, 133 and 137 compute it. *)
Definition matrix_offset (l : tensor_layout) (stride row col : Z) : Z :=
  match l with RowMajor => row * stride + col | ColumnMajor => row + col * stride end.

(** The leading stride of a [rows x cols] matrix is at least its leading
    length, so that no two elements share an offset. *)
Definition stride_ok (l : tensor_layout) (rows cols stride : Z) : Prop :=
  match l with RowMajor => cols <= stride | ColumnMajor => rows <= stride end.

Lemma assert_some {A} ae c (x y : A) : assert_ ae c x = Some y -> y = x.
Proof. unfold assert_. destruct (ae && negb c); congruence. Qed.

Lemma matrix_offset_inj l R C s r1 c1 r2 c2 :
  stride_ok l R C s -> 0 <= r1 < R -> 0 <= c1 < C -> 0 <= r2 < R -> 0 <= c2 < C ->
  matrix_offset l s r1 c1 = matrix_offset l s r2 c2 -> r1 = r2 /\ c1 = c2.
Proof.
  destruct l; simpl; intros Hs ????.
  - intros E. assert (r1 = r2) by (destruct (Z.lt_total r1 r2) as [|[|]]; nia). nia.
  - intros E. assert (c1 = c2) by (destruct (Z.lt_total c1 c2) as [|[|]]; nia). nia.
Qed.

Lemma quot_exact K K1 : 0 < K1 -> Z.rem K K1 = 0 -> K = K ÷ K1 * K1.
Proof. intros HK Hr. pose proof (Z.quot_rem K K1 ltac:(lia)). lia. Qed.

(** Name [K / K1] as [K0] and replace [K] by [K0 * K1] everywhere, given
    [0 < K1] and [K rem K1 = 0] in the context. *)
Ltac split_quot K K1 :=
  let EK := fresh "EK" in
  let K0 := fresh "K0" in
  let HK0 := fresh "HK0" in
  match goal with
  | HK : 0 < K1, Hr : Z.rem K K1 = 0 |- _ =>
      pose proof (quot_exact K K1 HK Hr) as EK;
      remember (K ÷ K1) as K0 eqn:HK0; clear HK0 Hr; subst K
  end.

(** A [K0 x X x K1] view whose offset at [(k0, x, k1)] is [g x (k0 * K1 + k1)]
    for a [g] injective on [X x (K0 * K1)] reaches every element of that box
    from exactly one index. *)
Lemma k0_x_k1_view_bij (off : list Z -> Z) (g : Z -> Z -> Z) K0 X K1 :
  0 < K1 ->
  (forall k0 x k1, off [k0; x; k1] = g x (k0 * K1 + k1)) ->
  (forall x1 k1 x2 k2, 0 <= x1 < X -> 0 <= k1 < K0 * K1 -> 0 <= x2 < X -> 0 <= k2 < K0 * K1 ->
     g x1 k1 = g x2 k2 -> x1 = x2 /\ k1 = k2) ->
  (forall idx, in_box [K0; X; K1] idx ->
     exists x k, 0 <= x < X /\ 0 <= k < K0 * K1 /\ off idx = g x k) /\
  (forall x k, 0 <= x < X -> 0 <= k < K0 * K1 ->
     exists idx, in_box [K0; X; K1] idx /\ off idx = g x k) /\
  (forall i j, in_box [K0; X; K1] i -> in_box [K0; X; K1] j -> off i = off j -> i = j).
Proof.
  intros HK Hoff Hg. split; [|split].
  - intros idx Hb. destruct idx as [|k0 [|x [|k1 [|]]]]; try (apply in_box_length in Hb; done).
    rewrite !in_box_cons in Hb. exists x, (k0 * K1 + k1). rewrite Hoff. split; [lia|split; [nia|done]].
  - intros x k Hx Hk. exists [k / K1; x; k mod K1].
    assert (E : k / K1 * K1 + k mod K1 = k) by (pose proof (Z_div_mod_eq_full k K1); lia).
    rewrite Hoff, E.
    split; [|done]. rewrite !in_box_cons. pose proof (Z.mod_pos_bound k K1 HK).
    split_and!; try lia; try (apply Z.div_pos; lia). apply Z.div_lt_upper_bound; lia.
    apply Forall2_nil_2.
  - intros i j Hi Hj E.
    destruct i as [|a [|x [|b [|]]]]; try (apply in_box_length in Hi; done).
    destruct j as [|c [|y [|d [|]]]]; try (apply in_box_length in Hj; done).
    rewrite !in_box_cons in Hi, Hj. rewrite !Hoff in E.
    apply Hg in E as [-> E]; try nia.
    assert (a = c) by (destruct (Z.lt_total a c) as [|[|]]; nia). subst. assert (b = d) by lia. by subst.
Qed.

Lemma MakeAGridDescriptor_K0_M_K1_eq cfg ae M K StrideA a :
  MakeAGridDescriptor_K0_M_K1 cfg ae M K StrideA = Some a ->
  GetLengths a = [K ÷ K1 cfg; M; K1 cfg] /\
  forall k0 m k1, CalculateOffset a [k0; m; k1] = matrix_offset (ALayout cfg) StrideA m (k0 * K1 cfg + k1) /\
                  coordinate_has_valid_offset a [k0; m; k1] = true.
Proof.
  intros Ha. apply assert_some in Ha. subst a. split; [by destruct (ALayout cfg)|]. intros k0 m k1.
  rewrite CalculateOffset_transform, coordinate_has_valid_offset_transform.
  destruct (ALayout cfg); cbn; split; try done; lia.
Qed.

Lemma MakeBGridDescriptor_K0_N_K1_eq cfg ae K N StrideB b :
  MakeBGridDescriptor_K0_N_K1 cfg ae K N StrideB = Some b ->
  GetLengths b = [K ÷ K1 cfg; N; K1 cfg] /\
  forall k0 n k1, CalculateOffset b [k0; n; k1] = matrix_offset (BLayout cfg) StrideB (k0 * K1 cfg + k1) n /\
                  coordinate_has_valid_offset b [k0; n; k1] = true.
Proof.
  intros Hb. apply assert_some in Hb. subst b. split; [by destruct (BLayout cfg)|]. intros k0 n k1.
  rewrite CalculateOffset_transform, coordinate_has_valid_offset_transform.
  destruct (BLayout cfg); cbn; split; try done; lia.
Qed.

Lemma MakeCGridDescriptor_M_N_lengths cfg M N StrideC :
  GetLengths (MakeCGridDescriptor_M_N cfg M N StrideC) = [M; N].
Proof. unfold MakeCGridDescriptor_M_N. by destruct (CLayout cfg). Qed.

(** C25: the A view built by [MakeAGridDescriptor_K0_M_K1] has lengths
    [(K / K1, M, K1)] and reads, at [(k0, m, k1)], element
    [(m, k0 * K1 + k1)] of the [M x K] matrix A in its layout, with a valid
    offset; when [K1] divides [K] and the leading stride of A is at least
    its leading length, it reaches every element of A from exactly one
    index of its box. *)
Theorem MakeAGridDescriptor_K0_M_K1_bij cfg ae M K StrideA a :
  0 < K1 cfg -> Z.rem K (K1 cfg) = 0 -> stride_ok (ALayout cfg) M K StrideA ->
  MakeAGridDescriptor_K0_M_K1 cfg ae M K StrideA = Some a ->
  GetLengths a = [K ÷ K1 cfg; M; K1 cfg] /\
  (forall k0 m k1, CalculateOffset a [k0; m; k1] = matrix_offset (ALayout cfg) StrideA m (k0 * K1 cfg + k1) /\
                   coordinate_has_valid_offset a [k0; m; k1] = true) /\
  (forall m k, 0 <= m < M -> 0 <= k < K ->
     exists idx, in_box (GetLengths a) idx /\ CalculateOffset a idx = matrix_offset (ALayout cfg) StrideA m k) /\
  (forall i j, in_box (GetLengths a) i -> in_box (GetLengths a) j ->
     CalculateOffset a i = CalculateOffset a j -> i = j).
Proof.
  intros HK Hr Hs Ha. apply MakeAGridDescriptor_K0_M_K1_eq in Ha as [HL Hoff].
  split; [done|split; [done|]]. rewrite HL. split_quot K (K1 cfg).
  destruct (k0_x_k1_view_bij (CalculateOffset a) (matrix_offset (ALayout cfg) StrideA) K0 M (K1 cfg))
    as [_ [Hsurj Hinj]]; [done|intros; apply Hoff|intros; eapply matrix_offset_inj; eauto|].
  split; [|done]. intros m k ??. by apply Hsurj.
Qed.

(** C26: the B view built by [MakeBGridDescriptor_K0_N_K1] has lengths
    [(K / K1, N, K1)], reads at [(k0, n, k1)] element [(k0 * K1 + k1, n)] of
    the [K x N] matrix B, and, when [K1] divides [K] and the leading stride
    is at least the leading length, reaches every element of B from
    exactly one index of its box. *)
Theorem MakeBGridDescriptor_K0_N_K1_bij cfg ae K N StrideB b :
  0 < K1 cfg -> Z.rem K (K1 cfg) = 0 -> stride_ok (BLayout cfg) K N StrideB ->
  MakeBGridDescriptor_K0_N_K1 cfg ae K N StrideB = Some b ->
  GetLengths b = [K ÷ K1 cfg; N; K1 cfg] /\
  (forall k0 n k1, CalculateOffset b [k0; n; k1] = matrix_offset (BLayout cfg) StrideB (k0 * K1 cfg + k1) n) /\
  (forall n k, 0 <= n < N -> 0 <= k < K ->
     exists idx, in_box (GetLengths b) idx /\ CalculateOffset b idx = matrix_offset (BLayout cfg) StrideB k n) /\
  (forall i j, in_box (GetLengths b) i -> in_box (GetLengths b) j ->
     CalculateOffset b i = CalculateOffset b j -> i = j).
Proof.
  intros HK Hr Hs Hb. apply MakeBGridDescriptor_K0_N_K1_eq in Hb as [HL Hoff].
  split; [done|split; [intros; apply Hoff|]]. rewrite HL. split_quot K (K1 cfg).
  destruct (k0_x_k1_view_bij (CalculateOffset b) (fun n k => matrix_offset (BLayout cfg) StrideB k n)
              K0 N (K1 cfg)) as [_ [Hsurj Hinj]]; [done|intros; apply Hoff| |].
  - intros n1 k1 n2 k2 ???? E. by eapply matrix_offset_inj in E as [? ?]; eauto.
  - split; [|done]. intros n k ??. by apply Hsurj.
Qed.

(** ** The invoker, against the interface of the gridwise GEMM *)

Section InvokerTheorems.
Context (cfg : xdl_config) `{GridwiseGemmXdlops cfg}.

Lemma Invoker_Run_cases arg nrepeat :
  Invoker_Run cfg arg nrepeat =
  if IsSupportedArgument cfg arg
  then Launched cfg (launch cfg (CalculateHasMainK0BlockLoop (GetLength (a_grid_desc_k0_m_k1_ cfg arg) 0))
                       arg nrepeat (CalculateGridSize (c_grid_desc_m_n_ cfg arg)))
  else RuntimeError cfg.
Proof.
  unfold Invoker_Run, IsSupportedArgument.
  destruct (CheckValidity _ _ _ _ _); [|done]. simpl. by destruct (CalculateHasMainK0BlockLoop _).
Qed.

Lemma make_Argument_fields ae p_a p_b p_c M N K SA SB SC M01 N01 arg :
  make_Argument cfg ae p_a p_b p_c M N K SA SB SC M01 N01 = Some arg ->
  MakeAGridDescriptor_K0_M_K1 cfg ae M K SA = Some (a_grid_desc_k0_m_k1_ cfg arg) /\
  MakeBGridDescriptor_K0_N_K1 cfg ae K N SB = Some (b_grid_desc_k0_n_k1_ cfg arg) /\
  c_grid_desc_m_n_ cfg arg = MakeCGridDescriptor_M_N cfg M N SC /\
  M01_ cfg arg = M01 /\ N01_ cfg arg = N01 /\
  p_a_grid_ cfg arg = p_a /\ p_b_grid_ cfg arg = p_b /\ p_c_grid_ cfg arg = p_c /\
  (IsSupportedArgument cfg arg = true ->
   c_grid_desc_m0_n0_m1_n1_m2_m3_m4_n2_ cfg arg =
     Some (MakeCGridDescriptor_M0_N0_M1_N1_M2_M3_M4_N2 (MakeCGridDescriptor_M_N cfg M N SC)) /\
   block_2_ctile_map_ cfg arg = Some (MakeBlock2CTileMap (MakeCGridDescriptor_M_N cfg M N SC) M01 N01)).
Proof.
  unfold make_Argument, IsSupportedArgument.
  destruct (MakeAGridDescriptor_K0_M_K1 _ _ _ _ _) as [a|]; [|done].
  destruct (MakeBGridDescriptor_K0_N_K1 _ _ _ _ _) as [b|]; [|done].
  intros [= <-]. simpl. split_and!; try done. intros ->. done.
Qed.

(** C27: [Invoker::Run] throws exactly when [IsSupportedArgument] is false,
    so no kernel is launched on an argument the pre-flight check rejects;
    and for an argument the constructor built, a launch always receives
    the C descriptor and block-to-tile map the constructor computed, never
    the default-constructed ones. *)
Theorem Invoker_Run_checked ae p_a p_b p_c M N K SA SB SC M01 N01 arg nrepeat :
  make_Argument cfg ae p_a p_b p_c M N K SA SB SC M01 N01 = Some arg ->
  (Invoker_Run cfg arg nrepeat = RuntimeError cfg <-> IsSupportedArgument cfg arg = false) /\
  (forall L, Invoker_Run cfg arg nrepeat = Launched cfg L ->
     kl_c_grid_desc_m0_n0_m1_n1_m2_m3_m4_n2 cfg L =
       Some (MakeCGridDescriptor_M0_N0_M1_N1_M2_M3_M4_N2 (MakeCGridDescriptor_M_N cfg M N SC)) /\
     kl_block_2_ctile_map cfg L = Some (MakeBlock2CTileMap (MakeCGridDescriptor_M_N cfg M N SC) M01 N01)).
Proof.
  intros Harg. pose proof (make_Argument_fields _ _ _ _ _ _ _ _ _ _ _ _ _ Harg) as Hf.
  rewrite Invoker_Run_cases. destruct (IsSupportedArgument cfg arg) eqn:Hs.
  - split; [done|]. intros L [= <-]. simpl. by apply Hf.
  - split; [done|]. done.
Qed.

(** C28: whenever [Invoker::Run] launches the kernel for an argument made
    by [MakeArgument(M, N, K, ...)], the tiles divide the problem
    ([MPerBlock | M], [NPerBlock | N], [K0PerBlock | K / K1]), the grid has
    one block of [BlockSize] lanes per [MPerBlock x NPerBlock] tile of C,
    and the kernel's main-loop flag is the one computed for [K0 = K / K1]. *)
Theorem MakeArgument_launch ae p_a p_b p_c M N K SA SB SC arg nrepeat L :
  MakeArgument cfg ae p_a p_b p_c M N K SA SB SC = Some arg ->
  Invoker_Run cfg arg nrepeat = Launched cfg L ->
  M mod MPerBlock cfg = 0 /\ N mod NPerBlock cfg = 0 /\ (K ÷ K1 cfg) mod K0PerBlock cfg = 0 /\
  kl_grid_size cfg L = M / MPerBlock cfg * (N / NPerBlock cfg) /\
  kl_block_size cfg L = BlockSize cfg /\
  kl_HasMainK0BlockLoop cfg L = CalculateHasMainK0BlockLoop (K ÷ K1 cfg) /\
  kl_a_grid_desc_k0_m_k1 cfg L = a_grid_desc_k0_m_k1_ cfg arg /\
  kl_b_grid_desc_k0_n_k1 cfg L = b_grid_desc_k0_n_k1_ cfg arg.
Proof.
  intros Harg. destruct (make_Argument_fields _ _ _ _ _ _ _ _ _ _ _ _ _ Harg) as (Ha & Hb & Hc & _).
  destruct (MakeAGridDescriptor_K0_M_K1_eq _ _ _ _ _ _ Ha) as [HLa _].
  rewrite Invoker_Run_cases. destruct (IsSupportedArgument cfg arg) eqn:Hs; [|done].
  intros [= <-]. simpl.
  pose proof (CheckValidity_sound _ _ _ _ _ Hs) as Hv.
  unfold GetLength in *. rewrite Hc, MakeCGridDescriptor_M_N_lengths, HLa in *. simpl in *.
  rewrite CalculateGridSize_spec. unfold GetLength. rewrite MakeCGridDescriptor_M_N_lengths. simpl.
  destruct Hv as (_ & _ & _ & _ & _ & ? & ? & ?). by split_and!.
Qed.

End InvokerTheorems.

(** ** The polymorphic interface

    [DeviceGemmXdlBaseOperator] (lines 18-31) adds [MakeArgumentPointer]
    and [MakeInvokerPointer] to the [BaseOperator] of [device_base.hpp]
    (not under [src/]), whose [IsSupportedArgument] and whose invoker's
    [Run] take a [BaseArgument*].  A client that only holds the base
    pointers sees the operator through this class: an argument pointer of
    type [BaseArgument], the two virtual calls, which may be undefined
    ([None]), and which results are the thrown [std::runtime_error]. *)
Record gemm_args := mk_gemm_args {
  ga_p_a : Z; ga_p_b : Z; ga_p_c : Z;
  ga_M : Z; ga_N : Z; ga_K : Z;
  ga_StrideA : Z; ga_StrideB : Z; ga_StrideC : Z
}.

Class DeviceGemmOperator (BaseArgument R : Type) := {
  MakeArgumentPointer : gemm_args -> option BaseArgument;
  IsSupportedArgumentPointer : BaseArgument -> option bool;
  RunPointer : BaseArgument -> Z -> option R;
  IsRuntimeError : R -> bool;
  (** On a pointer the operator made, both virtual calls are defined, and
      [Run] throws exactly when [IsSupportedArgument] says no. *)
  made_pointer_defined : forall g p n, MakeArgumentPointer g = Some p ->
    IsSupportedArgumentPointer p <> None /\ RunPointer p n <> None;
  made_pointer_checked : forall g p n b r, MakeArgumentPointer g = Some p ->
    IsSupportedArgumentPointer p = Some b -> RunPointer p n = Some r -> IsRuntimeError r = negb b
}.

Section Polymorphic.
Variable cfg : xdl_config.
Variable assertions_enabled : bool.
Context `{GridwiseGemmXdlops cfg}.

(** The dynamic type of the object a [BaseArgument*] points to: this
    operator's [Argument], or an argument of another operator. *)
Inductive BaseArgument :=
| XdlArgument (arg : Argument cfg)
| ForeignArgument.

(** [dynamic_cast<const Argument*>(p_arg)]: a null pointer ([None]) for
    another dynamic type. *)
Definition dynamic_cast_Argument (p_arg : BaseArgument) : option (Argument cfg) :=
  match p_arg with
  | XdlArgument arg => Some arg
  | ForeignArgument => None
  end.

(** [Invoker::Run(const BaseArgument*, nrepeat)] (lines 379-383) and
    [IsSupportedArgument(const BaseArgument* p_arg)] (lines 401-405): both
    dereference the cast without a null check, so a foreign argument is
    undefined behaviour ([None]). *)
Definition Invoker_Run_ptr (p_arg : BaseArgument) (nrepeat : Z) : option (run_result cfg) :=
  option_map (fun arg => Invoker_Run cfg arg nrepeat) (dynamic_cast_Argument p_arg).

Definition IsSupportedArgument_ptr (p_arg : BaseArgument) : option bool :=
  option_map (IsSupportedArgument cfg) (dynamic_cast_Argument p_arg).

(** [MakeArgumentPointer(...)] (lines 423-446): [std::make_unique<Argument>]
    of the same constructor call as [MakeArgument], with [M01 = N01 = 1]. *)
Definition MakeArgumentPointer_xdl (g : gemm_args) : option BaseArgument :=
  option_map XdlArgument
    (make_Argument cfg assertions_enabled (ga_p_a g) (ga_p_b g) (ga_p_c g) (ga_M g) (ga_N g) (ga_K g)
       (ga_StrideA g) (ga_StrideB g) (ga_StrideC g) 1 1).

Definition is_runtime_error (r : run_result cfg) : bool :=
  match r with RuntimeError _ => true | Launched _ _ => false end.

Lemma MakeArgumentPointer_xdl_Some g p :
  MakeArgumentPointer_xdl g = Some p ->
  exists arg, p = XdlArgument arg /\
    MakeArgument cfg assertions_enabled (ga_p_a g) (ga_p_b g) (ga_p_c g) (ga_M g) (ga_N g) (ga_K g)
      (ga_StrideA g) (ga_StrideB g) (ga_StrideC g) = Some arg.
Proof. unfold MakeArgumentPointer_xdl, MakeArgument. destruct (make_Argument _ _ _ _ _ _ _ _ _ _ _ _ _); by intros [= <-]; eauto. Qed.

#[export] Program Instance device_gemm_xdl_operator : DeviceGemmOperator BaseArgument (run_result cfg) := {
  MakeArgumentPointer := MakeArgumentPointer_xdl;
  IsSupportedArgumentPointer := IsSupportedArgument_ptr;
  RunPointer := Invoker_Run_ptr;
  IsRuntimeError := is_runtime_error
}.
Next Obligation. intros g p n (arg & -> & _)%MakeArgumentPointer_xdl_Some. done. Qed.
Next Obligation.
  intros g p n b r (arg & -> & _)%MakeArgumentPointer_xdl_Some [= <-] [= <-].
  rewrite Invoker_Run_cases. by destruct (IsSupportedArgument cfg arg).
Qed.

End Polymorphic.

(** A client of the interface that checks [IsSupportedArgument] on a
    pointer it made before calling [Run] neither dereferences a null
    pointer nor catches a [std::runtime_error]. *)
Lemma checked_run_defined `{DeviceGemmOperator BA R} g p n :
  MakeArgumentPointer g = Some p -> IsSupportedArgumentPointer p = Some true ->
  exists r, RunPointer p n = Some r /\ IsRuntimeError r = false.
Proof.
  intros Hp Hs. destruct (made_pointer_defined g p n Hp) as [_ Hr].
  destruct (RunPointer p n) as [r|] eqn:E; [|done].
  exists r. split; [done|]. by rewrite (made_pointer_checked g p n true r Hp Hs E).
Qed.

(** ** A concrete configuration *)

(** A row-major A, column-major B, row-major C configuration with 256 x 128
    tiles, [K0PerBlock = 4] and [K1 = 8]. *)
Definition ex_xdl_cfg : xdl_config :=
  mk_xdl_config RowMajor ColumnMajor RowMajor 256 256 128 4 8 32 32 4 2.

Definition ex_gridwise : GridwiseGemmXdlops ex_xdl_cfg :=
  gridwise_v2r3 ex_xdl_cfg unit unit (fun _ => tt) (fun _ _ _ => tt).

(** C29: the pre-flight check does not catch [K] not divisible by [K1]: in
    a release build, [MakeArgument] for [M = 256], [N = 128], [K = 36] with
    [K1 = 8] gives an argument [IsSupportedArgument] accepts and [Run]
    launches, yet its A view has [K0 = 4] and never reads columns [32 .. 35]
    of any row of A; only a debug build rejects it, by aborting in the
    [assert]. *)
Theorem MakeArgument_K_not_multiple_of_K1 :
  (exists arg,
    @MakeArgument ex_xdl_cfg false ex_gridwise 0 0 0 256 128 36 36 36 128 = Some arg /\
    @IsSupportedArgument ex_xdl_cfg ex_gridwise arg = true /\
    (exists L, @Invoker_Run ex_xdl_cfg ex_gridwise arg 1 = Launched ex_xdl_cfg L) /\
    forall idx, in_box (GetLengths (a_grid_desc_k0_m_k1_ ex_xdl_cfg arg)) idx ->
      CalculateOffset (a_grid_desc_k0_m_k1_ ex_xdl_cfg arg) idx mod 36 < 32) /\
  @MakeArgument ex_xdl_cfg true ex_gridwise 0 0 0 256 128 36 36 36 128 = None.
Proof.
  split; [|reflexivity]. eexists. split; [reflexivity|]. split; [reflexivity|]. split; [eexists; reflexivity|].
  match goal with |- forall idx, in_box (GetLengths ?a) idx -> _ =>
    assert (HL : GetLengths a = [4; 256; 8]) by reflexivity;
    assert (Hoff : forall k0 m k1, CalculateOffset a [k0; m; k1] = m * 36 + (k0 * 8 + k1)) by (intros; cbn; lia)
  end.
  intros idx. rewrite HL. intros Hb.
  destruct idx as [|k0 [|m [|k1 [|]]]]; try (apply in_box_length in Hb; done).
  rewrite !in_box_cons in Hb. rewrite Hoff, Z.add_comm, Z.mul_comm, Z_mod_plus_full, Z.mod_small; lia.
Qed.

(** ** Witnesses *)

Lemma MakeAGridDescriptor_K0_M_K1_bij_witness :
  exists a, MakeAGridDescriptor_K0_M_K1 ex_xdl_cfg false 256 32 32 = Some a /\
  exists idx, in_box (GetLengths a) idx /\ CalculateOffset a idx = matrix_offset RowMajor 32 255 31.
Proof.
  eexists. split; [reflexivity|].
  destruct (MakeAGridDescriptor_K0_M_K1_bij ex_xdl_cfg false 256 32 32 _
              ltac:(simpl; lia) eq_refl ltac:(simpl; lia) eq_refl) as (_ & _ & Hsurj & _).
  apply Hsurj; lia.
Defined.

Lemma MakeBGridDescriptor_K0_N_K1_bij_witness :
  exists b, MakeBGridDescriptor_K0_N_K1 ex_xdl_cfg false 32 128 32 = Some b /\
  exists idx, in_box (GetLengths b) idx /\ CalculateOffset b idx = matrix_offset ColumnMajor 32 31 127.
Proof.
  eexists. split; [reflexivity|].
  destruct (MakeBGridDescriptor_K0_N_K1_bij ex_xdl_cfg false 32 128 32 _
              ltac:(simpl; lia) eq_refl ltac:(simpl; lia) eq_refl) as (_ & _ & Hsurj & _).
  apply Hsurj; lia.
Defined.

Lemma Invoker_Run_checked_witness :
  exists arg, @make_Argument ex_xdl_cfg false ex_gridwise 0 0 0 256 128 32 32 32 128 1 1 = Some arg /\
  (@Invoker_Run ex_xdl_cfg ex_gridwise arg 1 = RuntimeError ex_xdl_cfg <->
   @IsSupportedArgument ex_xdl_cfg ex_gridwise arg = false).
Proof.
  eexists. split; [reflexivity|].
  apply (@Invoker_Run_checked ex_xdl_cfg ex_gridwise false 0 0 0 256 128 32 32 32 128 1 1 _ 1 eq_refl).
Defined.

Lemma MakeArgument_launch_witness :
  exists arg L, @MakeArgument ex_xdl_cfg false ex_gridwise 0 0 0 256 128 32 32 32 128 = Some arg /\
  @Invoker_Run ex_xdl_cfg ex_gridwise arg 1 = Launched ex_xdl_cfg L /\
  kl_grid_size ex_xdl_cfg L = 1.
Proof.
  do 2 eexists. split; [reflexivity|]. split; [reflexivity|].
  destruct (@MakeArgument_launch ex_xdl_cfg ex_gridwise false 0 0 0 256 128 32 32 32 128 _ 1 _
              eq_refl eq_refl) as (_ & _ & _ & -> & _). reflexivity.
Defined.
