(* ===== verification/ConvDriver.v ===== *)
(** * The implicit-GEMM convolution driver v4r4r4 (NHWC, KYXC, NHWK)

    Models [device_convolution_forward_implicit_gemm_v4r4r4_xdlops_nhwc_kyxc_nhwk]
    of [src/host/driver_offline/include/device_convolution_forward_implicit_gemm_v4r4r4_xdlops_nhwc_kyxc_nhwk.hpp].
    The tuning comes from a chain of eight [#if 0 / #elif] branches (lines
    176-400), each a [conv_tuning] here, with [select_branch] for the
    preprocessor's choice; every branch passes the configuration checks of
    spec section 7 ([tuning_ok]).  The driver takes the three GEMM views
    that [transform_forward_convolution_into_gemm_v4r4r4_nhwc_kyxc_nhwk]
    (not under [src/]) builds from the convolution, pads the GEMM M
    dimension of the input view and of the output view up to a multiple of
    [GemmMPerBlock] with a right-pad transform, and calls
    [driver_gemm_xdlops_v2r3] five times with the compiled tuning.  The
    device buffers, the copies to and from the device and the performance
    printout are I/O and not modelled; a call is the record of what
    [driver_gemm_xdlops_v2r3] receives.  The block [#if 0 ...
    MakePaddedGridDescriptors] at the top of the file is compiled out and
    does not compile (each lambda transforms the variable it initialises,
    [reutnr] at line 126), so it has no meaning to model. *)

From S2P Require Import Prelude Transform TensorDescriptor.

Abbreviation grid_desc := (tensor_descriptor transform).

(** The tuning parameters of the driver (the [constexpr] values and
    [Sequence] types of each branch). *)
Record conv_tuning := mk_conv_tuning {
  BlockSize : Z;
  GemmMPerBlock : Z;
  GemmNPerBlock : Z;
  GemmKPerBlock : Z;
  GemmMPerXDL : Z;
  GemmNPerXDL : Z;
  GemmK1 : Z;
  MRepeat : Z;
  NRepeat : Z;
  GemmABlockTransferThreadSliceLengths_GemmK0_GemmM_GemmK1 : list Z;
  GemmABlockTransferThreadClusterLengths_GemmK0_GemmM_GemmK1 : list Z;
  GemmABlockTransferSrcScalarPerVector_GemmK1 : Z;
  GemmABlockTransferDstScalarPerVector_GemmK1 : Z;
  GemmBBlockTransferThreadSliceLengths_GemmK0_GemmN_GemmK1 : list Z;
  GemmBBlockTransferThreadClusterLengths_GemmK0_GemmN_GemmK1 : list Z;
  GemmBBlockTransferSrcScalarPerVector_GemmK1 : Z;
  GemmBBlockTransferDstScalarPerVector_GemmK1 : Z;
  GemmCThreadTransferDstScalarPerVector : Z
}.

(** The eight branches of the [#if 0 ... #endif] chain of lines 176-400,
    named by their first line. *)
(** Lines 176-203 ([#if 0]): [M, N, K0, K1] = [256, 128, 4, 4], C = 128, for fp32. *)
Definition tuning_branch_176 : conv_tuning :=
  {| BlockSize := 256; GemmMPerBlock := 256; GemmNPerBlock := 128;
     GemmKPerBlock := 4; GemmMPerXDL := 32; GemmNPerXDL := 32;
     GemmK1 := 4; MRepeat := 4; NRepeat := 2;
     GemmABlockTransferThreadSliceLengths_GemmK0_GemmM_GemmK1 := [1; 4; 4];
     GemmABlockTransferThreadClusterLengths_GemmK0_GemmM_GemmK1 := [4; 64; 1];
     GemmABlockTransferSrcScalarPerVector_GemmK1 := 4; GemmABlockTransferDstScalarPerVector_GemmK1 := 4;
     GemmBBlockTransferThreadSliceLengths_GemmK0_GemmN_GemmK1 := [1; 2; 4];
     GemmBBlockTransferThreadClusterLengths_GemmK0_GemmN_GemmK1 := [4; 64; 1];
     GemmBBlockTransferSrcScalarPerVector_GemmK1 := 4; GemmBBlockTransferDstScalarPerVector_GemmK1 := 4;
     GemmCThreadTransferDstScalarPerVector := 1 |}.

(** Lines 204-231 ([#elif 0]): [M, N, K0, K1] = [128, 128, 4, 4], C = 128, for fp32. *)
Definition tuning_branch_204 : conv_tuning :=
  {| BlockSize := 256; GemmMPerBlock := 128; GemmNPerBlock := 128;
     GemmKPerBlock := 4; GemmMPerXDL := 32; GemmNPerXDL := 32;
     GemmK1 := 4; MRepeat := 2; NRepeat := 2;
     GemmABlockTransferThreadSliceLengths_GemmK0_GemmM_GemmK1 := [1; 2; 4];
     GemmABlockTransferThreadClusterLengths_GemmK0_GemmM_GemmK1 := [4; 64; 1];
     GemmABlockTransferSrcScalarPerVector_GemmK1 := 4; GemmABlockTransferDstScalarPerVector_GemmK1 := 4;
     GemmBBlockTransferThreadSliceLengths_GemmK0_GemmN_GemmK1 := [1; 2; 4];
     GemmBBlockTransferThreadClusterLengths_GemmK0_GemmN_GemmK1 := [4; 64; 1];
     GemmBBlockTransferSrcScalarPerVector_GemmK1 := 4; GemmBBlockTransferDstScalarPerVector_GemmK1 := 4;
     GemmCThreadTransferDstScalarPerVector := 1 |}.

(** Lines 232-259 ([#elif 0]): [M, N, K0, K1] = [256, 256, 4, 8], C = 256, for fp16. *)
Definition tuning_branch_232 : conv_tuning :=
  {| BlockSize := 256; GemmMPerBlock := 256; GemmNPerBlock := 256;
     GemmKPerBlock := 4; GemmMPerXDL := 32; GemmNPerXDL := 32;
     GemmK1 := 8; MRepeat := 4; NRepeat := 4;
     GemmABlockTransferThreadSliceLengths_GemmK0_GemmM_GemmK1 := [1; 4; 8];
     GemmABlockTransferThreadClusterLengths_GemmK0_GemmM_GemmK1 := [4; 64; 1];
     GemmABlockTransferSrcScalarPerVector_GemmK1 := 8; GemmABlockTransferDstScalarPerVector_GemmK1 := 8;
     GemmBBlockTransferThreadSliceLengths_GemmK0_GemmN_GemmK1 := [1; 4; 8];
     GemmBBlockTransferThreadClusterLengths_GemmK0_GemmN_GemmK1 := [4; 64; 1];
     GemmBBlockTransferSrcScalarPerVector_GemmK1 := 8; GemmBBlockTransferDstScalarPerVector_GemmK1 := 8;
     GemmCThreadTransferDstScalarPerVector := 1 |}.

(** Lines 260-287 ([#elif 0]): [M, N, K0, K1] = [256, 128, 4, 8], C = 128, for fp16. *)
Definition tuning_branch_260 : conv_tuning :=
  {| BlockSize := 256; GemmMPerBlock := 256; GemmNPerBlock := 128;
     GemmKPerBlock := 4; GemmMPerXDL := 32; GemmNPerXDL := 32;
     GemmK1 := 8; MRepeat := 4; NRepeat := 2;
     GemmABlockTransferThreadSliceLengths_GemmK0_GemmM_GemmK1 := [1; 4; 8];
     GemmABlockTransferThreadClusterLengths_GemmK0_GemmM_GemmK1 := [4; 64; 1];
     GemmABlockTransferSrcScalarPerVector_GemmK1 := 8; GemmABlockTransferDstScalarPerVector_GemmK1 := 8;
     GemmBBlockTransferThreadSliceLengths_GemmK0_GemmN_GemmK1 := [1; 2; 8];
     GemmBBlockTransferThreadClusterLengths_GemmK0_GemmN_GemmK1 := [4; 64; 1];
     GemmBBlockTransferSrcScalarPerVector_GemmK1 := 8; GemmBBlockTransferDstScalarPerVector_GemmK1 := 8;
     GemmCThreadTransferDstScalarPerVector := 1 |}.

(** Lines 288-315 ([#elif 1]): [M, N, K0, K1] = [128, 256, 4, 8], C = 128, for fp16. *)
Definition tuning_branch_288 : conv_tuning :=
  {| BlockSize := 256; GemmMPerBlock := 128; GemmNPerBlock := 256;
     GemmKPerBlock := 4; GemmMPerXDL := 32; GemmNPerXDL := 32;
     GemmK1 := 8; MRepeat := 2; NRepeat := 4;
     GemmABlockTransferThreadSliceLengths_GemmK0_GemmM_GemmK1 := [1; 2; 8];
     GemmABlockTransferThreadClusterLengths_GemmK0_GemmM_GemmK1 := [4; 64; 1];
     GemmABlockTransferSrcScalarPerVector_GemmK1 := 8; GemmABlockTransferDstScalarPerVector_GemmK1 := 8;
     GemmBBlockTransferThreadSliceLengths_GemmK0_GemmN_GemmK1 := [1; 4; 8];
     GemmBBlockTransferThreadClusterLengths_GemmK0_GemmN_GemmK1 := [4; 64; 1];
     GemmBBlockTransferSrcScalarPerVector_GemmK1 := 8; GemmBBlockTransferDstScalarPerVector_GemmK1 := 8;
     GemmCThreadTransferDstScalarPerVector := 1 |}.

(** Lines 316-343 ([#elif 0]): [M, N, K0, K1] = [128, 128, 4, 8], C = 64, for fp16. *)
Definition tuning_branch_316 : conv_tuning :=
  {| BlockSize := 256; GemmMPerBlock := 128; GemmNPerBlock := 128;
     GemmKPerBlock := 4; GemmMPerXDL := 32; GemmNPerXDL := 32;
     GemmK1 := 8; MRepeat := 2; NRepeat := 2;
     GemmABlockTransferThreadSliceLengths_GemmK0_GemmM_GemmK1 := [1; 2; 8];
     GemmABlockTransferThreadClusterLengths_GemmK0_GemmM_GemmK1 := [4; 64; 1];
     GemmABlockTransferSrcScalarPerVector_GemmK1 := 8; GemmABlockTransferDstScalarPerVector_GemmK1 := 8;
     GemmBBlockTransferThreadSliceLengths_GemmK0_GemmN_GemmK1 := [1; 2; 8];
     GemmBBlockTransferThreadClusterLengths_GemmK0_GemmN_GemmK1 := [4; 64; 1];
     GemmBBlockTransferSrcScalarPerVector_GemmK1 := 8; GemmBBlockTransferDstScalarPerVector_GemmK1 := 8;
     GemmCThreadTransferDstScalarPerVector := 1 |}.

(** Lines 344-371 ([#elif 0]): [M, N, K0, K1] = [128, 64, 4, 8], C = 64, for fp16. *)
Definition tuning_branch_344 : conv_tuning :=
  {| BlockSize := 128; GemmMPerBlock := 128; GemmNPerBlock := 64;
     GemmKPerBlock := 4; GemmMPerXDL := 32; GemmNPerXDL := 32;
     GemmK1 := 8; MRepeat := 2; NRepeat := 2;
     GemmABlockTransferThreadSliceLengths_GemmK0_GemmM_GemmK1 := [1; 4; 8];
     GemmABlockTransferThreadClusterLengths_GemmK0_GemmM_GemmK1 := [4; 32; 1];
     GemmABlockTransferSrcScalarPerVector_GemmK1 := 8; GemmABlockTransferDstScalarPerVector_GemmK1 := 8;
     GemmBBlockTransferThreadSliceLengths_GemmK0_GemmN_GemmK1 := [1; 2; 8];
     GemmBBlockTransferThreadClusterLengths_GemmK0_GemmN_GemmK1 := [4; 32; 1];
     GemmBBlockTransferSrcScalarPerVector_GemmK1 := 8; GemmBBlockTransferDstScalarPerVector_GemmK1 := 8;
     GemmCThreadTransferDstScalarPerVector := 1 |}.

(** Lines 372-399 ([#elif 1]): [M, N, K0, K1] = [128, 64, 4, 8], C = 32, for fp16. *)
Definition tuning_branch_372 : conv_tuning :=
  {| BlockSize := 256; GemmMPerBlock := 128; GemmNPerBlock := 64;
     GemmKPerBlock := 4; GemmMPerXDL := 32; GemmNPerXDL := 32;
     GemmK1 := 8; MRepeat := 2; NRepeat := 1;
     GemmABlockTransferThreadSliceLengths_GemmK0_GemmM_GemmK1 := [1; 2; 8];
     GemmABlockTransferThreadClusterLengths_GemmK0_GemmM_GemmK1 := [4; 64; 1];
     GemmABlockTransferSrcScalarPerVector_GemmK1 := 8; GemmABlockTransferDstScalarPerVector_GemmK1 := 8;
     GemmBBlockTransferThreadSliceLengths_GemmK0_GemmN_GemmK1 := [1; 1; 8];
     GemmBBlockTransferThreadClusterLengths_GemmK0_GemmN_GemmK1 := [4; 64; 1];
     GemmBBlockTransferSrcScalarPerVector_GemmK1 := 8; GemmBBlockTransferDstScalarPerVector_GemmK1 := 8;
     GemmCThreadTransferDstScalarPerVector := 1 |}.

(** The chain itself: each branch with the truth of its [#if] or [#elif]
    condition.  The preprocessor keeps the first branch whose condition is
    true; none true would leave the constants undefined. *)
Definition tuning_branches : list (bool * conv_tuning) :=
  [(false, tuning_branch_176); (false, tuning_branch_204); (false, tuning_branch_232);
   (false, tuning_branch_260); (true, tuning_branch_288); (false, tuning_branch_316);
   (false, tuning_branch_344); (true, tuning_branch_372)].

Fixpoint select_branch {A} (bs : list (bool * A)) : option A :=
  match bs with
  | [] => None
  | (true, x) :: _ => Some x
  | (false, _) :: bs => select_branch bs
  end.

(** The branch compiled in: the first [#elif 1], at line 288
    ([[M, N, K0, K1] = [128, 256, 4, 8]]). *)
Definition v4r4r4_tuning : conv_tuning := tuning_branch_288.

(** The configuration checks of spec section 7 on a tuning: each block
    copy's thread cluster has [BlockSize] threads, thread slice times
    thread cluster is the block tile [K0PerBlock x MPerBlock x K1] (resp.
    [NPerBlock]) dimension by dimension, the vector widths divide the slice
    along [K1], and the xdlops repeats divide the block tile. *)
Definition block_transfer_ok (BlockSize : Z) (slice cluster tile : list Z) (src_vec dst_vec : Z) : bool :=
  bool_decide (prodZ cluster = BlockSize) && bool_decide (zip_with Z.mul slice cluster = tile) &&
  (0 <? src_vec) && (0 <? dst_vec) &&
  (nth 2 slice 0 mod src_vec =? 0) && (nth 2 slice 0 mod dst_vec =? 0).

Definition tuning_ok (t : conv_tuning) : bool :=
  (0 <? GemmKPerBlock t) && (0 <? GemmMPerBlock t) && (0 <? GemmNPerBlock t) && (0 <? GemmK1 t) &&
  block_transfer_ok (BlockSize t) (GemmABlockTransferThreadSliceLengths_GemmK0_GemmM_GemmK1 t)
    (GemmABlockTransferThreadClusterLengths_GemmK0_GemmM_GemmK1 t) [GemmKPerBlock t; GemmMPerBlock t; GemmK1 t]
    (GemmABlockTransferSrcScalarPerVector_GemmK1 t) (GemmABlockTransferDstScalarPerVector_GemmK1 t) &&
  block_transfer_ok (BlockSize t) (GemmBBlockTransferThreadSliceLengths_GemmK0_GemmN_GemmK1 t)
    (GemmBBlockTransferThreadClusterLengths_GemmK0_GemmN_GemmK1 t) [GemmKPerBlock t; GemmNPerBlock t; GemmK1 t]
    (GemmBBlockTransferSrcScalarPerVector_GemmK1 t) (GemmBBlockTransferDstScalarPerVector_GemmK1 t) &&
  (GemmMPerBlock t mod (GemmMPerXDL t * MRepeat t) =? 0) && (GemmNPerBlock t mod (GemmNPerXDL t * NRepeat t) =? 0).

(** ** The step hacks the driver passes to [driver_gemm_xdlops_v2r3]

    Compile-time [Sequence]s that select index-calculation shortcuts in the
    kernel, one per (direction, dimension): a tuple of [+] steps and a tuple
    of [-] steps. *)

(** Lines 442-448. *)
Definition in_gemmk0_gemmm_gemmk1_grid_step_hacks : list (list (list Z)) :=
  [[[0; 0; 0; 0; 0; 0; 0; 0; 0; 1; 0; 0; 0; 0; 0; 0];
     [0; 0; 0; 0; 0; 0; 0; 0; 0; 0; 1; 0; 0; 0; 0; 0];
     [0; 0; 0; 0; 0; 0; 0; 0; 0; 1; 0; 0; 0; 0; 0; 0]];
    [[0; 0; 0; 0; 0; 0; 0; 0; 0; 2; 0; 0; 0; 0; 0; 0];
     [0; 0; 0; 0; 0; 0; 0; 0; 0; 0; 2; 0; 0; 0; 0; 0];
     [0; 0; 0; 0; 0; 0; 0; 0; 0; 2; 0; 0; 0; 0; 0; 0]]].

(** Lines 450-451. *)
Definition in_gemmk0_gemmm_gemmk1_grid_move_slice_window_step_hacks : list Z :=
  [0; 0; 0; 0; 0; 0; 0; 0; 0; 1; 2; 0; 0; 0; 0; 0].

(** Lines 456-462. *)
Definition wei_gemmk0_gemmn_gemmk1_grid_step_hacks : list (list (list Z)) :=
  [[[0; 0; 0; 0; 0];
     [0; 0; 0; 0; 0];
     [0; 0; 0; 0; 0]];
    [[0; 0; 0; 0; 0];
     [0; 0; 0; 0; 0];
     [0; 0; 0; 0; 0]]].

(** Lines 464-465. *)
Definition wei_gemmk0_gemmn_gemmk1_grid_move_slice_window_step_hacks : list Z :=
  [0; 0; 0; 0; 0].

(** Lines 499-515. *)
Definition out_m0_n0_m1_n1_m2_m3_m4_n2_grid_step_hacks : list (list (list Z)) :=
  [[[0; 0; 0; 0; 0; 0; 0; 0; 0; 0; 0; 0; 0];
     [0; 0; 0; 0; 0; 0; 0; 0; 0; 0; 0; 0; 0];
     [0; 0; 0; 0; 0; 0; 0; 0; 0; 0; 0; 0; 0];
     [0; 0; 0; 0; 0; 0; 0; 0; 0; 0; 0; 0; 0];
     [0; 0; 0; 0; 0; 0; 0; 0; 0; 0; 0; 0; 0];
     [0; 0; 0; 0; 0; 0; 0; 0; 0; 0; 0; 0; 0];
     [0; 0; 0; 0; 0; 0; 0; 0; 0; 0; 0; 0; 0];
     [0; 0; 0; 0; 0; 0; 0; 0; 0; 0; 0; 0; 0]];
    [[0; 0; 0; 0; 0; 0; 0; 0; 0; 0; 0; 0; 0];
     [0; 0; 0; 0; 0; 0; 0; 0; 0; 0; 0; 0; 0];
     [0; 0; 0; 0; 0; 0; 0; 0; 0; 0; 0; 0; 0];
     [0; 0; 0; 0; 0; 0; 0; 0; 0; 0; 0; 0; 0];
     [0; 0; 0; 0; 0; 0; 0; 0; 0; 0; 0; 0; 0];
     [0; 0; 0; 0; 0; 0; 0; 0; 0; 0; 0; 0; 0];
     [0; 0; 0; 0; 0; 0; 0; 0; 0; 0; 0; 0; 0];
     [0; 0; 0; 0; 0; 0; 0; 0; 0; 0; 0; 0; 0]]].

Section Driver.
Variable t : conv_tuning.

(** Lines 427-441: pad [GemmMRaw] of the input view up to a multiple of
    [GemmMPerBlock]; also returns [GemmMRaw] and [GemmMPad]. *)
Definition pad_in_gemmm (in_gemmk0_gemmmraw_gemmk1_grid_desc : grid_desc) : Z * Z * grid_desc :=
  let GemmK0 := GetLength in_gemmk0_gemmmraw_gemmk1_grid_desc 0 in
  let GemmMRaw := GetLength in_gemmk0_gemmmraw_gemmk1_grid_desc 1 in
  let GemmMPad := integer_least_multiple GemmMRaw (GemmMPerBlock t) - GemmMRaw in
  (GemmMRaw, GemmMPad,
   transform_tensor_descriptor in_gemmk0_gemmmraw_gemmk1_grid_desc
     [PassThrough GemmK0; make_right_pad_transform GemmMRaw GemmMPad; PassThrough (GemmK1 t)]
     [[0%nat]; [1%nat]; [2%nat]] [[0%nat]; [1%nat]; [2%nat]]).

(** Lines 488-497: the same padding of M on the output view. *)
Definition pad_out_gemmm (GemmMRaw GemmMPad : Z) (out_gemmmraw_gemmn_grid_desc : grid_desc) : grid_desc :=
  let GemmN := GetLength out_gemmmraw_gemmn_grid_desc 1 in
  transform_tensor_descriptor out_gemmmraw_gemmn_grid_desc
    [make_right_pad_transform GemmMRaw GemmMPad; PassThrough GemmN]
    [[0%nat]; [1%nat]] [[0%nat]; [1%nat]].

(** What one call of [driver_gemm_xdlops_v2r3] receives. *)
Record gemm_call := mk_gemm_call {
  gc_a_grid_desc : grid_desc;
  gc_b_grid_desc : grid_desc;
  gc_c_grid_desc : grid_desc;
  gc_M01 : Z;
  gc_N01 : Z;
  gc_a_grid_step_hacks : list (list (list Z));
  gc_b_grid_step_hacks : list (list (list Z));
  gc_c_grid_step_hacks : list (list (list Z));
  gc_a_grid_move_slice_window_step_hacks : list Z;
  gc_b_grid_move_slice_window_step_hacks : list Z;
  gc_nrepeat : Z
}.

(** The driver from line 402 on: [descs] is the result of
    [transform_forward_convolution_into_gemm_v4r4r4_nhwc_kyxc_nhwk],
    [M01]/[N01] the debug settings it passes; the loop
    [for (i = 0; i < 5; ++i)] of line 518. *)
Definition device_convolution_forward_implicit_gemm_v4r4r4
    (descs : grid_desc * grid_desc * grid_desc) (M01 N01 nrepeat : Z) : list gemm_call :=
  let '(in_desc, wei_gemmk0_gemmn_gemmk1_grid_desc, out_gemmmraw_gemmn_grid_desc) := descs in
  let '(GemmMRaw, GemmMPad, in_gemmk0_gemmm_gemmk1_grid_desc) := pad_in_gemmm in_desc in
  let out_gemmm_gemmn_grid_desc := pad_out_gemmm GemmMRaw GemmMPad out_gemmmraw_gemmn_grid_desc in
  map (fun _ => mk_gemm_call in_gemmk0_gemmm_gemmk1_grid_desc wei_gemmk0_gemmn_gemmk1_grid_desc
                  out_gemmm_gemmn_grid_desc M01 N01
                  in_gemmk0_gemmm_gemmk1_grid_step_hacks wei_gemmk0_gemmn_gemmk1_grid_step_hacks
                  out_m0_n0_m1_n1_m2_m3_m4_n2_grid_step_hacks
                  in_gemmk0_gemmm_gemmk1_grid_move_slice_window_step_hacks
                  wei_gemmk0_gemmn_gemmk1_grid_move_slice_window_step_hacks nrepeat) (zseq 5).

End Driver.

(** ** The padded views *)

Lemma pad_in_gemmm_spec t d :
  let '(GemmMRaw, GemmMPad, p) := pad_in_gemmm t d in
  GemmMRaw = GetLength d 1 /\ GemmMPad = integer_least_multiple GemmMRaw (GemmMPerBlock t) - GemmMRaw /\
  GetLengths p = [GetLength d 0; integer_least_multiple GemmMRaw (GemmMPerBlock t); GemmK1 t] /\
  forall k0 m k1,
    CalculateOffset p [k0; m; k1] = CalculateOffset d [k0; m; k1] /\
    coordinate_has_valid_offset p [k0; m; k1] =
      (0 <=? m) && (m <? GemmMRaw) && coordinate_has_valid_offset d [k0; m; k1].
Proof.
  unfold pad_in_gemmm. split_and!; try done.
  - cbn. f_equal. f_equal. lia.
  - intros k0 m k1. rewrite CalculateOffset_transform, coordinate_has_valid_offset_transform.
    cbn -[CalculateOffset coordinate_has_valid_offset]. rewrite Z.sub_0_r. split; [done|].
    destruct (0 <=? m), (m <? _); done.
Qed.

Lemma pad_out_gemmm_spec MRaw MPad d :
  GetLengths (pad_out_gemmm MRaw MPad d) = [MRaw + MPad; GetLength d 1] /\
  forall m n,
    CalculateOffset (pad_out_gemmm MRaw MPad d) [m; n] = CalculateOffset d [m; n] /\
    coordinate_has_valid_offset (pad_out_gemmm MRaw MPad d) [m; n] =
      (0 <=? m) && (m <? MRaw) && coordinate_has_valid_offset d [m; n].
Proof.
  unfold pad_out_gemmm. split.
  - cbn. f_equal; lia.
  - intros m n. rewrite CalculateOffset_transform, coordinate_has_valid_offset_transform.
    cbn -[CalculateOffset coordinate_has_valid_offset]. rewrite Z.sub_0_r. split; [done|].
    destruct (0 <=? m), (m <? _); done.
Qed.

Lemma in_map_const {A B} (x : B) (l : list A) y : In y (map (fun _ => x) l) -> y = x.
Proof. rewrite in_map_iff. by intros (_ & <- & _). Qed.

(** ** The tuning chain *)

(** The preprocessor keeps the branch of line 288; the second [#elif 1],
    at line 372, can never be selected while it stays behind it. *)
Lemma v4r4r4_tuning_selected : select_branch tuning_branches = Some v4r4r4_tuning.
Proof. reflexivity. Qed.

(** Every branch of the chain, selected or not, passes the configuration
    checks. *)
Lemma tuning_branches_ok : Forall (fun b => tuning_ok b.2 = true) tuning_branches.
Proof. repeat constructor. Qed.

(** C30: the driver makes five [driver_gemm_xdlops_v2r3] calls, each with
    the weight view unchanged and the input and output views padded along
    GEMM M to the same length, the least multiple of [GemmMPerBlock] not
    below [GemmMRaw] (so by less than one tile); below [GemmMRaw] both padded views have the offsets
    and validity of the views they pad, and from [GemmMRaw] on every index
    is flagged invalid, so padded rows are read as zero and never
    written. *)
Theorem v4r4r4_driver_pads_gemmm t a_raw b c_raw M01 N01 nrepeat :
  0 < GemmMPerBlock t ->
  let calls := device_convolution_forward_implicit_gemm_v4r4r4 t (a_raw, b, c_raw) M01 N01 nrepeat in
  let MRaw := GetLength a_raw 1 in
  length calls = 5%nat /\
  forall call, In call calls ->
    gc_b_grid_desc call = b /\
    GetLength (gc_a_grid_desc call) 1 = integer_least_multiple MRaw (GemmMPerBlock t) /\
    GetLength (gc_c_grid_desc call) 0 = integer_least_multiple MRaw (GemmMPerBlock t) /\
    integer_least_multiple MRaw (GemmMPerBlock t) mod GemmMPerBlock t = 0 /\
    MRaw <= integer_least_multiple MRaw (GemmMPerBlock t) < MRaw + GemmMPerBlock t /\
    (forall k0 m k1 n, 0 <= m < MRaw ->
       CalculateOffset (gc_a_grid_desc call) [k0; m; k1] = CalculateOffset a_raw [k0; m; k1] /\
       coordinate_has_valid_offset (gc_a_grid_desc call) [k0; m; k1] =
         coordinate_has_valid_offset a_raw [k0; m; k1] /\
       CalculateOffset (gc_c_grid_desc call) [m; n] = CalculateOffset c_raw [m; n] /\
       coordinate_has_valid_offset (gc_c_grid_desc call) [m; n] = coordinate_has_valid_offset c_raw [m; n]) /\
    (forall k0 m k1 n, MRaw <= m ->
       coordinate_has_valid_offset (gc_a_grid_desc call) [k0; m; k1] = false /\
       coordinate_has_valid_offset (gc_c_grid_desc call) [m; n] = false).
Proof.
  intros HP calls MRaw. subst calls MRaw. unfold device_convolution_forward_implicit_gemm_v4r4r4.
  pose proof (pad_in_gemmm_spec t a_raw) as Hin.
  destruct (pad_in_gemmm t a_raw) as [[MR MP] a] eqn:Ea. destruct Hin as (-> & -> & HLa & Ha).
  remember (GetLength a_raw 1) as MRaw eqn:HM.
  split; [done|]. intros call Hcall. apply in_map_const in Hcall as ->. simpl.
  destruct (pad_out_gemmm_spec MRaw (integer_least_multiple MRaw (GemmMPerBlock t) - MRaw) c_raw)
    as [HLc Hc].
  unfold GetLength. rewrite HLa, HLc. simpl.
  pose proof (integer_least_multiple_ge MRaw (GemmMPerBlock t) HP).
  pose proof (integer_least_multiple_lt MRaw (GemmMPerBlock t) HP).
  split_and!; [done|done|lia|by apply integer_least_multiple_mod|lia|lia| |].
  - intros k0 m k1 n Hm. destruct (Ha k0 m k1) as [-> ->]. destruct (Hc m n) as [-> ->].
    destruct (Z.leb_spec 0 m), (Z.ltb_spec m MRaw); try lia. done.
  - intros k0 m k1 n Hm. destruct (Ha k0 m k1) as [_ ->]. destruct (Hc m n) as [_ ->].
    destruct (Z.ltb_spec m MRaw); [lia|]. by rewrite andb_false_r.
Qed.

(** ** Witness *)

Definition ex_in_view : grid_desc := make_naive_tensor_descriptor [2; 100; 8] [800; 8; 1].
Definition ex_wei_view : grid_desc := make_naive_tensor_descriptor [2; 256; 8] [2048; 8; 1].
Definition ex_out_view : grid_desc := make_naive_tensor_descriptor [100; 256] [256; 1].

Lemma v4r4r4_driver_pads_gemmm_witness :
  exists call,
    In call (device_convolution_forward_implicit_gemm_v4r4r4 v4r4r4_tuning
               (ex_in_view, ex_wei_view, ex_out_view) 1 1 10) /\
    GetLength (gc_c_grid_desc call) 0 = 128 /\
    coordinate_has_valid_offset (gc_c_grid_desc call) [100; 0] = false.
Proof.
  destruct (v4r4r4_driver_pads_gemmm v4r4r4_tuning ex_in_view ex_wei_view ex_out_view 1 1 10
              ltac:(simpl; lia)) as [_ Hcalls].
  eexists. split; [left; reflexivity|].
  destruct (Hcalls _ (or_introl eq_refl)) as (_ & _ & -> & _ & _ & _ & Hinv).
  split; [reflexivity|]. apply (proj2 (Hinv 0 100 0 0 ltac:(unfold GetLength; simpl; lia))).
Defined.
