(* ===== verification/ConvDriverMain.v ===== *)
(** * The convolution driver's [main]

    Models [main] in [src/driver/conv_driver_v2_olc.cpp]: the argument
    check and parsing (lines 34-65, with [argv] given as the [atoi] of each
    argument), the output sizes [Ho] and [Wo] (lines 67-71, with C++'s
    truncating division [÷]), the data-type branch (lines 73-88), the tensor
    lengths of each layout (lines 90-137, with the [static_cast<size_t>]
    written out as reduction modulo [2^64]), and the rest of [main] (lines
    22-32 and 139-246) as the trace of the calls it makes, in order: the
    stream and handle, the four tensors, their generators for
    [init_method], the device convolution, the host reference and
    [check_error], the logs, and the release of the handle and stream.
    What the callees compute (the online-compiled driver, the reference
    convolution, the generators) is outside [src/]; printing is left out. *)

From S2P Require Import Prelude.

Inductive ConvTensorLayout := NCHW | NHWC.

Record conv_args := mk_conv_args {
  layout : ConvTensorLayout;
  do_verification : bool;
  init_method : Z;
  do_log : bool;
  nrepeat : Z;
  N : Z; K : Z; C : Z; Y : Z; X : Z; Hi : Z; Wi : Z;
  conv_strides : Z * Z;
  conv_dilations : Z * Z;
  in_left_pads : Z * Z;
  in_right_pads : Z * Z
}.

(** Lines 34-65: [argc != 21] exits; otherwise the fields are read from
    [argv[1] .. argv[20]]; [bool b = atoi(...)] is [atoi(...) != 0]. *)
Definition parse_args (argv : list Z) : option conv_args :=
  if negb (length argv =? 21)%nat then None else
  let a i := nth i argv 0 in
  Some {| layout := if a 1%nat =? 0 then NCHW else NHWC;
          do_verification := negb (a 2%nat =? 0);
          init_method := a 3%nat;
          do_log := negb (a 4%nat =? 0);
          nrepeat := a 5%nat;
          N := a 6%nat; K := a 7%nat; C := a 8%nat; Y := a 9%nat; X := a 10%nat;
          Hi := a 11%nat; Wi := a 12%nat;
          conv_strides := (a 13%nat, a 14%nat);
          conv_dilations := (a 15%nat, a 16%nat);
          in_left_pads := (a 17%nat, a 18%nat);
          in_right_pads := (a 19%nat, a 20%nat) |}.

(** Lines 67-71, for one spatial dimension: [YEff = (Y - 1) * dilation + 1]
    and [Ho = (Hi + left_pad + right_pad - YEff) / stride + 1]. *)
Definition output_size (Hi left_pad right_pad Y dilation stride : Z) : Z :=
  let YEff := (Y - 1) * dilation + 1 in
  (Hi + left_pad + right_pad - YEff) ÷ stride + 1.

Definition Ho (a : conv_args) : Z :=
  output_size (Hi a) (fst (in_left_pads a)) (fst (in_right_pads a)) (Y a)
    (fst (conv_dilations a)) (fst (conv_strides a)).

Definition Wo (a : conv_args) : Z :=
  output_size (Wi a) (snd (in_left_pads a)) (snd (in_right_pads a)) (X a)
    (snd (conv_dilations a)) (snd (conv_strides a)).

(** [static_cast<size_t>(x)] for a 64-bit [size_t]. *)
Definition size_t_of (x : Z) : Z := x mod 2 ^ 64.

(** Lines 90-137: [in_lengths], [wei_lengths] and [out_lengths]. *)
Definition tensor_lengths (a : conv_args) : list Z * list Z * list Z :=
  match layout a with
  | NCHW =>
      (map size_t_of [N a; C a; Hi a; Wi a],
       map size_t_of [K a; C a; Y a; X a],
       map size_t_of [N a; K a; Ho a; Wo a])
  | NHWC =>
      (map size_t_of [N a; Hi a; Wi a; C a],
       map size_t_of [K a; Y a; X a; C a],
       map size_t_of [N a; Ho a; Wo a; K a])
  end.

(** Lines 72-89, the [#if 1] branch: the vector width and the data types
    of the input, the accumulator and the output. *)
Inductive data_type := float_t | int8_t | int32_t.

Record data_types := mk_data_types {
  in_vector_size : Z; in_data_t : data_type; acc_data_t : data_type; out_data_t : data_type
}.

Definition conv_data_types : data_types := mk_data_types 1 float_t float_t float_t.

(** The tensor value generators of [host_tensor_generator.hpp] that [main]
    uses, by their constructor arguments. *)
Inductive generator :=
| GeneratorTensor_1
| GeneratorTensor_2 (min max : Z)
(** [gen_wei]: [GeneratorTensor_2{min, max}(is...) * GeneratorTensor_Checkboard{}(is...)]. *)
| GeneratorTensor_2_Checkboard (min max : Z).

(** Lines 172-198: the generators of [in] and [wei] for [init_method]. *)
Definition init_generators (init_method : Z) : generator * generator :=
  match init_method with
  | 0 => (GeneratorTensor_1, GeneratorTensor_1)
  | 1 => (GeneratorTensor_1, GeneratorTensor_2 (-5) 5)
  | 2 => (GeneratorTensor_2 (-5) 5, GeneratorTensor_1)
  | 3 => (GeneratorTensor_2 (-5) 5, GeneratorTensor_2 (-5) 5)
  | _ => (GeneratorTensor_2 1 5, GeneratorTensor_2_Checkboard 1 5)
  end.

Inductive tensor_name := t_in | t_wei | t_out_host | t_out_device.

(** What [main] does, in program order; printing to [std::cout] is left out. *)
Inductive main_event :=
| EvHipStreamCreate                                   (** [hipStreamCreate(&stream)] *)
| EvHandleNew                                         (** [new olCompile::Handle(stream)] *)
| EvExit (code : Z)                                   (** [exit(code)] *)
| EvTensor (t : tensor_name) (lengths : list Z)       (** [Tensor<T> t(lengths)] *)
| EvGenerateTensorValue (t : tensor_name) (g : generator)
| EvDeviceConvolution (in_lengths wei_lengths out_lengths : list Z) (a : conv_args)
                                                      (** the [olc] v4r4 device convolution into [out_device] *)
| EvHostDirectConvolution (l : ConvTensorLayout)      (** the reference into [out_host] *)
| EvCheckError                                        (** [check_error(out_host, out_device)] *)
| EvLogRange (t : tensor_name)
| EvDeleteHandle
| EvHipStreamDestroy.

(** Lines 27-31: the stream and the handle are made before the arguments
    are checked. *)
Definition hip_setup : list main_event := [EvHipStreamCreate; EvHandleNew].

(** Lines 138-247, after the arguments and the lengths. *)
Definition main_after_args (a : conv_args) : list main_event :=
  let '(in_lengths, wei_lengths, out_lengths) := tensor_lengths a in
  [EvTensor t_in in_lengths; EvTensor t_wei wei_lengths;
   EvTensor t_out_host out_lengths; EvTensor t_out_device out_lengths] ++
  (if do_verification a then
     let '(gin, gwei) := init_generators (init_method a) in
     [EvGenerateTensorValue t_in gin; EvGenerateTensorValue t_wei gwei]
   else []) ++
  [EvDeviceConvolution in_lengths wei_lengths out_lengths a] ++
  (if do_verification a then
     [EvHostDirectConvolution (layout a); EvCheckError] ++
     (if do_log a then [EvLogRange t_in; EvLogRange t_wei; EvLogRange t_out_host; EvLogRange t_out_device]
      else [])
   else []) ++
  [EvDeleteHandle; EvHipStreamDestroy].

(** [main(argc, argv)]: [argv] as the [atoi] of each argument. *)
Definition main (argv : list Z) : list main_event :=
  hip_setup ++
  match parse_args argv with
  | None => [EvExit 1]
  | Some a => main_after_args a
  end.

(** ** Lemmas *)

Lemma quot_nonneg_div a b : 0 <= a -> 0 < b -> a ÷ b = a / b.
Proof. intros. apply Z.quot_div_nonneg; lia. Qed.

(** A window of effective size [E] starting at [o * S] fits in [P]
    positions exactly for [o < (P - E) / S + 1], when [E <= P]. *)
Lemma window_count P E S o :
  0 < S -> E <= P -> 0 <= o -> (o < (P - E) / S + 1 <-> o * S + E <= P).
Proof.
  intros HS HE Ho. pose proof (Z.mul_div_le (P - E) S HS). split; intros Hlt.
  - assert (o <= (P - E) / S) by lia. nia.
  - assert (o <= (P - E) / S); [|lia]. apply Z.div_le_lower_bound; lia.
Qed.

(** With the wrong number of arguments [main] exits with status 1 right
    after making the stream and the handle, which it never releases. *)
Lemma main_bad_argc argv :
  length argv <> 21%nat -> main argv = [EvHipStreamCreate; EvHandleNew; EvExit 1].
Proof. intros H. unfold main, parse_args. by destruct (Nat.eqb_spec (length argv) 21). Qed.

(** With [do_verification] set, the trace is: the setup, the four tensors,
    the generation of [in] and [wei] by [init_generators], the one device
    convolution, then the reference convolution and [check_error], and at
    the end the handle and the stream are released.  So the comparison
    always follows the device run, on inputs generated before it. *)
Lemma main_verification_order argv a :
  parse_args argv = Some a -> do_verification a = true ->
  exists tensors logs,
    main argv =
      hip_setup ++ tensors ++
      [EvGenerateTensorValue t_in (fst (init_generators (init_method a)));
       EvGenerateTensorValue t_wei (snd (init_generators (init_method a)));
       EvDeviceConvolution (tensor_lengths a).1.1 (tensor_lengths a).1.2 (tensor_lengths a).2 a;
       EvHostDirectConvolution (layout a); EvCheckError] ++ logs ++ [EvDeleteHandle; EvHipStreamDestroy] /\
    length tensors = 4%nat /\ Forall (fun e => exists t, e = EvLogRange t) logs.
Proof.
  intros Hp Hv. unfold main. rewrite Hp. unfold main_after_args.
  destruct (tensor_lengths a) as [[il wl] ol]. rewrite Hv.
  destruct (init_generators (init_method a)) as [gi gw]. simpl.
  eexists [_; _; _; _], (if do_log a then _ else []). split; [|split; [done|]].
  - destruct (do_log a); reflexivity.
  - destruct (do_log a); repeat constructor; eauto.
Qed.

(** Without [do_verification] the device convolution runs once, on the
    tensors as constructed: nothing is generated, compared or logged. *)
Lemma main_no_verification argv a :
  parse_args argv = Some a -> do_verification a = false ->
  main argv = hip_setup ++
    [EvTensor t_in (tensor_lengths a).1.1; EvTensor t_wei (tensor_lengths a).1.2;
     EvTensor t_out_host (tensor_lengths a).2; EvTensor t_out_device (tensor_lengths a).2;
     EvDeviceConvolution (tensor_lengths a).1.1 (tensor_lengths a).1.2 (tensor_lengths a).2 a;
     EvDeleteHandle; EvHipStreamDestroy].
Proof.
  intros Hp Hv. unfold main. rewrite Hp. unfold main_after_args.
  destruct (tensor_lengths a) as [[il wl] ol]. by rewrite Hv.
Qed.

(** C31: when the strides are positive and the dilated filter fits in the
    padded input, [Ho] and [Wo] are the numbers of filter positions: an
    output row [ho >= 0] exists exactly when its window
    [ho * Sy .. ho * Sy + YEff - 1] lies inside the padded input, and
    likewise for columns. *)
Theorem Ho_Wo_count_windows a :
  0 < fst (conv_strides a) -> 0 < snd (conv_strides a) ->
  (Y a - 1) * fst (conv_dilations a) + 1 <= Hi a + fst (in_left_pads a) + fst (in_right_pads a) ->
  (X a - 1) * snd (conv_dilations a) + 1 <= Wi a + snd (in_left_pads a) + snd (in_right_pads a) ->
  (forall ho, 0 <= ho ->
     (ho < Ho a <-> ho * fst (conv_strides a) + ((Y a - 1) * fst (conv_dilations a) + 1)
                    <= Hi a + fst (in_left_pads a) + fst (in_right_pads a))) /\
  (forall wo, 0 <= wo ->
     (wo < Wo a <-> wo * snd (conv_strides a) + ((X a - 1) * snd (conv_dilations a) + 1)
                    <= Wi a + snd (in_left_pads a) + snd (in_right_pads a))).
Proof.
  intros Hsy Hsx Hy Hx. unfold Ho, Wo, output_size.
  split; intros o Ho0; rewrite quot_nonneg_div by lia; apply window_count; lia.
Qed.

(** C32: [Ho] is computed with C++'s truncating division, so when the
    dilated filter [YEff] is larger than the padded input [P] it is not the
    number of filter positions (there is none): [Ho = 1 - (YEff - P) / S].
    When the filter overhangs by less than the stride the driver makes one
    output row; when it overhangs by two strides or more [Ho] is negative,
    and [static_cast<size_t>] turns it into the output length
    [2^64 + Ho]. *)
Theorem Ho_small_input a :
  0 < fst (conv_strides a) ->
  Hi a + fst (in_left_pads a) + fst (in_right_pads a) < (Y a - 1) * fst (conv_dilations a) + 1 ->
  (Y a - 1) * fst (conv_dilations a) + 1 - (Hi a + fst (in_left_pads a) + fst (in_right_pads a)) < 2 ^ 64 ->
  Ho a = 1 - ((Y a - 1) * fst (conv_dilations a) + 1 - (Hi a + fst (in_left_pads a) + fst (in_right_pads a)))
             / fst (conv_strides a) /\
  ((Y a - 1) * fst (conv_dilations a) + 1 - (Hi a + fst (in_left_pads a) + fst (in_right_pads a))
     < fst (conv_strides a) -> Ho a = 1) /\
  (2 * fst (conv_strides a) <=
     (Y a - 1) * fst (conv_dilations a) + 1 - (Hi a + fst (in_left_pads a) + fst (in_right_pads a)) ->
   Ho a < 0 /\ In (2 ^ 64 + Ho a) (snd (tensor_lengths a))).
Proof.
  intros HS Hlt Hbig. unfold Ho, output_size. cbv zeta.
  set (S := fst (conv_strides a)).
  set (d := (Y a - 1) * fst (conv_dilations a) + 1 - (Hi a + fst (in_left_pads a) + fst (in_right_pads a))) in *.
  replace (Hi a + fst (in_left_pads a) + fst (in_right_pads a) - ((Y a - 1) * fst (conv_dilations a) + 1))
    with (- d) by (subst d; lia).
  rewrite Z.quot_opp_l, quot_nonneg_div by lia.
  assert (Hq : d / S <= d) by (apply Z.div_le_upper_bound; nia).
  split_and!; [lia| |].
  - intros Hd. rewrite Z.div_small by lia. lia.
  - intros Hd. assert (2 <= d / S) by (apply Z.div_le_lower_bound; lia).
    split; [lia|]. unfold tensor_lengths, Ho, output_size. cbv zeta. fold S.
    replace (Hi a + fst (in_left_pads a) + fst (in_right_pads a) - ((Y a - 1) * fst (conv_dilations a) + 1))
      with (- d) by (subst d; lia).
    rewrite Z.quot_opp_l, quot_nonneg_div by lia.
    assert (Hsz : size_t_of (- (d / S) + 1) = 2 ^ 64 + (- (d / S) + 1)).
    { unfold size_t_of. rewrite <- (Z_mod_plus_full _ 1), Z.mod_small; lia. }
    destruct (layout a); cbn [snd map]; rewrite Hsz; [do 2 right; left | right; left]; reflexivity.
Qed.


(** Witness of C32: with [Hi = 1], [Y = 2] and stride 2 the driver makes
    one output row; with [Hi = 1], [Y = 3] and stride 1 the output length is
    [2^64 - 1]. *)
Lemma Ho_small_input_witness :
  (exists a, parse_args [0; 1; 0; 0; 0; 1; 1; 1; 1; 2; 1; 1; 1; 2; 1; 1; 1; 0; 0; 0; 0] = Some a /\ Ho a = 1) /\
  (exists a, parse_args [0; 1; 0; 0; 0; 1; 1; 1; 1; 3; 1; 1; 1; 1; 1; 1; 1; 0; 0; 0; 0] = Some a /\
     Ho a = -1 /\ In (2 ^ 64 + Ho a) (snd (tensor_lengths a))).
Proof.
  split; eexists; (split; [reflexivity|]).
  - refine (proj1 (proj2 (Ho_small_input _ _ _ _)) _); vm_compute; reflexivity.
  - split; [vm_compute; reflexivity|].
    refine (proj2 (proj2 (proj2 (Ho_small_input _ _ _ _)) _)); vm_compute; (reflexivity || discriminate).
Defined.

Lemma Ho_Wo_count_windows_witness :
  exists a, parse_args [0; 1; 0; 0; 0; 1; 1; 8; 4; 3; 3; 7; 7; 2; 2; 1; 1; 1; 1; 1; 1] = Some a /\
  (2 < Ho a <-> 2 * fst (conv_strides a) + ((Y a - 1) * fst (conv_dilations a) + 1)
                <= Hi a + fst (in_left_pads a) + fst (in_right_pads a)).
Proof.
  eexists. split; [reflexivity|].
  refine (proj1 (Ho_Wo_count_windows _ _ _ _ _) 2 _); simpl; lia.
Defined.
