(* ===== verification/StaticConvDriver.v ===== *)
(** * The static v5r1 convolution driver: the NCHW <-> NC0HWC1 re-layout

    Models [device_static_convolution_forward_implicit_gemm_v5r1_nchw_kcyx_nkhw]
    of [src/host/driver_offline/include/device_static_convolution_forward_implicit_gemm_v5r1_nchw_kcyx_nkhw.hpp].
    The driver splits the channel dimension [C] of the input and of the
    weights into [C0 x C1] with [C1 = InWeiVectorSize] (lambdas
    [f_nchw2nc0hwc1] and [f_kcyx2kc0yxc1]), runs the device convolution on
    the vectorised layout, and splits the output's [K] back
    ([f_nk0hwk1_to_nkhw]).

    The host tensors ([host_tensor.hpp], not under [src/]) are modelled
    from their use: a [Tensor] is its lengths and its data, a function from
    offsets to values, with the packed row-major strides of
    [HostTensorDescriptor]; a new tensor is zero-initialised.
    [make_ParallelTensorFunctor(f, L0, L1, L2, L3)()] calls [f] at every
    index of the box, each thread on a chunk of the flattened range; it is
    modelled as the sequential enumeration of that range, which is the same
    result whenever no two indices write the same element (the theorems
    show when that holds, and a concrete case where it does not).  The
    device convolution ([DriverStaticConvolutionForwardImplicitGemm_v5r1...],
    not under [src/]) is a [Section] variable from the vectorised weight and
    input data to the vectorised output data.  C++'s [/] and [%] are [Z.div]
    and [Z.modulo]: all indices are non-negative. *)

From S2P Require Import Prelude Transform.

(** ** Host tensors *)

(** The packed strides of [HostTensorDescriptor(lengths)]: the stride of
    dimension [i] is the product of the lengths after it. *)
Fixpoint packed_strides (ls : list Z) : list Z :=
  match ls with [] => [] | _ :: ls' => prodZ ls' :: packed_strides ls' end.

(** [HostTensorDescriptor::GetOffsetFromMultiIndex(is...)]. *)
Definition host_offset (ls idx : list Z) : Z := dotZ idx (packed_strides ls).

Record Tensor (T : Type) := mk_Tensor { mLengths : list Z; mData : Z -> T }.
Arguments mk_Tensor {T}.
Arguments mLengths {T}.
Arguments mData {T}.

(** [t(is...)] read and written. *)
Definition tensor_at {T} (t : Tensor T) (idx : list Z) : T := mData t (host_offset (mLengths t) idx).

Definition tensor_set {T} (t : Tensor T) (idx : list Z) (v : T) : Tensor T :=
  mk_Tensor (mLengths t) (upd (mData t) (host_offset (mLengths t) idx) v).

(** The indices [make_ParallelTensorFunctor] visits: the flattened range
    [0 .. Π ls - 1], each number decomposed into a multi-index. *)
Definition ParallelTensorFunctor_indices (ls : list Z) : list (list Z) :=
  map (decompose ls) (zseq (prodZ ls)).

(** [make_ParallelTensorFunctor(f, L0, L1, L2, L3)()] for a 4-ary [f]
    acting on the state [s] it captures by reference. *)
Definition make_ParallelTensorFunctor {S} (f : Z -> Z -> Z -> Z -> S -> S) (ls : list Z) (s : S) : S :=
  fold_left (fun s idx => f (nth 0 idx 0) (nth 1 idx 0) (nth 2 idx 0) (nth 3 idx 0) s)
    (ParallelTensorFunctor_indices ls) s.

(** ** The driver *)

(** The compile-time lengths the driver reads from [InLengths],
    [WeiLengths] and [OutLengths] (lines 45-56). *)
Record v5r1_lengths := mk_v5r1_lengths {
  N : Z; K : Z; C : Z; Hi : Z; Wi : Z; Ho : Z; Wo : Z; Y : Z; X : Z
}.

Section Driver.
Context {T : Type} (zero : T).
Variable InWeiVectorSize : Z.

(** [f_nchw2nc0hwc1] (lines 99-102):
    [in_n_c0_hi_wi_c1(n, c / C1, hi, wi, c % C1) = in_n_c_hi_wi(n, c, hi, wi)]. *)
Definition f_nchw2nc0hwc1 (in_n_c_hi_wi : Tensor T) (n hi wi c : Z) (in_n_c0_hi_wi_c1 : Tensor T) : Tensor T :=
  tensor_set in_n_c0_hi_wi_c1 [n; c / InWeiVectorSize; hi; wi; c mod InWeiVectorSize]
    (tensor_at in_n_c_hi_wi [n; c; hi; wi]).

(** [f_kcyx2kc0yxc1] (lines 104-107). *)
Definition f_kcyx2kc0yxc1 (wei_k_c_y_x : Tensor T) (k y x c : Z) (wei_k_c0_y_x_c1 : Tensor T) : Tensor T :=
  tensor_set wei_k_c0_y_x_c1 [k; c / InWeiVectorSize; y; x; c mod InWeiVectorSize]
    (tensor_at wei_k_c_y_x [k; c; y; x]).

(** [f_nk0hwk1_to_nkhw] (lines 185-188). *)
Definition f_nk0hwk1_to_nkhw (out_n_k0_ho_wo_k1 : Tensor T) (n k ho wo : Z) (out_n_k_ho_wo : Tensor T) : Tensor T :=
  tensor_set out_n_k_ho_wo [n; k; ho; wo]
    (tensor_at out_n_k0_ho_wo_k1 [n; k / InWeiVectorSize; ho; wo; k mod InWeiVectorSize]).

(** A zero-initialised host tensor of the given lengths. *)
Definition new_tensor (ls : list Z) : Tensor T := mk_Tensor ls (fun _ => zero).

(** The device convolution on the vectorised data: from the
    [K x C0 x Y x X x C1] weights and the [N x C0 x Hi x Wi x C1] input to the
    [N x K0 x Ho x Wo x K1] output. *)
Variable conv_driver_Run : (Z -> T) -> (Z -> T) -> (Z -> T).

(** [conv_driver.Run(wei_k_c0_y_x_desc, ..., wei_k_c_y_x_device_buf,
    in_n_c_hi_wi_device_buf, out_n_k_ho_wo_device_buf)] followed by
    [out_n_k_ho_wo_device_buf.FromDevice(out_n_k0_ho_wo_k1)] (lines
    168-182): the device buffers hold the vectorised weights and input the
    driver copied there, and the host tensor [out_n_k0_ho_wo_k1] receives
    what the kernel wrote. *)
Definition conv_driver_run_to_host (l : v5r1_lengths) (wei_k_c0_y_x_c1 in_n_c0_hi_wi_c1 : Tensor T) : Tensor T :=
  mk_Tensor [N l; K l / InWeiVectorSize; Ho l; Wo l; InWeiVectorSize]
            (conv_driver_Run (mData wei_k_c0_y_x_c1) (mData in_n_c0_hi_wi_c1)).

(** The driver (lines 18-192): re-layout of input and weights, the device
    convolution, and the re-layout of its output into [out_n_k_ho_wo]. *)
Definition device_static_convolution_forward_implicit_gemm_v5r1
    (l : v5r1_lengths) (in_n_c_hi_wi wei_k_c_y_x out_n_k_ho_wo : Tensor T) : Tensor T :=
  let C0 := C l / InWeiVectorSize in
  let C1 := InWeiVectorSize in
  let in_n_c0_hi_wi_c1 := new_tensor [N l; C0; Hi l; Wi l; C1] in
  let wei_k_c0_y_x_c1 := new_tensor [K l; C0; Y l; X l; C1] in
  let in_n_c0_hi_wi_c1 :=
    make_ParallelTensorFunctor (f_nchw2nc0hwc1 in_n_c_hi_wi) [N l; Hi l; Wi l; C l] in_n_c0_hi_wi_c1 in
  let wei_k_c0_y_x_c1 :=
    make_ParallelTensorFunctor (f_kcyx2kc0yxc1 wei_k_c_y_x) [K l; Y l; X l; C l] wei_k_c0_y_x_c1 in
  let out_n_k0_ho_wo_k1 := conv_driver_run_to_host l wei_k_c0_y_x_c1 in_n_c0_hi_wi_c1 in
  make_ParallelTensorFunctor (f_nk0hwk1_to_nkhw out_n_k0_ho_wo_k1) [N l; K l; Ho l; Wo l] out_n_k_ho_wo.

End Driver.

(** ** Host tensors and the functor *)

Lemma host_offset_compose ls idx : host_offset ls idx = compose ls idx.
Proof.
  unfold host_offset, dotZ. revert idx.
  induction ls as [|l ls IH]; intros [|i idx]; simpl; try done. rewrite <- IH. lia.
Qed.

Lemma in_ParallelTensorFunctor_indices ls idx :
  all_pos ls -> In idx (ParallelTensorFunctor_indices ls) <-> in_box ls idx.
Proof.
  intros Hpos. unfold ParallelTensorFunctor_indices. rewrite in_map_iff. split.
  - intros (x & <- & Hx%in_zseq). by apply decompose_in_box.
  - intros Hb. exists (compose ls idx). split; [by apply decompose_compose|].
    apply in_zseq. by apply compose_range.
Qed.

Lemma ParallelTensorFunctor_indices_NoDup ls : all_pos ls -> List.NoDup (ParallelTensorFunctor_indices ls).
Proof.
  intros Hpos. unfold ParallelTensorFunctor_indices. apply NoDup_map_on; [|apply zseq_NoDup].
  intros x y Hx%in_zseq Hy%in_zseq E.
  rewrite <- (compose_decompose_small ls x Hpos Hx), <- (compose_decompose_small ls y Hpos Hy). by rewrite E.
Qed.

Section Functor.
Context {T : Type} (g : Z -> Z -> Z -> Z -> list Z) (v : Z -> Z -> Z -> Z -> T).

Let g4 (e : list Z) := g (nth 0 e 0) (nth 1 e 0) (nth 2 e 0) (nth 3 e 0).
Let v4 (e : list Z) := v (nth 0 e 0) (nth 1 e 0) (nth 2 e 0) (nth 3 e 0).

Lemma functor_set_eq ls t :
  make_ParallelTensorFunctor (fun a b c d t => tensor_set t (g a b c d) (v a b c d)) ls t =
  mk_Tensor (mLengths t)
    (fold_left (fun m e => upd m (host_offset (mLengths t) (g4 e)) (v4 e))
       (ParallelTensorFunctor_indices ls) (mData t)).
Proof.
  unfold make_ParallelTensorFunctor. generalize (ParallelTensorFunctor_indices ls) as l. intros l.
  revert t. induction l as [|e l IH]; intros t; simpl; [by destruct t|]. by rewrite IH.
Qed.

(** The element at offset [x] after the functor: the value written by the
    one index whose destination is [x], or the old value if none is. *)
Lemma functor_set_at ls t x e0 :
  all_pos ls -> in_box ls e0 -> host_offset (mLengths t) (g4 e0) = x ->
  (forall e, in_box ls e -> host_offset (mLengths t) (g4 e) = x -> e = e0) ->
  mData (make_ParallelTensorFunctor (fun a b c d t => tensor_set t (g a b c d) (v a b c d)) ls t) x = v4 e0.
Proof.
  intros Hpos He0 Hx Huniq. rewrite functor_set_eq. simpl. rewrite fold_upd_const_point.
  rewrite (filter_single _ _ e0); [done|by apply ParallelTensorFunctor_indices_NoDup| | |].
  - by apply in_ParallelTensorFunctor_indices.
  - by apply Z.eqb_eq.
  - intros e He%in_ParallelTensorFunctor_indices Hex; [|done]. apply Huniq; [done|]. by apply Z.eqb_eq.
Qed.

(** The functor visits [decompose ls (Π ls - 1)] last, so what it writes
    there stays. *)
Lemma functor_set_last ls t :
  0 < prodZ ls ->
  mData (make_ParallelTensorFunctor (fun a b c d t => tensor_set t (g a b c d) (v a b c d)) ls t)
        (host_offset (mLengths t) (g4 (decompose ls (prodZ ls - 1)))) = v4 (decompose ls (prodZ ls - 1)).
Proof.
  intros HP. rewrite functor_set_eq. cbn [mData]. unfold ParallelTensorFunctor_indices.
  assert (Hz : zseq (prodZ ls) = zseq (prodZ ls - 1) ++ [prodZ ls - 1])
    by (rewrite <- zseq_S by lia; f_equal; lia).
  rewrite Hz, map_app, fold_left_app. cbn [map fold_left]. unfold upd. by rewrite Z.eqb_refl.
Qed.

Lemma functor_set_lengths ls t :
  mLengths (make_ParallelTensorFunctor (fun a b c d t => tensor_set t (g a b c d) (v a b c d)) ls t) = mLengths t.
Proof. by rewrite functor_set_eq. Qed.

End Functor.

(** ** The re-layouts *)

(** Membership in a box of known rank, as arithmetic. *)
Ltac in_box_solve := rewrite !in_box_cons; repeat split; first [lia | nia | apply Forall2_nil].
Ltac in_box_hyp H := rewrite !in_box_cons in H; repeat match type of H with _ /\ _ => destruct H as [? H] end.

Lemma split_last_dim_digits V c0 c1 : 0 < V -> 0 <= c1 < V -> (c0 * V + c1) / V = c0 /\ (c0 * V + c1) mod V = c1.
Proof. intros. by apply Z_div_mod_unique_pos. Qed.

(** Splitting the last functor dimension [c] into [(c / V, c mod V)] at
    position 1 and 4 of a five-dimensional tensor: the shape of
    [f_nchw2nc0hwc1] and [f_kcyx2kc0yxc1].  Every element of the
    [A x C0 x B x D x V] destination is written once, from
    [src(a, c0 * V + c1, b, d)]. *)
Lemma split_relayout_at V {T} (read : Z -> Z -> Z -> Z -> T) (t : Tensor T)
    A B D C0 a c0 b d c1 :
  0 < V -> all_pos [A; B; D; C0] -> mLengths t = [A; C0; B; D; V] ->
  in_box [A; C0; B; D; V] [a; c0; b; d; c1] ->
  tensor_at (make_ParallelTensorFunctor
               (fun a b d c t => tensor_set t [a; c / V; b; d; c mod V] (read a c b d))
               [A; B; D; C0 * V] t) [a; c0; b; d; c1] = read a (c0 * V + c1) b d.
Proof.
  intros HV Hpos Hlen Hbox. unfold tensor_at. rewrite functor_set_lengths, Hlen.
  rewrite !all_pos_cons in Hpos. destruct Hpos as (HA & HB & HD & HC & _). in_box_hyp Hbox.
  destruct (split_last_dim_digits V c0 c1) as [Hq Hr]; [lia|lia|].
  apply (functor_set_at (fun a b d c => [a; c / V; b; d; c mod V]) (fun a b d c => read a c b d)
           _ _ _ [a; b; d; c0 * V + c1]); simpl.
  - repeat constructor; nia.
  - in_box_solve.
  - by rewrite Hlen, Hq, Hr.
  - intros e He Ee. destruct e as [|a' [|b' [|d' [|c' [|]]]]]; try (apply in_box_length in He; done).
    in_box_hyp He. rewrite Hlen, !host_offset_compose in Ee. cbn [nth] in Ee.
    pose proof (Z.mod_pos_bound c' V HV). pose proof (Z_div_mod_eq_full c' V).
    assert (0 <= c' / V < C0) by (split; [apply Z.div_pos|apply Z.div_lt_upper_bound]; lia).
    apply compose_inj in Ee; [|in_box_solve|in_box_solve]. simplify_eq. f_equal; f_equal; f_equal. f_equal. lia.
Qed.

(** The shape of [f_nk0hwk1_to_nkhw]: each element of the destination is
    written once, at its own index. *)
Lemma same_layout_at {T} (read : Z -> Z -> Z -> Z -> T) (t : Tensor T) A B D E a b d e :
  all_pos [A; B; D; E] -> mLengths t = [A; B; D; E] -> in_box [A; B; D; E] [a; b; d; e] ->
  tensor_at (make_ParallelTensorFunctor (fun a b d e t => tensor_set t [a; b; d; e] (read a b d e))
               [A; B; D; E] t) [a; b; d; e] = read a b d e.
Proof.
  intros Hpos Hlen Hbox. unfold tensor_at. rewrite functor_set_lengths, Hlen.
  apply (functor_set_at (fun a b d e => [a; b; d; e]) read _ _ _ [a; b; d; e]); try done.
  - by rewrite Hlen.
  - intros e' He Ee. destruct e' as [|a' [|b' [|d' [|e'' [|]]]]]; try (apply in_box_length in He; done).
    rewrite Hlen, !host_offset_compose in Ee. cbn [nth] in Ee. by apply compose_inj in Ee.
Qed.

Lemma div_exact_pos C V : 0 < V -> 0 < C -> C mod V = 0 -> 0 < C / V /\ C = C / V * V.
Proof. intros HV HC Hm. pose proof (Z_div_mod_eq_full C V). split; [|lia]. nia. Qed.

(** C33: the static v5r1 driver wraps the device convolution in the
    layout the kernel expects: when [InWeiVectorSize] divides [C] and [K],
    the kernel receives input data holding [in(n, c0 * V + c1, hi, wi)] at
    [(n, c0, hi, wi, c1)] of the [N x C0 x Hi x Wi x C1] layout and weight
    data holding [wei(k, c0 * V + c1, y, x)] at [(k, c0, y, x, c1)], and every
    element [(n, k, ho, wo)] of the output tensor is the kernel's output at
    [(n, k / V, ho, wo, k % V)]. *)
Theorem v5r1_driver_layout {T} (zero : T) V Run l (inp wei out : Tensor T) :
  0 < V -> all_pos [N l; K l; C l; Hi l; Wi l; Ho l; Wo l; Y l; X l] ->
  C l mod V = 0 -> K l mod V = 0 -> mLengths out = [N l; K l; Ho l; Wo l] ->
  exists I5 W5 : Z -> T,
    (forall n c0 hi wi c1, in_box [N l; C l / V; Hi l; Wi l; V] [n; c0; hi; wi; c1] ->
       I5 (host_offset [N l; C l / V; Hi l; Wi l; V] [n; c0; hi; wi; c1]) = tensor_at inp [n; c0 * V + c1; hi; wi]) /\
    (forall k c0 y x c1, in_box [K l; C l / V; Y l; X l; V] [k; c0; y; x; c1] ->
       W5 (host_offset [K l; C l / V; Y l; X l; V] [k; c0; y; x; c1]) = tensor_at wei [k; c0 * V + c1; y; x]) /\
    (forall n k ho wo, in_box [N l; K l; Ho l; Wo l] [n; k; ho; wo] ->
       tensor_at (device_static_convolution_forward_implicit_gemm_v5r1 zero V Run l inp wei out) [n; k; ho; wo] =
       Run W5 I5 (host_offset [N l; K l / V; Ho l; Wo l; V] [n; k / V; ho; wo; k mod V])).
Proof.
  intros HV Hpos HC HK Hout. rewrite !all_pos_cons in Hpos.
  destruct Hpos as (HN & HKp & HCp & HHi & HWi & HHo & HWo & HY & HX & _).
  destruct (div_exact_pos (C l) V HV HCp HC) as [HC0 EC].
  unfold device_static_convolution_forward_implicit_gemm_v5r1, conv_driver_run_to_host. cbv zeta.
  set (in5 := make_ParallelTensorFunctor (f_nchw2nc0hwc1 V inp) _ _).
  set (wei5 := make_ParallelTensorFunctor (f_kcyx2kc0yxc1 V wei) _ _).
  exists (mData in5), (mData wei5). split_and!.
  - intros n c0 hi wi c1 Hb.
    transitivity (tensor_at in5 [n; c0; hi; wi; c1]); [unfold tensor_at, in5, f_nchw2nc0hwc1; by rewrite functor_set_lengths|].
    unfold in5, f_nchw2nc0hwc1. rewrite EC at 1.
    apply (split_relayout_at V (fun a c b d => tensor_at inp [a; c; b; d])); try done. repeat constructor; lia.
  - intros k c0 y x c1 Hb.
    transitivity (tensor_at wei5 [k; c0; y; x; c1]); [unfold tensor_at, wei5, f_kcyx2kc0yxc1; by rewrite functor_set_lengths|].
    unfold wei5, f_kcyx2kc0yxc1. rewrite EC at 1.
    apply (split_relayout_at V (fun a c b d => tensor_at wei [a; c; b; d])); try done. repeat constructor; lia.
  - intros n k ho wo Hb. unfold f_nk0hwk1_to_nkhw.
    rewrite (same_layout_at (fun a b d e => tensor_at (mk_Tensor [N l; K l / V; Ho l; Wo l; V] _)
                                             [a; b / V; d; e; b mod V])); try done.
    repeat constructor; lia.
Qed.

(** C34: the output re-layout [f_nk0hwk1_to_nkhw] inverts the input
    re-layout [f_nchw2nc0hwc1]: when [V] divides [C], splitting the channels
    of an [N x C x H x W] tensor into [C / V x V] and merging them back gives
    every element of the tensor back. *)
Theorem v5r1_relayout_roundtrip {T} (zero : T) V (inp out : Tensor T) Nn Cc H W :
  0 < V -> all_pos [Nn; Cc; H; W] -> Cc mod V = 0 -> mLengths out = [Nn; Cc; H; W] ->
  forall n c h w, in_box [Nn; Cc; H; W] [n; c; h; w] ->
    tensor_at (make_ParallelTensorFunctor
                 (f_nk0hwk1_to_nkhw V
                    (make_ParallelTensorFunctor (f_nchw2nc0hwc1 V inp) [Nn; H; W; Cc]
                       (new_tensor zero [Nn; Cc / V; H; W; V])))
                 [Nn; Cc; H; W] out) [n; c; h; w] =
    tensor_at inp [n; c; h; w].
Proof.
  intros HV Hpos HC Hout n c h w Hb. rewrite !all_pos_cons in Hpos.
  destruct Hpos as (HN & HCp & HH & HW & _). destruct (div_exact_pos Cc V HV HCp HC) as [HC0 EC].
  unfold f_nk0hwk1_to_nkhw. rewrite same_layout_at; [|repeat constructor; lia|done|done].
  unfold f_nchw2nc0hwc1. rewrite EC at 1. in_box_hyp Hb.
  pose proof (Z.mod_pos_bound c V HV). pose proof (Z_div_mod_eq_full c V).
  rewrite (split_relayout_at V (fun a c b d => tensor_at inp [a; c; b; d])); try done.
  - do 3 f_equal. lia.
  - repeat constructor; lia.
  - in_box_solve.
Qed.

(** C35: nothing checks that [InWeiVectorSize] divides [C].  When it
    does not, for every tensor size the driver's [C0 = C / V] truncates and
    the input re-layout writes the last input element
    [(N - 1, C - 1, Hi - 1, Wi - 1)] at channel block [C0], at an offset at
    or past the end of the [N x C0 x Hi x Wi x V] tensor
    [in_n_c0_hi_wi_c1]: the last channels never reach the kernel, and the
    host writes outside the tensor. *)
Theorem v5r1_C_not_multiple_of_vector {T} (zero : T) V (inp : Tensor T) Nn Cc H W :
  0 < V -> all_pos [Nn; H; W; Cc] -> Cc mod V <> 0 ->
  let in5 := make_ParallelTensorFunctor (f_nchw2nc0hwc1 V inp) [Nn; H; W; Cc]
                                        (new_tensor zero [Nn; Cc / V; H; W; V]) in
  let o := host_offset [Nn; Cc / V; H; W; V] [Nn - 1; Cc / V; H - 1; W - 1; Cc mod V - 1] in
  prodZ (mLengths in5) <= o /\ mData in5 o = tensor_at inp [Nn - 1; Cc - 1; H - 1; W - 1].
Proof.
  intros HV Hpos HC in5 o. rewrite !all_pos_cons in Hpos. destruct Hpos as (HN & HH & HW & HCp & _).
  pose proof (Z.mod_pos_bound Cc V HV). pose proof (Z_div_mod_eq_full Cc V).
  assert (0 <= Cc / V) by (apply Z.div_pos; lia).
  destruct (Z_div_mod_unique_pos V (Cc / V) (Cc mod V - 1) (Cc - 1)) as [Hq Hr]; [lia|lia|lia|].
  split.
  - unfold in5, f_nchw2nc0hwc1. rewrite functor_set_lengths. cbn [mLengths new_tensor].
    unfold o. rewrite host_offset_compose. simpl.
    assert (0 <= (H - 1) * (W * (V * 1))) by (apply Z.mul_nonneg_nonneg; lia).
    assert (0 <= (W - 1) * (V * 1)) by (apply Z.mul_nonneg_nonneg; lia).
    lia.
  - pose proof (functor_set_last (fun a b d c => [a; c / V; b; d; c mod V])
                  (fun a b d c => tensor_at inp [a; c; b; d]) [Nn; H; W; Cc]
                  (new_tensor zero [Nn; Cc / V; H; W; V]) ltac:(simpl; nia)) as HL.
    assert (Hlast : decompose [Nn; H; W; Cc] (prodZ [Nn; H; W; Cc] - 1) = [Nn - 1; H - 1; W - 1; Cc - 1]).
    { replace (prodZ [Nn; H; W; Cc] - 1) with (compose [Nn; H; W; Cc] [Nn - 1; H - 1; W - 1; Cc - 1])
        by (simpl; ring).
      apply decompose_compose. in_box_solve. }
    rewrite Hlast in HL. cbn [nth] in HL. rewrite Hq, Hr in HL. exact HL.
Qed.


(** ** Witnesses *)

Definition ex_v5r1_lengths : v5r1_lengths := mk_v5r1_lengths 1 4 4 2 2 2 2 1 1.

Lemma v5r1_driver_layout_witness :
  exists I5 W5 : Z -> Z,
    I5 (host_offset [1; 2; 2; 2; 2] [0; 1; 1; 0; 1]) = tensor_at (mk_Tensor [1; 4; 2; 2] (fun x => x)) [0; 3; 1; 0].
Proof.
  destruct (v5r1_driver_layout 0 2 (fun _ _ x => x) ex_v5r1_lengths (mk_Tensor [1; 4; 2; 2] (fun x => x))
              (mk_Tensor [4; 4; 1; 1] (fun x => x)) (mk_Tensor [1; 4; 2; 2] (fun _ => 0)))
    as (I5 & W5 & HI & _ & _); try (simpl; lia); try reflexivity.
  - repeat constructor; simpl; lia.
  - exists I5, W5. apply (HI 0 1 1 0 1). in_box_solve.
Defined.

Lemma v5r1_relayout_roundtrip_witness :
  tensor_at (make_ParallelTensorFunctor
               (f_nk0hwk1_to_nkhw 2
                  (make_ParallelTensorFunctor (f_nchw2nc0hwc1 2 (mk_Tensor [1; 4; 1; 1] (fun x => x)))
                     [1; 1; 1; 4] (new_tensor 0 [1; 4 / 2; 1; 1; 2])))
               [1; 4; 1; 1] (mk_Tensor [1; 4; 1; 1] (fun _ => 0))) [0; 3; 0; 0] =
  tensor_at (mk_Tensor [1; 4; 1; 1] (fun x => x)) [0; 3; 0; 0].
Proof.
  apply (v5r1_relayout_roundtrip 0 2 _ _ 1 4 1 1); try reflexivity; try lia.
  - repeat constructor; lia.
  - in_box_solve.
Defined.

(** Witness of C35: with [C = 3] and [InWeiVectorSize = 2] the input
    re-layout of a [2 x 3 x 1 x 1] tensor writes element [(1, 2, 0, 0)] at
    offset 4, past the 4 elements of [in_n_c0_hi_wi_c1]. *)
Lemma v5r1_C_not_multiple_of_vector_witness :
  prodZ [2; 3 / 2; 1; 1; 2] <= 4 /\
  mData (make_ParallelTensorFunctor (f_nchw2nc0hwc1 2 (mk_Tensor [2; 3; 1; 1] (fun x => x))) [2; 1; 1; 3]
                                    (new_tensor 0 [2; 3 / 2; 1; 1; 2])) 4 =
  tensor_at (mk_Tensor [2; 3; 1; 1] (fun x => x)) [1; 2; 0; 0].
Proof.
  exact (v5r1_C_not_multiple_of_vector 0 2 (mk_Tensor [2; 3; 1; 1] (fun x => x)) 2 3 1 1
           ltac:(lia) ltac:(repeat constructor; lia) ltac:(vm_compute; discriminate)).
Defined.
