(* ===== verification/SliceTransfer.v ===== *)
(** * ThreadwiseTensorSliceTransfer_v6r2: the serpentine slice copy

    Models [src/composable_kernel/include/tensor_operation/
    threadwise_tensor_slice_transfer_v6r2.hpp].  A transfer object holds
    three tensor coordinates (two sources, one destination).  [Run] visits
    the slice in the access order [DimAccessOrder], one vector of
    [ScalarPerVector] scalars along [VectorDim] per access, sweeping each
    dimension forward or backward (boustrophedon) so that consecutive
    accesses differ by one step; it then optionally moves each coordinate
    back to the slice origin with [GetCoordinateResetStep].

    A coordinate is modelled by its visible (top) index: by step-equivalence
    of the descriptor ([Transform]), the offset a coordinate caches is a
    function of that index, so moving a coordinate by a step is adding the
    step to its index.  The access order is the code's [static_ford]
    enumeration, the forward/backward choice and the dimension moved are
    computed by the code's own formulas ([forward_sweep], [move_on_dim]);
    the proofs relate them to recursive characterisations.  The buffers are
    functions from offsets to values and a tensor is seen through the
    offset and validity of a coordinate ([tensor_view]); [Run]'s data
    effect is then the fold of its accesses, and the last section shows
    what each destination offset holds after it. *)

From S2P Require Import Prelude Transform.

(** ** Configuration (the template parameters) *)

Inductive InMemoryDataOperationEnum := Set_ | AtomicAdd.

Record transfer_config := {
  SliceLengths : list Z;
  DimAccessOrder : list nat;
  VectorDim : nat;
  ScalarPerVector : Z;
  DstInMemOp : InMemoryDataOperationEnum;
  Src0ResetCoordinateAfterRun : bool;
  Src1ResetCoordinateAfterRun : bool;
  DstResetCoordinateAfterRun : bool
}.

Definition nDim (c : transfer_config) : nat := length (SliceLengths c).

(** [generate_sequence(lambda_scalar_per_access<VectorDim, ScalarPerVector>)]. *)
Definition scalar_per_access (c : transfer_config) : list Z :=
  map (fun i => if (i =? VectorDim c)%nat then ScalarPerVector c else 1) (seq 0 (nDim c)).

(** [SliceLengths{} / scalar_per_access]. *)
Definition access_lengths (c : transfer_config) : list Z :=
  zip_with Z.div (SliceLengths c) (scalar_per_access c).

(** [container_reorder_given_new2old(xs, order)]: [r[i] = xs[order[i]]]. *)
Definition reorder_new2old (xs : list Z) (order : list nat) : list Z :=
  map (fun i => nth i xs 0) order.

(** [container_reorder_given_old2new(xs, order)]: [r[order[i]] = xs[i]]. *)
Definition reorder_old2new (xs : list Z) (order : list nat) : list Z :=
  fold_left (fun r i => <[nth i order O := nth i xs 0]> r)
            (seq 0 (length order)) (repeat 0 (length order)).

Definition ordered_access_lengths (c : transfer_config) : list Z :=
  reorder_new2old (access_lengths c) (DimAccessOrder c).

(** The constructor's [static_assert(SliceLengths[VectorDim] % ScalarPerVector
    == 0)], with the well-formedness the template instantiation needs: the
    access order is a permutation of the dimensions and every length is
    positive. *)
Definition transfer_config_ok (c : transfer_config) : bool :=
  (0 <? ScalarPerVector c) &&
  (VectorDim c <? nDim c)%nat &&
  (nth (VectorDim c) (SliceLengths c) 0 mod ScalarPerVector c =? 0) &&
  forallb (fun l => 0 <? l) (SliceLengths c) &&
  bool_decide (Permutation (DimAccessOrder c) (seq 0 (nDim c))).

(** ** The code's loop formulas *)

(** [static_ford<ordered_access_lengths>]: the lexicographic enumeration of
    the box, the first dimension slowest; the [n]-th index is the mixed-radix
    decomposition of [n]. *)
Definition static_ford (ls : list Z) : list (list Z) :=
  map (fun n => decompose ls (Z.of_nat n)) (seq 0 (Z.to_nat (prodZ ls))).

(** The [forward_sweep] lambda of [Run] (lines 147-163): dimension 0 always
    sweeps forward; dimension [i] sweeps forward when the mixed-radix number
    formed by the indices of the dimensions before it is even. *)
Definition forward_sweep (ls idx : list Z) : list bool :=
  map (fun i =>
         match i with
         | O => true
         | S _ =>
             Z.even (fold_left (fun tmp j => tmp * nth j ls 0 + nth j idx 0)
                               (seq 1 (i - 1)) (nth 0 idx 0))
         end) (seq 0 (length ls)).

(** The [move_on_dim] lambda (lines 215-229): dimension [i] moves when it is
    not at its last index and every later dimension is. *)
Definition move_on_dim (ls idx : list Z) : list bool :=
  map (fun i =>
         (nth i idx 0 <? nth i ls 0 - 1) &&
         forallb (fun j => nth j idx 0 =? nth j ls 0 - 1) (seq (S i) (length ls - S i)))
      (seq 0 (length ls)).

(** ** Recursive characterisation of the serpentine order *)

(** [serp p ls idx]: the position, in the ordered access space, that the
    serpentine sweep reaches at lexicographic index [idx], when the digits
    before [ls] form the number [p]: a dimension is reversed when that
    number is odd. *)
Fixpoint serp (p : Z) (ls idx : list Z) : list Z :=
  match ls, idx with
  | l :: ls', x :: idx' => (if Z.even p then x else l - 1 - x) :: serp (p * l + x) ls' idx'
  | _, _ => []
  end.

Fixpoint fs_rec (p : Z) (ls idx : list Z) : list bool :=
  match ls, idx with
  | l :: ls', x :: idx' => Z.even p :: fs_rec (p * l + x) ls' idx'
  | _, _ => []
  end.

Fixpoint all_last (ls idx : list Z) : bool :=
  match ls, idx with
  | l :: ls', x :: idx' => (x =? l - 1) && all_last ls' idx'
  | _, _ => true
  end.

Fixpoint md_rec (ls idx : list Z) : list bool :=
  match ls, idx with
  | l :: ls', x :: idx' => ((x <? l - 1) && all_last ls' idx') :: md_rec ls' idx'
  | _, _ => []
  end.

(** The move the code makes after the access at [idx], in ordered space. *)
Fixpoint serp_delta (p : Z) (ls idx : list Z) : list Z :=
  match ls, idx with
  | l :: ls', x :: idx' =>
      (if (x <? l - 1) && all_last ls' idx' then (if Z.even p then 1 else -1) else 0)
        :: serp_delta (p * l + x) ls' idx'
  | _, _ => []
  end.

Definition last_idx (ls : list Z) : list Z := map (fun l => l - 1) ls.
Definition zero_idx (ls : list Z) : list Z := map (fun _ => 0) ls.

Section Serpentine.

Lemma decompose_zero ls : decompose ls 0 = zero_idx ls.
Proof. induction ls as [|l ls IH]; simpl; [done|]. rewrite Zdiv_0_l, Zmod_0_l, IH. done. Qed.

Lemma decompose_last ls : all_pos ls -> decompose ls (prodZ ls - 1) = last_idx ls.
Proof.
  intros Hpos. rewrite <- (decompose_compose ls (last_idx ls)); [f_equal|].
  - induction Hpos as [|l ls Hl Hpos IH]; simpl; [done|]. rewrite <- IH. lia.
  - induction Hpos; constructor; auto; lia.
Qed.

Lemma all_last_iff ls idx :
  length idx = length ls -> all_last ls idx = true <-> idx = last_idx ls.
Proof.
  revert idx. induction ls as [|l ls IH]; intros [|x idx] Hl; simpl in *; try done.
  rewrite andb_true_iff, Z.eqb_eq, IH by lia. split; [intros [-> ->]; done|].
  intros [=]; auto.
Qed.

Lemma serp_last_zero q ls :
  serp q ls (last_idx ls) = serp (q + 1) ls (zero_idx ls).
Proof.
  revert q. induction ls as [|l ls IH]; intros q; simpl; [done|].
  rewrite Z_even_add_1. f_equal.
  - destruct (Z.even q); simpl; lia.
  - rewrite IH. f_equal. lia.
Qed.

Lemma serp_delta_last q ls : serp_delta q ls (last_idx ls) = zero_idx ls.
Proof.
  revert q. induction ls as [|l ls IH]; intros q; simpl; [done|].
  rewrite IH. replace (l - 1 <? l - 1) with false by lia. done.
Qed.

Lemma add_idx_zero x ls : length x = length ls -> add_idx x (zero_idx ls) = x.
Proof.
  revert ls. induction x as [|a x IH]; intros [|l ls] Hl; simpl in *; try done.
  unfold add_idx in *. simpl. rewrite IH by lia. f_equal. lia.
Qed.

Lemma length_serp p ls idx : length idx = length ls -> length (serp p ls idx) = length ls.
Proof.
  revert p idx. induction ls; intros p [|x idx] Hl; simpl in *; auto; lia.
Qed.

(** The code's move between two consecutive accesses is exactly the
    difference of their serpentine positions. *)
Lemma serp_succ ls p n :
  all_pos ls -> 0 <= n -> n + 1 < prodZ ls ->
  serp p ls (decompose ls (n + 1)) =
  add_idx (serp p ls (decompose ls n)) (serp_delta p ls (decompose ls n)).
Proof.
  intros Hpos. revert p n. induction Hpos as [|l ls Hl Hpos IH]; intros p n Hn Hlt; simpl.
  { done. }
  pose proof (prodZ_pos ls Hpos) as HP. simpl in Hlt.
  pose proof (Z_div_mod_range n _ HP). pose proof (Z.div_mod n (prodZ ls)).
  assert (Hq : 0 <= n / prodZ ls) by (apply Z.div_pos; lia).
  destruct (Z.eq_dec (n mod prodZ ls + 1) (prodZ ls)) as [Hc|Hc].
  - (* the trailing digits are all last: carry into this dimension *)
    destruct (Z_div_mod_unique_pos (prodZ ls) (n / prodZ ls + 1) 0 (n + 1)) as [-> ->]; [lia..|].
    replace (n mod prodZ ls) with (prodZ ls - 1) by lia.
    rewrite decompose_zero, decompose_last, serp_delta_last by done.
    assert (Hlast : all_last ls (last_idx ls) = true)
      by (apply all_last_iff; [unfold last_idx; rewrite length_map|]; done).
    assert (n / prodZ ls < l - 1) by nia.
    rewrite Hlast. replace (n / prodZ ls <? l - 1) with true by lia. simpl.
    unfold add_idx. simpl. f_equal.
    + destruct (Z.even p); lia.
    + rewrite add_idx_zero by (rewrite length_serp; unfold last_idx; rewrite ?length_map; done).
      rewrite serp_last_zero. f_equal. lia.
  - (* no carry: only trailing digits move *)
    destruct (Z_div_mod_unique_pos (prodZ ls) (n / prodZ ls) (n mod prodZ ls + 1) (n + 1))
      as [-> ->]; [lia..|].
    assert (Hnl : all_last ls (decompose ls (n mod prodZ ls)) = false).
    { destruct (all_last _ _) eqn:E; [|done]. exfalso.
      apply all_last_iff in E; [|apply length_decompose].
      rewrite <- decompose_last in E by done.
      apply (f_equal (compose ls)) in E.
      rewrite !compose_decompose_small in E by (auto; lia). lia. }
    rewrite Hnl, andb_false_r. unfold add_idx. simpl. f_equal; [lia|].
    apply IH; lia.
Qed.

End Serpentine.

(** ** The code's formulas are the recursive ones *)

Section CodeFormulas.

Lemma horner_shift l ls x idx a k q :
  fold_left (fun t j => t * nth j (l :: ls) 0 + nth j (x :: idx) 0) (seq (S a) k) q =
  fold_left (fun t j => t * nth j ls 0 + nth j idx 0) (seq a k) q.
Proof. by rewrite <- seq_shift, fold_left_map_comm. Qed.

Lemma last_check_shift l ls x idx a k :
  forallb (fun j => nth j (x :: idx) 0 =? nth j (l :: ls) 0 - 1) (seq (S a) k) =
  forallb (fun j => nth j idx 0 =? nth j ls 0 - 1) (seq a k).
Proof. by rewrite <- seq_shift, forallb_map_comm. Qed.

Lemma fs_rec_horner q ls idx :
  length idx = length ls ->
  fs_rec q ls idx =
  map (fun i => Z.even (fold_left (fun t j => t * nth j ls 0 + nth j idx 0) (seq 0 i) q))
      (seq 0 (length ls)).
Proof.
  revert q idx. induction ls as [|l ls IH]; intros q [|x idx] Hl; simpl in *; try lia; [done|].
  f_equal. rewrite IH by lia. rewrite <- seq_shift, map_map.
  apply map_ext. intros i. rewrite <- cons_seq. cbn [fold_left].
  f_equal. symmetry. exact (horner_shift l ls x idx 0 i (q * l + x)).
Qed.

Lemma forward_sweep_rec ls idx :
  length idx = length ls -> forward_sweep ls idx = fs_rec 0 ls idx.
Proof.
  intros Hl. destruct ls as [|l ls]; [done|]. destruct idx as [|x idx]; [done|].
  unfold forward_sweep. simpl length. rewrite <- cons_seq. simpl.
  replace (0 * l + x) with x by lia. f_equal.
  rewrite fs_rec_horner by (simpl in Hl; lia).
  rewrite <- seq_shift, map_map. apply map_ext. intros i. simpl.
  rewrite Nat.sub_0_r. f_equal. exact (horner_shift l ls x idx 0 i x).
Qed.

Lemma all_last_forallb ls idx :
  length idx = length ls ->
  forallb (fun j => nth j idx 0 =? nth j ls 0 - 1) (seq 0 (length ls)) = all_last ls idx.
Proof.
  revert idx. induction ls as [|l ls IH]; intros idx Hl; [done|].
  destruct idx as [|x idx]; simpl in Hl; [lia|].
  simpl length. rewrite <- cons_seq. cbn [forallb all_last nth]. f_equal.
  rewrite <- (IH idx) by lia. exact (last_check_shift l ls x idx 0 (length ls)).
Qed.

Lemma move_on_dim_rec ls idx :
  length idx = length ls -> move_on_dim ls idx = md_rec ls idx.
Proof.
  revert idx. induction ls as [|l ls IH]; intros idx Hl; [done|].
  destruct idx as [|x idx]; simpl in Hl; [lia|].
  cbn [md_rec]. rewrite <- (IH idx) by lia. unfold move_on_dim.
  simpl length. rewrite <- cons_seq. cbn [map].
  f_equal.
  - replace (S (length ls) - 1)%nat with (length ls) by lia.
    rewrite <- (all_last_forallb ls idx) by lia. f_equal.
    exact (last_check_shift l ls x idx 0 (length ls)).
  - rewrite <- seq_shift, map_map. apply map_ext. intros i. f_equal.
    exact (last_check_shift l ls x idx (S i) (length ls - S i)).
Qed.

(** The move as the code makes it: on the dimension [move_on_dim] selects,
    one step forward or backward as [forward_sweep] says. *)
Definition code_delta (ls idx : list Z) : list Z :=
  zip_with (fun m f => if m : bool then (if f : bool then 1 else -1) else 0)
           (move_on_dim ls idx) (forward_sweep ls idx).

Lemma serp_delta_zip p ls idx :
  serp_delta p ls idx =
  zip_with (fun m f => if m : bool then (if f : bool then 1 else -1) else 0)
           (md_rec ls idx) (fs_rec p ls idx).
Proof.
  revert p idx. induction ls as [|l ls IH]; intros p [|x idx]; simpl; auto.
  f_equal. apply IH.
Qed.

Lemma code_delta_serp ls idx :
  length idx = length ls -> code_delta ls idx = serp_delta 0 ls idx.
Proof.
  intros Hl. unfold code_delta. by rewrite forward_sweep_rec, move_on_dim_rec, serp_delta_zip.
Qed.

End CodeFormulas.

(** ** Coordinates, steps and the transfer object *)

(** [move_tensor_coordinate(desc, coord, step)]: the coordinate's visible
    index moves by the step (its cached offset follows by step-equivalence). *)
Definition move_tensor_coordinate (coord step : list Z) : list Z := add_idx coord step.

(** The index with [s] at dimension [i] and 0 elsewhere. *)
Definition unit_step (n i : nat) (s : Z) : list Z :=
  map (fun j => if (j =? i)%nat then s else 0) (seq 0 n).

(** [make_forward_steps] / [make_backward_steps] (lines 106-132). *)
Definition forward_steps (c : transfer_config) : list (list Z) :=
  map (fun i => unit_step (nDim c) i (nth i (scalar_per_access c) 0)) (seq 0 (nDim c)).
Definition backward_steps (c : transfer_config) : list (list Z) :=
  map (fun i => unit_step (nDim c) i (- nth i (scalar_per_access c) 0)) (seq 0 (nDim c)).

(** The "move coordinate" loop of [Run] (lines 231-258) for one coordinate,
    after the access at ordered index [idx]. *)
Definition move_coord (c : transfer_config) (idx co : list Z) : list Z :=
  let ls := ordered_access_lengths c in
  let fwd := forward_sweep ls idx in
  let md := move_on_dim ls idx in
  fold_left (fun co i =>
      if nth i md false then
        move_tensor_coordinate co
          (nth (nth i (DimAccessOrder c) O)
               (if nth i fwd false then forward_steps c else backward_steps c) [])
      else co) (seq 0 (nDim c)) co.

(** [GetCoordinateResetStep()] (lines 287-342). *)
Definition GetCoordinateResetStep (c : transfer_config) : list Z :=
  let ls := ordered_access_lengths c in
  let n := nDim c in
  let fwd := map (fun i =>
      match i with
      | O => true
      | S _ => Z.even (fold_left (fun tmp j => tmp * nth j ls 0 + nth j ls 0 - 1)
                                 (seq 1 (i - 1)) (nth 0 ls 0 - 1))
      end) (seq 0 n) in
  let ordered_idx := map (fun i => if nth i fwd false then nth i ls 0 - 1 else 0) (seq 0 n) in
  let data_idx := zip_with Z.mul (reorder_old2new ordered_idx (DimAccessOrder c))
                                 (scalar_per_access c) in
  map Z.opp data_idx.

(** The three coordinates of the object. *)
Record transfer_coords := {
  src0_coord : list Z;
  src1_coord : list Z;
  dst_coord : list Z
}.

Definition move_all (c : transfer_config) (idx : list Z) (st : transfer_coords) : transfer_coords :=
  {| src0_coord := move_coord c idx (src0_coord st);
     src1_coord := move_coord c idx (src1_coord st);
     dst_coord := move_coord c idx (dst_coord st) |}.

(** The constructor and [SetSrc0SliceOrigin] etc.: coordinates at the given
    slice origins. *)
Definition make_transfer (src0_origin src1_origin dst_origin : list Z) : transfer_coords :=
  {| src0_coord := src0_origin; src1_coord := src1_origin; dst_coord := dst_origin |}.

(** The reset after the loop (lines 261-284). *)
Definition reset_coords (c : transfer_config) (st : transfer_coords) : transfer_coords :=
  let r := GetCoordinateResetStep c in
  {| src0_coord := if Src0ResetCoordinateAfterRun c
                   then move_tensor_coordinate (src0_coord st) r else src0_coord st;
     src1_coord := if Src1ResetCoordinateAfterRun c
                   then move_tensor_coordinate (src1_coord st) r else src1_coord st;
     dst_coord := if DstResetCoordinateAfterRun c
                  then move_tensor_coordinate (dst_coord st) r else dst_coord st |}.

(** [MoveSrc0SliceWindow] (lines 345-357): when [Run] did not reset the
    coordinate, the window step is adjusted by the reset step. *)
Definition adjusted_step (reset : bool) (c : transfer_config) (step : list Z) : list Z :=
  if reset then step else add_idx step (GetCoordinateResetStep c).

Definition MoveSrc0SliceWindow (c : transfer_config) (st : transfer_coords) (step : list Z) :=
  {| src0_coord := move_tensor_coordinate (src0_coord st)
                     (adjusted_step (Src0ResetCoordinateAfterRun c) c step);
     src1_coord := src1_coord st; dst_coord := dst_coord st |}.

Definition MoveSrc1SliceWindow (c : transfer_config) (st : transfer_coords) (step : list Z) :=
  {| src0_coord := src0_coord st;
     src1_coord := move_tensor_coordinate (src1_coord st)
                     (adjusted_step (Src1ResetCoordinateAfterRun c) c step);
     dst_coord := dst_coord st |}.

Definition MoveDstSliceWindow (c : transfer_config) (st : transfer_coords) (step : list Z) :=
  {| src0_coord := src0_coord st; src1_coord := src1_coord st;
     dst_coord := move_tensor_coordinate (dst_coord st)
                    (adjusted_step (DstResetCoordinateAfterRun c) c step) |}.

(** ** Buffers and [Run] *)

(** A tensor as [Run] sees it: the offset and validity of a coordinate
    ([coord.GetOffset()] and
    [coordinate_has_valid_offset_assuming_visible_index_is_valid]). *)
Record tensor_view := {
  view_offset : list Z -> Z;
  view_valid : list Z -> bool
}.

(** The members of [ThreadwiseTensorSliceTransfer_v6r2] that access the
    buffers, under the struct's name: its [Run] is not the blockwise GEMM's. *)
Module ThreadwiseTensorSliceTransfer_v6r2.

Section Run.

Context {S0 S1 D : Type}.
Variable zero0 : S0.
Variable zero1 : S1.
Variable add_d : D -> D -> D.
(** [element_op_(dst, src0, src1)]. *)
Variable element_op : S0 -> S1 -> D.

(** [buf.Get<vector_t>(offset, valid)]: [n] consecutive scalars, or zeros
    when the coordinate is invalid. *)
Definition buf_get {T} (zero : T) (b : Z -> T) (off : Z) (valid : bool) (n : Z) : list T :=
  map (fun k => if valid then b (off + Z.of_nat k) else zero) (seq 0 (Z.to_nat n)).

(** [buf.Set<vector_t>(offset, valid, v)]: nothing is written when invalid. *)
Definition buf_set {T} (b : Z -> T) (off : Z) (valid : bool) (v : list T) : Z -> T :=
  fun o => if valid && (off <=? o) && (o <? off + Z.of_nat (length v))
           then nth (Z.to_nat (o - off)) v (b o) else b o.

(** [buf.AtomicAdd<vector_t>(offset, valid, v)]. *)
Definition buf_atomic_add (b : Z -> D) (off : Z) (valid : bool) (v : list D) : Z -> D :=
  fun o => if valid && (off <=? o) && (o <? off + Z.of_nat (length v))
           then add_d (b o) (nth (Z.to_nat (o - off)) v (b o)) else b o.

(** One access of the loop body (lines 165-213). *)
Definition access (c : transfer_config) (v0 v1 vd : tensor_view)
    (b0 : Z -> S0) (b1 : Z -> S1) (st : transfer_coords) (bd : Z -> D) : Z -> D :=
  let x0 := buf_get zero0 b0 (view_offset v0 (src0_coord st))
                    (view_valid v0 (src0_coord st)) (ScalarPerVector c) in
  let x1 := buf_get zero1 b1 (view_offset v1 (src1_coord st))
                    (view_valid v1 (src1_coord st)) (ScalarPerVector c) in
  let y := zip_with element_op x0 x1 in
  let off := view_offset vd (dst_coord st) in
  let ok := view_valid vd (dst_coord st) in
  match DstInMemOp c with
  | Set_ => buf_set bd off ok y
  | AtomicAdd => buf_atomic_add bd off ok y
  end.

(** [Run(src0_desc, src0_buf, src1_desc, src1_buf, dst_desc, dst_buf)]. *)
Definition Run (c : transfer_config) (v0 v1 vd : tensor_view)
    (b0 : Z -> S0) (b1 : Z -> S1) (st : transfer_coords) (bd : Z -> D)
    : transfer_coords * (Z -> D) :=
  let '(st', bd') :=
    fold_left (fun '(st, bd) idx => (move_all c idx st, access c v0 v1 vd b0 b1 st bd))
              (static_ford (ordered_access_lengths c)) (st, bd) in
  (reset_coords c st', bd').

End Run.

End ThreadwiseTensorSliceTransfer_v6r2.
Import ThreadwiseTensorSliceTransfer_v6r2.

(** ** Displacements in data-index space *)

(** The data-index displacement of an ordered-space displacement [pos]:
    ordered dimension [i] is data dimension [DimAccessOrder[i]], scaled by
    its [scalar_per_access]. *)
Definition data_of (c : transfer_config) (pos : list Z) : list Z :=
  map (fun d => sumZ (map (fun i => if (nth i (DimAccessOrder c) O =? d)%nat
                                    then nth i pos 0 * nth d (scalar_per_access c) 0 else 0)
                          (seq 0 (nDim c))))
      (seq 0 (nDim c)).

(** The coordinate before the [k]-th access of [Run], as the serpentine
    order predicts it. *)
Definition coord_at (c : transfer_config) (origin : list Z) (k : nat) : list Z :=
  let ls := ordered_access_lengths c in
  add_idx origin (data_of c (serp 0 ls (decompose ls (Z.of_nat k)))).

Section Displacement.

Lemma nth_add_idx a b d :
  length a = length b -> nth d (add_idx a b) 0 = nth d a 0 + nth d b 0.
Proof.
  revert b d. induction a as [|x a IH]; intros [|y b] [|d] Hl; simpl in *; try lia; auto.
Qed.

Lemma length_add_idx_eq a b : length a = length b -> length (add_idx a b) = length a.
Proof. intros. rewrite length_add_idx. lia. Qed.

Lemma length_unit_step n i s : length (unit_step n i s) = n.
Proof. unfold unit_step. by rewrite length_map, length_seq. Qed.

Lemma nth_unit_step n i s d :
  nth d (unit_step n i s) 0 = if (d =? i)%nat && (d <? n)%nat then s else 0.
Proof.
  unfold unit_step. destruct (Nat.ltb_spec d n).
  - rewrite nth_map_seq by done. by rewrite andb_true_r.
  - rewrite nth_map_seq_ge by done. by rewrite andb_false_r.
Qed.

(** A loop that conditionally adds steps: its effect, dimension by
    dimension. *)
Lemma fold_cond_steps (l : list nat) (b : nat -> bool) (v : nat -> list Z) co :
  (forall i, In i l -> length (v i) = length co) ->
  let r := fold_left (fun co i => if b i then add_idx co (v i) else co) l co in
  length r = length co /\
  forall d, nth d r 0 = nth d co 0 + sumZ (map (fun i => if b i then nth d (v i) 0 else 0) l).
Proof.
  revert co. induction l as [|i l IH]; intros co Hv; simpl.
  - split; [done|]. intros. lia.
  - destruct (b i) eqn:Hb.
    + assert (Hvi : length (v i) = length co) by (apply Hv; left; done).
      destruct (IH (add_idx co (v i))) as [Hlen Hnth].
      { intros j Hj. rewrite length_add_idx_eq by done. apply Hv. by right. }
      rewrite length_add_idx_eq in Hlen by done.
      split; [done|]. intros d. rewrite Hnth, nth_add_idx by done. lia.
    + destruct (IH co) as [Hlen Hnth]; [intros j Hj; apply Hv; by right|]. split; [done|]. intros d. rewrite Hnth. lia.
Qed.

Lemma length_data_of c pos : length (data_of c pos) = nDim c.
Proof. unfold data_of. by rewrite length_map, length_seq. Qed.

Lemma nth_data_of c pos d :
  (d < nDim c)%nat ->
  nth d (data_of c pos) 0 =
  sumZ (map (fun i => if (nth i (DimAccessOrder c) O =? d)%nat
                      then nth i pos 0 * nth d (scalar_per_access c) 0 else 0)
            (seq 0 (nDim c))).
Proof. intros. unfold data_of. by rewrite nth_map_seq. Qed.

End Displacement.

(** ** Facts a well-formed configuration gives *)

Section ConfigFacts.

Context (c : transfer_config) (Hok : transfer_config_ok c = true).

Lemma config_perm : Permutation (DimAccessOrder c) (seq 0 (nDim c)).
Proof.
  unfold transfer_config_ok in Hok. rewrite !andb_true_iff in Hok.
  destruct Hok as [_ Hp]. by apply bool_decide_eq_true in Hp.
Qed.

Lemma length_order : length (DimAccessOrder c) = nDim c.
Proof. rewrite (Permutation_length config_perm). apply length_seq. Qed.

Lemma order_lt i : (i < nDim c)%nat -> (nth i (DimAccessOrder c) O < nDim c)%nat.
Proof.
  intros Hi. assert (Hin : In (nth i (DimAccessOrder c) O) (seq 0 (nDim c))).
  { eapply Permutation_in; [apply config_perm|]. apply nth_In. by rewrite length_order. }
  apply in_seq in Hin. lia.
Qed.

Lemma order_nodup : List.NoDup (DimAccessOrder c).
Proof.
  eapply Permutation_NoDup; [symmetry; apply config_perm|]. apply seq_NoDup.
Qed.

Lemma spv_pos : 0 < ScalarPerVector c.
Proof.
  unfold transfer_config_ok in Hok. rewrite !andb_true_iff in Hok.
  destruct Hok as [[[[Hs _] _] _] _]. by apply Z.ltb_lt.
Qed.

Lemma length_spa : length (scalar_per_access c) = nDim c.
Proof. unfold scalar_per_access. by rewrite length_map, length_seq. Qed.

Lemma nth_spa d : (d < nDim c)%nat ->
  nth d (scalar_per_access c) 0 = if (d =? VectorDim c)%nat then ScalarPerVector c else 1.
Proof. intros. unfold scalar_per_access. by rewrite nth_map_seq. Qed.

Lemma spa_pos d : (d < nDim c)%nat -> 0 < nth d (scalar_per_access c) 0.
Proof. intros. rewrite nth_spa by done. pose proof spv_pos. destruct (_ =? _)%nat; lia. Qed.

Lemma access_lengths_pos d : (d < nDim c)%nat -> 0 < nth d (access_lengths c) 0.
Proof.
  intros Hd. unfold access_lengths.
  rewrite (nth_zip_with _ _ _ _ 0 0) by (rewrite ?length_spa; unfold nDim in *; lia).
  unfold transfer_config_ok in Hok. rewrite !andb_true_iff in Hok.
  destruct Hok as [[[[Hs Hv] Hm] Hl] _].
  apply Z.ltb_lt in Hs. apply Nat.ltb_lt in Hv. apply Z.eqb_eq in Hm.
  rewrite forallb_forall in Hl.
  assert (Hpos : 0 < nth d (SliceLengths c) 0).
  { apply Z.ltb_lt, Hl, nth_In. unfold nDim in Hd. lia. }
  rewrite nth_spa by done. destruct (Nat.eqb_spec d (VectorDim c)) as [->|].
  - apply Z.div_str_pos. split; [lia|].
    assert (Hdiv : (ScalarPerVector c | nth (VectorDim c) (SliceLengths c) 0))
      by (apply Z.mod_divide; [lia | exact Hm]).
    destruct Hdiv as [q Hq]. rewrite Hq in Hpos |- *. assert (1 <= q) by nia. nia.
  - rewrite Z.div_1_r. done.
Qed.

Lemma length_access_lengths : length (access_lengths c) = nDim c.
Proof. unfold access_lengths. rewrite length_zip_with, length_spa. unfold nDim. lia. Qed.

Lemma length_ordered : length (ordered_access_lengths c) = nDim c.
Proof. unfold ordered_access_lengths, reorder_new2old. by rewrite length_map, length_order. Qed.

Lemma ordered_pos : all_pos (ordered_access_lengths c).
Proof.
  unfold all_pos, ordered_access_lengths, reorder_new2old. apply Forall_forall.
  intros x Hx. apply in_map_iff in Hx as [i [<- Hi]].
  apply access_lengths_pos.
  eapply Permutation_in in Hi; [|apply config_perm]. apply in_seq in Hi. lia.
Qed.

End ConfigFacts.

(** ** The traversal of [Run] *)

Section Traversal.

Context (c : transfer_config) (Hok : transfer_config_ok c = true).

Lemma length_forward_sweep ls idx : length (forward_sweep ls idx) = length ls.
Proof. unfold forward_sweep. by rewrite length_map, length_seq. Qed.

Lemma length_move_on_dim ls idx : length (move_on_dim ls idx) = length ls.
Proof. unfold move_on_dim. by rewrite length_map, length_seq. Qed.

Lemma nth_steps (b : bool) i d :
  (i < nDim c)%nat ->
  nth d (nth (nth i (DimAccessOrder c) O) (if b then forward_steps c else backward_steps c) []) 0 =
  if (d =? nth i (DimAccessOrder c) O)%nat && (d <? nDim c)%nat
  then (if b then 1 else -1) * nth (nth i (DimAccessOrder c) O) (scalar_per_access c) 0
  else 0.
Proof.
  intros Hi. pose proof (order_lt c Hok i Hi).
  destruct b; unfold forward_steps, backward_steps; rewrite nth_map_seq by done;
    rewrite nth_unit_step; destruct (_ && _); lia.
Qed.

Lemma length_steps (b : bool) i :
  (i < nDim c)%nat ->
  length (nth (nth i (DimAccessOrder c) O) (if b then forward_steps c else backward_steps c) []) =
  nDim c.
Proof.
  intros Hi. pose proof (order_lt c Hok i Hi).
  destruct b; unfold forward_steps, backward_steps; rewrite nth_map_seq by done;
    apply length_unit_step.
Qed.

(** The code's move of one coordinate adds the data displacement of the
    ordered-space move [code_delta]. *)
Lemma move_coord_data idx co :
  length co = nDim c -> length idx = nDim c ->
  move_coord c idx co = add_idx co (data_of c (code_delta (ordered_access_lengths c) idx)).
Proof.
  intros Hco Hidx. unfold move_coord, move_tensor_coordinate. cbv zeta.
  set (ls := ordered_access_lengths c).
  pose proof (fold_cond_steps (seq 0 (nDim c)) (fun i => nth i (move_on_dim ls idx) false)
    (fun i => nth (nth i (DimAccessOrder c) O)
                  (if nth i (forward_sweep ls idx) false then forward_steps c
                   else backward_steps c) []) co) as H.
  cbv zeta beta in H. destruct H as [Hlen Hnth].
  { intros i Hi. apply in_seq in Hi. rewrite Hco. apply length_steps. lia. }
  apply nth_ext with (d := 0) (d' := 0).
  { rewrite Hlen, length_add_idx_eq; rewrite ?length_data_of; lia. }
  intros d Hd. rewrite Hlen, Hco in Hd.
  rewrite Hnth, nth_add_idx by (rewrite length_data_of; lia). f_equal.
  rewrite nth_data_of by done. f_equal. apply map_ext_in. intros i Hi. apply in_seq in Hi.
  rewrite nth_steps by lia. unfold code_delta.
  assert (Hls : length ls = nDim c) by apply (length_ordered c Hok).
  rewrite (nth_zip_with _ _ _ _ false false)
    by (rewrite ?length_move_on_dim, ?length_forward_sweep; lia).
  destruct (nth i (move_on_dim ls idx) false), (nth i (forward_sweep ls idx) false);
    destruct (Nat.eqb_spec (nth i (DimAccessOrder c) O) d) as [<-|],
             (Nat.eqb_spec (nth i (DimAccessOrder c) O) (nth i (DimAccessOrder c) O));
    try destruct (Nat.eqb_spec d (nth i (DimAccessOrder c) O));
    simpl; try (destruct (Nat.ltb_spec (nth i (DimAccessOrder c) O) (nDim c))); simpl; lia.
Qed.

End Traversal.

Section Trace.

Context (c : transfer_config) (Hok : transfer_config_ok c = true).

Lemma length_serp_delta p ls idx :
  length idx = length ls -> length (serp_delta p ls idx) = length ls.
Proof. revert p idx. induction ls; intros p [|x idx] Hl; simpl in *; auto; lia. Qed.

Lemma add_idx_assoc a b d :
  length a = length b -> length b = length d ->
  add_idx (add_idx a b) d = add_idx a (add_idx b d).
Proof.
  revert b d. induction a as [|x a IH]; intros [|y b] [|z d] H1 H2; simpl in *; try lia; auto.
  unfold add_idx in *. simpl. rewrite IH by lia. f_equal. lia.
Qed.

Lemma data_of_add a b :
  length a = nDim c -> length b = nDim c ->
  data_of c (add_idx a b) = add_idx (data_of c a) (data_of c b).
Proof.
  intros Ha Hb. apply nth_ext with (d := 0) (d' := 0).
  { rewrite length_add_idx_eq; rewrite !length_data_of; lia. }
  intros d Hd. rewrite length_data_of in Hd.
  rewrite nth_add_idx by (rewrite !length_data_of; lia).
  rewrite !nth_data_of by done. rewrite <- sumZ_map_add. f_equal.
  apply map_ext. intros i. rewrite nth_add_idx by lia. destruct (_ =? _)%nat; lia.
Qed.

Lemma nth_zero_idx ls i : nth i (zero_idx ls) 0 = 0.
Proof. revert i. induction ls; intros [|i]; simpl; auto. Qed.

Lemma data_of_zero ls : data_of c (zero_idx ls) = map (fun _ => 0) (seq 0 (nDim c)).
Proof.
  unfold data_of. apply map_ext. intros d. apply sumZ_map_zero. intros i _.
  rewrite nth_zero_idx. destruct (_ =? _)%nat; lia.
Qed.

Lemma serp_zero ls : serp 0 ls (zero_idx ls) = zero_idx ls.
Proof. induction ls as [|l ls IH]; simpl; [done|]. by rewrite Z.mul_0_l, Z.add_0_l, IH. Qed.

Lemma length_coord_at origin k :
  length origin = nDim c -> length (coord_at c origin k) = nDim c.
Proof. intros. unfold coord_at. rewrite length_add_idx_eq; rewrite ?length_data_of; lia. Qed.

Lemma coord_at_0 origin : length origin = nDim c -> coord_at c origin 0 = origin.
Proof.
  intros Ho. unfold coord_at. simpl Z.of_nat. rewrite decompose_zero, serp_zero, data_of_zero.
  rewrite <- Ho. clear Ho. unfold add_idx. induction origin; simpl; [done|].
  rewrite <- seq_shift, map_map. f_equal; [lia|]. apply IHorigin.
Qed.

Let ls := ordered_access_lengths c.

Lemma length_serp_dec p k : length (serp p ls (decompose ls k)) = nDim c.
Proof. rewrite length_serp by apply length_decompose. apply (length_ordered c Hok). Qed.

(** One access of the loop moves the coordinate from its serpentine position
    to the next one. *)
Lemma coord_step origin (k : nat) :
  length origin = nDim c -> Z.of_nat k + 1 < prodZ ls ->
  move_coord c (decompose ls (Z.of_nat k)) (coord_at c origin k) = coord_at c origin (S k).
Proof.
  intros Ho Hk. pose proof (length_ordered c Hok) as Hls. fold ls in Hls.
  rewrite move_coord_data by (rewrite ?length_coord_at, ?length_decompose; auto).
  rewrite code_delta_serp by apply length_decompose.
  unfold coord_at. fold ls.
  rewrite add_idx_assoc by (rewrite ?length_data_of, ?length_serp_dec; lia).
  assert (Hd : length (serp_delta 0 ls (decompose ls (Z.of_nat k))) = nDim c)
    by (rewrite length_serp_delta by apply length_decompose; lia).
  rewrite <- data_of_add by (rewrite ?length_serp_dec; lia).
  rewrite <- serp_succ by (apply (ordered_pos c Hok) || lia).
  by rewrite Nat2Z.inj_succ, Z.add_1_r.
Qed.

(** After the last access the coordinate does not move. *)
Lemma coord_last origin :
  length origin = nDim c ->
  move_coord c (decompose ls (prodZ ls - 1)) (coord_at c origin (Z.to_nat (prodZ ls - 1))) =
  coord_at c origin (Z.to_nat (prodZ ls - 1)).
Proof.
  intros Ho. pose proof (length_ordered c Hok) as Hls. fold ls in Hls.
  rewrite move_coord_data by (rewrite ?length_coord_at, ?length_decompose; auto).
  rewrite code_delta_serp by apply length_decompose.
  rewrite decompose_last by apply (ordered_pos c Hok).
  rewrite serp_delta_last, data_of_zero.
  apply nth_ext with (d := 0) (d' := 0).
  { rewrite length_add_idx_eq; rewrite ?length_map, ?length_seq, ?length_coord_at; lia. }
  intros d Hd. rewrite length_add_idx_eq in Hd by
    (rewrite ?length_map, ?length_seq, ?length_coord_at; lia).
  rewrite nth_add_idx by (rewrite ?length_map, ?length_seq, ?length_coord_at; lia).
  destruct (lt_dec d (nDim c)); [rewrite nth_map_seq by done | rewrite nth_map_seq_ge by lia]; lia.
Qed.

Lemma fold_move_coord_prefix origin (m : nat) :
  length origin = nDim c -> Z.of_nat m < prodZ ls ->
  fold_left (fun co idx => move_coord c idx co)
            (map (fun n => decompose ls (Z.of_nat n)) (seq 0 m)) origin = coord_at c origin m.
Proof.
  intros Ho. induction m as [|m IH]; intros Hm.
  - by rewrite coord_at_0.
  - rewrite seq_S, map_app, fold_left_app, IH by lia. simpl. apply coord_step; lia.
Qed.

(** The coordinate after the loop of [Run]: the serpentine image of the
    last index. *)
Lemma fold_move_coord origin :
  length origin = nDim c ->
  fold_left (fun co idx => move_coord c idx co) (static_ford ls) origin =
  add_idx origin (data_of c (serp 0 ls (last_idx ls))).
Proof.
  intros Ho. pose proof (prodZ_pos ls (ordered_pos c Hok)) as HN. fold ls in HN.
  unfold static_ford. replace (Z.to_nat (prodZ ls)) with (S (Z.to_nat (prodZ ls - 1))) by lia.
  rewrite seq_S, map_app, fold_left_app, fold_move_coord_prefix by lia. simpl.
  rewrite Z2Nat.id by lia. rewrite coord_last by done.
  unfold coord_at. fold ls. rewrite Z2Nat.id by lia.
  by rewrite decompose_last by apply (ordered_pos c Hok).
Qed.

End Trace.

(** ** The reset step *)

Section Reset.

Context (c : transfer_config) (Hok : transfer_config_ok c = true).

Lemma nth_list_insert (l : list Z) i x d :
  nth d (<[i:=x]> l) 0 = if decide (i = d /\ (d < length l)%nat) then x else nth d l 0.
Proof.
  revert i d. induction l as [|y l IH]; intros [|i] [|d]; cbn -[decide].
  all: try (case_decide; [lia|done]).
  all: try (case_decide; [done|lia]).
  rewrite IH. repeat case_decide; auto; lia.
Qed.

Lemma length_list_insert (l : list Z) i x : length (<[i:=x]> l) = length l.
Proof. apply length_insert. Qed.

Lemma reorder_fold (xs : list Z) (order : list nat) (n : nat) (l : list nat) (r : list Z) :
  length r = n -> (forall i, In i l -> (nth i order O < n)%nat) ->
  List.NoDup (map (fun i => nth i order O) l) ->
  let r' := fold_left (fun r i => <[nth i order O := nth i xs 0]> r) l r in
  length r' = n /\
  (forall i0, In i0 l -> nth (nth i0 order O) r' 0 = nth i0 xs 0) /\
  (forall d, ~ In d (map (fun i => nth i order O) l) -> nth d r' 0 = nth d r 0).
Proof.
  revert r. induction l as [|i l IH]; intros r Hr Hlt Hnd; simpl.
  - split; [done|]. split; [tauto|done].
  - apply List.NoDup_cons_iff in Hnd as [Hnin Hnd].
    destruct (IH (<[nth i order O := nth i xs 0]> r)) as (Hlen & Hin & Hout).
    { by rewrite length_list_insert. }
    { intros j Hj. apply Hlt. by right. }
    { done. }
    split; [done|]. split.
    + intros i0 [<-|Hi0]; [|by apply Hin].
      rewrite Hout by done. rewrite nth_list_insert. case_decide as Hc; [done|].
      exfalso. apply Hc. split; [done|]. rewrite Hr. apply Hlt. by left.
    + intros d Hd. rewrite Hout by tauto. rewrite nth_list_insert.
      case_decide; [exfalso; apply Hd; left; tauto|done].
Qed.

Lemma map_nth_seq_self (l : list nat) : map (fun i => nth i l O) (seq 0 (length l)) = l.
Proof.
  induction l as [|a l IH]; simpl; [done|]. f_equal.
  rewrite <- seq_shift, map_map. exact IH.
Qed.

Lemma order_surj d : (d < nDim c)%nat ->
  exists i0, (i0 < nDim c)%nat /\ nth i0 (DimAccessOrder c) O = d.
Proof.
  intros Hd. assert (Hin : In d (DimAccessOrder c)).
  { eapply Permutation_in; [symmetry; apply config_perm, Hok|]. apply in_seq. lia. }
  apply In_nth with (d := O) in Hin as (i0 & Hi0 & E).
  exists i0. split; [by rewrite <- (length_order c Hok)|done].
Qed.

Lemma nth_data_of_order xs i0 :
  (i0 < nDim c)%nat ->
  nth (nth i0 (DimAccessOrder c) O) (data_of c xs) 0 =
  nth i0 xs 0 * nth (nth i0 (DimAccessOrder c) O) (scalar_per_access c) 0.
Proof.
  intros Hi0. rewrite nth_data_of by (apply order_lt; auto).
  apply (sumZ_map_single (fun i => nth i (DimAccessOrder c) O)
           (fun i => nth i xs 0 * nth (nth i0 (DimAccessOrder c) O) (scalar_per_access c) 0)).
  - rewrite <- (length_order c Hok), map_nth_seq_self. apply (order_nodup c Hok).
  - apply in_seq. lia.
Qed.

(** [container_reorder_given_old2new] scaled by [scalar_per_access] is the
    data displacement of an ordered index. *)
Lemma reorder_old2new_data xs :
  zip_with Z.mul (reorder_old2new xs (DimAccessOrder c)) (scalar_per_access c) = data_of c xs.
Proof.
  pose proof (length_order c Hok) as Hlo.
  destruct (reorder_fold xs (DimAccessOrder c) (nDim c) (seq 0 (length (DimAccessOrder c)))
              (repeat 0 (length (DimAccessOrder c)))) as (Hlen & Hin & _).
  { by rewrite repeat_length. }
  { intros i Hi. apply in_seq in Hi. apply order_lt; auto. lia. }
  { rewrite map_nth_seq_self. apply (order_nodup c Hok). }
  fold (reorder_old2new xs (DimAccessOrder c)) in Hlen, Hin.
  apply nth_ext with (d := 0) (d' := 0).
  { by rewrite length_zip_with, length_data_of, Hlen, length_spa, Nat.min_id. }
  intros d Hd. rewrite length_zip_with, Hlen, length_spa, Nat.min_id in Hd by auto.
  destruct (order_surj d Hd) as (i0 & Hi0 & <-).
  rewrite (nth_zip_with _ _ _ _ 0 0) by (rewrite ?Hlen, ?length_spa; auto; lia).
  rewrite Hin by (apply in_seq; lia). by rewrite nth_data_of_order.
Qed.

Lemma nth_last_idx ls j : (j < length ls)%nat -> nth j (last_idx ls) 0 = nth j ls 0 - 1.
Proof.
  revert j. induction ls as [|l ls IH]; intros [|j] Hj; simpl in *; try lia.
  apply IH. lia.
Qed.

Lemma nth_serp p ls idx i :
  length idx = length ls -> (i < length ls)%nat ->
  nth i (serp p ls idx) 0 =
  if nth i (fs_rec p ls idx) false then nth i idx 0 else nth i ls 0 - 1 - nth i idx 0.
Proof.
  revert p idx i. induction ls as [|l ls IH]; intros p [|x idx] [|i] Hl Hi; simpl in *; try lia.
  all: try (destruct (Z.even p); done).
  apply IH; lia.
Qed.

(** [GetCoordinateResetStep] is minus the displacement of the last access. *)
Lemma GetCoordinateResetStep_last :
  GetCoordinateResetStep c =
  map Z.opp (data_of c (serp 0 (ordered_access_lengths c) (last_idx (ordered_access_lengths c)))).
Proof.
  set (ls := ordered_access_lengths c).
  pose proof (length_ordered c Hok) as Hls. fold ls in Hls.
  assert (Hlast : length (last_idx ls) = length ls) by (unfold last_idx; apply length_map).
  unfold GetCoordinateResetStep. fold ls. f_equal.
  rewrite <- reorder_old2new_data. f_equal. f_equal.
  apply nth_ext with (d := 0) (d' := 0).
  { rewrite length_map, length_seq, length_serp; lia. }
  intros i Hi. rewrite length_map, length_seq in Hi.
  rewrite nth_map_seq by done. rewrite nth_serp by lia.
  rewrite <- forward_sweep_rec by done. unfold forward_sweep.
  rewrite Hls, !nth_map_seq by done. rewrite !nth_last_idx by lia.
  destruct i as [|i]; [lia|].
  rewrite (fold_left_ext_in (fun tmp j => tmp * nth j ls 0 + nth j (last_idx ls) 0)
                            (fun tmp j => tmp * nth j ls 0 + nth j ls 0 - 1)).
  { destruct (Z.even _); lia. }
  intros x j Hj. apply in_seq in Hj. rewrite nth_last_idx by lia. lia.
Qed.

End Reset.

(** ** The coordinates after [Run] and the slice-window moves *)

Section RunCoords.

Context (c : transfer_config) (Hok : transfer_config_ok c = true).

(** The displacement of the last access of [Run] from the slice origin. *)
Definition last_access_data (c : transfer_config) : list Z :=
  data_of c (serp 0 (ordered_access_lengths c) (last_idx (ordered_access_lengths c))).

Lemma fold_move_all l st :
  fold_left (fun st idx => move_all c idx st) l st =
  {| src0_coord := fold_left (fun co idx => move_coord c idx co) l (src0_coord st);
     src1_coord := fold_left (fun co idx => move_coord c idx co) l (src1_coord st);
     dst_coord := fold_left (fun co idx => move_coord c idx co) l (dst_coord st) |}.
Proof. revert st. induction l as [|idx l IH]; intros [s0 s1 d]; simpl; auto. Qed.

Lemma add_idx_opp_cancel o d :
  length o = length d -> add_idx (add_idx o d) (map Z.opp d) = o.
Proof.
  revert d. induction o as [|x o IH]; intros [|y d] Hl; simpl in *; try done.
  unfold add_idx in *. simpl. rewrite IH by lia. f_equal. lia.
Qed.

Lemma add_idx_comm a b : add_idx a b = add_idx b a.
Proof.
  revert b. induction a as [|x a IH]; intros [|y b]; simpl; try done.
  unfold add_idx in *. simpl. rewrite IH. f_equal. lia.
Qed.

Lemma length_opp d : length (map Z.opp d) = length d.
Proof. apply length_map. Qed.

Lemma nth_map_opp i d : nth i (map Z.opp d) 0 = - nth i d 0.
Proof. revert i. induction d; intros [|i]; simpl; auto. Qed.

(** After the loop, a coordinate either is reset or sits at the last access. *)
Lemma reset_one (reset : bool) o :
  length o = nDim c ->
  (if reset then move_tensor_coordinate (add_idx o (last_access_data c)) (GetCoordinateResetStep c)
   else add_idx o (last_access_data c)) =
  (if reset then o else add_idx o (last_access_data c)).
Proof.
  intros Ho. destruct reset; [|done].
  unfold move_tensor_coordinate. rewrite GetCoordinateResetStep_last by done.
  apply add_idx_opp_cancel. by rewrite length_data_of.
Qed.

(** The window move compensates for a coordinate that was not reset. *)
Lemma window_one (reset : bool) o step :
  length o = nDim c -> length step = nDim c ->
  move_tensor_coordinate (if reset then o else add_idx o (last_access_data c))
                         (adjusted_step reset c step) = add_idx o step.
Proof.
  intros Ho Hs. unfold adjusted_step, move_tensor_coordinate.
  destruct reset; [done|].
  rewrite GetCoordinateResetStep_last by done. fold (last_access_data c).
  assert (Hd : length (last_access_data c) = nDim c) by apply length_data_of.
  assert (Hsd : length (add_idx step (map Z.opp (last_access_data c))) = nDim c)
    by (rewrite length_add_idx_eq; rewrite ?length_opp; lia).
  assert (Hod : length (add_idx o (last_access_data c)) = nDim c)
    by (rewrite length_add_idx_eq; lia).
  apply nth_ext with (d := 0) (d' := 0).
  { rewrite !length_add_idx_eq; lia. }
  intros i Hi. rewrite length_add_idx_eq, Hod in Hi by lia.
  rewrite !nth_add_idx by (rewrite ?length_opp; lia).
  rewrite nth_map_opp. lia.
Qed.

End RunCoords.

(** [coords_wf c st]: the three coordinates have the slice's rank. *)
Definition coords_wf (c : transfer_config) (st : transfer_coords) : bool :=
  (length (src0_coord st) =? nDim c)%nat && (length (src1_coord st) =? nDim c)%nat &&
  (length (dst_coord st) =? nDim c)%nat.

(** The loop of [Run] over its first [m] indices. *)
Definition run_prefix {S0 S1 D} (zero0 : S0) (zero1 : S1) (add_d : D -> D -> D)
    (element_op : S0 -> S1 -> D) (c : transfer_config) (v0 v1 vd : tensor_view)
    (b0 : Z -> S0) (b1 : Z -> S1) (m : nat) (st : transfer_coords) (bd : Z -> D) :=
  fold_left (fun '(st, bd) idx =>
               (move_all c idx st, access zero0 zero1 add_d element_op c v0 v1 vd b0 b1 st bd))
            (firstn m (static_ford (ordered_access_lengths c))) (st, bd).

Section RunTheorems.

Context {S0 S1 D : Type} (zero0 : S0) (zero1 : S1) (add_d : D -> D -> D)
        (element_op : S0 -> S1 -> D).
Context (c : transfer_config) (Hok : transfer_config_ok c = true).
Context (v0 v1 vd : tensor_view) (b0 : Z -> S0) (b1 : Z -> S1).

Lemma coords_wf_spec st :
  coords_wf c st = true <->
  length (src0_coord st) = nDim c /\ length (src1_coord st) = nDim c /\
  length (dst_coord st) = nDim c.
Proof. unfold coords_wf. rewrite !andb_true_iff, !Nat.eqb_eq. tauto. Qed.

Lemma firstn_static_ford ls m :
  (m <= Z.to_nat (prodZ ls))%nat ->
  firstn m (static_ford ls) = map (fun n => decompose ls (Z.of_nat n)) (seq 0 m).
Proof.
  intros Hm. unfold static_ford. rewrite firstn_map. f_equal.
  replace (Z.to_nat (prodZ ls)) with (m + (Z.to_nat (prodZ ls) - m))%nat by lia.
  rewrite seq_app, firstn_app, length_seq, Nat.sub_diag, firstn_O, app_nil_r.
  apply firstn_all2. rewrite length_seq. lia.
Qed.

(** C2: before its [m]-th access, [Run] has moved every coordinate to its
    origin plus the data displacement of the serpentine image of the [m]-th
    index of the lexicographic enumeration. *)
Theorem Run_coords_before_access st bd (m : nat) :
  coords_wf c st = true -> Z.of_nat m < prodZ (ordered_access_lengths c) ->
  fst (run_prefix zero0 zero1 add_d element_op c v0 v1 vd b0 b1 m st bd) =
  {| src0_coord := coord_at c (src0_coord st) m;
     src1_coord := coord_at c (src1_coord st) m;
     dst_coord := coord_at c (dst_coord st) m |}.
Proof.
  intros Hwf Hm. apply coords_wf_spec in Hwf as (H0 & H1 & Hd).
  unfold run_prefix. rewrite fold_left_pair_fst, fold_move_all, firstn_static_ford by lia.
  by rewrite !fold_move_coord_prefix by done.
Qed.

(** C3: after [Run], a coordinate whose [ResetCoordinateAfterRun] flag is set
    is back at its slice origin; the others sit at the last access. *)
Theorem Run_coords_after st bd :
  coords_wf c st = true ->
  fst (Run zero0 zero1 add_d element_op c v0 v1 vd b0 b1 st bd) =
  {| src0_coord := if Src0ResetCoordinateAfterRun c then src0_coord st
                   else add_idx (src0_coord st) (last_access_data c);
     src1_coord := if Src1ResetCoordinateAfterRun c then src1_coord st
                   else add_idx (src1_coord st) (last_access_data c);
     dst_coord := if DstResetCoordinateAfterRun c then dst_coord st
                  else add_idx (dst_coord st) (last_access_data c) |}.
Proof.
  intros Hwf. apply coords_wf_spec in Hwf as (H0 & H1 & Hd).
  unfold Run. rewrite (surjective_pairing (fold_left _ _ _)). simpl.
  rewrite fold_left_pair_fst, fold_move_all. unfold reset_coords. simpl.
  rewrite !fold_move_coord by done. fold (last_access_data c).
  by rewrite !reset_one by done.
Qed.

(** C4: whether or not [Run] reset its coordinates, a following
    [MoveSrc0SliceWindow], [MoveSrc1SliceWindow] or [MoveDstSliceWindow] by
    [step] puts that coordinate at its slice origin plus [step]. *)
Theorem SliceWindow_after_Run st bd step :
  coords_wf c st = true -> length step = nDim c ->
  let st' := fst (Run zero0 zero1 add_d element_op c v0 v1 vd b0 b1 st bd) in
  src0_coord (MoveSrc0SliceWindow c st' step) = add_idx (src0_coord st) step /\
  src1_coord (MoveSrc1SliceWindow c st' step) = add_idx (src1_coord st) step /\
  dst_coord (MoveDstSliceWindow c st' step) = add_idx (dst_coord st) step.
Proof.
  intros Hwf Hs st'. pose proof Hwf as (H0 & H1 & Hd)%coords_wf_spec.
  subst st'. unfold Run. rewrite (surjective_pairing (fold_left _ _ _)). simpl.
  rewrite fold_left_pair_fst, fold_move_all. unfold reset_coords. simpl.
  rewrite !fold_move_coord by done. fold (last_access_data c).
  rewrite !reset_one by done. split; [|split]; by apply window_one.
Qed.

End RunTheorems.

(** ** Every element of the slice is accessed exactly once *)

(** The inverse of the serpentine map: the lexicographic index visited at a
    given position. *)
Fixpoint unserp (p : Z) (ls y : list Z) : list Z :=
  match ls, y with
  | l :: ls', y0 :: y' =>
      let x := if Z.even p then y0 else l - 1 - y0 in x :: unserp (p * l + x) ls' y'
  | _, _ => []
  end.

(** The data position of the [k]-th access of [Run], relative to the slice
    origin. *)
Definition access_pos (c : transfer_config) (k : nat) : list Z :=
  let ls := ordered_access_lengths c in data_of c (serp 0 ls (decompose ls (Z.of_nat k))).

(** A vector-aligned position of the slice. *)
Definition slice_point (c : transfer_config) (q : list Z) : bool :=
  (length q =? nDim c)%nat &&
  forallb (fun d => (0 <=? nth d q 0) && (nth d q 0 <? nth d (SliceLengths c) 0) &&
                    (nth d q 0 mod nth d (scalar_per_access c) 0 =? 0))
          (seq 0 (nDim c)).

(** The data positions, relative to the slice origin, at which the loop of
    [Run] accesses its tensors: the coordinate reached by the code's
    [move_coord] steps before each access. *)
Definition access_trace (c : transfer_config) : list (list Z) :=
  let ls := ordered_access_lengths c in
  map (fun m => fold_left (fun co idx => move_coord c idx co) (firstn m (static_ford ls))
                          (zero_idx (SliceLengths c)))
      (seq 0 (Z.to_nat (prodZ ls))).

Section Serp.

Lemma serp_unserp p ls y : length y = length ls -> serp p ls (unserp p ls y) = y.
Proof.
  revert p y. induction ls as [|l ls IH]; intros p [|y0 y] Hl; simpl in *; try (done || lia).
  rewrite IH by lia. f_equal. destruct (Z.even p); lia.
Qed.

Lemma serp_inj p ls a b :
  length a = length ls -> length b = length ls -> serp p ls a = serp p ls b -> a = b.
Proof.
  revert p a b. induction ls as [|l ls IH]; intros p [|x a] [|y b] Ha Hb; simpl in *;
    try (done || lia).
  intros [= Hxy Hr]. assert (x = y) as <- by (destruct (Z.even p); lia).
  f_equal. eapply IH; eauto; lia.
Qed.

Lemma serp_in_box p ls idx : in_box ls idx -> in_box ls (serp p ls idx).
Proof.
  intros H. revert p. induction H as [|l x ls idx Hx _ IH]; intros p; simpl; constructor; [|apply IH].
  destruct (Z.even p); lia.
Qed.

Lemma unserp_in_box p ls y : in_box ls y -> in_box ls (unserp p ls y).
Proof.
  intros H. revert p. induction H as [|l x ls idx Hx _ IH]; intros p; simpl; constructor; [|apply IH].
  destruct (Z.even p); lia.
Qed.

Lemma decompose_inj ls x y :
  all_pos ls -> 0 <= x < prodZ ls -> 0 <= y < prodZ ls -> decompose ls x = decompose ls y -> x = y.
Proof.
  intros Hpos Hx Hy E. destruct ls as [|l ls]; [simpl in *; lia|].
  apply all_pos_cons in Hpos as [_ Hpos].
  rewrite <- (compose_decompose l ls x), <- (compose_decompose l ls y) by done.
  by rewrite E.
Qed.

End Serp.

Section Coverage.

Context (c : transfer_config) (Hok : transfer_config_ok c = true).

Let ls := ordered_access_lengths c.
Let spa d := nth d (scalar_per_access c) 0.
Let ord i := nth i (DimAccessOrder c) O.

(** The constructor's static_assert makes every [scalar_per_access] divide
    its slice length. *)
Lemma spa_divides d : (d < nDim c)%nat -> nth d (SliceLengths c) 0 mod spa d = 0.
Proof.
  intros Hd. unfold spa. rewrite nth_spa by done.
  unfold transfer_config_ok in Hok. rewrite !andb_true_iff in Hok.
  destruct Hok as [[[[_ _] Hm] _] _]. apply Z.eqb_eq in Hm.
  destruct (Nat.eqb_spec d (VectorDim c)) as [->|]; [done|]. apply Z.mod_1_r.
Qed.

Lemma nth_ordered i : (i < nDim c)%nat ->
  nth i ls 0 = nth (ord i) (SliceLengths c) 0 / spa (ord i).
Proof.
  intros Hi. unfold ls, ord, spa. unfold ordered_access_lengths, reorder_new2old.
  rewrite nth_indep with (d' := nth O (access_lengths c) 0)
    by (rewrite length_map, (length_order c Hok); lia).
  rewrite (map_nth (fun i => nth i (access_lengths c) 0)). unfold access_lengths.
  pose proof (order_lt c Hok i Hi).
  rewrite (nth_zip_with _ _ _ _ 0 0) by (rewrite ?(length_spa c); unfold nDim in *; lia).
  done.
Qed.

Lemma data_of_inj a b :
  length a = nDim c -> length b = nDim c -> data_of c a = data_of c b -> a = b.
Proof.
  intros Ha Hb E. apply nth_ext with (d := 0) (d' := 0); [lia|].
  intros i Hi. rewrite Ha in Hi.
  pose proof (f_equal (fun q => nth (ord i) q 0) E) as Ei. simpl in Ei. unfold ord in Ei.
  rewrite !(nth_data_of_order c Hok) in Ei by done.
  pose proof (spa_pos c Hok _ (order_lt c Hok i Hi)). nia.
Qed.

Lemma box_nth ls' idx i : in_box ls' idx -> (i < length ls')%nat -> 0 <= nth i idx 0 < nth i ls' 0.
Proof.
  intros H. revert i. induction H as [|l x ls' idx Hx _ IH]; intros [|i] Hi; simpl in *;
    try lia. apply IH; lia.
Qed.

Lemma access_pos_slice_point k :
  Z.of_nat k < prodZ ls -> slice_point c (access_pos c k) = true.
Proof.
  intros Hk. pose proof (ordered_pos c Hok) as Hpos. fold ls in Hpos.
  pose proof (length_ordered c Hok) as Hls. fold ls in Hls.
  set (y := serp 0 ls (decompose ls (Z.of_nat k))).
  assert (Hy : in_box ls y) by (apply serp_in_box, decompose_in_box; auto; lia).
  unfold slice_point, access_pos. fold ls. fold y.
  rewrite length_data_of, Nat.eqb_refl. simpl. apply forallb_forall.
  intros d Hd%in_seq. destruct (order_surj c Hok d) as (i0 & Hi0 & <-); [lia|].
  rewrite (nth_data_of_order c Hok) by done.
  pose proof (box_nth ls y i0 Hy) as Hb. rewrite nth_ordered in Hb by done.
  pose proof (spa_divides (ord i0) (order_lt c Hok i0 Hi0)) as Hdiv.
  pose proof (spa_pos c Hok _ (order_lt c Hok i0 Hi0)) as Hs.
  specialize (Hb ltac:(lia)). unfold spa, ord in *.
  set (s := nth (nth i0 (DimAccessOrder c) O) (scalar_per_access c) 0) in *.
  set (L := nth (nth i0 (DimAccessOrder c) O) (SliceLengths c) 0) in *.
  rewrite Z.mod_mul by lia.
  assert (nth i0 y 0 * s < L).
  { apply Z.mod_divide in Hdiv as [t Ht]; [|lia]. rewrite Ht, Z.div_mul in Hb by lia. nia. }
  repeat (apply andb_true_intro; split); try apply Z.eqb_refl; lia.
Qed.

Lemma in_box_nth ls' idx :
  length idx = length ls' -> (forall i, (i < length ls')%nat -> 0 <= nth i idx 0 < nth i ls' 0) ->
  in_box ls' idx.
Proof.
  revert idx. induction ls' as [|l ls' IH]; intros [|x idx] Hl H; simpl in *; try lia.
  - constructor.
  - constructor; [apply (H O); lia|]. apply IH; [lia|]. intros i Hi. apply (H (S i)). lia.
Qed.

Lemma slice_point_spec q :
  slice_point c q = true ->
  length q = nDim c /\
  forall d, (d < nDim c)%nat -> 0 <= nth d q 0 < nth d (SliceLengths c) 0 /\ nth d q 0 mod spa d = 0.
Proof.
  unfold slice_point. rewrite andb_true_iff, Nat.eqb_eq, forallb_forall.
  intros [Hl H]. split; [done|]. intros d Hd. specialize (H d ltac:(apply in_seq; lia)).
  rewrite !andb_true_iff, Z.leb_le, Z.ltb_lt, Z.eqb_eq in H. unfold spa. lia.
Qed.

(** Every vector-aligned position of the slice is the position of some access. *)
Lemma slice_point_covered q :
  slice_point c q = true -> exists k, Z.of_nat k < prodZ ls /\ access_pos c k = q.
Proof.
  intros (Hq & Hpt)%slice_point_spec.
  pose proof (ordered_pos c Hok) as Hpos. fold ls in Hpos.
  pose proof (length_ordered c Hok) as Hls. fold ls in Hls.
  set (y := map (fun i => nth (ord i) q 0 / spa (ord i)) (seq 0 (nDim c))).
  assert (Hly : length y = length ls) by (subst y; rewrite length_map, length_seq; lia).
  assert (Hy : in_box ls y).
  { apply in_box_nth; [done|]. intros i Hi. rewrite Hls in Hi. subst y.
    rewrite nth_map_seq, nth_ordered by done.
    pose proof (order_lt c Hok i Hi) as Ho. fold (ord i) in Ho.
    pose proof (spa_divides (ord i) Ho) as Hdiv. destruct (Hpt (ord i) Ho) as [Hr Hm].
    pose proof (spa_pos c Hok (ord i) Ho) as Hs. fold (spa (ord i)) in Hs.
    apply Z.mod_divide in Hdiv as [t Ht]; [|lia]. apply Z.mod_divide in Hm as [u Hu]; [|lia].
    rewrite Ht, Hu, !Z.div_mul by lia. rewrite Hu, Ht in Hr. nia. }
  set (x := compose ls (unserp 0 ls y)).
  pose proof (compose_range ls _ (unserp_in_box 0 ls y Hy)) as Hx. fold x in Hx.
  exists (Z.to_nat x). split; [lia|].
  unfold access_pos. fold ls. rewrite Z2Nat.id by lia. subst x.
  rewrite decompose_compose by (apply unserp_in_box, Hy). rewrite serp_unserp by done.
  apply nth_ext with (d := 0) (d' := 0); [by rewrite length_data_of|].
  intros d Hd. rewrite length_data_of in Hd.
  destruct (order_surj c Hok d Hd) as (i0 & Hi0 & <-).
  rewrite (nth_data_of_order c Hok) by done. subst y. rewrite nth_map_seq by done.
  pose proof (order_lt c Hok i0 Hi0) as Ho. fold (ord i0) in Ho |- *. fold (spa (ord i0)).
  destruct (Hpt (ord i0) Ho) as [_ Hm]. pose proof (spa_pos c Hok (ord i0) Ho) as Hs.
  fold (spa (ord i0)) in Hs. pose proof (Z.div_mod (nth (ord i0) q 0) (spa (ord i0))). lia.
Qed.

Lemma access_trace_eq :
  access_trace c = map (access_pos c) (seq 0 (Z.to_nat (prodZ ls))).
Proof.
  unfold access_trace. fold ls. apply map_ext_in. intros m Hm%in_seq.
  assert (Hz : length (zero_idx (SliceLengths c)) = nDim c) by apply length_map.
  rewrite firstn_static_ford by lia.
  rewrite fold_move_coord_prefix by (unfold ls in *; auto; lia).
  unfold coord_at, access_pos.
  rewrite add_idx_comm, add_idx_zero; [done|].
  by rewrite length_data_of.
Qed.

(** C1: the loop of [Run] accesses every vector-aligned position of the
    slice exactly once: the positions its [move_coord] steps reach before
    the accesses are pairwise distinct, each is a position of the slice, and
    each position of the slice is reached. *)
Theorem Run_accesses_exactly_once :
  List.NoDup (access_trace c) /\
  (forall q, In q (access_trace c) -> slice_point c q = true) /\
  (forall q, slice_point c q = true -> In q (access_trace c)).
Proof.
  rewrite access_trace_eq. pose proof (ordered_pos c Hok) as Hpos. fold ls in Hpos.
  pose proof (length_ordered c Hok) as Hls. fold ls in Hls.
  pose proof (prodZ_pos ls Hpos). split; [|split].
  - apply NoDup_map_on; [|apply seq_NoDup]. intros k1 k2 H1%in_seq H2%in_seq E.
    unfold access_pos in E. fold ls in E.
    apply data_of_inj, serp_inj in E; rewrite ?length_serp; rewrite ?length_decompose; try lia.
    apply decompose_inj in E; auto; lia.
  - intros q (k & <- & Hk%in_seq)%in_map_iff. apply access_pos_slice_point. lia.
  - intros q Hq. destruct (slice_point_covered q Hq) as (k & Hk & E).
    apply in_map_iff. exists k. split; [done|]. apply in_seq. lia.
Qed.

End Coverage.

(** ** What [Run] writes *)

(** The [i]-th scalar of the vector [buf.Get] returns at coordinate [co]. *)
Definition src_elem {T} (zero : T) (v : tensor_view) (b : Z -> T) (co : list Z) (i : Z) : T :=
  if view_valid v co then b (view_offset v co + i) else zero.

(** The destination vectors of the valid accesses of [Run] from [st] do not
    overlap in memory. *)
Definition dst_vectors_disjoint (c : transfer_config) (vd : tensor_view) (st : transfer_coords) : bool :=
  let co k := coord_at c (dst_coord st) k in
  forallb (fun k1 => forallb (fun k2 =>
      (k1 =? k2)%nat || negb (view_valid vd (co k1)) || negb (view_valid vd (co k2)) ||
      (view_offset vd (co k1) + ScalarPerVector c <=? view_offset vd (co k2)) ||
      (view_offset vd (co k2) + ScalarPerVector c <=? view_offset vd (co k1)))
    (seq 0 (Z.to_nat (prodZ (ordered_access_lengths c)))))
    (seq 0 (Z.to_nat (prodZ (ordered_access_lengths c)))).

Section RunData.

Context {S0 S1 D : Type} (zero0 : S0) (zero1 : S1) (add_d : D -> D -> D)
        (element_op : S0 -> S1 -> D).
Context (c : transfer_config) (Hok : transfer_config_ok c = true).
Context (v0 v1 vd : tensor_view) (b0 : Z -> S0) (b1 : Z -> S1).

Lemma length_buf_get {T} (zero : T) b off valid n : length (buf_get zero b off valid n) = Z.to_nat n.
Proof. unfold buf_get. by rewrite length_map, length_seq. Qed.

Lemma nth_buf_get {T} (zero : T) b off valid n i d :
  0 <= i < n -> nth (Z.to_nat i) (buf_get zero b off valid n) d = if valid then b (off + i) else zero.
Proof. intros Hi. unfold buf_get. rewrite nth_map_seq by lia. by rewrite Z2Nat.id by lia. Qed.

(** One access, offset by offset: inside the valid destination vector it
    stores (or adds) [element_op] of the two source scalars. *)
Lemma access_at st bd o :
  access zero0 zero1 add_d element_op c v0 v1 vd b0 b1 st bd o =
  if view_valid vd (dst_coord st) && (view_offset vd (dst_coord st) <=? o) &&
     (o <? view_offset vd (dst_coord st) + ScalarPerVector c)
  then match DstInMemOp c with
       | Set_ => element_op (src_elem zero0 v0 b0 (src0_coord st) (o - view_offset vd (dst_coord st)))
                            (src_elem zero1 v1 b1 (src1_coord st) (o - view_offset vd (dst_coord st)))
       | AtomicAdd => add_d (bd o)
           (element_op (src_elem zero0 v0 b0 (src0_coord st) (o - view_offset vd (dst_coord st)))
                       (src_elem zero1 v1 b1 (src1_coord st) (o - view_offset vd (dst_coord st))))
       end
  else bd o.
Proof.
  unfold access, buf_set, buf_atomic_add, src_elem. cbv zeta.
  set (off := view_offset vd (dst_coord st)).
  destruct (DstInMemOp c), (view_valid vd (dst_coord st)); cbv beta; cbn [andb]; try done;
    rewrite length_zip_with, !length_buf_get, Nat.min_id;
    destruct (Z.leb_spec off o), (Z.ltb_spec o (off + Z.of_nat (Z.to_nat (ScalarPerVector c)))),
      (Z.ltb_spec o (off + ScalarPerVector c)); cbn [andb]; try lia; try done;
    rewrite (nth_zip_with _ _ _ _ zero0 zero1) by (rewrite length_buf_get; lia);
    by rewrite !nth_buf_get by lia.
Qed.

Lemma length_static_ford ls : length (static_ford ls) = Z.to_nat (prodZ ls).
Proof. unfold static_ford. by rewrite length_map, length_seq. Qed.

(** The buffer [Run] returns is the fold of its accesses over the access
    indices, each at the coordinates the serpentine order predicts. *)
Lemma Run_data_fold st bd :
  coords_wf c st = true ->
  snd (Run zero0 zero1 add_d element_op c v0 v1 vd b0 b1 st bd) =
  fold_left (fun bd k => access zero0 zero1 add_d element_op c v0 v1 vd b0 b1
               {| src0_coord := coord_at c (src0_coord st) k; src1_coord := coord_at c (src1_coord st) k;
                  dst_coord := coord_at c (dst_coord st) k |} bd)
            (seq 0 (Z.to_nat (prodZ (ordered_access_lengths c)))) bd.
Proof.
  unfold coords_wf. rewrite !andb_true_iff, !Nat.eqb_eq. intros ((H0 & H1) & Hd). unfold Run.
  rewrite (surjective_pairing (fold_left _ _ _)). simpl.
  rewrite (fold_left_pair_snd (move_all c) (access zero0 zero1 add_d element_op c v0 v1 vd b0 b1)).
  rewrite length_static_ford. apply fold_left_ext_in. intros b k Hk%in_seq. f_equal.
  rewrite fold_move_all, firstn_static_ford by lia.
  by rewrite !(fold_move_coord_prefix c Hok) by (auto; lia).
Qed.

Lemma dst_vectors_disjoint_spec st k1 k2 :
  dst_vectors_disjoint c vd st = true ->
  (k1 < Z.to_nat (prodZ (ordered_access_lengths c)))%nat ->
  (k2 < Z.to_nat (prodZ (ordered_access_lengths c)))%nat -> k1 <> k2 ->
  view_valid vd (coord_at c (dst_coord st) k1) = true ->
  view_valid vd (coord_at c (dst_coord st) k2) = true ->
  view_offset vd (coord_at c (dst_coord st) k1) + ScalarPerVector c <= view_offset vd (coord_at c (dst_coord st) k2) \/
  view_offset vd (coord_at c (dst_coord st) k2) + ScalarPerVector c <= view_offset vd (coord_at c (dst_coord st) k1).
Proof.
  unfold dst_vectors_disjoint. cbv beta zeta. rewrite forallb_forall.
  intros H Hk1 Hk2 Hne Hv1 Hv2. specialize (H k1 ltac:(apply in_seq; lia)).
  rewrite forallb_forall in H. specialize (H k2 ltac:(apply in_seq; lia)).
  rewrite Hv1, Hv2, (proj2 (Nat.eqb_neq _ _) Hne) in H. cbn [orb negb] in H.
  by rewrite orb_true_iff, !Z.leb_le in H.
Qed.

(** C11: what [Run] writes.  When the destination vectors of the valid
    accesses do not overlap, after [Run] scalar [i] of the destination
    vector of every valid access [k] holds [element_op] of scalar [i] of the
    two source vectors read at that access (zeros for an invalid source),
    stored for [Set] and added to the old content for [AtomicAdd]; and every
    offset that no valid access covers keeps its value. *)
Theorem Run_writes_dst st bd :
  coords_wf c st = true -> dst_vectors_disjoint c vd st = true ->
  (forall (k : nat) i,
     (k < Z.to_nat (prodZ (ordered_access_lengths c)))%nat -> 0 <= i < ScalarPerVector c ->
     view_valid vd (coord_at c (dst_coord st) k) = true ->
     let o := view_offset vd (coord_at c (dst_coord st) k) + i in
     let y := element_op (src_elem zero0 v0 b0 (coord_at c (src0_coord st) k) i)
                         (src_elem zero1 v1 b1 (coord_at c (src1_coord st) k) i) in
     snd (Run zero0 zero1 add_d element_op c v0 v1 vd b0 b1 st bd) o =
     match DstInMemOp c with Set_ => y | AtomicAdd => add_d (bd o) y end) /\
  (forall o,
     (forall k : nat, (k < Z.to_nat (prodZ (ordered_access_lengths c)))%nat ->
        view_valid vd (coord_at c (dst_coord st) k) = true ->
        ~ (view_offset vd (coord_at c (dst_coord st) k) <= o <
           view_offset vd (coord_at c (dst_coord st) k) + ScalarPerVector c)) ->
     snd (Run zero0 zero1 add_d element_op c v0 v1 vd b0 b1 st bd) o = bd o).
Proof.
  intros Hwf Hdisj. rewrite Run_data_fold by done. split.
  - intros k i Hk Hi Hv. cbv zeta.
    apply (fold_touch_once _ _ k _
             (fun v => match DstInMemOp c with
                       | Set_ => element_op (src_elem zero0 v0 b0 (coord_at c (src0_coord st) k) i)
                                            (src_elem zero1 v1 b1 (coord_at c (src1_coord st) k) i)
                       | AtomicAdd => add_d v (element_op (src_elem zero0 v0 b0 (coord_at c (src0_coord st) k) i)
                                                          (src_elem zero1 v1 b1 (coord_at c (src1_coord st) k) i))
                       end)).
    + apply seq_NoDup.
    + apply in_seq. lia.
    + intros j b Hj%in_seq Hjk. rewrite access_at. cbn [dst_coord].
      destruct (view_valid vd (coord_at c (dst_coord st) j)) eqn:Hvj; [|done].
      set (offj := view_offset vd (coord_at c (dst_coord st) j)).
      set (o := view_offset vd (coord_at c (dst_coord st) k) + i).
      destruct (dst_vectors_disjoint_spec st k j Hdisj) as [Hkj|Hkj]; try done; try lia;
        destruct (Z.leb_spec offj o), (Z.ltb_spec o (offj + ScalarPerVector c)); cbn [andb]; done || lia.
    + intros b. rewrite access_at. cbn [dst_coord src0_coord src1_coord]. rewrite Hv.
      set (offk := view_offset vd (coord_at c (dst_coord st) k)).
      destruct (Z.leb_spec offk (offk + i)), (Z.ltb_spec (offk + i) (offk + ScalarPerVector c));
        cbn [andb]; try lia.
      by replace (offk + i - offk) with i by lia.
  - intros o Ho. apply fold_frame. intros j b Hj%in_seq. rewrite access_at. cbn [dst_coord].
    destruct (view_valid vd (coord_at c (dst_coord st) j)) eqn:Hvj; [|done].
    specialize (Ho j ltac:(lia) Hvj). set (offj := view_offset vd (coord_at c (dst_coord st) j)).
    destruct (Z.leb_spec offj o), (Z.ltb_spec o (offj + ScalarPerVector c)); cbn [andb]; done || lia.
Qed.

End RunData.

(** ** Witnesses on a concrete configuration *)

(** A 2 x 4 slice, vectorised by 2 along dimension 1, with dimension 1
    traversed slowest; only the destination is reset after [Run]. *)
Definition ex_cfg : transfer_config :=
  {| SliceLengths := [2; 4]; DimAccessOrder := [1%nat; 0%nat]; VectorDim := 1;
     ScalarPerVector := 2; DstInMemOp := Set_;
     Src0ResetCoordinateAfterRun := false; Src1ResetCoordinateAfterRun := false;
     DstResetCoordinateAfterRun := true |}.

Definition ex_view : tensor_view := {| view_offset := fun _ => 0; view_valid := fun _ => true |}.
Definition ex_coords : transfer_coords := make_transfer [0; 0] [1; 2] [3; 4].

(** The serpentine order of [ex_cfg]: (0,0), (1,0), (1,2), (0,2). *)
Lemma ex_access_order :
  map (access_pos ex_cfg) (seq 0 4) = [[0; 0]; [1; 0]; [1; 2]; [0; 2]].
Proof. vm_compute. reflexivity. Qed.

Lemma ex_cfg_ok : transfer_config_ok ex_cfg = true.
Proof. vm_compute. reflexivity. Qed.

(** Witness of C1 on [ex_cfg]. *)
Lemma Run_accesses_exactly_once_witness :
  transfer_config_ok ex_cfg = true /\ List.NoDup (access_trace ex_cfg).
Proof.
  split; [vm_compute; reflexivity|].
  exact (proj1 (Run_accesses_exactly_once ex_cfg ltac:(vm_compute; reflexivity))).
Defined.

(** Witness of C2 on [ex_cfg], before the third access. *)
Lemma Run_coords_before_access_witness :
  coords_wf ex_cfg ex_coords = true /\
  fst (run_prefix 0 0 Z.add Z.mul ex_cfg ex_view ex_view ex_view (fun _ => 0) (fun _ => 0)
                  2 ex_coords (fun _ => 0)) =
  {| src0_coord := coord_at ex_cfg [0; 0] 2; src1_coord := coord_at ex_cfg [1; 2] 2;
     dst_coord := coord_at ex_cfg [3; 4] 2 |}.
Proof.
  split; [reflexivity|].
  apply (Run_coords_before_access 0 0 Z.add Z.mul ex_cfg); vm_compute; reflexivity.
Defined.

(** Witness of C3 on [ex_cfg]: the sources stay at the last access, the
    destination is reset. *)
Lemma Run_coords_after_witness :
  coords_wf ex_cfg ex_coords = true /\
  fst (Run 0 0 Z.add Z.mul ex_cfg ex_view ex_view ex_view (fun _ => 0) (fun _ => 0)
           ex_coords (fun _ => 0)) =
  {| src0_coord := add_idx [0; 0] (last_access_data ex_cfg);
     src1_coord := add_idx [1; 2] (last_access_data ex_cfg);
     dst_coord := [3; 4] |}.
Proof.
  split; [reflexivity|].
  apply (Run_coords_after 0 0 Z.add Z.mul ex_cfg); vm_compute; reflexivity.
Defined.

(** Witness of C4 on [ex_cfg], moving the windows by [(2, 0)]. *)
Lemma SliceWindow_after_Run_witness :
  coords_wf ex_cfg ex_coords = true /\
  src0_coord (MoveSrc0SliceWindow ex_cfg
    (fst (Run 0 0 Z.add Z.mul ex_cfg ex_view ex_view ex_view (fun _ => 0) (fun _ => 0)
              ex_coords (fun _ => 0))) [2; 0]) = [2; 0].
Proof.
  split; [reflexivity|].
  exact (proj1 (SliceWindow_after_Run 0 0 Z.add Z.mul ex_cfg ltac:(vm_compute; reflexivity)
           ex_view ex_view ex_view (fun _ => 0) (fun _ => 0) ex_coords (fun _ => 0) [2; 0]
           eq_refl eq_refl)).
Defined.

(** A packed 2 x 4 destination: element [(r, c)] at offset [4 r + c]. *)
Definition ex_dst_view : tensor_view :=
  {| view_offset := fun idx => 4 * nth 0 idx 0 + nth 1 idx 0; view_valid := fun _ => true |}.

(** Witness of C11 on [ex_cfg]: the destination vectors of the four
    accesses are disjoint, and scalar 1 of the third access holds the
    product of the sources' scalars. *)
Lemma Run_writes_dst_witness :
  coords_wf ex_cfg ex_coords = true /\ dst_vectors_disjoint ex_cfg ex_dst_view ex_coords = true /\
  snd (Run 0 0 Z.add Z.mul ex_cfg ex_view ex_view ex_dst_view (fun o => o) (fun _ => 10)
           ex_coords (fun _ => 0)) (view_offset ex_dst_view (coord_at ex_cfg [3; 4] 2) + 1) =
  src_elem 0 ex_view (fun o => o) (coord_at ex_cfg [0; 0] 2) 1 *
  src_elem 0 ex_view (fun _ => 10) (coord_at ex_cfg [1; 2] 2) 1.
Proof.
  split; [reflexivity|]. split; [vm_compute; reflexivity|].
  exact (proj1 (Run_writes_dst 0 0 Z.add Z.mul ex_cfg ltac:(vm_compute; reflexivity)
           ex_view ex_view ex_dst_view (fun o => o) (fun _ => 10) ex_coords (fun _ => 0)
           eq_refl ltac:(vm_compute; reflexivity))
           2%nat 1 ltac:(vm_compute; lia) ltac:(cbn; lia) eq_refl).
Defined.

