(* ===== verification/GridwiseGemm.v ===== *)
(** * The gridwise GEMM v1r2: block tiling and the LDS double-buffered pipeline

    Models [GridwiseDynamicGemm_km_kn_m0m1n0n1_v1r2]
    ([src/composable_kernel/include/tensor_operation/gridwise_dynamic_gemm_v1r2.hpp]):
    the scratchpad (LDS) allocation of [GetSharedMemoryNumberOfByte] and the
    buffer pointers of [Run]; the block-clusterised grid descriptors
    [MakeAKM0M1GridDescriptor] and [MakeBKN0N1GridDescriptor] as Unmerge
    transforms; the block-to-tile map; and the body of [Run] as explicit
    state passing: preload, the do-while main loop of even/odd iterations,
    the single or double tail, each call of the blockwise copies
    ([RunRead], [RunWrite], [MoveSrcSliceWindow]), of [__syncthreads] and of
    [blockwise_gemm.Run] in the code's order.  The data are abstract: the
    tile a [RunRead] at K offset [w] brings is [load_a w] / [load_b w], and
    [blockwise_gemm.Run] is an abstract [gemm], so the accumulator equalities
    proved here are exact (bit-identical) for every value type. *)

From stdpp Require Import sets.
From stdpp Require Import relations.
From S2P Require Import Prelude Transform.

(** ** Tiling parameters *)

Record gemm_config := {
  MPerBlock : Z;
  NPerBlock : Z;
  KPerBlock : Z;
  M1PerThread : Z;
  N1PerThread : Z;
  ABlockTransferDstScalarPerVector_M : Z;
  BBlockTransferDstScalarPerVector_N : Z
}.

(** ** Scratchpad allocation *)

(** [math::lcm] of the four vector widths. *)
Definition max_lds_align (g : gemm_config) : Z :=
  Z.lcm (Z.lcm (ABlockTransferDstScalarPerVector_M g) (BBlockTransferDstScalarPerVector_N g))
        (Z.lcm (M1PerThread g) (N1PerThread g)).

(** [make_dynamic_naive_tensor_descriptor_aligned_v2(make_tuple(L0, L1), align)]
    as far as [Run] uses it: the row stride is [L1] rounded up to [align] and
    the element space is one past the last offset. *)
Definition aligned_2d_element_space_size (L0 L1 align : Z) : Z :=
  (L0 - 1) * integer_least_multiple L1 align + (L1 - 1) + 1.

Definition a_block_space_size (g : gemm_config) : Z :=
  integer_least_multiple
    (aligned_2d_element_space_size (KPerBlock g) (MPerBlock g) (max_lds_align g))
    (max_lds_align g).

Definition b_block_space_size (g : gemm_config) : Z :=
  integer_least_multiple
    (aligned_2d_element_space_size (KPerBlock g) (NPerBlock g) (max_lds_align g))
    (max_lds_align g).

(** [GetSharedMemoryNumberOfByte()] with [sizeof(FloatAB) = size]. *)
Definition GetSharedMemoryNumberOfByte (g : gemm_config) (size : Z) : Z :=
  2 * (a_block_space_size g + b_block_space_size g) * size.

(** The four LDS buffers of [Run], as (element offset in [p_shared_block],
    element count): [a_block_even_buf], [a_block_odd_buf],
    [b_block_even_buf], [b_block_odd_buf]. *)
Definition lds_buffers (g : gemm_config) : list (Z * Z) :=
  let a := a_block_space_size g in
  let b := b_block_space_size g in
  let ea := aligned_2d_element_space_size (KPerBlock g) (MPerBlock g) (max_lds_align g) in
  let eb := aligned_2d_element_space_size (KPerBlock g) (NPerBlock g) (max_lds_align g) in
  [(0, ea); (a, ea); (2 * a, eb); (2 * a + b, eb)].

(** ** Grid descriptors and the block-to-tile map *)

(** [MakeAKM0M1GridDescriptor]: [K] passes through, [M] is unmerged into
    [(M0, M1)] with [M1 = MPerBlock]; the lower index of an upper index
    [(k, m0, m1)]. *)
Definition MakeAKM0M1GridDescriptor (g : gemm_config) (K M : Z) (up : list Z) : list Z :=
  let M1 := MPerBlock g in
  let M0 := M / M1 in
  match up with
  | [k; m0; m1] => calculate_lower_index (PassThrough K) [k] ++
                   calculate_lower_index (Unmerge [M0; M1]) [m0; m1]
  | _ => []
  end.

Definition MakeBKN0N1GridDescriptor (g : gemm_config) (K N : Z) (up : list Z) : list Z :=
  let N1 := NPerBlock g in
  let N0 := N / N1 in
  match up with
  | [k; n0; n1] => calculate_lower_index (PassThrough K) [k] ++
                   calculate_lower_index (Unmerge [N0; N1]) [n0; n1]
  | _ => []
  end.

(** [c_block_cluster_desc.CalculateBottomIndex(make_multi_index(block_id))]
    for the [(M0, N0)] cluster descriptor, then the block's data origin
    [(m_block_work_idx * MPerBlock, n_block_work_idx * NPerBlock)]. *)
Definition block_work_idx (g : gemm_config) (M N bid : Z) : list Z :=
  calculate_lower_index (Merge [M / MPerBlock g; N / NPerBlock g]) [bid].

Definition block_data_origin (g : gemm_config) (M N bid : Z) : Z * Z :=
  match block_work_idx g M N bid with
  | [mb; nb] => (mb * MPerBlock g, nb * NPerBlock g)
  | _ => (0, 0)
  end.

(** ** The pipeline *)

Inductive lds_buf := EvenBuf | OddBuf.
Inductive operand := OpA | OpB.

#[export] Instance lds_buf_eq_dec : EqDecision lds_buf.
Proof. solve_decision. Defined.
#[export] Instance operand_eq_dec : EqDecision operand.
Proof. solve_decision. Defined.

(** The observable events of one lane, in program order. *)
Inductive event :=
| EvMove (o : operand)                 (** [MoveSrcSliceWindow] *)
| EvRead (o : operand)                 (** [RunRead]: global memory to registers *)
| EvWrite (o : operand) (b : lds_buf)  (** [RunWrite]: registers to an LDS buffer *)
| EvSync                               (** [__syncthreads()] *)
| EvGemm (b : lds_buf).                (** [blockwise_gemm.Run] on an LDS buffer pair *)

Section Pipeline.

Context {Tile Acc : Type}.
(** The tiles a [RunRead] brings when the source window is at K offset [w]. *)
Variable load_a load_b : Z -> Tile.
(** [blockwise_gemm.Run(c_desc, a_buf, b_buf, c_thread_buf)]. *)
Variable gemm : Acc -> Tile -> Tile -> Acc.

(** The state [Run] threads: the source windows of the two blockwise copies,
    their register buffers, the four LDS buffers, the accumulator
    [c_thread_buf] and the event trace. *)
Record pipe_state := mk_pipe {
  a_window : Z; b_window : Z;
  a_reg : Tile; b_reg : Tile;
  a_even : Tile; a_odd : Tile; b_even : Tile; b_odd : Tile;
  c_thread_buf : Acc;
  events : list event
}.

Definition emit (e : event) (s : pipe_state) : pipe_state :=
  mk_pipe (a_window s) (b_window s) (a_reg s) (b_reg s) (a_even s) (a_odd s)
          (b_even s) (b_odd s) (c_thread_buf s) (events s ++ [e]).

Definition MoveSrcSliceWindow (o : operand) (step : Z) (s : pipe_state) : pipe_state :=
  emit (EvMove o) match o with
  | OpA => mk_pipe (a_window s + step) (b_window s) (a_reg s) (b_reg s) (a_even s) (a_odd s)
                   (b_even s) (b_odd s) (c_thread_buf s) (events s)
  | OpB => mk_pipe (a_window s) (b_window s + step) (a_reg s) (b_reg s) (a_even s) (a_odd s)
                   (b_even s) (b_odd s) (c_thread_buf s) (events s)
  end.

Definition RunRead (o : operand) (s : pipe_state) : pipe_state :=
  emit (EvRead o) match o with
  | OpA => mk_pipe (a_window s) (b_window s) (load_a (a_window s)) (b_reg s) (a_even s)
                   (a_odd s) (b_even s) (b_odd s) (c_thread_buf s) (events s)
  | OpB => mk_pipe (a_window s) (b_window s) (a_reg s) (load_b (b_window s)) (a_even s)
                   (a_odd s) (b_even s) (b_odd s) (c_thread_buf s) (events s)
  end.

Definition RunWrite (o : operand) (b : lds_buf) (s : pipe_state) : pipe_state :=
  emit (EvWrite o b) match o, b with
  | OpA, EvenBuf => mk_pipe (a_window s) (b_window s) (a_reg s) (b_reg s) (a_reg s) (a_odd s)
                            (b_even s) (b_odd s) (c_thread_buf s) (events s)
  | OpA, OddBuf => mk_pipe (a_window s) (b_window s) (a_reg s) (b_reg s) (a_even s) (a_reg s)
                           (b_even s) (b_odd s) (c_thread_buf s) (events s)
  | OpB, EvenBuf => mk_pipe (a_window s) (b_window s) (a_reg s) (b_reg s) (a_even s) (a_odd s)
                            (b_reg s) (b_odd s) (c_thread_buf s) (events s)
  | OpB, OddBuf => mk_pipe (a_window s) (b_window s) (a_reg s) (b_reg s) (a_even s) (a_odd s)
                           (b_even s) (b_reg s) (c_thread_buf s) (events s)
  end.

Definition syncthreads (s : pipe_state) : pipe_state := emit EvSync s.

Definition blockwise_gemm_Run (b : lds_buf) (s : pipe_state) : pipe_state :=
  let '(ta, tb) := match b with
                   | EvenBuf => (a_even s, b_even s)
                   | OddBuf => (a_odd s, b_odd s)
                   end in
  emit (EvGemm b) (mk_pipe (a_window s) (b_window s) (a_reg s) (b_reg s) (a_even s) (a_odd s)
                           (b_even s) (b_odd s) (gemm (c_thread_buf s) ta tb) (events s)).

(** LDS double buffer: preload data into LDS (lines 365-372). *)
Definition preload (s : pipe_state) : pipe_state :=
  RunWrite OpB EvenBuf (RunWrite OpA EvenBuf (RunRead OpB (RunRead OpA s))).

(** One half of the main body: move the windows, sync, read the next tiles,
    GEMM on the current buffer [cur], store the next tiles in [nxt]. *)
Definition main_half (kpb : Z) (cur nxt : lds_buf) (s : pipe_state) : pipe_state :=
  let s := MoveSrcSliceWindow OpB kpb (MoveSrcSliceWindow OpA kpb s) in
  let s := syncthreads s in
  let s := RunRead OpB (RunRead OpA s) in
  let s := blockwise_gemm_Run cur s in
  RunWrite OpB nxt (RunWrite OpA nxt s).

(** The body of the do-while loop (lines 381-432): the even iteration, then
    the odd one. *)
Definition main_body (kpb : Z) (s : pipe_state) : pipe_state :=
  main_half kpb OddBuf EvenBuf (main_half kpb EvenBuf OddBuf s).

(** The do-while loop (lines 376-433): [k_block_data_begin] starts at 0 and
    grows by [2 * KPerBlock]; the loop repeats while it is below
    [K - 2 * KPerBlock].  [fuel] bounds the number of repetitions; [None]
    means it ran out. *)
Fixpoint main_loop (fuel : nat) (K kpb k : Z) (s : pipe_state) : option pipe_state :=
  let s := main_body kpb s in
  let k := k + 2 * kpb in
  if k <? K - 2 * kpb then
    match fuel with
    | O => None
    | S fuel => main_loop fuel K kpb k s
    end
  else Some s.

(** The number of repetitions the loop can make: [K / (2 * KPerBlock)]. *)
Definition main_loop_fuel (K kpb : Z) : nat := Z.to_nat (K / (2 * kpb)).

(** LDS double buffer: tail with two iterations left (lines 437-465). *)
Definition double_tail (kpb : Z) (s : pipe_state) : pipe_state :=
  let s := MoveSrcSliceWindow OpB kpb (MoveSrcSliceWindow OpA kpb s) in
  let s := syncthreads s in
  let s := RunRead OpB (RunRead OpA s) in
  let s := blockwise_gemm_Run EvenBuf s in
  let s := RunWrite OpB OddBuf (RunWrite OpA OddBuf s) in
  let s := syncthreads s in
  blockwise_gemm_Run OddBuf s.

(** Tail with one iteration left (lines 466-473). *)
Definition single_tail (s : pipe_state) : pipe_state :=
  blockwise_gemm_Run EvenBuf (syncthreads s).

(** The main loop and tails of [Run] (lines 365-473) for the template flags
    [HasMainKBlockLoop] and [HasDoubleTailKBlockLoop]. *)
Definition run_pipeline (has_main has_double : bool) (K kpb : Z) (s : pipe_state)
    : option pipe_state :=
  let s := preload s in
  let os := if has_main then main_loop (main_loop_fuel K kpb) K kpb 0 s else Some s in
  match os with
  | None => None
  | Some s => Some (if has_double then double_tail kpb s else single_tail s)
  end.

(** The naive single-buffered reference: for each K block, read it, write
    it to the one buffer between two barriers, GEMM on it, move on. *)
Definition naive_step (kpb : Z) (s : pipe_state) : pipe_state :=
  let s := RunRead OpB (RunRead OpA s) in
  let s := syncthreads s in
  let s := RunWrite OpB EvenBuf (RunWrite OpA EvenBuf s) in
  let s := syncthreads s in
  let s := blockwise_gemm_Run EvenBuf s in
  MoveSrcSliceWindow OpB kpb (MoveSrcSliceWindow OpA kpb s).

Definition naive_pipeline (nk : nat) (kpb : Z) (s : pipe_state) : pipe_state :=
  Nat.iter nk (naive_step kpb) s.

End Pipeline.

Arguments pipe_state : clear implicits.

(** The initial state of [Run] (lines 188-363): both windows at K offset 0,
    registers and LDS holding [undef], the accumulator set to [zero] by
    [ThreadwiseDynamicTensorSliceSet_v1], no events. *)
Definition init_state {Tile Acc} (undef : Tile) (zero : Acc) : pipe_state Tile Acc :=
  mk_pipe 0 0 undef undef undef undef undef undef zero [].

(** The host's choice of the template flags, from the spec (section 4.5):
    the main loop runs when more than two K blocks remain, the double tail
    when the number of K blocks is even. *)
Definition HasMainKBlockLoop (K kpb : Z) : bool := 2 * kpb <? K.
Definition HasDoubleTailKBlockLoop (K kpb : Z) : bool := Z.even (K / kpb).

(** The [__global__] entry point [kernel_dynamic_gemm_v1r2] (lines 15-49):
    it calls [Run] with its two template flags, which declares the LDS
    block and runs the pipeline from the initial state. *)
Definition kernel_dynamic_gemm_v1r2 {Tile Acc} (load_a load_b : Z -> Tile) (gemm : Acc -> Tile -> Tile -> Acc)
    (undef : Tile) (zero : Acc) (g : gemm_config) (K : Z) (has_main has_double : bool)
    : option (pipe_state Tile Acc) :=
  run_pipeline load_a load_b gemm has_main has_double K (KPerBlock g) (init_state undef zero).

(** The kernel for a problem with [K] rows of A and B, the flags chosen by
    the host. *)
Definition gridwise_run {Tile Acc} (load_a load_b : Z -> Tile) (gemm : Acc -> Tile -> Tile -> Acc)
    (undef : Tile) (zero : Acc) (g : gemm_config) (K : Z) : option (pipe_state Tile Acc) :=
  kernel_dynamic_gemm_v1r2 load_a load_b gemm undef zero g K
    (HasMainKBlockLoop K (KPerBlock g)) (HasDoubleTailKBlockLoop K (KPerBlock g)).

(** ** Functional behaviour of the pipeline *)

Section PipelineFacts.

Context {Tile Acc : Type} (load_a load_b : Z -> Tile) (gemm : Acc -> Tile -> Tile -> Acc).
Context (kpb : Z).

(** The reference accumulator after the first [j] K blocks. *)
Definition ref_acc (c0 : Acc) (j : nat) : Acc :=
  fold_left (fun c i => gemm c (load_a (Z.of_nat i * kpb)) (load_b (Z.of_nat i * kpb)))
            (seq 0 j) c0.

(** The pipeline is "at block [j]": both windows at block [j], whose tiles
    are in the even LDS buffers, and blocks [0 .. j-1] accumulated. *)
Definition at_block (c0 : Acc) (j : nat) (s : pipe_state Tile Acc) : Prop :=
  a_window s = Z.of_nat j * kpb /\ b_window s = Z.of_nat j * kpb /\
  a_even s = load_a (Z.of_nat j * kpb) /\ b_even s = load_b (Z.of_nat j * kpb) /\
  c_thread_buf s = ref_acc c0 j.

Lemma ref_acc_S c0 j :
  ref_acc c0 (S j) = gemm (ref_acc c0 j) (load_a (Z.of_nat j * kpb)) (load_b (Z.of_nat j * kpb)).
Proof. unfold ref_acc. by rewrite seq_S, fold_left_app. Qed.

Lemma window_S j : Z.of_nat j * kpb + kpb = Z.of_nat (S j) * kpb.
Proof. lia. Qed.

Lemma preload_at_block (undef : Tile) (zero : Acc) :
  at_block zero 0 (preload load_a load_b (init_state undef zero)).
Proof. repeat split. Qed.

Lemma main_body_at_block c0 j s :
  at_block c0 j s -> at_block c0 (S (S j)) (main_body load_a load_b gemm kpb s).
Proof.
  destruct s as [aw bw ar br ae ao be bo c ev]. intros (Ha & Hb & Hae & Hbe & Hc).
  cbn -[ref_acc] in *. subst. unfold at_block. cbn -[ref_acc]. rewrite !window_S. repeat split.
  by rewrite !ref_acc_S.
Qed.

Lemma main_body_iter_at_block c0 j n s :
  at_block c0 j s -> at_block c0 (j + 2 * n) (Nat.iter n (main_body load_a load_b gemm kpb) s).
Proof.
  revert j s. induction n as [|n IH]; intros j s H; simpl; [by rewrite Nat.add_0_r|].
  replace (j + S (n + S (n + 0)))%nat with (S (S (j + 2 * n))) by lia.
  apply main_body_at_block, IH, H.
Qed.

Lemma single_tail_acc c0 j s :
  at_block c0 j s -> c_thread_buf (single_tail gemm s) = ref_acc c0 (S j).
Proof.
  destruct s as [aw bw ar br ae ao be bo c ev]. intros (Ha & Hb & Hae & Hbe & Hc).
  cbn -[ref_acc] in *. subst. cbn -[ref_acc]. by rewrite ref_acc_S.
Qed.

Lemma double_tail_acc c0 j s :
  at_block c0 j s -> c_thread_buf (double_tail load_a load_b gemm kpb s) = ref_acc c0 (S (S j)).
Proof.
  destruct s as [aw bw ar br ae ao be bo c ev]. intros (Ha & Hb & Hae & Hbe & Hc).
  cbn -[ref_acc] in *. subst. cbn -[ref_acc]. rewrite !window_S, !ref_acc_S. done.
Qed.

Lemma naive_at_block (undef : Tile) (zero : Acc) n :
  a_window (naive_pipeline load_a load_b gemm n kpb (init_state undef zero)) = Z.of_nat n * kpb /\
  b_window (naive_pipeline load_a load_b gemm n kpb (init_state undef zero)) = Z.of_nat n * kpb /\
  c_thread_buf (naive_pipeline load_a load_b gemm n kpb (init_state undef zero)) = ref_acc zero n.
Proof.
  induction n as [|n IH]; [done|]. unfold naive_pipeline in *. simpl Nat.iter.
  destruct (Nat.iter n _ _) as [aw bw ar br ae ao be bo c ev]. simpl in *.
  destruct IH as (-> & -> & ->). rewrite !window_S, ref_acc_S. done.
Qed.

(** The do-while loop runs [S m] times when the test fails exactly after
    the [S m]-th body. *)
Lemma main_loop_runs K fuel (m : nat) k s :
  (m <= fuel)%nat ->
  (forall i, (i < m)%nat -> k + 2 * kpb * Z.of_nat (S i) < K - 2 * kpb) ->
  K - 2 * kpb <= k + 2 * kpb * Z.of_nat (S m) ->
  main_loop load_a load_b gemm fuel K kpb k s =
  Some (Nat.iter (S m) (main_body load_a load_b gemm kpb) s).
Proof.
  revert fuel k s. induction m as [|m IH]; intros [|fuel] k s Hf Hlt Hge; simpl.
  - replace (k + 2 * kpb <? K - 2 * kpb) with false by lia. done.
  - replace (k + 2 * kpb <? K - 2 * kpb) with false by lia. done.
  - lia.
  - pose proof (Hlt O ltac:(lia)) as H0.
    replace (k + 2 * kpb <? K - 2 * kpb) with true by lia.
    rewrite IH; [|lia| |].
    + f_equal. rewrite <- Nat.iter_succ_r. reflexivity.
    + intros i Hi. specialize (Hlt (S i) ltac:(lia)). lia.
    + lia.
Qed.

End PipelineFacts.

Section RunFacts.

Context {Tile Acc : Type} (load_a load_b : Z -> Tile) (gemm : Acc -> Tile -> Tile -> Acc).
Context (undef : Tile) (zero : Acc).

(** Enough fuel: the loop's [None] branch is unreachable when the fuel
    covers the remaining repetitions. *)
Lemma main_loop_some kpb K fuel k s :
  0 < kpb -> K - 4 * kpb <= k + (2 * kpb) * Z.of_nat fuel ->
  main_loop load_a load_b gemm fuel K kpb k s <> None.
Proof.
  intros Hk. revert k s. induction fuel as [|fuel IH]; intros k s Hf; simpl.
  - case_match; [lia|done].
  - case_match; [apply IH; lia|done].
Qed.

Lemma main_loop_fuel_enough kpb K :
  0 < kpb -> K - 4 * kpb <= 0 + (2 * kpb) * Z.of_nat (main_loop_fuel K kpb).
Proof.
  intros Hk. unfold main_loop_fuel. set (d := 2 * kpb).
  pose proof (Z.mul_succ_div_gt K d ltac:(lia)) as Hq.
  destruct (Z_le_gt_dec 0 (K / d)) as [Hpos|Hneg].
  - rewrite Z2Nat.id by done. unfold Z.succ in Hq. lia.
  - pose proof (Nat2Z.is_nonneg (Z.to_nat (K / d))). unfold Z.succ in Hq. nia.
Qed.

Lemma div_blocks nk kpb : 0 < kpb -> Z.of_nat nk * kpb / (2 * kpb) = Z.of_nat nk / 2.
Proof. intros. apply Z.div_mul_cancel_r; lia. Qed.

Lemma even_blocks nk kpb : 0 < kpb -> Z.even (Z.of_nat nk * kpb / kpb) = Nat.even nk.
Proof. intros. rewrite Z.div_mul by lia. apply Z_even_of_nat. Qed.

(** [Run] with the host's flags accumulates exactly the [nk] K blocks, in
    order. *)
Lemma gridwise_run_ref (g : gemm_config) (nk : nat) :
  0 < KPerBlock g -> (1 <= nk)%nat ->
  exists s, gridwise_run load_a load_b gemm undef zero g (Z.of_nat nk * KPerBlock g) = Some s /\
            c_thread_buf s = ref_acc load_a load_b gemm (KPerBlock g) zero nk.
Proof.
  intros Hk Hn. set (kpb := KPerBlock g). fold kpb in Hk.
  unfold gridwise_run, kernel_dynamic_gemm_v1r2, run_pipeline, HasMainKBlockLoop, HasDoubleTailKBlockLoop. fold kpb.
  rewrite even_blocks by done.
  pose proof (preload_at_block load_a load_b gemm kpb undef zero) as H0.
  destruct (Nat.Even_or_Odd nk) as [[q Hq] | [q Hq]]; subst nk.
  - (* an even number of blocks: the double tail *)
    replace (Nat.even (2 * q)) with true by (symmetry; apply Nat.even_spec; by exists q).
    destruct (Z.ltb_spec (2 * kpb) (Z.of_nat (2 * q) * kpb)) as [Hm|Hm].
    + assert (2 <= q)%nat by nia. rewrite (main_loop_runs load_a load_b gemm kpb _ _ (q - 2)).
      * eexists. split; [reflexivity|].
        erewrite double_tail_acc by (apply main_body_iter_at_block, H0). f_equal. lia.
      * unfold main_loop_fuel. rewrite div_blocks by done.
        replace (Z.of_nat (2 * q)) with (Z.of_nat q * 2) by lia.
        rewrite Z.div_mul, Nat2Z.id by lia. lia.
      * intros i Hi. nia.
      * nia.
    + assert (q = 1)%nat by nia. subst q. eexists. split; [reflexivity|].
      by erewrite double_tail_acc by exact H0.
  - (* an odd number of blocks: the single tail *)
    replace (Nat.even (2 * q + 1)) with false
      by (rewrite Nat.add_1_r, Nat.even_succ, <- Nat.negb_even, Nat.even_mul; done).
    destruct (Z.ltb_spec (2 * kpb) (Z.of_nat (2 * q + 1) * kpb)) as [Hm|Hm].
    + assert (1 <= q)%nat by nia. rewrite (main_loop_runs load_a load_b gemm kpb _ _ (q - 1)).
      * eexists. split; [reflexivity|].
        erewrite single_tail_acc by (apply main_body_iter_at_block, H0). f_equal. lia.
      * unfold main_loop_fuel. rewrite div_blocks by done.
        replace (Z.of_nat (2 * q + 1)) with (1 + Z.of_nat q * 2) by lia.
        rewrite Z.div_add by lia. change (1 / 2) with 0. rewrite Z.add_0_l, Nat2Z.id. lia.
      * intros i Hi. nia.
      * nia.
    + assert (q = 0)%nat by nia. subst q. eexists. split; [reflexivity|].
      by erewrite single_tail_acc by exact H0.
Qed.

End RunFacts.

(** ** The pipeline as a state machine

    The control flow of [Run] (lines 365-473) as a step relation on the
    phases of the spec (section 5): [PRELOAD], then the do-while loop, whose
    phase [MAIN_LOOP k] is about to run the body with [k_block_data_begin =
    k], then [TAIL] and [DONE]. *)
Inductive phase := PRELOAD | MAIN_LOOP (k : Z) | TAIL | DONE.

(** Two runs of a deterministic relation from one state are prefixes of
    one another. *)
Lemma rtc_det_comparable {A} (R : relation A) (Hdet : forall x y z, R x y -> R x z -> y = z) x y z :
  rtc R x y -> rtc R x z -> rtc R y z \/ rtc R z y.
Proof.
  intros Hxy. revert z. induction Hxy as [x|x x1 y H1 Hx1y IH]; intros z Hxz; [by left|].
  destruct Hxz as [|x x2 z H2 Hz]; [right; exact (rtc_l _ _ _ _ H1 Hx1y)|].
  rewrite (Hdet _ _ _ H1 H2) in IH. by apply IH.
Qed.

Section Machine.

Context {Tile Acc : Type} (load_a load_b : Z -> Tile) (gemm : Acc -> Tile -> Tile -> Acc).
Variables (has_main has_double : bool) (K kpb : Z).

Inductive run_step : phase * pipe_state Tile Acc -> phase * pipe_state Tile Acc -> Prop :=
| step_preload s :
    run_step (PRELOAD, s) (if has_main then MAIN_LOOP 0 else TAIL, preload load_a load_b s)
| step_main k s :
    run_step (MAIN_LOOP k, s)
             (if k + 2 * kpb <? K - 2 * kpb then MAIN_LOOP (k + 2 * kpb) else TAIL,
              main_body load_a load_b gemm kpb s)
| step_tail s :
    run_step (TAIL, s) (DONE, if has_double then double_tail load_a load_b gemm kpb s else single_tail gemm s).

(** What holds in each phase, for an accumulator that started at [c0]: in
    the loop the counter [k] is the K offset of both source windows, whose
    block [j] sits in the even LDS buffers with blocks [0 .. j-1]
    accumulated; at [DONE] the blocks up to the windows' one are. *)
Definition pipe_inv (c0 : Acc) (st : phase * pipe_state Tile Acc) : Prop :=
  match st with
  | (PRELOAD, s) => a_window s = 0 /\ b_window s = 0 /\ c_thread_buf s = c0
  | (MAIN_LOOP k, s) => exists j, k = Z.of_nat j * kpb /\ at_block load_a load_b gemm kpb c0 j s
  | (TAIL, s) => exists j, at_block load_a load_b gemm kpb c0 j s
  | (DONE, s) => exists j, a_window s = Z.of_nat j * kpb /\ b_window s = Z.of_nat j * kpb /\
                           c_thread_buf s = ref_acc load_a load_b gemm kpb c0 (S j)
  end.

Lemma preload_inv s :
  a_window s = 0 -> b_window s = 0 -> at_block load_a load_b gemm kpb (c_thread_buf s) 0 (preload load_a load_b s).
Proof. destruct s. simpl. intros -> ->. repeat split. Qed.

Lemma run_step_inv c0 st st' : run_step st st' -> pipe_inv c0 st -> pipe_inv c0 st'.
Proof.
  destruct 1 as [s|k s|s]; cbn [pipe_inv].
  - intros (Ha & Hb & Hc). pose proof (preload_inv s Ha Hb) as H. rewrite Hc in H.
    destruct has_main; cbn [pipe_inv]; exists O; [split; [reflexivity|]|]; exact H.
  - intros (j & -> & Hj). apply (main_body_at_block load_a load_b gemm) in Hj.
    destruct (_ <? _); cbn [pipe_inv]; exists (S (S j)); [split; [lia|]|]; exact Hj.
  - intros (j & Hj). destruct has_double; cbn [pipe_inv].
    + exists (S j). pose proof (double_tail_acc load_a load_b gemm kpb c0 j s Hj) as Hc.
      destruct s, Hj as (Ha & Hb & _). cbn -[ref_acc] in Ha, Hb |- *. split_and!; [lia|lia|exact Hc].
    + exists j. pose proof (single_tail_acc load_a load_b gemm kpb c0 j s Hj) as Hc.
      destruct s, Hj as (Ha & Hb & _). split_and!; [exact Ha|exact Hb|exact Hc].
Qed.

(** The function [main_loop] runs the relation's loop steps. *)
Lemma main_loop_steps fuel k s s' :
  main_loop load_a load_b gemm fuel K kpb k s = Some s' -> rtc run_step (MAIN_LOOP k, s) (TAIL, s').
Proof.
  revert k s. induction fuel as [|fuel IH]; intros k s; simpl;
    case_match eqn:E; intros H; try discriminate H; try injection H as <-.
  - apply rtc_once. generalize (step_main k s). by rewrite E.
  - eapply rtc_l; [apply step_main|]. rewrite E. by apply IH.
  - apply rtc_once. generalize (step_main k s). by rewrite E.
Qed.

(** [run_pipeline] refines the machine: its result is a [DONE] state. *)
Lemma run_pipeline_steps s s' :
  run_pipeline load_a load_b gemm has_main has_double K kpb s = Some s' -> rtc run_step (PRELOAD, s) (DONE, s').
Proof.
  unfold run_pipeline. destruct has_main eqn:Hm.
  - destruct (main_loop _ _ _ _ _ _ _ _) as [s1|] eqn:E; [|discriminate]. intros [= <-].
    eapply rtc_l; [apply step_preload|]. rewrite Hm.
    eapply rtc_trans; [eapply main_loop_steps; exact E|]. apply rtc_once, step_tail.
  - intros [= <-]. eapply rtc_l; [apply step_preload|]. rewrite Hm. apply rtc_once, step_tail.
Qed.

(** The machine is deterministic, and [DONE] has no successor. *)
Lemma run_step_det st st1 st2 : run_step st st1 -> run_step st st2 -> st1 = st2.
Proof. destruct 1; inversion 1; reflexivity. Qed.

Lemma done_rtc s st : rtc run_step (DONE, s) st -> st = (DONE, s).
Proof. inversion 1 as [|? ? ? Hs]; [reflexivity|inversion Hs]. Qed.

(** With [0 < kpb] each loop step moves [k] up by [2 * kpb], so the loop
    reaches [TAIL] after at most [K - k] steps. *)
Lemma loop_reaches_tail (Hk : 0 < kpb) n : forall k s,
  (Z.to_nat (K - k) <= n)%nat -> exists s', rtc run_step (MAIN_LOOP k, s) (TAIL, s').
Proof.
  induction n as [|n IH]; intros k s Hn;
    destruct (k + 2 * kpb <? K - 2 * kpb) eqn:E;
    pose proof (Z.ltb_lt (k + 2 * kpb) (K - 2 * kpb)); pose proof (Z.ltb_ge (k + 2 * kpb) (K - 2 * kpb)).
  - lia.
  - eexists. apply rtc_once. generalize (step_main k s). by rewrite E.
  - destruct (IH (k + 2 * kpb) (main_body load_a load_b gemm kpb s)) as [s' Hs']; [lia|].
    exists s'. eapply rtc_l; [apply step_main|]. by rewrite E.
  - eexists. apply rtc_once. generalize (step_main k s). by rewrite E.
Qed.

Lemma run_step_reaches_done (Hk : 0 < kpb) st : exists s', rtc run_step st (DONE, s').
Proof.
  assert (Htail : forall s, exists s', rtc run_step (TAIL, s) (DONE, s'))
    by (intros s; eexists; apply rtc_once, step_tail).
  assert (Hloop : forall k s, exists s', rtc run_step (MAIN_LOOP k, s) (DONE, s')).
  { intros k s. destruct (loop_reaches_tail Hk _ k s (le_n _)) as [s1 H1].
    destruct (Htail s1) as [s2 H2]. exists s2. by eapply rtc_trans. }
  destruct st as [[| k | |] s]; [|apply Hloop|apply Htail|by exists s].
  destruct has_main eqn:Hm;
    [destruct (Hloop 0 (preload load_a load_b s)) as [s' H]|destruct (Htail (preload load_a load_b s)) as [s' H]];
    exists s'; (eapply rtc_l; [apply step_preload|]); by rewrite Hm.
Qed.

End Machine.

(** ** Barriers *)

(** Two events of a block's lanes conflict when one writes an LDS buffer
    the other reads with the blockwise GEMM (read after write, or write
    after read); lanes write different parts of a buffer, so two writes do
    not conflict. *)
Definition conflict (e1 e2 : event) : bool :=
  match e1, e2 with
  | EvWrite _ b1, EvGemm b2 | EvGemm b1, EvWrite _ b2 => bool_decide (b1 = b2)
  | _, _ => false
  end.

(** A trace is hazard free when a barrier separates every two conflicting
    events. *)
Definition hazard_free (tr : list event) : Prop :=
  forall i j e1 e2, (i < j)%nat -> tr !! i = Some e1 -> tr !! j = Some e2 ->
  conflict e1 e2 = true -> exists k, (i < k < j)%nat /\ tr !! k = Some EvSync.

(** The executable check: the buffers written and read since the last
    barrier. *)
Definition scan_step (st : option (list lds_buf * list lds_buf)) (e : event)
    : option (list lds_buf * list lds_buf) :=
  match st with
  | None => None
  | Some (pw, pr) =>
      match e with
      | EvSync => Some ([], [])
      | EvWrite _ b => if bool_decide (b ∈ pr) then None else Some (b :: pw, pr)
      | EvGemm b => if bool_decide (b ∈ pw) then None else Some (pw, b :: pr)
      | _ => Some (pw, pr)
      end
  end.

Definition barrier_safe (tr : list event) : bool :=
  match fold_left scan_step tr (Some ([], [])) with Some _ => true | None => false end.

Section Barriers.

Lemma scan_none tr : fold_left scan_step tr None = None.
Proof. induction tr; simpl; auto. Qed.

Lemma hazard_free_cons e tr :
  hazard_free tr ->
  (forall j e2, tr !! j = Some e2 -> conflict e e2 = true ->
     exists k, (k < j)%nat /\ tr !! k = Some EvSync) ->
  hazard_free (e :: tr).
Proof.
  intros Hh He [|i] [|j] e1 e2 Hij; simpl; try lia.
  - intros [= <-] Hj Hc. destruct (He j e2 Hj Hc) as (k & Hk & Hk').
    exists (S k). split; [lia|done].
  - intros Hi Hj Hc. destruct (Hh i j e1 e2) as (k & Hk & Hk'); auto; [lia|].
    exists (S k). split; [lia|done].
Qed.

Lemma sync_shift e tr j :
  (exists k, (k < j)%nat /\ tr !! k = Some EvSync) ->
  exists k, (k < S j)%nat /\ (e :: tr) !! k = Some EvSync.
Proof. intros (k & Hk & Hk'). exists (S k). split; [lia|done]. Qed.

(** Soundness of the check, generalised to pending buffers [pw], [pr]. *)
Lemma scan_sound pw pr tr :
  fold_left scan_step tr (Some (pw, pr)) <> None ->
  (forall j b, tr !! j = Some (EvGemm b) -> b ∈ pw ->
     exists k, (k < j)%nat /\ tr !! k = Some EvSync) /\
  (forall j o b, tr !! j = Some (EvWrite o b) -> b ∈ pr ->
     exists k, (k < j)%nat /\ tr !! k = Some EvSync) /\
  hazard_free tr.
Proof.
  revert pw pr. induction tr as [|e tr IH]; intros pw pr Hs.
  { split; [|split]; intros ?; done. }
  destruct e as [o|o|o b| |b]; simpl in Hs.
  - destruct (IH pw pr Hs) as (Hg & Hw & Hh). split; [|split].
    + intros [|j] b' Hj Hin; [done|]. apply sync_shift. by apply (Hg j b').
    + intros [|j] o' b' Hj Hin; [done|]. apply sync_shift. by apply (Hw j o' b').
    + apply hazard_free_cons; [done|]. intros j e2 _ Hc. done.
  - destruct (IH pw pr Hs) as (Hg & Hw & Hh). split; [|split].
    + intros [|j] b' Hj Hin; [done|]. apply sync_shift. by apply (Hg j b').
    + intros [|j] o' b' Hj Hin; [done|]. apply sync_shift. by apply (Hw j o' b').
    + apply hazard_free_cons; [done|]. intros j e2 _ Hc. done.
  - destruct (bool_decide (b ∈ pr)) eqn:Hb; [by rewrite scan_none in Hs|].
    apply bool_decide_eq_false in Hb.
    destruct (IH (b :: pw) pr Hs) as (Hg & Hw & Hh). split; [|split].
    + intros [|j] b' Hj Hin; [done|]. apply sync_shift. apply (Hg j b'); [done|set_solver].
    + intros [|j] o' b' Hj Hin; [simpl in Hj; simplify_eq; set_solver|].
      apply sync_shift. by apply (Hw j o' b').
    + apply hazard_free_cons; [done|]. intros j [] Hj Hc; try done.
      simpl in Hc. apply bool_decide_eq_true in Hc. subst. apply (Hg j _ Hj). set_solver.
  - destruct (IH [] [] Hs) as (Hg & Hw & Hh). split; [|split].
    + intros [|j] b' Hj Hin; [done|]. exists O. split; [lia|done].
    + intros [|j] o' b' Hj Hin; [done|]. exists O. split; [lia|done].
    + apply hazard_free_cons; [done|]. intros j e2 _ Hc. done.
  - destruct (bool_decide (b ∈ pw)) eqn:Hb; [by rewrite scan_none in Hs|].
    apply bool_decide_eq_false in Hb.
    destruct (IH pw (b :: pr) Hs) as (Hg & Hw & Hh). split; [|split].
    + intros [|j] b' Hj Hin; [simpl in Hj; simplify_eq; set_solver|].
      apply sync_shift. by apply (Hg j b').
    + intros [|j] o' b' Hj Hin; [done|]. apply sync_shift. apply (Hw j o' b'); [done|set_solver].
    + apply hazard_free_cons; [done|]. intros j [] Hj Hc; try done.
      simpl in Hc. apply bool_decide_eq_true in Hc. subst. apply (Hw j _ _ Hj). set_solver.
Qed.

Lemma barrier_safe_sound tr : barrier_safe tr = true -> hazard_free tr.
Proof.
  unfold barrier_safe. intros H. apply (scan_sound [] []).
  by destruct (fold_left scan_step tr (Some ([], []))).
Qed.

End Barriers.

(** ** The event trace of [Run] *)

Definition preload_events : list event :=
  [EvRead OpA; EvRead OpB; EvWrite OpA EvenBuf; EvWrite OpB EvenBuf].

Definition half_events (cur nxt : lds_buf) : list event :=
  [EvMove OpA; EvMove OpB; EvSync; EvRead OpA; EvRead OpB; EvGemm cur;
   EvWrite OpA nxt; EvWrite OpB nxt].

Definition body_events : list event := half_events EvenBuf OddBuf ++ half_events OddBuf EvenBuf.

Definition double_tail_events : list event :=
  [EvMove OpA; EvMove OpB; EvSync; EvRead OpA; EvRead OpB; EvGemm EvenBuf;
   EvWrite OpA OddBuf; EvWrite OpB OddBuf; EvSync; EvGemm OddBuf].

Definition single_tail_events : list event := [EvSync; EvGemm EvenBuf].

Section Traces.

Context {Tile Acc : Type} (load_a load_b : Z -> Tile) (gemm : Acc -> Tile -> Tile -> Acc).
Context (kpb : Z).

Ltac trace_eq :=
  match goal with s : pipe_state _ _ |- _ => destruct s end; cbn; by rewrite <- !app_assoc.

Lemma events_preload (s : pipe_state Tile Acc) : events (preload load_a load_b s) = events s ++ preload_events.
Proof. trace_eq. Qed.

Lemma events_main_body (s : pipe_state Tile Acc) :
  events (main_body load_a load_b gemm kpb s) = events s ++ body_events.
Proof. trace_eq. Qed.

Lemma events_double_tail (s : pipe_state Tile Acc) :
  events (double_tail load_a load_b gemm kpb s) = events s ++ double_tail_events.
Proof. trace_eq. Qed.

Lemma events_single_tail (s : pipe_state Tile Acc) : events (single_tail gemm s) = events s ++ single_tail_events.
Proof. trace_eq. Qed.

Lemma events_iter n (s : pipe_state Tile Acc) :
  events (Nat.iter n (main_body load_a load_b gemm kpb) s) =
  events s ++ concat (repeat body_events n).
Proof.
  induction n as [|n IH]; [simpl; by rewrite app_nil_r|].
  rewrite Nat.iter_succ, events_main_body, IH, <- app_assoc. f_equal.
  clear IH. induction n as [|n IH]; cbn [concat repeat] in *; [by rewrite ?app_nil_r|].
  by rewrite <- app_assoc, IH.
Qed.

(** Every result of the do-while loop is some number of repetitions of its
    body. *)
Lemma main_loop_iter fuel K k (s s' : pipe_state Tile Acc) :
  main_loop load_a load_b gemm fuel K kpb k s = Some s' ->
  exists n, s' = Nat.iter n (main_body load_a load_b gemm kpb) s.
Proof.
  revert k s. induction fuel as [|fuel IH]; intros k s; simpl; case_match; try done.
  - intros [= <-]. by exists 1%nat.
  - intros Hl. destruct (IH _ _ Hl) as [n ->]. exists (S n). by rewrite Nat.iter_succ_r.
  - intros [= <-]. by exists 1%nat.
Qed.

End Traces.

(** The scan of each phase, from any pending state: every phase after the
    preload starts with a barrier. *)
Definition after_body : option (list lds_buf * list lds_buf) := Some ([EvenBuf; EvenBuf], [OddBuf]).

Lemma scan_body st : st <> None -> fold_left scan_step body_events st = after_body.
Proof. destruct st as [[pw pr]|]; [done|done]. Qed.

Lemma scan_bodies n st :
  st <> None -> fold_left scan_step (concat (repeat body_events n)) st =
                if n is O then st else after_body.
Proof.
  revert st. induction n as [|n IH]; intros st Hst; [done|].
  cbn [concat repeat]. rewrite fold_left_app, scan_body by done. rewrite IH by done. by destruct n.
Qed.

Lemma scan_tail st tr :
  tr = double_tail_events \/ tr = single_tail_events -> st <> None ->
  fold_left scan_step tr st <> None.
Proof. intros [-> | ->]; destruct st as [[pw pr]|]; done. Qed.

Section PipelineTheorems.

Context {Tile Acc : Type} (load_a load_b : Z -> Tile) (gemm : Acc -> Tile -> Tile -> Acc).
Context (undef : Tile) (zero : Acc) (g : gemm_config).

(** C5: double-buffer equivalence.  For every number [nk >= 1] of K blocks,
    [Run] with the host's [HasMainKBlockLoop] and [HasDoubleTailKBlockLoop]
    returns, and its accumulator is the one of the naive single-buffered
    pipeline over the same blocks: the same [blockwise_gemm.Run] calls on
    the same tiles in the same order, hence bit-identical for every value
    type and accumulation. *)
Theorem gridwise_run_naive_equiv (nk : nat) :
  0 < KPerBlock g -> (1 <= nk)%nat ->
  exists s, gridwise_run load_a load_b gemm undef zero g (Z.of_nat nk * KPerBlock g) = Some s /\
            c_thread_buf s =
            c_thread_buf (naive_pipeline load_a load_b gemm nk (KPerBlock g) (init_state undef zero)).
Proof.
  intros Hk Hn. destruct (gridwise_run_ref load_a load_b gemm undef zero g nk Hk Hn) as (s & Hs & Hc).
  exists s. split; [done|]. rewrite Hc. symmetry. apply naive_at_block.
Qed.

(** C6: the do-while main loop terminates: with the fuel [K / (2 *
    KPerBlock)] its out-of-fuel branch is never taken, for every [K] and
    every start state. *)
Theorem main_loop_terminates K (s : pipe_state Tile Acc) :
  0 < KPerBlock g ->
  main_loop load_a load_b gemm (main_loop_fuel K (KPerBlock g)) K (KPerBlock g) 0 s <> None.
Proof. intros Hk. apply main_loop_some; [done|]. by apply main_loop_fuel_enough. Qed.

(** C7: barrier safety.  For every [K], the event trace of [Run] separates
    every write of an LDS buffer and every blockwise GEMM reading it (in
    either order) by a [__syncthreads()]. *)
Theorem gridwise_run_hazard_free K :
  0 < KPerBlock g ->
  exists s, gridwise_run load_a load_b gemm undef zero g K = Some s /\ hazard_free (events s).
Proof.
  intros Hk. unfold gridwise_run, kernel_dynamic_gemm_v1r2, run_pipeline.
  set (s0 := preload load_a load_b (init_state undef zero)).
  assert (Hs0 : events s0 = preload_events) by (subst s0; by rewrite events_preload).
  assert (Hloop : exists n, (if HasMainKBlockLoop K (KPerBlock g)
                  then main_loop load_a load_b gemm (main_loop_fuel K (KPerBlock g)) K (KPerBlock g) 0 s0
                  else Some s0) = Some (Nat.iter n (main_body load_a load_b gemm (KPerBlock g)) s0)).
  { destruct (HasMainKBlockLoop _ _); [|by exists O].
    destruct (main_loop _ _ _ _ _ _ _ s0) as [s'|] eqn:E.
    - destruct (main_loop_iter _ _ _ _ _ _ _ _ _ E) as [n ->]. by exists n.
    - exfalso. by apply (main_loop_terminates K s0). }
  destruct Hloop as [n ->]. eexists. split; [reflexivity|].
  apply barrier_safe_sound. unfold barrier_safe.
  assert (Hpre : fold_left scan_step (preload_events ++ concat (repeat body_events n)) (Some ([], []))
                 <> None).
  { rewrite fold_left_app, scan_bodies by done. by destruct n. }
  rewrite fold_left_app in Hpre.
  destruct (HasDoubleTailKBlockLoop _ _);
    [rewrite events_double_tail | rewrite events_single_tail];
    rewrite events_iter, Hs0, !fold_left_app.
  all: match goal with |- match ?x with _ => _ end = true => destruct x eqn:E end; [done|].
  all: exfalso; refine (scan_tail _ _ _ Hpre E); tauto.
Qed.

End PipelineTheorems.

(** ** The scratchpad layout *)

(** Consecutive ranges [(offset, length)] do not overlap. *)
Fixpoint ranges_disjoint (l : list (Z * Z)) : bool :=
  match l with
  | (o1, n1) :: ((o2, _) :: _) as t => (o1 + n1 <=? o2) && ranges_disjoint t
  | _ => true
  end.

(** The tiling configuration's lengths and vector widths are positive. *)
Definition gemm_config_pos (g : gemm_config) : bool :=
  (0 <? MPerBlock g) && (0 <? NPerBlock g) && (0 <? KPerBlock g) && (0 <? M1PerThread g) &&
  (0 <? N1PerThread g) && (0 <? ABlockTransferDstScalarPerVector_M g) &&
  (0 <? BBlockTransferDstScalarPerVector_N g).

Section Layout.

Lemma lcm_pos a b : 0 < a -> 0 < b -> 0 < Z.lcm a b.
Proof.
  intros Ha Hb. pose proof (Z.lcm_nonneg a b).
  destruct (Z.eq_dec (Z.lcm a b) 0) as [E|]; [|lia].
  apply Z.lcm_eq_0 in E. lia.
Qed.

Context (g : gemm_config) (Hg : gemm_config_pos g = true).

Lemma config_pos_facts :
  0 < MPerBlock g /\ 0 < NPerBlock g /\ 0 < KPerBlock g /\ 0 < max_lds_align g.
Proof.
  unfold gemm_config_pos in Hg. rewrite !andb_true_iff, !Z.ltb_lt in Hg.
  unfold max_lds_align. repeat split; try lia. repeat apply lcm_pos; lia.
Qed.

Lemma element_space_pos L1 :
  0 < L1 -> 0 < aligned_2d_element_space_size (KPerBlock g) L1 (max_lds_align g).
Proof.
  intros HL. destruct config_pos_facts as (_ & _ & HK & Ha). unfold aligned_2d_element_space_size.
  pose proof (integer_least_multiple_ge L1 (max_lds_align g) Ha). nia.
Qed.

End Layout.

(** C8: the four LDS buffers [Run] carves out of [p_shared_block]
    ([a_block_even_buf], [a_block_odd_buf], [b_block_even_buf],
    [b_block_odd_buf]) lie inside the [GetSharedMemoryNumberOfByte() /
    sizeof(FloatAB)] elements allocated, start on a multiple of
    [max_lds_align], and do not overlap. *)
Theorem lds_buffers_in_bounds (g : gemm_config) (size : Z) :
  gemm_config_pos g = true -> 0 < size ->
  ranges_disjoint (lds_buffers g) = true /\
  Forall (fun '(off, len) =>
            0 <= off /\ off + len <= GetSharedMemoryNumberOfByte g size / size /\
            off mod max_lds_align g = 0) (lds_buffers g).
Proof.
  intros Hg Hs. destruct (config_pos_facts g Hg) as (HM & HN & HK & Ha).
  pose proof (element_space_pos g Hg _ HM) as HeM. pose proof (element_space_pos g Hg _ HN) as HeN.
  unfold GetSharedMemoryNumberOfByte. rewrite Z.div_mul by lia.
  unfold lds_buffers, a_block_space_size, b_block_space_size.
  set (al := max_lds_align g) in *.
  set (ea := aligned_2d_element_space_size (KPerBlock g) (MPerBlock g) al) in *.
  set (eb := aligned_2d_element_space_size (KPerBlock g) (NPerBlock g) al) in *.
  pose proof (integer_least_multiple_ge ea al Ha). pose proof (integer_least_multiple_ge eb al Ha).
  pose proof (integer_least_multiple_mod ea al Ha) as Hma.
  pose proof (integer_least_multiple_mod eb al Ha) as Hmb.
  set (a := integer_least_multiple ea al) in *. set (b := integer_least_multiple eb al) in *.
  split.
  - simpl. repeat (apply andb_true_intro; split); try done; apply Z.leb_le; lia.
  - repeat constructor; try lia.
    + apply Z.mod_divide; [lia|]. apply Z.divide_mul_r, Z.mod_divide; [lia|done].
    + apply Z.mod_divide; [lia|].
      apply Z.divide_add_r; [apply Z.divide_mul_r|]; apply Z.mod_divide; auto; lia.
Qed.

(** ** Block tiles and grid descriptors *)

Section Tiling.

Lemma block_data_origin_eq g M0 N0 b :
  0 < MPerBlock g -> 0 < NPerBlock g ->
  block_data_origin g (M0 * MPerBlock g) (N0 * NPerBlock g) b =
  ((b / N0) * MPerBlock g, (b mod N0) * NPerBlock g).
Proof.
  intros HM HN. unfold block_data_origin, block_work_idx.
  rewrite !Z.div_mul by lia. cbn. by rewrite !Z.mul_1_r, Z.div_1_r.
Qed.

(** The lower index of [PassThrough(K)] and [Unmerge(L0, L1)]. *)
Definition pass_unmerge (L1 : Z) (up : list Z) : list Z :=
  match up with [k; x; y] => [k; x * L1 + y] | _ => [] end.

Lemma MakeAKM0M1GridDescriptor_eq g K M up :
  MakeAKM0M1GridDescriptor g K M up = pass_unmerge (MPerBlock g) up.
Proof.
  destruct up as [|k [|x [|y [|]]]]; try done. cbn. f_equal. f_equal. lia.
Qed.

Lemma MakeBKN0N1GridDescriptor_eq g K N up :
  MakeBKN0N1GridDescriptor g K N up = pass_unmerge (NPerBlock g) up.
Proof.
  destruct up as [|k [|x [|y [|]]]]; try done. cbn. f_equal. f_equal. lia.
Qed.

(** [pass_unmerge] is a bijection from the box [K x L0 x L1] onto the box
    [K x (L0 * L1)]. *)
Lemma pass_unmerge_bij K L0 L1 :
  0 < L1 ->
  (forall up, in_box [K; L0; L1] up -> in_box [K; L0 * L1] (pass_unmerge L1 up)) /\
  (forall low, in_box [K; L0 * L1] low ->
     exists up, in_box [K; L0; L1] up /\ pass_unmerge L1 up = low) /\
  (forall up1 up2, in_box [K; L0; L1] up1 -> in_box [K; L0; L1] up2 ->
     pass_unmerge L1 up1 = pass_unmerge L1 up2 -> up1 = up2).
Proof.
  intros HL. split; [|split].
  - intros up Hup. inversion Hup as [|? k ? up' Hk Hup']; subst.
    inversion Hup' as [|? x ? up'' Hx Hup'']; subst.
    inversion Hup'' as [|? y ? up3 Hy Hup3]; subst. inversion Hup3; subst.
    repeat constructor; nia.
  - intros low Hlow. inversion Hlow as [|? k ? low' Hk Hlow']; subst.
    inversion Hlow' as [|? m ? low'' Hm Hlow'']; subst. inversion Hlow''; subst.
    exists [k; m / L1; m mod L1]. split.
    + pose proof (Z.mod_pos_bound m L1 HL). repeat constructor; try lia.
      * apply Z.div_pos; lia.
      * apply Z.div_lt_upper_bound; lia.
    + simpl. f_equal. f_equal. rewrite Z.mul_comm. symmetry. apply Z.div_mod. lia.
  - intros up1 up2 H1 H2.
    inversion H1 as [|? k1 ? u1 _ H1']; subst. inversion H1' as [|? x1 ? u1' _ H1'']; subst.
    inversion H1'' as [|? y1 ? u1'' Hy1 H1''']; subst. inversion H1'''; subst.
    inversion H2 as [|? k2 ? u2 _ H2']; subst. inversion H2' as [|? x2 ? u2' _ H2'']; subst.
    inversion H2'' as [|? y2 ? u2'' Hy2 H2''']; subst. inversion H2'''; subst.
    simpl. intros [= -> E].
    destruct (Z_div_mod_unique_pos L1 x2 y2 (x1 * L1 + y1)) as [Hq Hr]; [lia|lia|lia|].
    destruct (Z_div_mod_unique_pos L1 x1 y1 (x1 * L1 + y1)) as [Hq' Hr']; [lia|lia|lia|].
    congruence.
Qed.

End Tiling.

(** C9: the block-to-tile map of [Run] ([block_work_idx] scaled by
    [MPerBlock], [NPerBlock]) gives the [M0 * N0] blocks pairwise distinct
    output tiles, each inside the [M x N] output and aligned to the tile
    sizes, and every tile to some block. *)
Theorem block_tiles_exactly_once g M0 N0 :
  0 < MPerBlock g -> 0 < NPerBlock g -> 0 < M0 -> 0 < N0 ->
  let M := M0 * MPerBlock g in let N := N0 * NPerBlock g in
  List.NoDup (map (fun b => block_data_origin g M N (Z.of_nat b)) (seq 0 (Z.to_nat (M0 * N0)))) /\
  (forall b, 0 <= b < M0 * N0 ->
     let '(om, on) := block_data_origin g M N b in
     0 <= om /\ om + MPerBlock g <= M /\ om mod MPerBlock g = 0 /\
     0 <= on /\ on + NPerBlock g <= N /\ on mod NPerBlock g = 0) /\
  (forall m0 n0, 0 <= m0 < M0 -> 0 <= n0 < N0 ->
     exists b, 0 <= b < M0 * N0 /\ block_data_origin g M N b = (m0 * MPerBlock g, n0 * NPerBlock g)).
Proof.
  intros HM HN HM0 HN0 M N. subst M N. split; [|split].
  - apply NoDup_map_on; [|apply seq_NoDup]. intros b1 b2 _ _ E.
    rewrite !block_data_origin_eq in E by done. injection E as E1 E2.
    apply Z.mul_cancel_r in E1, E2; try lia.
    pose proof (Z.div_mod (Z.of_nat b1) N0 ltac:(lia)).
    pose proof (Z.div_mod (Z.of_nat b2) N0 ltac:(lia)). lia.
  - intros b Hb. rewrite block_data_origin_eq by done.
    pose proof (Z.mod_pos_bound b N0 HN0).
    assert (0 <= b / N0 < M0) by (split; [apply Z.div_pos | apply Z.div_lt_upper_bound]; lia).
    rewrite !Z.mod_mul by lia. repeat split; nia.
  - intros m0 n0 Hm Hn. exists (m0 * N0 + n0). split; [nia|].
    rewrite block_data_origin_eq by done.
    destruct (Z_div_mod_unique_pos N0 m0 n0 (m0 * N0 + n0)) as [-> ->]; [lia|lia|lia|]. done.
Qed.

(** C10: [MakeAKM0M1GridDescriptor] maps a block-clusterised index
    [(k, m0, m1)] to [(k, m0 * MPerBlock + m1)]; when [M = M0 * MPerBlock]
    this is a bijection from [K x M0 x MPerBlock] onto [K x M]. *)
Theorem MakeAKM0M1GridDescriptor_bij g K M0 :
  0 < MPerBlock g ->
  let M := M0 * MPerBlock g in
  (forall k m0 m1, MakeAKM0M1GridDescriptor g K M [k; m0; m1] = [k; m0 * MPerBlock g + m1]) /\
  (forall up, in_box [K; M0; MPerBlock g] up -> in_box [K; M] (MakeAKM0M1GridDescriptor g K M up)) /\
  (forall low, in_box [K; M] low ->
     exists up, in_box [K; M0; MPerBlock g] up /\ MakeAKM0M1GridDescriptor g K M up = low) /\
  (forall up1 up2, in_box [K; M0; MPerBlock g] up1 -> in_box [K; M0; MPerBlock g] up2 ->
     MakeAKM0M1GridDescriptor g K M up1 = MakeAKM0M1GridDescriptor g K M up2 -> up1 = up2).
Proof.
  intros HM M. setoid_rewrite MakeAKM0M1GridDescriptor_eq.
  split; [done|]. apply pass_unmerge_bij, HM.
Qed.

(** The same for [MakeBKN0N1GridDescriptor] with [NPerBlock]. *)
Theorem MakeBKN0N1GridDescriptor_bij g K N0 :
  0 < NPerBlock g ->
  let N := N0 * NPerBlock g in
  (forall k n0 n1, MakeBKN0N1GridDescriptor g K N [k; n0; n1] = [k; n0 * NPerBlock g + n1]) /\
  (forall up, in_box [K; N0; NPerBlock g] up -> in_box [K; N] (MakeBKN0N1GridDescriptor g K N up)) /\
  (forall low, in_box [K; N] low ->
     exists up, in_box [K; N0; NPerBlock g] up /\ MakeBKN0N1GridDescriptor g K N up = low) /\
  (forall up1 up2, in_box [K; N0; NPerBlock g] up1 -> in_box [K; N0; NPerBlock g] up2 ->
     MakeBKN0N1GridDescriptor g K N up1 = MakeBKN0N1GridDescriptor g K N up2 -> up1 = up2).
Proof.
  intros HN N. setoid_rewrite MakeBKN0N1GridDescriptor_eq.
  split; [done|]. apply pass_unmerge_bij, HN.
Qed.

(** ** Witnesses on the spec's scenario: [M = N = 128], [K = 32],
    [MPerBlock = NPerBlock = 64], [KPerBlock = 8] *)

Definition ex_gemm : gemm_config :=
  {| MPerBlock := 64; NPerBlock := 64; KPerBlock := 8; M1PerThread := 4; N1PerThread := 4;
     ABlockTransferDstScalarPerVector_M := 4; BBlockTransferDstScalarPerVector_N := 4 |}.

(** The accumulator that records the tiles each [blockwise_gemm.Run] gets. *)
Definition ex_record (c : list (Z * Z)) (ta tb : Z) : list (Z * Z) := c ++ [(ta, tb)].

Example ex_run_K32 :
  option_map c_thread_buf (gridwise_run id id ex_record (-1) [] ex_gemm 32) =
  Some [(0, 0); (8, 8); (16, 16); (24, 24)].
Proof. vm_compute. reflexivity. Qed.

Example ex_run_K40_trace :
  option_map (fun s => barrier_safe (events s)) (gridwise_run id id ex_record (-1) [] ex_gemm 40) =
  Some true.
Proof. vm_compute. reflexivity. Qed.

(** C36: the invariant of the pipeline machine.  In every state reachable
    from [PRELOAD] with both source windows at K offset 0: in the loop the
    counter [k_block_data_begin] equals both windows' K offset [j *
    KPerBlock], block [j] is in the even LDS buffers and blocks [0 .. j-1]
    are accumulated; at [TAIL] the same holds for some [j]; and at [DONE]
    the accumulator holds blocks [0 .. j] where [j * KPerBlock] is the
    windows' final offset. *)
Theorem run_step_reachable_inv {Tile Acc} (load_a load_b : Z -> Tile) (gemm : Acc -> Tile -> Tile -> Acc)
    has_main has_double K kpb (s0 : pipe_state Tile Acc) st :
  a_window s0 = 0 -> b_window s0 = 0 ->
  rtc (run_step load_a load_b gemm has_main has_double K kpb) (PRELOAD, s0) st ->
  pipe_inv load_a load_b gemm kpb (c_thread_buf s0) st.
Proof.
  intros Ha Hb. revert st. apply rtc_ind_r; [done|].
  intros st1 st2 _ Hs IH. by eapply run_step_inv.
Qed.

(** C24. Liveness of [Run]'s control flow: when [KPerBlock] is positive,
    from every state of the PRELOAD / MAIN_LOOP / TAIL / DONE machine, with
    any loop flags and any K, the machine reaches a [DONE] state, and every
    run from that state stays on the way to that same [DONE] state (the
    machine is deterministic and [DONE] is final), so [Run] always
    finishes. *)
Theorem run_step_inevitably_done {Tile Acc} (load_a load_b : Z -> Tile) (gemm : Acc -> Tile -> Tile -> Acc)
    has_main has_double K kpb (st : phase * pipe_state Tile Acc) :
  0 < kpb ->
  exists s', rtc (run_step load_a load_b gemm has_main has_double K kpb) st (DONE, s') /\
             forall st', rtc (run_step load_a load_b gemm has_main has_double K kpb) st st' ->
                         rtc (run_step load_a load_b gemm has_main has_double K kpb) st' (DONE, s').
Proof.
  intros Hk. destruct (run_step_reaches_done load_a load_b gemm has_main has_double K kpb Hk st) as [s' Hs'].
  exists s'. split; [exact Hs'|]. intros st' Hst'.
  destruct (rtc_det_comparable _ (run_step_det load_a load_b gemm has_main has_double K kpb) _ _ _ Hst' Hs')
    as [H|H]; [exact H|].
  apply done_rtc in H as ->. apply rtc_refl.
Qed.

Lemma gridwise_run_naive_equiv_witness :
  0 < KPerBlock ex_gemm /\
  exists s, gridwise_run id id ex_record (-1) [] ex_gemm (Z.of_nat 4 * KPerBlock ex_gemm) = Some s /\
            c_thread_buf s =
            c_thread_buf (naive_pipeline id id ex_record 4 (KPerBlock ex_gemm) (init_state (-1) [])).
Proof. split; [reflexivity|]. apply (gridwise_run_naive_equiv id id ex_record (-1) [] ex_gemm 4); [reflexivity|lia]. Defined.

Lemma main_loop_terminates_witness :
  0 < KPerBlock ex_gemm /\
  main_loop id id ex_record (main_loop_fuel 32 (KPerBlock ex_gemm)) 32 (KPerBlock ex_gemm) 0
            (init_state (-1) []) <> None.
Proof. split; [reflexivity|]. apply (main_loop_terminates id id ex_record ex_gemm 32). reflexivity. Defined.

Lemma gridwise_run_hazard_free_witness :
  0 < KPerBlock ex_gemm /\
  exists s, gridwise_run id id ex_record (-1) [] ex_gemm 32 = Some s /\ hazard_free (events s).
Proof. split; [reflexivity|]. apply (gridwise_run_hazard_free id id ex_record (-1) [] ex_gemm 32). reflexivity. Defined.

Lemma lds_buffers_in_bounds_witness :
  gemm_config_pos ex_gemm = true /\ ranges_disjoint (lds_buffers ex_gemm) = true.
Proof. split; [reflexivity|]. apply (lds_buffers_in_bounds ex_gemm 4); [reflexivity|lia]. Defined.

Lemma block_tiles_exactly_once_witness :
  List.NoDup (map (fun b => block_data_origin ex_gemm (2 * MPerBlock ex_gemm) (2 * NPerBlock ex_gemm)
                              (Z.of_nat b)) (seq 0 (Z.to_nat (2 * 2)))).
Proof. apply (block_tiles_exactly_once ex_gemm 2 2); reflexivity. Defined.

Lemma MakeAKM0M1GridDescriptor_bij_witness :
  MakeAKM0M1GridDescriptor ex_gemm 32 (2 * MPerBlock ex_gemm) [3; 1; 5] = [3; 1 * MPerBlock ex_gemm + 5].
Proof. exact (proj1 (MakeAKM0M1GridDescriptor_bij ex_gemm 32 2 ltac:(reflexivity)) 3 1 5). Defined.

Lemma MakeBKN0N1GridDescriptor_bij_example :
  MakeBKN0N1GridDescriptor ex_gemm 32 (2 * NPerBlock ex_gemm) [3; 1; 5] = [3; 1 * NPerBlock ex_gemm + 5].
Proof. exact (proj1 (MakeBKN0N1GridDescriptor_bij ex_gemm 32 2 ltac:(reflexivity)) 3 1 5). Defined.

Lemma run_step_reachable_inv_witness :
  exists s, gridwise_run id id ex_record (-1) [] ex_gemm 40 = Some s /\
            pipe_inv id id ex_record (KPerBlock ex_gemm) [] (DONE, s).
Proof.
  destruct (gridwise_run id id ex_record (-1) [] ex_gemm 40) as [s|] eqn:E; [|vm_compute in E; discriminate E].
  exists s. split; [reflexivity|].
  apply (run_step_reachable_inv id id ex_record (HasMainKBlockLoop 40 (KPerBlock ex_gemm))
           (HasDoubleTailKBlockLoop 40 (KPerBlock ex_gemm)) 40 (KPerBlock ex_gemm) (init_state (-1) []));
    [reflexivity|reflexivity|].
  apply run_pipeline_steps. exact E.
Defined.

Lemma run_step_inevitably_done_witness :
  0 < KPerBlock ex_gemm /\
  exists s', rtc (run_step id id ex_record true false 40 (KPerBlock ex_gemm)) (PRELOAD, init_state (-1) []) (DONE, s') /\
             forall st', rtc (run_step id id ex_record true false 40 (KPerBlock ex_gemm)) (PRELOAD, init_state (-1) []) st' ->
                         rtc (run_step id id ex_record true false 40 (KPerBlock ex_gemm)) st' (DONE, s').
Proof. split; [reflexivity|]. apply run_step_inevitably_done. reflexivity. Defined.
