(* ===== verification/BlockwiseGemm.v ===== *)
(** * The blockwise GEMM: lane partition and the four [Run] variants

    Models [BlockwiseGemmBlockABlockBThreadCTransANormalBNormalC_v2]
    ([src/src/include/blockwise_gemm.hip.hpp]) over the matrix descriptor of
    [src/src/include/ConstantMatrixDescriptor.hip.hpp]: the constructor's
    static_asserts and thread offsets, [GetBeginOfThreadMatrixC] and
    [GetDistanceFromBeginOfThreadMatrixC] (the two-level cluster partition of
    the block's C tile among the lanes), and [Run], [Run_RegisterDoubleBuffer],
    [Run_PipelineReadAndCompute] and [Run_asm].  Memory is a function from
    element offsets to values; the lane's register arrays are such functions
    too, indexed from the array's start, so the code's pointer arithmetic
    ([p_a_thread + a_thread_mtx.Get1dIndex(...)]) is kept.  The value type
    [T], the product and the [Accumulator] [f_accum] are abstract.

    The theorems: the lanes' thread matrices partition the block's C tile
    (C12); [Run] computes, in each cell of the lane's tile, the in-order
    accumulation of its row of A and column of B (C13); [Run_asm],
    [Run_RegisterDoubleBuffer] and [Run_PipelineReadAndCompute] equal [Run]
    at every register under the layout the assembly hard-codes,
    [KPerThreadLoop = 1] and a packed C tile respectively (C14-C16); and,
    for every [KPerThreadLoop] dividing [K], [Run_RegisterDoubleBuffer]
    accumulates into each cell the GEMMs of chunks of [KPerThreadLoop] rows
    starting at rows [0, 1, KPerThreadLoop + 1, ...], so for
    [KPerThreadLoop > 1] some rows count twice and the last ones never
    (C17).  The proofs go cell by cell: a fold of point updates
    is read at one location through [fold_upd_point], and each loop is
    handled by an invariant over the indices done ([fold_zseq_inv],
    [cells_inv], [blocks_done]). *)

From S2P Require Import Prelude Transform.

(** ** [ConstantMatrixDescriptor] *)

Record matrix_desc := mk_mtx { NRow : Z; NCol : Z; RowStride : Z }.

(** The constructor's [static_assert(NCol_ <= RowStride_)]. *)
Definition matrix_desc_ok (d : matrix_desc) : bool := NCol d <=? RowStride d.

Definition GetElementSize (d : matrix_desc) : Z := NRow d * NCol d.
Definition GetElementSpace (d : matrix_desc) : Z := NRow d * RowStride d.

(** [GetOffsetFromMultiIndex(irow, icol)]; the blockwise GEMM calls it under
    the name [Get1dIndex]. *)
Definition GetOffsetFromMultiIndex (d : matrix_desc) (irow icol : Z) : Z :=
  irow * RowStride d + icol.

Definition MakeSubMatrixDescriptor (d : matrix_desc) (r c : Z) : matrix_desc :=
  mk_mtx r c (RowStride d).

(** [make_ConstantMatrixDescriptor(Number<NRow>, Number<NCol>[, Number<RowStride>])]. *)
Definition make_ConstantMatrixDescriptor (r c : Z) : matrix_desc := mk_mtx r c c.
Definition make_ConstantMatrixDescriptor_s (r c s : Z) : matrix_desc := mk_mtx r c s.

(** ** Configuration and lane partition *)

Record blockwise_config := {
  BlockSize : Z;
  BlockMatrixA : matrix_desc;
  BlockMatrixB : matrix_desc;
  ThreadMatrixC : matrix_desc;
  MPerThreadSubC : Z;
  NPerThreadSubC : Z;
  MLevel0Cluster : Z;
  NLevel0Cluster : Z;
  MLevel1Cluster : Z;
  NLevel1Cluster : Z;
  KPerThreadLoop : Z
}.

Section Derived.
Variable bc : blockwise_config.
Definition M : Z := NCol (BlockMatrixA bc).
Definition N : Z := NCol (BlockMatrixB bc).
Definition K : Z := NRow (BlockMatrixA bc).
Definition MPerThread : Z := NRow (ThreadMatrixC bc).
Definition NPerThread : Z := NCol (ThreadMatrixC bc).
Definition MRepeat : Z := MPerThread / MPerThreadSubC bc.
Definition NRepeat : Z := NPerThread / NPerThreadSubC bc.
Definition MPerLevel1Cluster : Z := MPerThreadSubC bc * MLevel0Cluster bc * MLevel1Cluster bc.
Definition NPerLevel1Cluster : Z := NPerThreadSubC bc * NLevel0Cluster bc * NLevel1Cluster bc.
End Derived.

(** The constructor's static_asserts (lines 30-74), with the positivity of
    the template's sizes that makes them meaningful. *)
Definition blockwise_ctor_ok (bc : blockwise_config) : bool :=
  let M := M bc in let N := N bc in let K := K bc in
  let MR := MPerThread bc / MPerThreadSubC bc in
  let NR := NPerThread bc / NPerThreadSubC bc in
  let MPerL1 := M / MR in let NPerL1 := N / NR in
  let MPerL0 := MPerL1 / MLevel1Cluster bc in let NPerL0 := NPerL1 / NLevel1Cluster bc in
  forallb (fun x => 0 <? x)
    [MPerThreadSubC bc; NPerThreadSubC bc; MLevel0Cluster bc; NLevel0Cluster bc;
     MLevel1Cluster bc; NLevel1Cluster bc; KPerThreadLoop bc; K; MPerThread bc; NPerThread bc] &&
  (BlockSize bc =? MLevel0Cluster bc * NLevel0Cluster bc * MLevel1Cluster bc * NLevel1Cluster bc) &&
  (NRow (BlockMatrixA bc) =? NRow (BlockMatrixB bc)) &&
  (MPerThread bc mod MPerThreadSubC bc =? 0) && (NPerThread bc mod NPerThreadSubC bc =? 0) &&
  (M mod MR =? 0) && (N mod NR =? 0) &&
  (MPerL1 mod MLevel1Cluster bc =? 0) && (NPerL1 mod NLevel1Cluster bc =? 0) &&
  (MPerL0 mod MLevel0Cluster bc =? 0) && (NPerL0 mod NLevel0Cluster bc =? 0) &&
  (MPerThreadSubC bc =? MPerL0 / MLevel0Cluster bc) &&
  (NPerThreadSubC bc =? NPerL0 / NLevel0Cluster bc) &&
  matrix_desc_ok (BlockMatrixA bc) && matrix_desc_ok (BlockMatrixB bc) &&
  matrix_desc_ok (ThreadMatrixC bc).

(** [GetBeginOfThreadMatrixC(thread_id)] (lines 82-99). *)
Definition GetBeginOfThreadMatrixC (bc : blockwise_config) (thread_id : Z) : Z * Z :=
  let ThreadPerLevel0Cluster := MLevel0Cluster bc * NLevel0Cluster bc in
  let level1_id := thread_id / ThreadPerLevel0Cluster in
  let level1_m_id := level1_id / NLevel1Cluster bc in
  let level1_n_id := level1_id mod NLevel1Cluster bc in
  let level0_id := thread_id mod ThreadPerLevel0Cluster in
  let level0_m_id := level0_id / NLevel0Cluster bc in
  let level0_n_id := level0_id mod NLevel0Cluster bc in
  let MPerLevel0Cluster := MPerThreadSubC bc * MLevel0Cluster bc in
  let NPerLevel0Cluster := NPerThreadSubC bc * NLevel0Cluster bc in
  (level1_m_id * MPerLevel0Cluster + level0_m_id * MPerThreadSubC bc,
   level1_n_id * NPerLevel0Cluster + level0_n_id * NPerThreadSubC bc).

(** [GetDistanceFromBeginOfThreadMatrixC(m_in_c, n_in_c)] (lines 101-124). *)
Definition GetDistanceFromBeginOfThreadMatrixC (bc : blockwise_config) (m_in_c n_in_c : Z) : Z * Z :=
  let m_repeat := m_in_c / MPerThreadSubC bc in
  let n_repeat := n_in_c / NPerThreadSubC bc in
  let m_in_sub_c := m_in_c mod MPerThreadSubC bc in
  let n_in_sub_c := n_in_c mod NPerThreadSubC bc in
  (m_repeat * MPerLevel1Cluster bc + m_in_sub_c, n_repeat * NPerLevel1Cluster bc + n_in_sub_c).

(** The element of the block's C tile held by lane [tid] at position
    [(m_in_c, n_in_c)] of its thread matrix. *)
Definition lane_cell (bc : blockwise_config) (tid m_in_c n_in_c : Z) : Z * Z :=
  let '(r0, c0) := GetBeginOfThreadMatrixC bc tid in
  let '(dr, dc) := GetDistanceFromBeginOfThreadMatrixC bc m_in_c n_in_c in
  (r0 + dr, c0 + dc).

(** The object: the constructor stores the lane's offsets into the A and B
    block matrices (lines 76-79). *)
Record blockwise_gemm := { mMyThreadOffsetA : Z; mMyThreadOffsetB : Z }.

Definition make_blockwise_gemm (bc : blockwise_config) (tid : Z) : blockwise_gemm :=
  let '(row, col) := GetBeginOfThreadMatrixC bc tid in
  {| mMyThreadOffsetA := GetOffsetFromMultiIndex (BlockMatrixA bc) 0 row;
     mMyThreadOffsetB := GetOffsetFromMultiIndex (BlockMatrixB bc) 0 col |}.

(** ** Loops and memory *)

(** [for (x = lo; x < hi; x += step)] with [step > 0]. *)
Definition for_range (lo hi step : Z) : list Z :=
  map (fun t => lo + step * t) (zseq ((hi - lo + step - 1) / step)).

Section Memory.

Context {T : Type}.
Variable mul : T -> T -> T.
(** [f_accum(c, x)]: the [Accumulator] updates [c] with [x]. *)
Variable f_accum : T -> T -> T.

(** [threadwise_matrix_copy(src_mtx, p_src, dst_mtx, p_dst, Sequence<NRow, NCol>)]
    with the pointers given as (array, start offset). *)
Definition threadwise_matrix_copy (src : matrix_desc) (p_src : Z -> T) (src_off : Z)
    (dst : matrix_desc) (p_dst : Z -> T) (dst_off : Z) (nrow ncol : Z) : Z -> T :=
  fold_left (fun p i =>
    fold_left (fun p j =>
      upd p (dst_off + GetOffsetFromMultiIndex dst i j)
            (p_src (src_off + GetOffsetFromMultiIndex src i j)))
      (zseq ncol) p)
    (zseq nrow) p_dst.

(** [threadwise_gemm(a_mtx, True, p_a, b_mtx, False, p_b, c_mtx, False, p_c, f_accum)]:
    [C[i][j] = f_accum(C[i][j], A[k][i] * B[k][j])] for [k], then [i], then [j]. *)
Definition threadwise_gemm (a : matrix_desc) (p_a : Z -> T) (a_off : Z)
    (b : matrix_desc) (p_b : Z -> T) (b_off : Z)
    (c : matrix_desc) (p_c : Z -> T) (c_off : Z) : Z -> T :=
  fold_left (fun p k =>
    fold_left (fun p i =>
      fold_left (fun p j =>
        let ci := c_off + GetOffsetFromMultiIndex c i j in
        upd p ci (f_accum (p ci) (mul (p_a (a_off + GetOffsetFromMultiIndex a k i))
                                      (p_b (b_off + GetOffsetFromMultiIndex b k j)))))
        (zseq (NCol c)) p)
      (zseq (NRow c)) p)
    (zseq (NRow a)) p_c.

End Memory.

(** ** The four [Run] variants *)

Section Runs.

Context {T : Type}.
Variable mul : T -> T -> T.
Variable f_accum : T -> T -> T.
(** [v_mac_f32 d, a, b]: [d = d + a * b]. *)
Variable mac : T -> T -> T -> T.
(** The content of a register array before it is written. *)
Variable undef : T.

Variable bc : blockwise_config.
Variable g : blockwise_gemm.

Definition a_thread_mtx : matrix_desc := make_ConstantMatrixDescriptor (KPerThreadLoop bc) (MPerThread bc).
Definition b_thread_mtx : matrix_desc := make_ConstantMatrixDescriptor (KPerThreadLoop bc) (NPerThread bc).
Definition a_thread_sub_mtx : matrix_desc :=
  make_ConstantMatrixDescriptor_s (KPerThreadLoop bc) (MPerThreadSubC bc) (MPerThread bc).
Definition b_thread_sub_mtx : matrix_desc :=
  make_ConstantMatrixDescriptor_s (KPerThreadLoop bc) (NPerThreadSubC bc) (NPerThread bc).
Definition c_thread_sub_mtx : matrix_desc :=
  make_ConstantMatrixDescriptor_s (MPerThreadSubC bc) (NPerThreadSubC bc) (NPerThread bc).

(** Copy the [m_repeat]-th A-sub of rows [k_begin ..] into [p_a_thread]
    (lines 770-779), and the [n_repeat]-th B-sub (lines 783-792). *)
Definition copy_a_sub (dst : matrix_desc) (p_a_block p_a_thread : Z -> T) (k_begin m_repeat : Z) :=
  threadwise_matrix_copy (BlockMatrixA bc) p_a_block
    (GetOffsetFromMultiIndex (BlockMatrixA bc) k_begin (m_repeat * MPerLevel1Cluster bc) +
     mMyThreadOffsetA g)
    dst p_a_thread (GetOffsetFromMultiIndex dst 0 (m_repeat * MPerThreadSubC bc))
    (NRow a_thread_sub_mtx) (NCol a_thread_sub_mtx).

Definition copy_b_sub (dst : matrix_desc) (p_b_block p_b_thread : Z -> T) (k_begin n_repeat : Z) :=
  threadwise_matrix_copy (BlockMatrixB bc) p_b_block
    (GetOffsetFromMultiIndex (BlockMatrixB bc) k_begin (n_repeat * NPerLevel1Cluster bc) +
     mMyThreadOffsetB g)
    dst p_b_thread (GetOffsetFromMultiIndex dst 0 (n_repeat * NPerThreadSubC bc))
    (NRow b_thread_sub_mtx) (NCol b_thread_sub_mtx).

(** [Run(p_a_block, p_b_block, p_c_thread, f_accum)] (lines 719-806). *)
Definition Run (p_a_block p_b_block p_c_thread : Z -> T) : Z -> T :=
  let '(_, _, p_c) :=
    fold_left (fun '(p_a_thread, p_b_thread, p_c) k_begin =>
        let p_a_thread := fold_left (fun p m_repeat => copy_a_sub a_thread_mtx p_a_block p k_begin m_repeat)
                                    (zseq (MRepeat bc)) p_a_thread in
        let p_b_thread := fold_left (fun p n_repeat => copy_b_sub b_thread_mtx p_b_block p k_begin n_repeat)
                                    (zseq (NRepeat bc)) p_b_thread in
        (p_a_thread, p_b_thread,
         threadwise_gemm mul f_accum a_thread_mtx p_a_thread 0 b_thread_mtx p_b_thread 0
                         (ThreadMatrixC bc) p_c 0))
      (for_range 0 (K bc) (KPerThreadLoop bc)) (fun _ => undef, fun _ => undef, p_c_thread) in
  p_c.

(** [Run_RegisterDoubleBuffer] (lines 808-943): the next A and B rows are
    read from [p_a_block + mMyThreadOffsetA + (k_begin + 1) * RowStride +
    m_repeat * MPerLevel1Cluster] while the current registers are used. *)
Definition copy_a_next (p_a_block p_a_thread : Z -> T) (row m_repeat : Z) :=
  threadwise_matrix_copy (BlockMatrixA bc) p_a_block
    (mMyThreadOffsetA g + row * RowStride (BlockMatrixA bc) + m_repeat * MPerLevel1Cluster bc)
    a_thread_sub_mtx p_a_thread (m_repeat * MPerThreadSubC bc)
    (NRow a_thread_sub_mtx) (NCol a_thread_sub_mtx).

Definition copy_b_next (p_b_block p_b_thread : Z -> T) (row n_repeat : Z) :=
  threadwise_matrix_copy (BlockMatrixB bc) p_b_block
    (mMyThreadOffsetB g + row * RowStride (BlockMatrixB bc) + n_repeat * NPerLevel1Cluster bc)
    b_thread_sub_mtx p_b_thread (n_repeat * NPerThreadSubC bc)
    (NRow b_thread_sub_mtx) (NCol b_thread_sub_mtx).

Definition Run_RegisterDoubleBuffer (p_a_block p_b_block p_c_thread : Z -> T) : Z -> T :=
  let gemm a b c := threadwise_gemm mul f_accum a_thread_mtx a 0 b_thread_mtx b 0 (ThreadMatrixC bc) c 0 in
  let a0 := fold_left (fun p m_repeat => copy_a_next p_a_block p 0 m_repeat)
                      (zseq (MRepeat bc)) (fun _ => undef) in
  let b0 := fold_left (fun p n_repeat => copy_b_next p_b_block p 0 n_repeat)
                      (zseq (NRepeat bc)) (fun _ => undef) in
  let '(a0, b0, a1, b1, p_c, even_loop) :=
    fold_left (fun (st : (Z -> T) * (Z -> T) * (Z -> T) * (Z -> T) * (Z -> T) * bool) k_begin =>
        let '(a0, b0, a1, b1, p_c, even_loop) := st in
        let '(a_now, b_now, a_next, b_next) :=
          if even_loop then (a0, b0, a1, b1) else (a1, b1, a0, b0) in
        let a_next := fold_left (fun p m_repeat => copy_a_next p_a_block p (k_begin + 1) m_repeat)
                                (zseq (MRepeat bc)) a_next in
        let b_next := fold_left (fun p n_repeat => copy_b_next p_b_block p (k_begin + 1) n_repeat)
                                (zseq (NRepeat bc)) b_next in
        let p_c := gemm a_now b_now p_c in
        if even_loop then (a_now, b_now, a_next, b_next, p_c, false)
        else (a_next, b_next, a_now, b_now, p_c, true))
      (for_range 0 (K bc - KPerThreadLoop bc) (KPerThreadLoop bc))
      (a0, b0, (fun _ => undef), (fun _ => undef), p_c_thread, true) in
  if even_loop then gemm a0 b0 p_c else gemm a1 b1 p_c.

(** [threadwise_gemm(a_thread_sub_mtx, True, p_a, b_thread_sub_mtx, False,
    p_b, c_thread_sub_mtx, False, p_c, f_accum)]: the GEMM of one
    [MPerThreadSubC x NPerThreadSubC] sub-block of the lane's C tile. *)
Definition gemm_sub (pa : Z -> T) (a_off : Z) (pb : Z -> T) (b_off : Z) (pc : Z -> T) (c_off : Z) :=
  threadwise_gemm mul f_accum a_thread_sub_mtx pa a_off b_thread_sub_mtx pb b_off c_thread_sub_mtx pc c_off.

(** One iteration of the [k_begin] loop of [Run_PipelineReadAndCompute]:
    copy A-sub 0 and B-sub 0, compute sub-block (0, 0); for each further
    [n_repeat], copy B-sub [n_repeat] and compute (0, [n_repeat]); for each
    further [m_repeat], copy A-sub [m_repeat] and compute ([m_repeat], n)
    for every [n]. *)
Definition pipeline_step (p_a_block p_b_block : Z -> T) (st : (Z -> T) * (Z -> T) * (Z -> T)) (k_begin : Z) :=
  let '(p_a_thread, p_b_thread, p_c) := st in
  let p_a_thread := copy_a_sub a_thread_mtx p_a_block p_a_thread k_begin 0 in
  let p_b_thread := copy_b_sub b_thread_mtx p_b_block p_b_thread k_begin 0 in
  let p_c := gemm_sub p_a_thread 0 p_b_thread 0 p_c 0 in
  let '(p_b_thread, p_c) :=
    fold_left (fun '(p_b_thread, p_c) n_repeat =>
        let p_b_thread := copy_b_sub b_thread_mtx p_b_block p_b_thread k_begin n_repeat in
        (p_b_thread,
         gemm_sub p_a_thread 0
                  p_b_thread (GetOffsetFromMultiIndex b_thread_mtx 0 (n_repeat * NPerThreadSubC bc))
                  p_c (GetOffsetFromMultiIndex (ThreadMatrixC bc) 0 (n_repeat * NPerThreadSubC bc))))
      (for_range 1 (NRepeat bc) 1) (p_b_thread, p_c) in
  let '(p_a_thread, p_c) :=
    fold_left (fun '(p_a_thread, p_c) m_repeat =>
        let p_a_thread := copy_a_sub a_thread_mtx p_a_block p_a_thread k_begin m_repeat in
        (p_a_thread,
         fold_left (fun p_c n_repeat =>
             gemm_sub p_a_thread (GetOffsetFromMultiIndex a_thread_mtx 0 (m_repeat * MPerThreadSubC bc))
                      p_b_thread (GetOffsetFromMultiIndex b_thread_mtx 0 (n_repeat * NPerThreadSubC bc))
                      p_c (GetOffsetFromMultiIndex (ThreadMatrixC bc) (m_repeat * MPerThreadSubC bc)
                                                   (n_repeat * NPerThreadSubC bc)))
           (for_range 0 (NRepeat bc) 1) p_c))
      (for_range 1 (MRepeat bc) 1) (p_a_thread, p_c) in
  (p_a_thread, p_b_thread, p_c).

(** [Run_PipelineReadAndCompute] (lines 945-1084). *)
Definition Run_PipelineReadAndCompute (p_a_block p_b_block p_c_thread : Z -> T) : Z -> T :=
  let '(_, _, p_c) :=
    fold_left (pipeline_step p_a_block p_b_block)
      (for_range 0 (K bc) (KPerThreadLoop bc)) (fun _ => undef, fun _ => undef, p_c_thread) in
  p_c.

(** [Run_asm] (lines 126-717, the [#if 1] branch): four [float4] loads into
    [p_thread], then 64 [v_mac_f32] on the operands [%0 .. %79]: [%0 ..
    %63] are [p_c_thread[0 .. 63]], [%64 .. %71] are [p_a_thread[0 .. 7]]
    and [%72 .. %79] are [p_b_thread[0 .. 7]]. *)
Definition v_mac_schedule : list (Z * Z * Z) :=
  map (fun n => (n, 64 + n / 8, 72 + n mod 8)) (zseq 64).

Definition load_float4 (p_dst : Z -> T) (dst : Z) (p_src : Z -> T) (src : Z) : Z -> T :=
  fold_left (fun p i => upd p (dst + i) (p_src (src + i))) (zseq 4) p_dst.

(** The input operands of the [asm volatile] (lines 400-479): [%64 .. %71]
    are [p_a_thread[0 .. 7]], [%72 .. %79] are [p_b_thread[0 .. 7]], i.e.
    [p_thread[b_base .. b_base + 7]], and ["0" .. "63"] tie [%0 .. %63] to
    [p_c_thread[0 .. 63]], whose registers the [v_mac_f32] update. *)
Definition asm_operand (p_thread p_c : Z -> T) (b_base n : Z) : T :=
  if n <? 64 then p_c n else if n <? 72 then p_thread (n - 64) else p_thread (b_base + (n - 72)).

Definition Run_asm (p_a_block p_b_block p_c_thread : Z -> T) : Z -> T :=
  let b_base := GetElementSpace a_thread_mtx in
  let '(_, p_c) :=
    fold_left (fun '(p_thread, p_c) k_begin =>
        let a_src_index := GetOffsetFromMultiIndex (BlockMatrixA bc) k_begin 0 + mMyThreadOffsetA g in
        let b_src_index := GetOffsetFromMultiIndex (BlockMatrixB bc) k_begin 0 + mMyThreadOffsetB g in
        let p_thread := load_float4 p_thread 0 p_a_block a_src_index in
        let p_thread := load_float4 p_thread 4 p_a_block (a_src_index + 4 * 16) in
        let p_thread := load_float4 p_thread 8 p_b_block b_src_index in
        let p_thread := load_float4 p_thread 12 p_b_block (b_src_index + 4 * 8) in
        (p_thread,
         fold_left (fun p_c '(d, x, y) =>
                      upd p_c d (mac (asm_operand p_thread p_c b_base d) (asm_operand p_thread p_c b_base x)
                                     (asm_operand p_thread p_c b_base y)))
                   v_mac_schedule p_c))
      (for_range 0 (K bc) (KPerThreadLoop bc)) (fun _ => undef, p_c_thread) in
  p_c.

End Runs.

(** ** Memory lemmas: folds of point updates *)

Section MemoryFacts.

Context {T : Type}.

Lemma flat_map_if_single {A} (g : Z -> list A) (l : list Z) x0 :
  flat_map (fun i => if i =? x0 then g i else []) l =
  flat_map g (List.filter (fun i => i =? x0) l).
Proof. induction l as [|i l IH]; simpl; [done|]. destruct (i =? x0); simpl; by rewrite IH. Qed.

(** The cells of a matrix region [(i, j)] with [0 <= j < RowStride] have
    distinct offsets. *)
Lemma offset_inj d i j i0 j0 :
  0 <= j < RowStride d -> 0 <= j0 < RowStride d ->
  GetOffsetFromMultiIndex d i j = GetOffsetFromMultiIndex d i0 j0 -> i = i0 /\ j = j0.
Proof.
  unfold GetOffsetFromMultiIndex. intros Hj Hj0 E.
  destruct (Z_div_mod_unique_pos (RowStride d) i j (i * RowStride d + j)) as [Hq Hr]; [lia|lia|lia|].
  destruct (Z_div_mod_unique_pos (RowStride d) i0 j0 (i * RowStride d + j)) as [Hq' Hr']; [lia|lia|lia|].
  lia.
Qed.

(** The row-major enumeration of a region, filtered to one cell. *)
Lemma filter_region (off : Z) d (nrow ncol : Z) i0 j0 :
  0 <= i0 < nrow -> 0 <= j0 < ncol -> ncol <= RowStride d ->
  List.filter (fun '(i, j) => off + GetOffsetFromMultiIndex d i j =? off + GetOffsetFromMultiIndex d i0 j0)
    (flat_map (fun i => map (fun j => (i, j)) (zseq ncol)) (zseq nrow)) = [(i0, j0)].
Proof.
  intros Hi Hj Hs. rewrite filter_flat_map.
  rewrite (flat_map_ext_in _ (fun i => if i =? i0 then [(i, j0)] else [])).
  - rewrite flat_map_if_single, filter_zseq_eq by done. done.
  - intros i Hin. apply in_zseq in Hin. rewrite filter_map_comm.
    destruct (Z.eqb_spec i i0) as [->|Hne].
    + rewrite (filter_zseq_single _ _ j0).
      * destruct (Z.leb_spec 0 j0), (Z.ltb_spec j0 ncol); simpl; try done; lia.
      * intros j Hj'. rewrite Z.eqb_eq. split; [|intros ->; lia].
        intros E. apply (offset_inj d i0 j i0 j0); lia.
    + rewrite filter_zseq_none; [done|]. intros j Hj'. apply Z.eqb_neq.
      intros E. apply Hne. apply (offset_inj d i j i0 j0); lia.
Qed.

Lemma filter_region_none (off : Z) d (nrow ncol : Z) x :
  (forall i j, 0 <= i < nrow -> 0 <= j < ncol -> x <> off + GetOffsetFromMultiIndex d i j) ->
  List.filter (fun '(i, j) => off + GetOffsetFromMultiIndex d i j =? x)
    (flat_map (fun i => map (fun j => (i, j)) (zseq ncol)) (zseq nrow)) = [].
Proof.
  intros Hx. rewrite filter_flat_map.
  rewrite (flat_map_ext_in _ (fun _ => [])).
  { induction (zseq nrow); simpl; auto. }
  intros i Hi%in_zseq. rewrite filter_map_comm, filter_zseq_none; [done|].
  intros j Hj. apply Z.eqb_neq. intros E. by apply (Hx i j).
Qed.

(** The row-major cells [(i, j)] of an [nrow x ncol] region. *)
Definition region (nrow ncol : Z) : list (Z * Z) :=
  flat_map (fun i => map (fun j => (i, j)) (zseq ncol)) (zseq nrow).

Lemma threadwise_gemm_flat mul f_accum a (pa : Z -> T) ao b pb bo c pc co :
  threadwise_gemm mul f_accum a pa ao b pb bo c pc co =
  fold_left (fun p (e : Z * (Z * Z)) =>
      upd p (co + GetOffsetFromMultiIndex c e.2.1 e.2.2)
        (f_accum (p (co + GetOffsetFromMultiIndex c e.2.1 e.2.2))
                 (mul (pa (ao + GetOffsetFromMultiIndex a e.1 e.2.1))
                      (pb (bo + GetOffsetFromMultiIndex b e.1 e.2.2)))))
    (flat_map (fun k => map (pair k) (region (NRow c) (NCol c))) (zseq (NRow a))) pc.
Proof.
  unfold threadwise_gemm, region. rewrite fold_left_flat_map.
  apply fold_left_ext_in. intros p k _.
  rewrite fold_left_map_comm, fold_left_flat_map. apply fold_left_ext_in. intros p' i _.
  rewrite !fold_left_map_comm. done.
Qed.

Lemma threadwise_matrix_copy_flat (src : matrix_desc) (p_src : Z -> T) so dst p_dst dso nrow ncol :
  threadwise_matrix_copy src p_src so dst p_dst dso nrow ncol =
  fold_left (fun p (e : Z * Z) =>
      upd p (dso + GetOffsetFromMultiIndex dst e.1 e.2) (p_src (so + GetOffsetFromMultiIndex src e.1 e.2)))
    (region nrow ncol) p_dst.
Proof.
  unfold threadwise_matrix_copy, region. rewrite fold_left_flat_map.
  apply fold_left_ext_in. intros p i _. by rewrite fold_left_map_comm.
Qed.

(** [threadwise_gemm] on one cell of the C region: the reduction over [k]
    of that cell, in order. *)
Lemma threadwise_gemm_cell mul f_accum a (pa : Z -> T) ao b pb bo c pc co i0 j0 :
  0 <= i0 < NRow c -> 0 <= j0 < NCol c -> NCol c <= RowStride c ->
  threadwise_gemm mul f_accum a pa ao b pb bo c pc co (co + GetOffsetFromMultiIndex c i0 j0) =
  fold_left (fun v k => f_accum v (mul (pa (ao + GetOffsetFromMultiIndex a k i0))
                                       (pb (bo + GetOffsetFromMultiIndex b k j0))))
            (zseq (NRow a)) (pc (co + GetOffsetFromMultiIndex c i0 j0)).
Proof.
  intros Hi Hj Hs. rewrite threadwise_gemm_flat.
  rewrite (fold_upd_point (fun e : Z * (Z * Z) => co + GetOffsetFromMultiIndex c e.2.1 e.2.2)
    (fun e v => f_accum v (mul (pa (ao + GetOffsetFromMultiIndex a e.1 e.2.1))
                              (pb (bo + GetOffsetFromMultiIndex b e.1 e.2.2))))).
  rewrite filter_flat_map.
  rewrite (flat_map_ext_in _ (fun k => [(k, (i0, j0))])).
  - generalize (pc (co + GetOffsetFromMultiIndex c i0 j0)).
    induction (zseq (NRow a)) as [|k l IH]; intros v; simpl; auto.
  - intros k _. rewrite filter_map_comm. simpl.
    pose proof (filter_region co c (NRow c) (NCol c) i0 j0 Hi Hj Hs) as E.
    rewrite (List.filter_ext _ (fun '(i, j) => co + GetOffsetFromMultiIndex c i j =?
                                               co + GetOffsetFromMultiIndex c i0 j0)).
    + unfold region. by rewrite E.
    + by intros [i j].
Qed.

(** Outside the C region, [threadwise_gemm] changes nothing. *)
Lemma threadwise_gemm_other mul f_accum a (pa : Z -> T) ao b pb bo c pc co x :
  (forall i j, 0 <= i < NRow c -> 0 <= j < NCol c -> x <> co + GetOffsetFromMultiIndex c i j) ->
  threadwise_gemm mul f_accum a pa ao b pb bo c pc co x = pc x.
Proof.
  intros Hx. rewrite threadwise_gemm_flat.
  rewrite (fold_upd_point (fun e : Z * (Z * Z) => co + GetOffsetFromMultiIndex c e.2.1 e.2.2)
    (fun e v => f_accum v (mul (pa (ao + GetOffsetFromMultiIndex a e.1 e.2.1))
                              (pb (bo + GetOffsetFromMultiIndex b e.1 e.2.2))))).
  rewrite filter_flat_map.
  rewrite (flat_map_ext_in _ (fun _ => [])).
  - induction (zseq (NRow a)); simpl; auto.
  - intros k _. rewrite filter_map_comm. simpl.
    rewrite (List.filter_ext _ (fun '(i, j) => co + GetOffsetFromMultiIndex c i j =? x)).
    + unfold region. by rewrite filter_region_none.
    + by intros [i j].
Qed.

(** [threadwise_matrix_copy] on one cell of the destination region. *)
Lemma copy_cell (src : matrix_desc) (p_src : Z -> T) so dst p_dst dso nrow ncol i0 j0 :
  0 <= i0 < nrow -> 0 <= j0 < ncol -> ncol <= RowStride dst ->
  threadwise_matrix_copy src p_src so dst p_dst dso nrow ncol
    (dso + GetOffsetFromMultiIndex dst i0 j0) =
  p_src (so + GetOffsetFromMultiIndex src i0 j0).
Proof.
  intros Hi Hj Hs. rewrite threadwise_matrix_copy_flat.
  rewrite (fold_upd_const_point (fun e : Z * Z => dso + GetOffsetFromMultiIndex dst e.1 e.2)).
  rewrite (List.filter_ext _ (fun '(i, j) => dso + GetOffsetFromMultiIndex dst i j =?
                                             dso + GetOffsetFromMultiIndex dst i0 j0))
    by (by intros [i j]).
  unfold region. by rewrite filter_region.
Qed.

Lemma copy_other (src : matrix_desc) (p_src : Z -> T) so dst p_dst dso nrow ncol x :
  (forall i j, 0 <= i < nrow -> 0 <= j < ncol -> x <> dso + GetOffsetFromMultiIndex dst i j) ->
  threadwise_matrix_copy src p_src so dst p_dst dso nrow ncol x = p_dst x.
Proof.
  intros Hx. rewrite threadwise_matrix_copy_flat.
  rewrite (fold_upd_const_point (fun e : Z * Z => dso + GetOffsetFromMultiIndex dst e.1 e.2)).
  rewrite (List.filter_ext _ (fun '(i, j) => dso + GetOffsetFromMultiIndex dst i j =? x))
    by (by intros [i j]).
  unfold region. by rewrite filter_region_none.
Qed.

(** A fold of updates where only one step writes [x]. *)
Lemma fold_point_keep {A} (F : A -> (Z -> T) -> (Z -> T)) (L : list A) x p :
  (forall m p, In m L -> F m p x = p x) -> fold_left (fun p m => F m p) L p x = p x.
Proof.
  revert p. induction L as [|m L IH]; intros p H; simpl; [done|].
  rewrite IH; [apply H; by left|]. intros. apply H. by right.
Qed.

Lemma fold_point_single {A} (F : A -> (Z -> T) -> (Z -> T)) (L : list A) m0 x v p :
  In m0 L -> List.NoDup L -> (forall p, F m0 p x = v) ->
  (forall m p, In m L -> m <> m0 -> F m p x = p x) ->
  fold_left (fun p m => F m p) L p x = v.
Proof.
  revert p. induction L as [|m L IH]; intros p Hin Hnd H0 Hother; simpl; [done|].
  apply List.NoDup_cons_iff in Hnd as [Hnin Hnd]. destruct Hin as [<-|Hin].
  - rewrite fold_point_keep; [apply H0|]. intros m' p' Hm'. apply Hother; [by right|].
    intros ->. contradiction.
  - apply IH; auto. intros m' p' Hm' Hne. apply Hother; [by right|done].
Qed.

Lemma zseq_shift a len :
  map Z.of_nat (seq a len) = map (fun k => Z.of_nat a + k) (map Z.of_nat (seq 0 len)).
Proof.
  revert a. induction len as [|len IH]; intros a; simpl; [done|]. f_equal; [lia|].
  rewrite (IH (S a)), (IH 1%nat), !map_map. apply map_ext. intros. lia.
Qed.

(** [zseq (q * s)] is [q] chunks of [s]. *)
Lemma zseq_chunks q s :
  0 <= q -> 0 <= s ->
  zseq (q * s) = flat_map (fun t => map (fun k => t * s + k) (zseq s)) (zseq q).
Proof.
  intros Hq Hs. destruct (Z_of_nat_complete q Hq) as [n ->]. clear Hq.
  induction n as [|n IH]; [done|].
  rewrite Nat2Z.inj_succ, <- Z.add_1_r, Z.mul_add_distr_r, Z.mul_1_l, zseq_S, flat_map_app by lia.
  simpl. rewrite app_nil_r.
  rewrite <- IH. unfold zseq at 1 2.
  rewrite Z2Nat.inj_add, seq_app, map_app by nia. f_equal.
  unfold zseq. rewrite Nat.add_0_l, zseq_shift, Z2Nat.id by nia. done.
Qed.

(** The K loop [for (k_begin = 0; k_begin < K; k_begin += KPerThreadLoop)]
    with an inner loop over [KPerThreadLoop] rows covers rows [0 .. K-1] in
    order when [KPerThreadLoop] divides [K]. *)
Lemma fold_for_range_chunks {V} (G : Z -> V -> V) (Kn s : Z) (v0 : V) :
  0 < s -> 0 <= Kn -> Kn mod s = 0 ->
  fold_left (fun v kb => fold_left (fun v k => G (kb + k) v) (zseq s) v) (for_range 0 Kn s) v0 =
  fold_left (fun v k => G k v) (zseq Kn) v0.
Proof.
  intros Hs HK Hm. pose proof (Z.div_mod Kn s ltac:(lia)) as E. rewrite Hm, Z.add_0_r in E.
  set (q := Kn / s) in *. assert (0 <= q) by (subst q; apply Z.div_pos; lia).
  unfold for_range. replace ((Kn - 0 + s - 1) / s) with q.
  2:{ symmetry. apply (Z_div_mod_unique_pos s q (s - 1)); lia. }
  rewrite E, (Z.mul_comm s q), zseq_chunks by lia.
  rewrite fold_left_flat_map, fold_left_map_comm. apply fold_left_ext_in. intros v t _.
  rewrite fold_left_map_comm. apply fold_left_ext_in. intros v' k _. f_equal. lia.
Qed.

End MemoryFacts.

(** ** What the constructor's static_asserts give *)

Section CtorFacts.

Variable bc : blockwise_config.
Hypothesis Hok : blockwise_ctor_ok bc = true.

Lemma mod0_mul a b : 0 < b -> a mod b = 0 -> a = b * (a / b).
Proof. intros Hb Hm. pose proof (Z.div_mod a b ltac:(lia)). lia. Qed.

(** The sizes are positive, the thread matrix is [MRepeat x MPerThreadSubC]
    by [NRepeat x NPerThreadSubC], the block tile is [MRepeat] level-1
    clusters of [MPerThreadSubC * MLevel0Cluster * MLevel1Cluster] rows (and
    likewise for columns), and the block has one lane per cluster cell. *)
Lemma ctor_facts :
  0 < MPerThreadSubC bc /\ 0 < NPerThreadSubC bc /\ 0 < MLevel0Cluster bc /\
  0 < NLevel0Cluster bc /\ 0 < MLevel1Cluster bc /\ 0 < NLevel1Cluster bc /\
  0 < KPerThreadLoop bc /\ 0 < K bc /\ 0 < MRepeat bc /\ 0 < NRepeat bc /\
  MPerThread bc = MRepeat bc * MPerThreadSubC bc /\ NPerThread bc = NRepeat bc * NPerThreadSubC bc /\
  M bc = MRepeat bc * MPerLevel1Cluster bc /\ N bc = NRepeat bc * NPerLevel1Cluster bc /\
  BlockSize bc = MLevel0Cluster bc * NLevel0Cluster bc * MLevel1Cluster bc * NLevel1Cluster bc /\
  K bc = NRow (BlockMatrixB bc) /\
  NCol (BlockMatrixA bc) <= RowStride (BlockMatrixA bc) /\
  NCol (BlockMatrixB bc) <= RowStride (BlockMatrixB bc) /\
  NCol (ThreadMatrixC bc) <= RowStride (ThreadMatrixC bc).
Proof.
  unfold blockwise_ctor_ok in Hok. rewrite !andb_true_iff in Hok.
  destruct Hok as [[[[[[[[[[[[[[[Hpos HB] HK] Hm1] Hn1] Hm2] Hn2] Hm3] Hn3] Hm4] Hn4] Hs1] Hs2] HA] HBm] HC].
  simpl in Hpos. rewrite !andb_true_iff, !Z.ltb_lt in Hpos.
  destruct Hpos as (H1 & H2 & H3 & H4 & H5 & H6 & H7 & H8 & H9 & H10 & _).
  rewrite !Z.eqb_eq in *. unfold matrix_desc_ok in *. rewrite !Z.leb_le in *.
  unfold MRepeat, NRepeat, MPerLevel1Cluster, NPerLevel1Cluster.
  set (MR := MPerThread bc / MPerThreadSubC bc) in *.
  set (NR := NPerThread bc / NPerThreadSubC bc) in *.
  pose proof (mod0_mul _ _ H1 Hm1) as EM. pose proof (mod0_mul _ _ H2 Hn1) as EN.
  fold MR in EM. fold NR in EN.
  assert (0 < MR) by nia. assert (0 < NR) by nia.
  pose proof (mod0_mul _ _ H Hm2) as EM2. pose proof (mod0_mul _ _ H0 Hn2) as EN2.
  pose proof (mod0_mul _ _ H5 Hm3) as EM3. pose proof (mod0_mul _ _ H6 Hn3) as EN3.
  pose proof (mod0_mul _ _ H3 Hm4) as EM4. pose proof (mod0_mul _ _ H4 Hn4) as EN4.
  rewrite <- Hs1 in EM4. rewrite <- Hs2 in EN4.
  repeat split; try lia. exact HK.
Qed.

End CtorFacts.

(** ** The lane partition *)

Section Partition.

Variable bc : blockwise_config.
Hypothesis Hok : blockwise_ctor_ok bc = true.

(** The cluster coordinates of a lane ([level1_m_id], [level1_n_id],
    [level0_m_id], [level0_n_id] of [GetBeginOfThreadMatrixC]). *)
Definition lane_digits (tid : Z) : list Z :=
  let T0 := MLevel0Cluster bc * NLevel0Cluster bc in
  [tid / T0 / NLevel1Cluster bc; tid / T0 mod NLevel1Cluster bc;
   tid mod T0 / NLevel0Cluster bc; tid mod T0 mod NLevel0Cluster bc].

Definition m_radix : list Z := [MRepeat bc; MLevel1Cluster bc; MLevel0Cluster bc; MPerThreadSubC bc].
Definition n_radix : list Z := [NRepeat bc; NLevel1Cluster bc; NLevel0Cluster bc; NPerThreadSubC bc].

(** A lane's cell is the mixed-radix number of (repeat, level-1 cluster,
    level-0 cluster, position in the sub-tile) in each dimension. *)
Lemma lane_cell_compose tid i j :
  lane_cell bc tid i j =
  (compose m_radix [i / MPerThreadSubC bc; nth 0 (lane_digits tid) 0; nth 2 (lane_digits tid) 0;
                    i mod MPerThreadSubC bc],
   compose n_radix [j / NPerThreadSubC bc; nth 1 (lane_digits tid) 0; nth 3 (lane_digits tid) 0;
                    j mod NPerThreadSubC bc]).
Proof.
  unfold lane_cell, GetBeginOfThreadMatrixC, GetDistanceFromBeginOfThreadMatrixC, lane_digits,
    m_radix, n_radix, MPerLevel1Cluster, NPerLevel1Cluster. simpl. f_equal; ring.
Qed.

Lemma lane_digits_box tid :
  0 <= tid < BlockSize bc ->
  in_box [MLevel1Cluster bc; NLevel1Cluster bc; MLevel0Cluster bc; NLevel0Cluster bc] (lane_digits tid).
Proof.
  intros Ht. destruct (ctor_facts bc Hok) as (HMs & HNs & HM0 & HN0 & HM1 & HN1 & _ & _ & _ & _ & _ & _ & _ & _ & HB & _).
  unfold lane_digits. set (T0 := MLevel0Cluster bc * NLevel0Cluster bc).
  assert (0 <= tid / T0 < MLevel1Cluster bc * NLevel1Cluster bc)
    by (apply Z_div_range; subst T0; nia).
  pose proof (Z.mod_pos_bound tid T0 ltac:(subst T0; nia)).
  repeat constructor.
  - apply Z.div_pos; lia.
  - apply Z.div_lt_upper_bound; lia.
  - apply Z.mod_pos_bound; lia.
  - apply Z.mod_pos_bound; lia.
  - apply Z.div_pos; lia.
  - apply Z.div_lt_upper_bound; subst T0; nia.
  - apply Z.mod_pos_bound; lia.
  - apply Z.mod_pos_bound; lia.
Qed.

(** The lane id is the number formed by its cluster coordinates. *)
Lemma lane_digits_compose tid :
  0 <= tid -> compose [MLevel1Cluster bc; NLevel1Cluster bc; MLevel0Cluster bc; NLevel0Cluster bc]
                      (lane_digits tid) = tid.
Proof.
  intros Ht. destruct (ctor_facts bc Hok) as (HMs & HNs & HM0 & HN0 & HM1 & HN1 & _).
  unfold lane_digits. simpl. set (T0 := MLevel0Cluster bc * NLevel0Cluster bc).
  pose proof (Z.div_mod tid T0 ltac:(subst T0; nia)).
  pose proof (Z.div_mod (tid / T0) (NLevel1Cluster bc) ltac:(lia)).
  pose proof (Z.div_mod (tid mod T0) (NLevel0Cluster bc) ltac:(lia)).
  subst T0. nia.
Qed.

Lemma in_box4 a b c d w x y z :
  in_box [a; b; c; d] [w; x; y; z] <-> 0 <= w < a /\ 0 <= x < b /\ 0 <= y < c /\ 0 <= z < d.
Proof. rewrite !in_box_cons. unfold in_box. split; [intros (? & ? & ? & ? & _); tauto|]. intros. repeat split; try tauto. constructor. Qed.

Lemma lane_digits_length tid : length (lane_digits tid) = 4%nat.
Proof. done. Qed.

Lemma prodZ_m_radix : prodZ m_radix = M bc.
Proof.
  destruct (ctor_facts bc Hok) as (_ & _ & _ & _ & _ & _ & _ & _ & _ & _ & _ & _ & HM & _).
  rewrite HM. unfold m_radix, MPerLevel1Cluster. simpl. ring.
Qed.

Lemma prodZ_n_radix : prodZ n_radix = N bc.
Proof.
  destruct (ctor_facts bc Hok) as (_ & _ & _ & _ & _ & _ & _ & _ & _ & _ & _ & _ & _ & HN & _).
  rewrite HN. unfold n_radix, NPerLevel1Cluster. simpl. ring.
Qed.

(** The digits of a lane's cell, for a lane and a thread-matrix position in
    range, are in range. *)
Lemma cell_digits_box tid i j :
  0 <= tid < BlockSize bc -> 0 <= i < MPerThread bc -> 0 <= j < NPerThread bc ->
  in_box m_radix [i / MPerThreadSubC bc; nth 0 (lane_digits tid) 0; nth 2 (lane_digits tid) 0;
                  i mod MPerThreadSubC bc] /\
  in_box n_radix [j / NPerThreadSubC bc; nth 1 (lane_digits tid) 0; nth 3 (lane_digits tid) 0;
                  j mod NPerThreadSubC bc].
Proof.
  intros Ht Hi Hj. destruct (ctor_facts bc Hok) as (HMs & HNs & _ & _ & _ & _ & _ & _ & HMR & HNR & HMP & HNP & _).
  pose proof (lane_digits_box tid Ht) as Hd.
  destruct (lane_digits tid) as [|d0 [|d1 [|d2 [|d3 [|]]]]]; try (inversion Hd; subst;
    repeat match goal with H : Forall2 _ _ _ |- _ => inversion H; subst; clear H end; fail).
  apply in_box4 in Hd. simpl. unfold m_radix, n_radix. rewrite !in_box4.
  pose proof (Z.mod_pos_bound i _ HMs). pose proof (Z.mod_pos_bound j _ HNs).
  assert (0 <= i / MPerThreadSubC bc < MRepeat bc) by (apply Z_div_range; lia).
  assert (0 <= j / NPerThreadSubC bc < NRepeat bc) by (apply Z_div_range; lia).
  lia.
Qed.

(** Every (lane, position) cell lies in the block's C tile. *)
Lemma lane_cell_in_tile tid i j :
  0 <= tid < BlockSize bc -> 0 <= i < MPerThread bc -> 0 <= j < NPerThread bc ->
  0 <= fst (lane_cell bc tid i j) < M bc /\ 0 <= snd (lane_cell bc tid i j) < N bc.
Proof.
  pose proof (ctor_facts bc Hok) as
    (HMs & HNs & HM0 & HN0 & HM1 & HN1 & _ & _ & HMR & HNR & HMP & HNP & HM & HN & HB & _).
  intros Ht Hi Hj. rewrite lane_cell_compose. cbn [fst snd].
  destruct (cell_digits_box tid i j Ht Hi Hj) as [Hr Hc].
  rewrite <- (prodZ_m_radix), <- (prodZ_n_radix).
  split; apply compose_range; assumption.
Qed.

(** No cell is held by two (lane, position) pairs. *)
Lemma lane_cell_inj tid1 i1 j1 tid2 i2 j2 :
  0 <= tid1 < BlockSize bc -> 0 <= i1 < MPerThread bc -> 0 <= j1 < NPerThread bc ->
  0 <= tid2 < BlockSize bc -> 0 <= i2 < MPerThread bc -> 0 <= j2 < NPerThread bc ->
  lane_cell bc tid1 i1 j1 = lane_cell bc tid2 i2 j2 -> tid1 = tid2 /\ i1 = i2 /\ j1 = j2.
Proof.
  pose proof (ctor_facts bc Hok) as
    (HMs & HNs & HM0 & HN0 & HM1 & HN1 & _ & _ & HMR & HNR & HMP & HNP & HM & HN & HB & _).
  intros Ht1 Hi1 Hj1 Ht2 Hi2 Hj2 E.
  rewrite !lane_cell_compose in E. injection E as Er Ec.
  destruct (cell_digits_box tid1 i1 j1 Ht1 Hi1 Hj1) as [Hr1 Hc1].
  destruct (cell_digits_box tid2 i2 j2 Ht2 Hi2 Hj2) as [Hr2 Hc2].
  apply (compose_inj _ _ _ Hr1 Hr2) in Er. apply (compose_inj _ _ _ Hc1 Hc2) in Ec.
  injection Er as Er0 Er1 Er2 Er3. injection Ec as Ec0 Ec1 Ec2 Ec3.
  pose proof (Z.div_mod i1 (MPerThreadSubC bc) ltac:(lia)).
  pose proof (Z.div_mod i2 (MPerThreadSubC bc) ltac:(lia)).
  pose proof (Z.div_mod j1 (NPerThreadSubC bc) ltac:(lia)).
  pose proof (Z.div_mod j2 (NPerThreadSubC bc) ltac:(lia)).
  split; [|lia].
  rewrite <- (lane_digits_compose tid1), <- (lane_digits_compose tid2) by lia.
  f_equal. unfold lane_digits in *. simpl in *. congruence.
Qed.

(** Every cell of the tile is held by some (lane, position) pair. *)
Lemma lane_cell_surj r c :
  0 <= r < M bc -> 0 <= c < N bc ->
  exists tid i j, 0 <= tid < BlockSize bc /\ 0 <= i < MPerThread bc /\ 0 <= j < NPerThread bc /\
                  lane_cell bc tid i j = (r, c).
Proof.
  pose proof (ctor_facts bc Hok) as
    (HMs & HNs & HM0 & HN0 & HM1 & HN1 & _ & _ & HMR & HNR & HMP & HNP & HM & HN & HB & _).
  intros Hr Hc.
  rewrite <- (prodZ_m_radix) in Hr. rewrite <- (prodZ_n_radix) in Hc.
  assert (Hpm : all_pos m_radix) by (repeat constructor; lia).
  assert (Hpn : all_pos n_radix) by (repeat constructor; lia).
  pose proof (decompose_in_box _ _ Hpm Hr) as Hdr. pose proof (decompose_in_box _ _ Hpn Hc) as Hdc.
  pose proof (compose_decompose (MRepeat bc) [MLevel1Cluster bc; MLevel0Cluster bc; MPerThreadSubC bc] r
                ltac:(repeat constructor; lia)) as Er.
  pose proof (compose_decompose (NRepeat bc) [NLevel1Cluster bc; NLevel0Cluster bc; NPerThreadSubC bc] c
                ltac:(repeat constructor; lia)) as Ec.
  fold m_radix in Er. fold n_radix in Ec.
  destruct (decompose m_radix r) as [|r0 [|r1 [|r2 [|r3 [|]]]]];
    try (pose proof (in_box_length _ _ Hdr); simpl in *; lia).
  destruct (decompose n_radix c) as [|c0 [|c1 [|c2 [|c3 [|]]]]];
    try (pose proof (in_box_length _ _ Hdc); simpl in *; lia).
  unfold m_radix, n_radix in Hdr, Hdc. apply in_box4 in Hdr, Hdc.
  set (ls := [MLevel1Cluster bc; NLevel1Cluster bc; MLevel0Cluster bc; NLevel0Cluster bc]).
  set (tid := compose ls [r1; c1; r2; c2]).
  assert (Hbox : in_box ls [r1; c1; r2; c2]) by (apply in_box4; lia).
  pose proof (compose_range _ _ Hbox) as Htid. fold tid in Htid.
  assert (Hpl : prodZ ls = BlockSize bc) by (rewrite HB; subst ls; simpl; ring).
  exists tid, (r0 * MPerThreadSubC bc + r3), (c0 * NPerThreadSubC bc + c3).
  split; [lia|]. split; [nia|]. split; [nia|].
  assert (Hd : lane_digits tid = [r1; c1; r2; c2]).
  { apply (compose_inj ls); [apply (lane_digits_box); lia|done|].
    apply (lane_digits_compose). lia. }
  rewrite lane_cell_compose, Hd. simpl nth.
  destruct (Z_div_mod_unique_pos (MPerThreadSubC bc) r0 r3 (r0 * MPerThreadSubC bc + r3))
    as [-> ->]; [lia|lia|lia|].
  destruct (Z_div_mod_unique_pos (NPerThreadSubC bc) c0 c3 (c0 * NPerThreadSubC bc + c3))
    as [-> ->]; [lia|lia|lia|].
  by rewrite Er, Ec.
Qed.

End Partition.

(** C12: the lane partition of [GetBeginOfThreadMatrixC] and
    [GetDistanceFromBeginOfThreadMatrixC].  For a configuration accepted by
    the constructor's static_asserts, the cells of the [BlockSize] lanes'
    [MPerThread x NPerThread] thread matrices lie in the block's [M x N]
    C tile, no cell is held by two (lane, position) pairs, and every cell
    of the tile is held by one. *)
Theorem lane_partition_exactly_once bc :
  blockwise_ctor_ok bc = true ->
  (forall tid i j, 0 <= tid < BlockSize bc -> 0 <= i < MPerThread bc -> 0 <= j < NPerThread bc ->
     0 <= fst (lane_cell bc tid i j) < M bc /\ 0 <= snd (lane_cell bc tid i j) < N bc) /\
  (forall tid1 i1 j1 tid2 i2 j2,
     0 <= tid1 < BlockSize bc -> 0 <= i1 < MPerThread bc -> 0 <= j1 < NPerThread bc ->
     0 <= tid2 < BlockSize bc -> 0 <= i2 < MPerThread bc -> 0 <= j2 < NPerThread bc ->
     lane_cell bc tid1 i1 j1 = lane_cell bc tid2 i2 j2 -> tid1 = tid2 /\ i1 = i2 /\ j1 = j2) /\
  (forall r c, 0 <= r < M bc -> 0 <= c < N bc ->
     exists tid i j, 0 <= tid < BlockSize bc /\ 0 <= i < MPerThread bc /\ 0 <= j < NPerThread bc /\
                     lane_cell bc tid i j = (r, c)).
Proof.
  intros Hok. split_and!; [apply lane_cell_in_tile | apply lane_cell_inj | apply lane_cell_surj]; done.
Qed.

(** ** Functional behaviour of the [Run] variants *)

(** A lane's row and column in the block's C tile. *)
Definition lane_row (bc : blockwise_config) (tid i : Z) : Z := fst (lane_cell bc tid i 0).
Definition lane_col (bc : blockwise_config) (tid j : Z) : Z := snd (lane_cell bc tid 0 j).

(** The reference: the lane's cell [(i, j)] accumulates
    [A[k][row] * B[k][col]] for [k = 0 .. K-1], in order, from [c0]. *)
Definition lane_acc {T} (mul f_accum : T -> T -> T) (bc : blockwise_config) (tid : Z)
    (p_a_block p_b_block : Z -> T) (i j : Z) (c0 : T) : T :=
  fold_left (fun v k => f_accum v (mul (p_a_block (GetOffsetFromMultiIndex (BlockMatrixA bc) k (lane_row bc tid i)))
                                       (p_b_block (GetOffsetFromMultiIndex (BlockMatrixB bc) k (lane_col bc tid j)))))
            (zseq (K bc)) c0.

Section RunCells.

Context {T : Type} (mul f_accum : T -> T -> T) (undef : T).
Variable bc : blockwise_config.
Hypothesis Hok : blockwise_ctor_ok bc = true.
Variable tid : Z.
Let g := make_blockwise_gemm bc tid.

Lemma offA_row i :
  mMyThreadOffsetA g + (i / MPerThreadSubC bc) * MPerLevel1Cluster bc + i mod MPerThreadSubC bc =
  lane_row bc tid i.
Proof.
  unfold g, make_blockwise_gemm, lane_row, lane_cell, GetDistanceFromBeginOfThreadMatrixC.
  destruct (GetBeginOfThreadMatrixC bc tid). simpl. unfold GetOffsetFromMultiIndex. lia.
Qed.

Lemma offB_col j :
  mMyThreadOffsetB g + (j / NPerThreadSubC bc) * NPerLevel1Cluster bc + j mod NPerThreadSubC bc =
  lane_col bc tid j.
Proof.
  unfold g, make_blockwise_gemm, lane_col, lane_cell, GetDistanceFromBeginOfThreadMatrixC.
  destruct (GetBeginOfThreadMatrixC bc tid). simpl. unfold GetOffsetFromMultiIndex. lia.
Qed.

(** One A-sub copy of step [k_begin] writes the registers of sub [m] with
    rows [k_begin ..] of the lane's A columns, and leaves the other subs. *)
Lemma a_sub_cell (dst : matrix_desc) (p_a_block p : Z -> T) kb m k i :
  RowStride dst = MPerThread bc ->
  0 <= k < KPerThreadLoop bc -> 0 <= i < MPerThread bc -> i / MPerThreadSubC bc = m ->
  copy_a_sub bc g dst p_a_block p kb m (k * MPerThread bc + i) =
  p_a_block (GetOffsetFromMultiIndex (BlockMatrixA bc) (kb + k) (lane_row bc tid i)).
Proof.
  intros Hd Hk Hi <-.
  pose proof (ctor_facts bc Hok) as (HMs & _ & _ & _ & _ & _ & _ & _ & HMR & _ & HMP & _).
  set (MS := MPerThreadSubC bc) in *.
  pose proof (Z.mod_pos_bound i MS HMs) as Hr. pose proof (Z.div_mod i MS ltac:(lia)) as Hdm.
  unfold copy_a_sub.
  replace (k * MPerThread bc + i) with
    (GetOffsetFromMultiIndex dst 0 ((i / MS) * MS) + GetOffsetFromMultiIndex dst k (i mod MS))
    by (unfold GetOffsetFromMultiIndex; rewrite Hd; lia).
  rewrite copy_cell by (simpl; subst MS; nia).
  rewrite <- offA_row. f_equal. unfold GetOffsetFromMultiIndex. subst MS. ring.
Qed.

Lemma a_sub_other (dst : matrix_desc) (p_a_block p : Z -> T) kb m k i :
  RowStride dst = MPerThread bc -> 0 <= m < MRepeat bc ->
  0 <= k < KPerThreadLoop bc -> 0 <= i < MPerThread bc -> i / MPerThreadSubC bc <> m ->
  copy_a_sub bc g dst p_a_block p kb m (k * MPerThread bc + i) = p (k * MPerThread bc + i).
Proof.
  intros Hd Hm Hk Hi Hne.
  pose proof (ctor_facts bc Hok) as (HMs & _ & _ & _ & _ & _ & _ & _ & HMR & _ & HMP & _).
  set (MS := MPerThreadSubC bc) in *.
  unfold copy_a_sub. apply copy_other.
  intros kk jj Hkk Hjj E. simpl in Hkk, Hjj. unfold GetOffsetFromMultiIndex in E. rewrite Hd in E.
  assert (m * MS + jj < MPerThread bc) by nia.
  destruct (Z_div_mod_unique_pos (MPerThread bc) k i (k * MPerThread bc + i)) as [Hq1 Hr1]; [lia|lia|lia|].
  destruct (Z_div_mod_unique_pos (MPerThread bc) kk (m * MS + jj) (k * MPerThread bc + i)) as [Hq2 Hr2];
    [lia|nia|lia|].
  assert (m * MS + jj = i) by lia.
  destruct (Z_div_mod_unique_pos MS m jj i) as [Hq3 _]; [lia|lia|lia|]. lia.
Qed.

(** After the A-sub copies of one step, the lane's A registers hold rows
    [k_begin ..] of its A columns. *)
Lemma a_copies_value (dst : matrix_desc) (p_a_block p : Z -> T) kb k i :
  RowStride dst = MPerThread bc ->
  0 <= k < KPerThreadLoop bc -> 0 <= i < MPerThread bc ->
  fold_left (fun p m => copy_a_sub bc g dst p_a_block p kb m) (zseq (MRepeat bc)) p
            (k * MPerThread bc + i) =
  p_a_block (GetOffsetFromMultiIndex (BlockMatrixA bc) (kb + k) (lane_row bc tid i)).
Proof.
  intros Hd Hk Hi.
  pose proof (ctor_facts bc Hok) as (HMs & _ & _ & _ & _ & _ & _ & _ & HMR & _ & HMP & _).
  apply (fold_point_single _ _ (i / MPerThreadSubC bc)).
  - apply in_zseq. split; [apply Z.div_pos|apply Z_div_range]; lia.
  - apply zseq_NoDup.
  - intros p'. by apply a_sub_cell.
  - intros m p' Hm Hne. apply in_zseq in Hm. apply a_sub_other; auto; lia.
Qed.

Lemma b_sub_cell (dst : matrix_desc) (p_b_block p : Z -> T) kb n k j :
  RowStride dst = NPerThread bc ->
  0 <= k < KPerThreadLoop bc -> 0 <= j < NPerThread bc -> j / NPerThreadSubC bc = n ->
  copy_b_sub bc g dst p_b_block p kb n (k * NPerThread bc + j) =
  p_b_block (GetOffsetFromMultiIndex (BlockMatrixB bc) (kb + k) (lane_col bc tid j)).
Proof.
  intros Hd Hk Hj <-.
  pose proof (ctor_facts bc Hok) as (_ & HNs & _ & _ & _ & _ & _ & _ & _ & HNR & _ & HNP & _).
  set (NS := NPerThreadSubC bc) in *.
  pose proof (Z.mod_pos_bound j NS HNs) as Hr. pose proof (Z.div_mod j NS ltac:(lia)) as Hdm.
  unfold copy_b_sub.
  replace (k * NPerThread bc + j) with
    (GetOffsetFromMultiIndex dst 0 ((j / NS) * NS) + GetOffsetFromMultiIndex dst k (j mod NS))
    by (unfold GetOffsetFromMultiIndex; rewrite Hd; lia).
  rewrite copy_cell by (simpl; subst NS; nia).
  rewrite <- offB_col. f_equal. unfold GetOffsetFromMultiIndex. subst NS. ring.
Qed.

Lemma b_sub_other (dst : matrix_desc) (p_b_block p : Z -> T) kb n k j :
  RowStride dst = NPerThread bc -> 0 <= n < NRepeat bc ->
  0 <= k < KPerThreadLoop bc -> 0 <= j < NPerThread bc -> j / NPerThreadSubC bc <> n ->
  copy_b_sub bc g dst p_b_block p kb n (k * NPerThread bc + j) = p (k * NPerThread bc + j).
Proof.
  intros Hd Hn Hk Hj Hne.
  pose proof (ctor_facts bc Hok) as (_ & HNs & _ & _ & _ & _ & _ & _ & _ & HNR & _ & HNP & _).
  set (NS := NPerThreadSubC bc) in *.
  unfold copy_b_sub. apply copy_other.
  intros kk jj Hkk Hjj E. simpl in Hkk, Hjj. unfold GetOffsetFromMultiIndex in E. rewrite Hd in E.
  assert (n * NS + jj < NPerThread bc) by nia.
  destruct (Z_div_mod_unique_pos (NPerThread bc) k j (k * NPerThread bc + j)) as [Hq1 Hr1]; [lia|lia|lia|].
  destruct (Z_div_mod_unique_pos (NPerThread bc) kk (n * NS + jj) (k * NPerThread bc + j)) as [Hq2 Hr2];
    [lia|nia|lia|].
  assert (n * NS + jj = j) by lia.
  destruct (Z_div_mod_unique_pos NS n jj j) as [Hq3 _]; [lia|lia|lia|]. lia.
Qed.

Lemma b_copies_value (dst : matrix_desc) (p_b_block p : Z -> T) kb k j :
  RowStride dst = NPerThread bc ->
  0 <= k < KPerThreadLoop bc -> 0 <= j < NPerThread bc ->
  fold_left (fun p n => copy_b_sub bc g dst p_b_block p kb n) (zseq (NRepeat bc)) p
            (k * NPerThread bc + j) =
  p_b_block (GetOffsetFromMultiIndex (BlockMatrixB bc) (kb + k) (lane_col bc tid j)).
Proof.
  intros Hd Hk Hj.
  pose proof (ctor_facts bc Hok) as (_ & HNs & _ & _ & _ & _ & _ & _ & _ & HNR & _ & HNP & _).
  apply (fold_point_single _ _ (j / NPerThreadSubC bc)).
  - apply in_zseq. split; [apply Z.div_pos|apply Z_div_range]; lia.
  - apply zseq_NoDup.
  - intros p'. by apply b_sub_cell.
  - intros n p' Hn Hne. apply in_zseq in Hn. apply b_sub_other; auto; lia.
Qed.

End RunCells.

Section RunTheorem.

Context {T : Type} (mul f_accum : T -> T -> T) (undef : T).
Variable bc : blockwise_config.
Hypothesis Hok : blockwise_ctor_ok bc = true.
Hypothesis HK : K bc mod KPerThreadLoop bc = 0.
Variable tid : Z.
Let g := make_blockwise_gemm bc tid.
Variables p_a_block p_b_block : Z -> T.

(** One [KPerThreadLoop]-row step of the reduction for cell [(i, j)]. *)
Definition chunk (i j kb : Z) (v : T) : T :=
  fold_left (fun v k => f_accum v (mul (p_a_block (GetOffsetFromMultiIndex (BlockMatrixA bc) (kb + k) (lane_row bc tid i)))
                                       (p_b_block (GetOffsetFromMultiIndex (BlockMatrixB bc) (kb + k) (lane_col bc tid j)))))
            (zseq (KPerThreadLoop bc)) v.

Lemma chunks_lane_acc i j c0 :
  fold_left (fun v kb => chunk i j kb v) (for_range 0 (K bc) (KPerThreadLoop bc)) c0 =
  lane_acc mul f_accum bc tid p_a_block p_b_block i j c0.
Proof.
  pose proof (ctor_facts bc Hok) as (_ & _ & _ & _ & _ & _ & HKp & HK0 & _).
  unfold chunk, lane_acc.
  apply (fold_for_range_chunks
           (fun k v => f_accum v (mul (p_a_block (GetOffsetFromMultiIndex (BlockMatrixA bc) k (lane_row bc tid i)))
                                      (p_b_block (GetOffsetFromMultiIndex (BlockMatrixB bc) k (lane_col bc tid j))))));
    lia.
Qed.

(** The GEMM of one step of [Run] on a cell of the thread matrix, once the
    registers hold the step's rows. *)
Lemma gemm_step_cell (pa pb pc : Z -> T) kb i j :
  0 <= i < MPerThread bc -> 0 <= j < NPerThread bc ->
  (forall k i, 0 <= k < KPerThreadLoop bc -> 0 <= i < MPerThread bc ->
     pa (k * MPerThread bc + i) = p_a_block (GetOffsetFromMultiIndex (BlockMatrixA bc) (kb + k) (lane_row bc tid i))) ->
  (forall k j, 0 <= k < KPerThreadLoop bc -> 0 <= j < NPerThread bc ->
     pb (k * NPerThread bc + j) = p_b_block (GetOffsetFromMultiIndex (BlockMatrixB bc) (kb + k) (lane_col bc tid j))) ->
  threadwise_gemm mul f_accum (a_thread_mtx bc) pa 0 (b_thread_mtx bc) pb 0 (ThreadMatrixC bc) pc 0
    (GetOffsetFromMultiIndex (ThreadMatrixC bc) i j) =
  chunk i j kb (pc (GetOffsetFromMultiIndex (ThreadMatrixC bc) i j)).
Proof.
  intros Hi Hj Ha Hb. pose proof (ctor_facts bc Hok) as (_ & _ & _ & _ & _ & _ & _ & _ & _ & _ & _ & _ & _ & _ & _ & _ & _ & _ & HC).
  rewrite <- (Z.add_0_l (GetOffsetFromMultiIndex (ThreadMatrixC bc) i j)) at 1.
  rewrite threadwise_gemm_cell by (unfold MPerThread, NPerThread in *; lia).
  unfold chunk. simpl NRow. apply fold_left_ext_in. intros v k Hk%in_zseq.
  unfold GetOffsetFromMultiIndex at 1 2. simpl RowStride. rewrite !Z.add_0_l.
  rewrite Ha, Hb by lia. done.
Qed.

Lemma triple_snd {A B C} (st : A * B * C) : (let '(_, _, c) := st in c) = st.2.
Proof. by destruct st as [[? ?] ?]. Qed.

(** Each step of [Run] refills the lane's registers with its rows
    [k_begin .. k_begin + KPerThreadLoop - 1] and accumulates them into
    cell [(i, j)]. *)
Lemma Run_cell (p_c_thread : Z -> T) i j :
  0 <= i < MPerThread bc -> 0 <= j < NPerThread bc ->
  Run mul f_accum undef bc g p_a_block p_b_block p_c_thread (GetOffsetFromMultiIndex (ThreadMatrixC bc) i j) =
  lane_acc mul f_accum bc tid p_a_block p_b_block i j (p_c_thread (GetOffsetFromMultiIndex (ThreadMatrixC bc) i j)).
Proof.
  intros Hi Hj. unfold Run. rewrite triple_snd, <- chunks_lane_acc.
  apply (fold_left_proj (fun st : (Z -> T) * (Z -> T) * (Z -> T) => st.2 _)).
  intros [[a b] c] kb _. cbn -[threadwise_gemm chunk].
  apply gemm_step_cell; auto; intros.
  - apply a_copies_value; auto.
  - apply b_copies_value; auto.
Qed.

Lemma Run_other (p_c_thread : Z -> T) x :
  (forall i j, 0 <= i < MPerThread bc -> 0 <= j < NPerThread bc ->
     x <> GetOffsetFromMultiIndex (ThreadMatrixC bc) i j) ->
  Run mul f_accum undef bc g p_a_block p_b_block p_c_thread x = p_c_thread x.
Proof.
  intros Hx. unfold Run. rewrite triple_snd.
  erewrite (fold_left_proj (fun st : (Z -> T) * (Z -> T) * (Z -> T) => st.2 x) _ (fun v _ => v)).
  - simpl. generalize (p_c_thread x). induction (for_range _ _ _); simpl; auto.
  - intros [[a b] c] kb _. cbn -[threadwise_gemm].
    apply threadwise_gemm_other. intros i j Hi Hj. rewrite Z.add_0_l. apply Hx; assumption.
Qed.

End RunTheorem.

(** ** [Run_asm] *)

(** The layout [Run_asm] hard-codes: [float4] loads at [a_loc[0]], [a_loc[16]],
    [b_loc[0]], [b_loc[8]] (so [MPerThreadSubC = NPerThreadSubC = 4],
    [MPerLevel1Cluster = 64], [NPerLevel1Cluster = 32]), one row per step
    ([KPerThreadLoop = 1]) and 64 [v_mac_f32] on an 8 x 8 C tile. *)
Definition asm_layout (bc : blockwise_config) : bool :=
  (MPerThreadSubC bc =? 4) && (NPerThreadSubC bc =? 4) &&
  (MPerLevel1Cluster bc =? 64) && (NPerLevel1Cluster bc =? 32) && (KPerThreadLoop bc =? 1) &&
  (NRow (ThreadMatrixC bc) =? 8) && (NCol (ThreadMatrixC bc) =? 8) && (RowStride (ThreadMatrixC bc) =? 8).

Lemma asm_layout_facts bc :
  asm_layout bc = true ->
  MPerThreadSubC bc = 4 /\ NPerThreadSubC bc = 4 /\ MPerLevel1Cluster bc = 64 /\
  NPerLevel1Cluster bc = 32 /\ KPerThreadLoop bc = 1 /\
  NRow (ThreadMatrixC bc) = 8 /\ NCol (ThreadMatrixC bc) = 8 /\ RowStride (ThreadMatrixC bc) = 8.
Proof. unfold asm_layout. rewrite !andb_true_iff, !Z.eqb_eq. tauto. Qed.

Section AsmTheorem.

Context {T : Type} (mul f_accum : T -> T -> T) (mac : T -> T -> T -> T) (undef : T).

Lemma load_float4_in (p : Z -> T) d src s r :
  0 <= r < 4 -> load_float4 p d src s (d + r) = src (s + r).
Proof.
  intros Hr. unfold load_float4. rewrite (fold_upd_const_point (fun i => d + i)).
  rewrite (filter_zseq_single _ 4 r) by (intros; rewrite Z.eqb_eq; lia).
  destruct (Z.leb_spec 0 r), (Z.ltb_spec r 4); simpl; try lia. done.
Qed.

Lemma load_float4_out (p : Z -> T) d src s x :
  x < d \/ d + 4 <= x -> load_float4 p d src s x = p x.
Proof.
  intros Hx. unfold load_float4. rewrite (fold_upd_const_point (fun i => d + i)).
  rewrite filter_zseq_none; [done|]. intros y Hy. apply Z.eqb_neq. lia.
Qed.

(** The 64 [v_mac_f32] update [c[n]] from operands [64 + n / 8] and [72 + n mod 8]. *)
Lemma v_mac_cell (operand : Z -> T) (c : Z -> T) x :
  fold_left (fun p_c '(d, x, y) => upd p_c d (mac (p_c d) (operand x) (operand y))) v_mac_schedule c x =
  if (0 <=? x) && (x <? 64) then mac (c x) (operand (64 + x / 8)) (operand (72 + x mod 8)) else c x.
Proof.
  unfold v_mac_schedule. rewrite fold_left_map_comm.
  rewrite (fold_upd_point (fun n => n) (fun n v => mac v (operand (64 + n / 8)) (operand (72 + n mod 8)))).
  rewrite (filter_zseq_single _ 64 x) by (intros; apply Z.eqb_eq).
  by destruct ((0 <=? x) && (x <? 64)).
Qed.

(** In the schedule the accumulator is a tied operand and the factors are
    inputs, so [asm_operand] reads [p_c] for the former and [p_thread] for
    the latter. *)
Lemma v_mac_asm_operand (p_thread : Z -> T) b_base (c : Z -> T) :
  fold_left (fun p_c '(d, x, y) =>
               upd p_c d (mac (asm_operand p_thread p_c b_base d) (asm_operand p_thread p_c b_base x)
                              (asm_operand p_thread p_c b_base y))) v_mac_schedule c =
  fold_left (fun p_c '(d, x, y) =>
               upd p_c d (mac (p_c d) (asm_operand p_thread (fun _ => undef) b_base x)
                              (asm_operand p_thread (fun _ => undef) b_base y))) v_mac_schedule c.
Proof.
  apply fold_left_ext_in. intros p [[d x] y] (n & [= <- <- <-] & Hn%in_zseq)%in_map_iff.
  assert (0 <= n / 8 < 8) by (split; [apply Z.div_pos|apply Z.div_lt_upper_bound]; lia).
  pose proof (Z.mod_pos_bound n 8 ltac:(lia)). unfold asm_operand.
  destruct (Z.ltb_spec n 64), (Z.ltb_spec (64 + n / 8) 64), (Z.ltb_spec (72 + n mod 8) 64); try lia.
  reflexivity.
Qed.

Variable bc : blockwise_config.
Hypothesis Hok : blockwise_ctor_ok bc = true.
Hypothesis Hasm : asm_layout bc = true.
Variable tid : Z.
Let g := make_blockwise_gemm bc tid.
Variables p_a_block p_b_block : Z -> T.

(** The sixteen registers after the four [float4] loads of step [k_begin]. *)
Definition asm_regs (p_thread : Z -> T) (kb : Z) : Z -> T :=
  let a_src_index := GetOffsetFromMultiIndex (BlockMatrixA bc) kb 0 + mMyThreadOffsetA g in
  let b_src_index := GetOffsetFromMultiIndex (BlockMatrixB bc) kb 0 + mMyThreadOffsetB g in
  load_float4 (load_float4 (load_float4 (load_float4 p_thread 0 p_a_block a_src_index)
                                        4 p_a_block (a_src_index + 4 * 16))
                           8 p_b_block b_src_index)
              12 p_b_block (b_src_index + 4 * 8).

Lemma asm_reg_a p_thread kb i :
  0 <= i < 8 ->
  asm_regs p_thread kb i = p_a_block (GetOffsetFromMultiIndex (BlockMatrixA bc) kb (lane_row bc tid i)).
Proof.
  intros Hi. pose proof (asm_layout_facts bc Hasm) as (HMS & _ & HML & _).
  rewrite <- (offA_row bc tid i). fold g. rewrite HMS, HML. unfold asm_regs.
  rewrite !load_float4_out by lia. unfold GetOffsetFromMultiIndex.
  destruct (Z.lt_ge_cases i 4).
  - rewrite load_float4_out by lia. rewrite <- (Z.add_0_l i) at 1. rewrite load_float4_in by lia.
    rewrite Z.div_small, Z.mod_small by lia. f_equal. lia.
  - replace i with (4 + (i - 4)) at 1 by lia. rewrite load_float4_in by lia.
    replace (i / 4) with 1 by (symmetry; apply (Z_div_mod_unique_pos 4 1 (i - 4)); lia).
    replace (i mod 4) with (i - 4) by (symmetry; apply (Z_div_mod_unique_pos 4 1 (i - 4)); lia).
    f_equal. lia.
Qed.

Lemma asm_reg_b p_thread kb j :
  0 <= j < 8 ->
  asm_regs p_thread kb (8 + j) = p_b_block (GetOffsetFromMultiIndex (BlockMatrixB bc) kb (lane_col bc tid j)).
Proof.
  intros Hj. pose proof (asm_layout_facts bc Hasm) as (_ & HNS & _ & HNL & _).
  rewrite <- (offB_col bc tid j). fold g. rewrite HNS, HNL. unfold asm_regs.
  unfold GetOffsetFromMultiIndex.
  destruct (Z.lt_ge_cases j 4).
  - rewrite load_float4_out by lia. rewrite load_float4_in by lia.
    rewrite Z.div_small, Z.mod_small by lia. f_equal. lia.
  - replace (8 + j) with (12 + (j - 4)) by lia. rewrite load_float4_in by lia.
    replace (j / 4) with 1 by (symmetry; apply (Z_div_mod_unique_pos 4 1 (j - 4)); lia).
    replace (j mod 4) with (j - 4) by (symmetry; apply (Z_div_mod_unique_pos 4 1 (j - 4)); lia).
    f_equal. lia.
Qed.

(** [%64 + i] reads [p_a_thread[i]] and [%72 + j] reads [p_b_thread[j]], which
    starts at [a_thread_mtx.GetElementSpace() = 8]. *)
Lemma asm_operands p_thread kb x :
  0 <= x < 64 ->
  asm_operand (asm_regs p_thread kb) (fun _ => undef) (GetElementSpace (a_thread_mtx bc)) (64 + x / 8) =
  asm_regs p_thread kb (x / 8) /\
  asm_operand (asm_regs p_thread kb) (fun _ => undef) (GetElementSpace (a_thread_mtx bc)) (72 + x mod 8) =
  asm_regs p_thread kb (8 + x mod 8).
Proof.
  intros Hx. pose proof (asm_layout_facts bc Hasm) as (_ & _ & _ & _ & HKL & HR & _).
  assert (0 <= x / 8 < 8) by (split; [apply Z.div_pos|apply Z.div_lt_upper_bound]; lia).
  pose proof (Z.mod_pos_bound x 8 ltac:(lia)). unfold asm_operand.
  unfold GetElementSpace, a_thread_mtx, make_ConstantMatrixDescriptor, MPerThread. simpl. rewrite HKL, HR.
  destruct (Z.ltb_spec (64 + x / 8) 64), (Z.ltb_spec (72 + x mod 8) 64); try lia.
  destruct (Z.ltb_spec (64 + x / 8) 72), (Z.ltb_spec (72 + x mod 8) 72); try lia.
  split; f_equal; lia.
Qed.

Lemma pair_snd {A B} (st : A * B) : (let '(_, c) := st in c) = st.2.
Proof. by destruct st. Qed.

Hypothesis Hmac : forall c a b, f_accum c (mul a b) = mac c a b.

Lemma Run_asm_cell (p_c_thread : Z -> T) i j :
  0 <= i < 8 -> 0 <= j < 8 ->
  Run_asm mac undef bc g p_a_block p_b_block p_c_thread (GetOffsetFromMultiIndex (ThreadMatrixC bc) i j) =
  lane_acc mul f_accum bc tid p_a_block p_b_block i j (p_c_thread (GetOffsetFromMultiIndex (ThreadMatrixC bc) i j)).
Proof.
  intros Hi Hj. pose proof (asm_layout_facts bc Hasm) as (_ & _ & _ & _ & HKL & _ & _ & HRS).
  assert (HK : K bc mod KPerThreadLoop bc = 0) by (rewrite HKL; apply Z.mod_1_r).
  set (x := GetOffsetFromMultiIndex (ThreadMatrixC bc) i j).
  assert (Hx : x = i * 8 + j) by (subst x; unfold GetOffsetFromMultiIndex; rewrite HRS; lia).
  assert (Hxi : x / 8 = i) by (apply (Z_div_mod_unique_pos 8 i j); lia).
  assert (Hxj : x mod 8 = j) by (apply (Z_div_mod_unique_pos 8 i j); lia).
  unfold Run_asm. rewrite pair_snd, <- (chunks_lane_acc mul f_accum bc Hok HK).
  apply (fold_left_proj (fun st : (Z -> T) * (Z -> T) => st.2 x)).
  intros [pt c] kb _. cbn [snd]. rewrite v_mac_asm_operand, v_mac_cell. fold (asm_regs pt kb).
  destruct (asm_operands pt kb x ltac:(lia)) as [-> ->].
  destruct (Z.leb_spec 0 x), (Z.ltb_spec x 64); try lia. simpl.
  rewrite Hxi, Hxj, asm_reg_a, asm_reg_b by lia.
  unfold chunk. rewrite HKL. simpl. rewrite !Z.add_0_r. symmetry. apply Hmac.
Qed.

Lemma Run_asm_other (p_c_thread : Z -> T) x :
  ~ (0 <= x < 64) -> Run_asm mac undef bc g p_a_block p_b_block p_c_thread x = p_c_thread x.
Proof.
  intros Hx. unfold Run_asm. rewrite pair_snd.
  erewrite (fold_left_proj (fun st : (Z -> T) * (Z -> T) => st.2 x) _ (fun v _ => v)).
  - simpl. generalize (p_c_thread x). induction (for_range _ _ _); simpl; auto.
  - intros [pt c] kb _. cbn [snd]. rewrite v_mac_asm_operand, v_mac_cell.
    destruct (Z.leb_spec 0 x), (Z.ltb_spec x 64); simpl; try done; lia.
Qed.

End AsmTheorem.

(** C13: functional correctness of [Run].  When [KPerThreadLoop] divides
    [K], [Run] leaves in cell [(i, j)] of the lane's C tile the value of
    [lane_acc]: the cell's initial content accumulated with
    [A[k][lane_row i] * B[k][lane_col j]] for [k = 0 .. K-1] in order; every
    other location of [p_c_thread] is left unchanged. *)
Theorem Run_correct {T} (mul f_accum : T -> T -> T) (undef : T) bc tid (p_a_block p_b_block p_c_thread : Z -> T) :
  blockwise_ctor_ok bc = true -> K bc mod KPerThreadLoop bc = 0 ->
  (forall i j, 0 <= i < MPerThread bc -> 0 <= j < NPerThread bc ->
     Run mul f_accum undef bc (make_blockwise_gemm bc tid) p_a_block p_b_block p_c_thread
         (GetOffsetFromMultiIndex (ThreadMatrixC bc) i j) =
     lane_acc mul f_accum bc tid p_a_block p_b_block i j (p_c_thread (GetOffsetFromMultiIndex (ThreadMatrixC bc) i j))) /\
  (forall x, (forall i j, 0 <= i < MPerThread bc -> 0 <= j < NPerThread bc ->
                x <> GetOffsetFromMultiIndex (ThreadMatrixC bc) i j) ->
     Run mul f_accum undef bc (make_blockwise_gemm bc tid) p_a_block p_b_block p_c_thread x = p_c_thread x).
Proof. intros Hok HK. split; intros; [apply Run_cell | apply Run_other]; auto. Qed.

(** C14: [Run_asm] implements [Run].  On a configuration with the layout
    its hand-written loads and [v_mac_f32] schedule assume ([asm_layout]),
    and with [v_mac_f32] computing [f_accum(c, a * b)], [Run_asm] leaves
    exactly the same C registers as [Run], at every location. *)
Theorem Run_asm_equiv {T} (mul f_accum : T -> T -> T) (mac : T -> T -> T -> T) (undef : T) bc tid
    (p_a_block p_b_block p_c_thread : Z -> T) :
  blockwise_ctor_ok bc = true -> asm_layout bc = true ->
  (forall c a b, f_accum c (mul a b) = mac c a b) ->
  forall x, Run_asm mac undef bc (make_blockwise_gemm bc tid) p_a_block p_b_block p_c_thread x =
            Run mul f_accum undef bc (make_blockwise_gemm bc tid) p_a_block p_b_block p_c_thread x.
Proof.
  intros Hok Hasm Hmac x. pose proof (asm_layout_facts bc Hasm) as (_ & _ & _ & _ & HKL & HR & HC & HRS).
  assert (HK : K bc mod KPerThreadLoop bc = 0) by (rewrite HKL; apply Z.mod_1_r).
  destruct (decide (0 <= x < 64)).
  - assert (Hx : x = GetOffsetFromMultiIndex (ThreadMatrixC bc) (x / 8) (x mod 8))
      by (unfold GetOffsetFromMultiIndex; rewrite HRS; pose proof (Z.div_mod x 8); lia).
    assert (0 <= x / 8 < 8) by (split; [apply Z.div_pos|apply Z.div_lt_upper_bound]; lia).
    pose proof (Z.mod_pos_bound x 8 ltac:(lia)).
    rewrite Hx, (Run_asm_cell mul f_accum mac undef bc Hok Hasm), Run_cell; auto;
      unfold MPerThread, NPerThread; lia.
  - rewrite Run_asm_other, Run_other; auto.
    intros i j Hi Hj. unfold MPerThread, NPerThread, GetOffsetFromMultiIndex in *. rewrite HRS. lia.
Qed.

(** ** [Run_RegisterDoubleBuffer] *)

Lemma fold_zseq_inv {S} (Inv : Z -> S -> Prop) (F : S -> Z -> S) n s :
  0 <= n -> Inv 0 s -> (forall k st, 0 <= k < n -> Inv k st -> Inv (k + 1) (F st k)) ->
  Inv n (fold_left F (zseq n) s).
Proof.
  intros Hn H0 HF. rewrite <- (Z2Nat.id n Hn) in *. clear Hn. induction (Z.to_nat n) as [|m IH]; [exact H0|].
  rewrite Nat2Z.inj_succ, <- Z.add_1_r in *. rewrite zseq_S, fold_left_app by lia. simpl.
  apply HF; [lia|]. apply IH. intros; apply HF; auto; lia.
Qed.

Lemma for_range_unit n : 0 <= n -> for_range 0 n 1 = zseq n.
Proof.
  intros Hn. unfold for_range. replace ((n - 0 + 1 - 1) / 1) with n by (rewrite Z.div_1_r; lia).
  rewrite (map_ext_in _ id) by (intros; unfold id; lia). apply map_id.
Qed.

(** [threadwise_matrix_copy] sees the destination descriptor only through
    its row stride. *)
Lemma copy_dst_stride {T} (src : matrix_desc) (p_src : Z -> T) so d d' p_dst dso nrow ncol :
  RowStride d = RowStride d' ->
  threadwise_matrix_copy src p_src so d p_dst dso nrow ncol =
  threadwise_matrix_copy src p_src so d' p_dst dso nrow ncol.
Proof. intros E. unfold threadwise_matrix_copy, GetOffsetFromMultiIndex. by rewrite E. Qed.

Lemma for_range_step1 lo hi : lo <= hi -> for_range lo hi 1 = map (fun t => lo + t) (zseq (hi - lo)).
Proof.
  intros H. unfold for_range. replace ((hi - lo + 1 - 1) / 1) with (hi - lo) by (rewrite Z.div_1_r; lia).
  apply map_ext. intros; lia.
Qed.

Section DoubleBufferTheorem.

Context {T : Type} (mul f_accum : T -> T -> T) (undef : T).
Variable bc : blockwise_config.
Hypothesis Hok : blockwise_ctor_ok bc = true.
Hypothesis H1 : KPerThreadLoop bc = 1.
Variable tid : Z.
Let g := make_blockwise_gemm bc tid.
Variables p_a_block p_b_block : Z -> T.

Lemma copy_a_next_sub p row m :
  copy_a_next bc g p_a_block p row m = copy_a_sub bc g (a_thread_mtx bc) p_a_block p row m.
Proof.
  unfold copy_a_next, copy_a_sub.
  rewrite (copy_dst_stride _ _ _ (a_thread_sub_mtx bc) (a_thread_mtx bc)) by reflexivity.
  f_equal; unfold GetOffsetFromMultiIndex; simpl; ring.
Qed.

Lemma copy_b_next_sub p row n :
  copy_b_next bc g p_b_block p row n = copy_b_sub bc g (b_thread_mtx bc) p_b_block p row n.
Proof.
  unfold copy_b_next, copy_b_sub.
  rewrite (copy_dst_stride _ _ _ (b_thread_sub_mtx bc) (b_thread_mtx bc)) by reflexivity.
  f_equal; unfold GetOffsetFromMultiIndex; simpl; ring.
Qed.

(** Register arrays [a], [b] hold row [r] of the lane's A and B columns. *)
Definition holds_row (a b : Z -> T) (r : Z) : Prop :=
  (forall i, 0 <= i < MPerThread bc ->
     a i = p_a_block (GetOffsetFromMultiIndex (BlockMatrixA bc) r (lane_row bc tid i))) /\
  (forall j, 0 <= j < NPerThread bc ->
     b j = p_b_block (GetOffsetFromMultiIndex (BlockMatrixB bc) r (lane_col bc tid j))).

Lemma next_rows_hold a b r :
  holds_row (fold_left (fun p m => copy_a_next bc g p_a_block p r m) (zseq (MRepeat bc)) a)
            (fold_left (fun p n => copy_b_next bc g p_b_block p r n) (zseq (NRepeat bc)) b) r.
Proof.
  split; intros.
  - rewrite (fold_left_ext_in _ (fun p m => copy_a_sub bc g (a_thread_mtx bc) p_a_block p r m))
      by (intros; apply copy_a_next_sub).
    pose proof (a_copies_value bc Hok tid (a_thread_mtx bc) p_a_block a r 0 i) as E.
    rewrite Z.mul_0_l, Z.add_0_l, Z.add_0_r in E. apply E; [done|lia|done].
  - rewrite (fold_left_ext_in _ (fun p n => copy_b_sub bc g (b_thread_mtx bc) p_b_block p r n))
      by (intros; apply copy_b_next_sub).
    pose proof (b_copies_value bc Hok tid (b_thread_mtx bc) p_b_block b r 0 j) as E.
    rewrite Z.mul_0_l, Z.add_0_l, Z.add_0_r in E. apply E; [done|lia|done].
Qed.

(** The reference accumulation over the first [n] rows. *)
Definition acc_upto (n i j : Z) (c0 : T) : T :=
  fold_left (fun v k => f_accum v (mul (p_a_block (GetOffsetFromMultiIndex (BlockMatrixA bc) k (lane_row bc tid i)))
                                       (p_b_block (GetOffsetFromMultiIndex (BlockMatrixB bc) k (lane_col bc tid j)))))
            (zseq n) c0.

Lemma acc_upto_S n i j c0 :
  0 <= n ->
  acc_upto (n + 1) i j c0 =
  f_accum (acc_upto n i j c0) (mul (p_a_block (GetOffsetFromMultiIndex (BlockMatrixA bc) n (lane_row bc tid i)))
                                   (p_b_block (GetOffsetFromMultiIndex (BlockMatrixB bc) n (lane_col bc tid j)))).
Proof. intros Hn. unfold acc_upto. by rewrite zseq_S, fold_left_app by lia. Qed.

Lemma gemm_row a b c r i j :
  holds_row a b r -> 0 <= i < MPerThread bc -> 0 <= j < NPerThread bc ->
  threadwise_gemm mul f_accum (a_thread_mtx bc) a 0 (b_thread_mtx bc) b 0 (ThreadMatrixC bc) c 0
    (GetOffsetFromMultiIndex (ThreadMatrixC bc) i j) =
  f_accum (c (GetOffsetFromMultiIndex (ThreadMatrixC bc) i j))
          (mul (p_a_block (GetOffsetFromMultiIndex (BlockMatrixA bc) r (lane_row bc tid i)))
               (p_b_block (GetOffsetFromMultiIndex (BlockMatrixB bc) r (lane_col bc tid j)))).
Proof.
  intros [Ha Hb] Hi Hj.
  rewrite (gemm_step_cell mul f_accum bc Hok tid p_a_block p_b_block a b c r i j Hi Hj).
  - unfold chunk. rewrite H1. simpl. by rewrite Z.add_0_r.
  - intros k i' Hk Hi'. assert (k = 0) as -> by lia. rewrite Z.mul_0_l, Z.add_0_l, Z.add_0_r. auto.
  - intros k j' Hk Hj'. assert (k = 0) as -> by lia. rewrite Z.mul_0_l, Z.add_0_l, Z.add_0_r. auto.
Qed.

(** [c] holds the reference over the first [n] rows on the lane's cells and
    [p_c_thread] elsewhere. *)
Definition cells_inv (p_c_thread : Z -> T) (n : Z) (c : Z -> T) : Prop :=
  (forall i j, 0 <= i < MPerThread bc -> 0 <= j < NPerThread bc ->
     c (GetOffsetFromMultiIndex (ThreadMatrixC bc) i j) =
     acc_upto n i j (p_c_thread (GetOffsetFromMultiIndex (ThreadMatrixC bc) i j))) /\
  (forall x, (forall i j, 0 <= i < MPerThread bc -> 0 <= j < NPerThread bc ->
                x <> GetOffsetFromMultiIndex (ThreadMatrixC bc) i j) -> c x = p_c_thread x).

Lemma cells_step p_c_thread n a b c :
  0 <= n -> holds_row a b n -> cells_inv p_c_thread n c ->
  cells_inv p_c_thread (n + 1)
    (threadwise_gemm mul f_accum (a_thread_mtx bc) a 0 (b_thread_mtx bc) b 0 (ThreadMatrixC bc) c 0).
Proof.
  intros Hn Hab [Hc Ho]. split.
  - intros i j Hi Hj. by rewrite (gemm_row a b c n), acc_upto_S, Hc.
  - intros x Hx. rewrite threadwise_gemm_other; [by apply Ho|].
    intros i j Hi Hj. rewrite Z.add_0_l. apply Hx; unfold MPerThread, NPerThread; lia.
Qed.

(** The loop state of [Run_RegisterDoubleBuffer] after [n] iterations: the
    buffer pair the flag [even_loop] selects holds row [n], and C has
    accumulated rows [0 .. n-1]. *)
Definition db_inv (p_c_thread : Z -> T) (n : Z)
    (st : (Z -> T) * (Z -> T) * (Z -> T) * (Z -> T) * (Z -> T) * bool) : Prop :=
  let '(a0, b0, a1, b1, c, even_loop) := st in
  (if even_loop then holds_row a0 b0 n else holds_row a1 b1 n) /\ cells_inv p_c_thread n c.

Lemma Run_RegisterDoubleBuffer_cells p_c_thread :
  cells_inv p_c_thread (K bc) (Run_RegisterDoubleBuffer mul f_accum undef bc g p_a_block p_b_block p_c_thread).
Proof.
  pose proof (ctor_facts bc Hok) as (_ & _ & _ & _ & _ & _ & _ & HK0 & _).
  unfold Run_RegisterDoubleBuffer. rewrite H1, for_range_unit by lia.
  match goal with |- context [fold_left ?F (zseq ?n) ?s] =>
    pose proof (fold_zseq_inv (db_inv p_c_thread) F n s) as Hinv; revert Hinv;
    generalize (fold_left F (zseq n) s) end.
  intros [[[[[a0 b0] a1] b1] c] ev] Hinv. destruct Hinv as [Hrow Hc]; [lia| | |].
  - split; [apply next_rows_hold|]. split; [done|]. done.
  - intros k [[[[[a0' b0'] a1'] b1'] c'] []] Hk [Hr Hc']; cbn beta iota zeta; unfold db_inv;
      (split; [apply next_rows_hold|apply cells_step; auto; lia]).
  - replace (K bc) with (K bc - 1 + 1) by lia.
    destruct ev; apply cells_step; auto; lia.
Qed.

End DoubleBufferTheorem.

(** The first row of the [t]-th GEMM of [Run_RegisterDoubleBuffer]: the
    first uses the rows loaded before the loop, each later one the
    [KPerThreadLoop] rows the previous iteration prefetched from
    [k_begin + 1]. *)
Definition rdb_start (bc : blockwise_config) (t : Z) : Z :=
  if t =? 0 then 0 else (t - 1) * KPerThreadLoop bc + 1.

(** What [Run_RegisterDoubleBuffer] accumulates in cell [(i, j)]: for each
    of its [K / KPerThreadLoop] GEMMs, rows [rdb_start t ..
    rdb_start t + KPerThreadLoop - 1] of the lane's A and B columns. *)
Definition rdb_acc {T} (mul f_accum : T -> T -> T) (bc : blockwise_config) (tid : Z)
    (p_a_block p_b_block : Z -> T) (i j : Z) (c0 : T) : T :=
  fold_left (fun v t =>
      fold_left (fun v k =>
          f_accum v (mul (p_a_block (GetOffsetFromMultiIndex (BlockMatrixA bc) (rdb_start bc t + k) (lane_row bc tid i)))
                         (p_b_block (GetOffsetFromMultiIndex (BlockMatrixB bc) (rdb_start bc t + k) (lane_col bc tid j)))))
        (zseq (KPerThreadLoop bc)) v)
    (zseq (K bc / KPerThreadLoop bc)) c0.

Section DoubleBufferRows.

Context {T : Type} (mul f_accum : T -> T -> T) (undef : T).
Variable bc : blockwise_config.
Hypothesis Hok : blockwise_ctor_ok bc = true.
Hypothesis HK : K bc mod KPerThreadLoop bc = 0.
Variable tid : Z.
Let g := make_blockwise_gemm bc tid.
Variables p_a_block p_b_block : Z -> T.

(** Register arrays [a], [b] hold rows [r .. r + KPerThreadLoop - 1] of the
    lane's A and B columns. *)
Definition holds_chunk (a b : Z -> T) (r : Z) : Prop :=
  (forall k i, 0 <= k < KPerThreadLoop bc -> 0 <= i < MPerThread bc ->
     a (k * MPerThread bc + i) = p_a_block (GetOffsetFromMultiIndex (BlockMatrixA bc) (r + k) (lane_row bc tid i))) /\
  (forall k j, 0 <= k < KPerThreadLoop bc -> 0 <= j < NPerThread bc ->
     b (k * NPerThread bc + j) = p_b_block (GetOffsetFromMultiIndex (BlockMatrixB bc) (r + k) (lane_col bc tid j))).

Lemma next_chunk_holds a b r :
  holds_chunk (fold_left (fun p m => copy_a_next bc g p_a_block p r m) (zseq (MRepeat bc)) a)
              (fold_left (fun p n => copy_b_next bc g p_b_block p r n) (zseq (NRepeat bc)) b) r.
Proof.
  split; intros k x Hk Hx.
  - rewrite (fold_left_ext_in _ (fun p m => copy_a_sub bc g (a_thread_mtx bc) p_a_block p r m))
      by (intros; apply copy_a_next_sub).
    by apply (a_copies_value bc Hok tid (a_thread_mtx bc)).
  - rewrite (fold_left_ext_in _ (fun p n => copy_b_sub bc g (b_thread_mtx bc) p_b_block p r n))
      by (intros; apply copy_b_next_sub).
    by apply (b_copies_value bc Hok tid (b_thread_mtx bc)).
Qed.

(** [c] holds, on the lane's cells, the GEMMs of the first [n] chunks, and
    [p_c_thread] elsewhere. *)
Definition rows_inv (p_c_thread : Z -> T) (n : Z) (c : Z -> T) : Prop :=
  (forall i j, 0 <= i < MPerThread bc -> 0 <= j < NPerThread bc ->
     c (GetOffsetFromMultiIndex (ThreadMatrixC bc) i j) =
     fold_left (fun v t => chunk mul f_accum bc tid p_a_block p_b_block i j (rdb_start bc t) v) (zseq n)
               (p_c_thread (GetOffsetFromMultiIndex (ThreadMatrixC bc) i j))) /\
  (forall x, (forall i j, 0 <= i < MPerThread bc -> 0 <= j < NPerThread bc ->
                x <> GetOffsetFromMultiIndex (ThreadMatrixC bc) i j) -> c x = p_c_thread x).

Lemma rows_step p_c_thread n a b c :
  0 <= n -> holds_chunk a b (rdb_start bc n) -> rows_inv p_c_thread n c ->
  rows_inv p_c_thread (n + 1)
    (threadwise_gemm mul f_accum (a_thread_mtx bc) a 0 (b_thread_mtx bc) b 0 (ThreadMatrixC bc) c 0).
Proof.
  intros Hn [Ha Hb] [Hc Ho]. split.
  - intros i j Hi Hj. rewrite (gemm_step_cell mul f_accum bc Hok tid p_a_block p_b_block a b c _ i j Hi Hj Ha Hb).
    rewrite zseq_S, fold_left_app by lia. simpl. by rewrite Hc.
  - intros x Hx. rewrite threadwise_gemm_other; [by apply Ho|].
    intros i j Hi Hj. rewrite Z.add_0_l. apply Hx; unfold MPerThread, NPerThread; lia.
Qed.

(** The loop state after [n] iterations: the buffer pair [even_loop]
    selects holds chunk [n], and C has the GEMMs of chunks [0 .. n-1]. *)
Definition rows_db_inv (p_c_thread : Z -> T) (n : Z)
    (st : (Z -> T) * (Z -> T) * (Z -> T) * (Z -> T) * (Z -> T) * bool) : Prop :=
  let '(a0, b0, a1, b1, c, even_loop) := st in
  (if even_loop then holds_chunk a0 b0 (rdb_start bc n) else holds_chunk a1 b1 (rdb_start bc n)) /\
  rows_inv p_c_thread n c.

Lemma Run_RegisterDoubleBuffer_rows_inv p_c_thread :
  rows_inv p_c_thread (K bc / KPerThreadLoop bc)
    (Run_RegisterDoubleBuffer mul f_accum undef bc g p_a_block p_b_block p_c_thread).
Proof.
  pose proof (ctor_facts bc Hok) as (_ & _ & _ & _ & _ & _ & HL & HK0 & _).
  set (L := KPerThreadLoop bc) in *. set (q := K bc / L).
  pose proof (Z.div_mod (K bc) L ltac:(lia)) as EK. rewrite HK, Z.add_0_r in EK. fold q in EK.
  assert (Hq : 1 <= q) by nia.
  unfold Run_RegisterDoubleBuffer, for_range. fold L.
  replace ((K bc - L - 0 + L - 1) / L) with (q - 1)
    by (symmetry; apply (Z_div_mod_unique_pos L (q - 1) (L - 1)); lia).
  rewrite fold_left_map_comm.
  match goal with |- context [fold_left ?F (zseq ?n) ?s] =>
    pose proof (fold_zseq_inv (rows_db_inv p_c_thread) F n s) as Hinv; revert Hinv;
    generalize (fold_left F (zseq n) s) end.
  intros [[[[[a0 b0] a1] b1] c] ev] Hinv. destruct Hinv as [Hrow Hc]; [lia| | |].
  - split; [apply next_chunk_holds|]. split; [done|]. done.
  - intros k [[[[[a0' b0'] a1'] b1'] c'] []] Hk [Hr Hc']; cbn beta iota zeta; unfold rows_db_inv;
      (split; [|apply rows_step; auto; lia]);
      replace (rdb_start bc (k + 1)) with (0 + L * k + 1)
        by (unfold rdb_start; fold L; destruct (Z.eqb_spec (k + 1) 0); lia);
      apply next_chunk_holds.
  - fold q. replace q with (q - 1 + 1) at 1 by lia.
    destruct ev; apply rows_step; auto; lia.
Qed.

End DoubleBufferRows.

(** C17: what [Run_RegisterDoubleBuffer] computes, for every configuration
    the constructor accepts with [KPerThreadLoop] dividing [K].  Each cell
    [(i, j)] of the lane's C tile receives [K / KPerThreadLoop] GEMMs of
    [KPerThreadLoop] rows each, the [t]-th starting at row [rdb_start t]:
    [0], then [1], [KPerThreadLoop + 1], [2 KPerThreadLoop + 1], ...,
    because the prefetch reads from [k_begin + 1] (lines 894 and 906) while
    [k_begin] advances by [KPerThreadLoop]; no other location changes.
    With [KPerThreadLoop = 1] these are rows [0 .. K-1], [Run]'s
    accumulation (C15); with [KPerThreadLoop > 1] rows [1 ..
    KPerThreadLoop - 1] are used twice and the last [KPerThreadLoop - 1]
    rows never. *)
Theorem Run_RegisterDoubleBuffer_rows {T} (mul f_accum : T -> T -> T) (undef : T) bc tid
    (p_a_block p_b_block p_c_thread : Z -> T) :
  blockwise_ctor_ok bc = true -> K bc mod KPerThreadLoop bc = 0 ->
  (forall i j, 0 <= i < MPerThread bc -> 0 <= j < NPerThread bc ->
     Run_RegisterDoubleBuffer mul f_accum undef bc (make_blockwise_gemm bc tid) p_a_block p_b_block p_c_thread
       (GetOffsetFromMultiIndex (ThreadMatrixC bc) i j) =
     rdb_acc mul f_accum bc tid p_a_block p_b_block i j (p_c_thread (GetOffsetFromMultiIndex (ThreadMatrixC bc) i j))) /\
  (forall x, (forall i j, 0 <= i < MPerThread bc -> 0 <= j < NPerThread bc ->
                x <> GetOffsetFromMultiIndex (ThreadMatrixC bc) i j) ->
     Run_RegisterDoubleBuffer mul f_accum undef bc (make_blockwise_gemm bc tid) p_a_block p_b_block p_c_thread x =
     p_c_thread x).
Proof.
  intros Hok HK. destruct (Run_RegisterDoubleBuffer_rows_inv mul f_accum undef bc Hok HK tid p_a_block p_b_block p_c_thread)
    as [Hc Ho]. split; [|exact Ho].
  intros i j Hi Hj. rewrite Hc by done. reflexivity.
Qed.

(** Every location of [p_c_thread] is a cell of the lane's C tile or none. *)
Lemma cell_cases bc x :
  blockwise_ctor_ok bc = true ->
  (exists i j, 0 <= i < MPerThread bc /\ 0 <= j < NPerThread bc /\
               x = GetOffsetFromMultiIndex (ThreadMatrixC bc) i j) \/
  (forall i j, 0 <= i < MPerThread bc -> 0 <= j < NPerThread bc ->
     x <> GetOffsetFromMultiIndex (ThreadMatrixC bc) i j).
Proof.
  intros Hok. pose proof (ctor_facts bc Hok) as (_ & HNs & _ & _ & _ & _ & _ & _ & _ & HNR & _ & HNP & _ & _ & _ & _ & _ & _ & HC).
  set (RS := RowStride (ThreadMatrixC bc)) in *.
  assert (0 < RS) by (unfold NPerThread in *; nia).
  pose proof (Z.div_mod x RS ltac:(lia)). pose proof (Z.mod_pos_bound x RS ltac:(lia)).
  destruct (decide (0 <= x / RS < MPerThread bc /\ x mod RS < NPerThread bc)) as [Hin|Hout].
  - left. exists (x / RS), (x mod RS). unfold GetOffsetFromMultiIndex. fold RS. lia.
  - right. intros i j Hi Hj E. apply Hout. unfold GetOffsetFromMultiIndex in E. fold RS in E.
    unfold NPerThread in *.
    destruct (Z_div_mod_unique_pos RS i j x) as [-> ->]; lia.
Qed.

(** Two C arrays that both hold the reference over [n] rows agree everywhere. *)
Lemma cells_inv_ext {T} (mul f_accum : T -> T -> T) bc tid (p_a_block p_b_block p_c_thread f h : Z -> T) n :
  blockwise_ctor_ok bc = true ->
  cells_inv mul f_accum bc tid p_a_block p_b_block p_c_thread n f ->
  cells_inv mul f_accum bc tid p_a_block p_b_block p_c_thread n h -> forall x, f x = h x.
Proof.
  intros Hok [Hf Hfo] [Hh Hho] x.
  destruct (cell_cases bc x Hok) as [(i & j & Hi & Hj & ->)|Hx].
  - by rewrite Hf, Hh.
  - by rewrite Hfo, Hho.
Qed.

Lemma Run_cells_inv {T} (mul f_accum : T -> T -> T) undef bc tid (p_a_block p_b_block p_c_thread : Z -> T) :
  blockwise_ctor_ok bc = true -> K bc mod KPerThreadLoop bc = 0 ->
  cells_inv mul f_accum bc tid p_a_block p_b_block p_c_thread (K bc)
    (Run mul f_accum undef bc (make_blockwise_gemm bc tid) p_a_block p_b_block p_c_thread).
Proof. intros Hok HK. split; intros; [apply Run_cell | apply Run_other]; auto. Qed.

(** C15: [Run_RegisterDoubleBuffer] implements [Run] when
    [KPerThreadLoop = 1]: prefetching the next row into the other register
    buffer while the current one feeds the GEMM leaves the same C registers,
    at every location. *)
Theorem Run_RegisterDoubleBuffer_equiv {T} (mul f_accum : T -> T -> T) (undef : T) bc tid
    (p_a_block p_b_block p_c_thread : Z -> T) :
  blockwise_ctor_ok bc = true -> KPerThreadLoop bc = 1 ->
  forall x, Run_RegisterDoubleBuffer mul f_accum undef bc (make_blockwise_gemm bc tid) p_a_block p_b_block p_c_thread x =
            Run mul f_accum undef bc (make_blockwise_gemm bc tid) p_a_block p_b_block p_c_thread x.
Proof.
  intros Hok H1. apply (cells_inv_ext mul f_accum bc tid p_a_block p_b_block p_c_thread _ _ (K bc) Hok).
  - by apply Run_RegisterDoubleBuffer_cells.
  - apply Run_cells_inv; [done|]. rewrite H1. apply Z.mod_1_r.
Qed.

(** ** [Run_PipelineReadAndCompute] *)

(** Case analysis on integer comparisons in boolean form, closed by [lia]. *)
Ltac zbool :=
  repeat match goal with
    | |- context [Z.eqb ?a ?b] => destruct (Z.eqb_spec a b)
    | |- context [Z.leb ?a ?b] => destruct (Z.leb_spec a b)
    | |- context [Z.ltb ?a ?b] => destruct (Z.ltb_spec a b)
    end; simpl; try reflexivity; lia.

Section PipelineTheorem.

Context {T : Type} (mul f_accum : T -> T -> T) (undef : T).
Variable bc : blockwise_config.
Hypothesis Hok : blockwise_ctor_ok bc = true.
(** The sub-block descriptor [c_thread_sub_mtx] has row stride [NPerThread]. *)
Hypothesis HRS : RowStride (ThreadMatrixC bc) = NPerThread bc.
Variable tid : Z.
Let g := make_blockwise_gemm bc tid.
Variables p_a_block p_b_block : Z -> T.
Variable kb : Z.

Definition a_sub_ok (pa : Z -> T) (m : Z) : Prop :=
  forall k i, 0 <= k < KPerThreadLoop bc -> 0 <= i < MPerThread bc -> i / MPerThreadSubC bc = m ->
    pa (k * MPerThread bc + i) = p_a_block (GetOffsetFromMultiIndex (BlockMatrixA bc) (kb + k) (lane_row bc tid i)).

Definition b_sub_ok (pb : Z -> T) (n : Z) : Prop :=
  forall k j, 0 <= k < KPerThreadLoop bc -> 0 <= j < NPerThread bc -> j / NPerThreadSubC bc = n ->
    pb (k * NPerThread bc + j) = p_b_block (GetOffsetFromMultiIndex (BlockMatrixB bc) (kb + k) (lane_col bc tid j)).

Lemma copy_a_sub_ok pa m : a_sub_ok (copy_a_sub bc g (a_thread_mtx bc) p_a_block pa kb m) m.
Proof. intros k i Hk Hi Hm. by apply a_sub_cell. Qed.

Lemma copy_a_sub_keep pa m m' :
  0 <= m < MRepeat bc -> m' <> m -> a_sub_ok pa m' ->
  a_sub_ok (copy_a_sub bc g (a_thread_mtx bc) p_a_block pa kb m) m'.
Proof. intros Hm Hne H k i Hk Hi Hi'. unfold g. rewrite a_sub_other; auto. lia. Qed.

Lemma copy_b_sub_ok pb n : b_sub_ok (copy_b_sub bc g (b_thread_mtx bc) p_b_block pb kb n) n.
Proof. intros k j Hk Hj Hn. by apply b_sub_cell. Qed.

Lemma copy_b_sub_keep pb n n' :
  0 <= n < NRepeat bc -> n' <> n -> b_sub_ok pb n' ->
  b_sub_ok (copy_b_sub bc g (b_thread_mtx bc) p_b_block pb kb n) n'.
Proof. intros Hn Hne H k j Hk Hj Hj'. unfold g. rewrite b_sub_other; auto. lia. Qed.

(** [c] has done step [k_begin] on the sub-blocks [(m, n)] with [D m n]
    and still holds [c0] on the others and outside the tile. *)
Definition blocks_done (c0 c : Z -> T) (D : Z -> Z -> bool) : Prop :=
  (forall i j, 0 <= i < MPerThread bc -> 0 <= j < NPerThread bc ->
     c (GetOffsetFromMultiIndex (ThreadMatrixC bc) i j) =
     if D (i / MPerThreadSubC bc) (j / NPerThreadSubC bc)
     then chunk mul f_accum bc tid p_a_block p_b_block i j kb (c0 (GetOffsetFromMultiIndex (ThreadMatrixC bc) i j))
     else c0 (GetOffsetFromMultiIndex (ThreadMatrixC bc) i j)) /\
  (forall x, (forall i j, 0 <= i < MPerThread bc -> 0 <= j < NPerThread bc ->
                x <> GetOffsetFromMultiIndex (ThreadMatrixC bc) i j) -> c x = c0 x).

Lemma blocks_done_none c0 : blocks_done c0 c0 (fun _ _ => false).
Proof. split; intros; done. Qed.

(** Cell [(i', j')] of sub-block [(m, n)] is cell [(m * MPerThreadSubC + i',
    n * NPerThreadSubC + j')] of the tile. *)
Lemma sub_cell_eq m n i' j' :
  GetOffsetFromMultiIndex (ThreadMatrixC bc) (m * MPerThreadSubC bc) (n * NPerThreadSubC bc) +
  GetOffsetFromMultiIndex (c_thread_sub_mtx bc) i' j' =
  GetOffsetFromMultiIndex (ThreadMatrixC bc) (m * MPerThreadSubC bc + i') (n * NPerThreadSubC bc + j').
Proof. unfold GetOffsetFromMultiIndex. rewrite HRS. simpl. ring. Qed.

(** The GEMM of sub-block [(m, n)], with A-sub [m] and B-sub [n] in the
    registers, does step [k_begin] on that block and nothing else. *)
Lemma sub_gemm_step c0 c D D' pa pb m n ao bo co :
  0 <= m < MRepeat bc -> 0 <= n < NRepeat bc ->
  ao = m * MPerThreadSubC bc -> bo = n * NPerThreadSubC bc ->
  co = GetOffsetFromMultiIndex (ThreadMatrixC bc) (m * MPerThreadSubC bc) (n * NPerThreadSubC bc) ->
  a_sub_ok pa m -> b_sub_ok pb n -> D m n = false ->
  (forall m' n', 0 <= m' < MRepeat bc -> 0 <= n' < NRepeat bc ->
     D' m' n' = D m' n' || (m' =? m) && (n' =? n)) ->
  blocks_done c0 c D -> blocks_done c0 (gemm_sub mul f_accum bc pa ao pb bo c co) D'.
Proof.
  intros Hm Hn -> -> -> Ha Hb HDmn HD' [Hc Ho].
  pose proof (ctor_facts bc Hok) as (HMs & HNs & _ & _ & _ & _ & HKp & _ & HMR & HNR & HMP & HNP & _).
  unfold gemm_sub. split.
  - intros i j Hi Hj.
    pose proof (Z.div_mod i (MPerThreadSubC bc) ltac:(lia)). pose proof (Z.mod_pos_bound i (MPerThreadSubC bc) HMs).
    pose proof (Z.div_mod j (NPerThreadSubC bc) ltac:(lia)). pose proof (Z.mod_pos_bound j (NPerThreadSubC bc) HNs).
    assert (0 <= i / MPerThreadSubC bc < MRepeat bc) by (split; [apply Z.div_pos|apply Z_div_range]; lia).
    assert (0 <= j / NPerThreadSubC bc < NRepeat bc) by (split; [apply Z.div_pos|apply Z_div_range]; lia).
    rewrite HD' by lia.
    destruct (decide (i / MPerThreadSubC bc = m /\ j / NPerThreadSubC bc = n)) as [[Em En]|Hne].
    + assert (Ecell : GetOffsetFromMultiIndex (ThreadMatrixC bc) i j =
                      GetOffsetFromMultiIndex (ThreadMatrixC bc) (m * MPerThreadSubC bc) (n * NPerThreadSubC bc) +
                      GetOffsetFromMultiIndex (c_thread_sub_mtx bc) (i mod MPerThreadSubC bc) (j mod NPerThreadSubC bc))
        by (rewrite sub_cell_eq; f_equal; lia).
      rewrite Ecell, threadwise_gemm_cell by (simpl; nia). rewrite <- Ecell, Hc by lia.
      rewrite Em, En, HDmn, !Z.eqb_refl. simpl.
      unfold chunk. apply fold_left_ext_in. intros v k Hk%in_zseq. simpl in Hk.
      rewrite <- Ha, <- Hb by lia. unfold GetOffsetFromMultiIndex. simpl. do 3 f_equal; lia.
    + rewrite threadwise_gemm_other.
      * rewrite Hc by lia. replace ((i / MPerThreadSubC bc =? m) && (j / NPerThreadSubC bc =? n)) with false by zbool.
        by rewrite orb_false_r.
      * intros i' j' Hi' Hj' E. simpl in Hi', Hj'. rewrite sub_cell_eq in E.
        apply offset_inj in E as [Ei Ej]; [|lia|nia]. apply Hne.
        split; [apply (Z_div_mod_unique_pos (MPerThreadSubC bc) m i')|apply (Z_div_mod_unique_pos (NPerThreadSubC bc) n j')]; lia.
  - intros x Hx. rewrite threadwise_gemm_other; [by apply Ho|].
    intros i' j' Hi' Hj' E. simpl in Hi', Hj'. rewrite sub_cell_eq in E.
    eapply Hx; [| |exact E]; nia.
Qed.

Lemma blocks_done_ext c0 c D D' :
  (forall m' n', 0 <= m' < MRepeat bc -> 0 <= n' < NRepeat bc -> D m' n' = D' m' n') ->
  blocks_done c0 c D -> blocks_done c0 c D'.
Proof.
  intros HD [Hc Ho]. split; [|done]. intros i j Hi Hj.
  pose proof (ctor_facts bc Hok) as (HMs & HNs & _ & _ & _ & _ & _ & _ & HMR & HNR & HMP & HNP & _).
  rewrite Hc by done. rewrite HD by (split; [apply Z.div_pos|apply Z_div_range]; lia). done.
Qed.

(** The inner [n_repeat] loop at [m_repeat = m]: with A-sub [m] and every
    B-sub in the registers, it does step [k_begin] on row [m] of sub-blocks. *)
Lemma row_of_blocks c0 c pa pb m :
  0 <= m < MRepeat bc -> a_sub_ok pa m -> (forall n, 0 <= n < NRepeat bc -> b_sub_ok pb n) ->
  blocks_done c0 c (fun m' _ => m' <? m) ->
  blocks_done c0
    (fold_left (fun p_c n_repeat =>
        gemm_sub mul f_accum bc pa (GetOffsetFromMultiIndex (a_thread_mtx bc) 0 (m * MPerThreadSubC bc))
                 pb (GetOffsetFromMultiIndex (b_thread_mtx bc) 0 (n_repeat * NPerThreadSubC bc))
                 p_c (GetOffsetFromMultiIndex (ThreadMatrixC bc) (m * MPerThreadSubC bc)
                                              (n_repeat * NPerThreadSubC bc)))
       (zseq (NRepeat bc)) c)
    (fun m' _ => m' <=? m).
Proof.
  intros Hm Ha Hb Hc. pose proof (ctor_facts bc Hok) as (_ & _ & _ & _ & _ & _ & _ & _ & _ & HNR & _).
  apply (blocks_done_ext _ _ (fun m' n' => (m' <? m) || (m' =? m) && (n' <? NRepeat bc))); [intros; zbool|].
  apply (fold_zseq_inv (fun s c' => blocks_done c0 c' (fun m' n' => (m' <? m) || (m' =? m) && (n' <? s))));
    [lia|eapply blocks_done_ext; [|exact Hc]; intros; zbool|].
  intros s c' Hs Hc'.
  apply (sub_gemm_step c0 c' (fun m' n' => (m' <? m) || (m' =? m) && (n' <? s)) _ pa pb m s); auto;
    try (unfold GetOffsetFromMultiIndex; simpl; lia).
Qed.

(** One iteration of the [k_begin] loop does step [k_begin] on every
    sub-block, whatever the registers held before. *)
Lemma pipeline_step_done pa pb c :
  blocks_done c (pipeline_step mul f_accum bc g p_a_block p_b_block (pa, pb, c) kb).2 (fun _ _ => true).
Proof.
  pose proof (ctor_facts bc Hok) as (_ & _ & _ & _ & _ & _ & _ & _ & HMR & HNR & _).
  unfold pipeline_step. cbn beta iota zeta.
  rewrite for_range_unit, !for_range_step1 by lia. rewrite !fold_left_map_comm.
  set (pa1 := copy_a_sub bc g (a_thread_mtx bc) p_a_block pa kb 0).
  assert (Ha1 : a_sub_ok pa1 0) by apply copy_a_sub_ok.
  (* the [n_repeat] loop: B-subs [0 .. t] loaded, sub-blocks (0, [0 .. t]) done *)
  match goal with |- context [fold_left ?F (zseq (NRepeat bc - 1)) ?s] =>
    pose proof (fold_zseq_inv (fun t (st : (Z -> T) * (Z -> T)) =>
                  (forall n', 0 <= n' <= t -> b_sub_ok st.1 n') /\
                  blocks_done c st.2 (fun m' n' => (m' =? 0) && (n' <=? t))) F (NRepeat bc - 1) s) as HN;
    revert HN; generalize (fold_left F (zseq (NRepeat bc - 1)) s) end.
  intros [pb2 c2] HN. destruct HN as [Hb2 Hc2]; [lia| | |].
  - split; simpl.
    + intros n' Hn'. assert (n' = 0) as -> by lia. apply copy_b_sub_ok.
    + apply (sub_gemm_step c c (fun _ _ => false) _ pa1 _ 0 0); auto; try (unfold GetOffsetFromMultiIndex; lia).
      * apply copy_b_sub_ok.
      * apply blocks_done_none.
  - intros t [pb' c'] Ht [Hb' Hc']. simpl in Hb', Hc' |- *. split.
    + intros n' Hn'. destruct (decide (n' = 1 + t)) as [->|Hne]; [apply copy_b_sub_ok|].
      apply copy_b_sub_keep; [lia|done|]. apply Hb'. lia.
    + apply (sub_gemm_step c c' (fun m' n' => (m' =? 0) && (n' <=? t)) _ pa1 _ 0 (1 + t)); auto;
        try (unfold GetOffsetFromMultiIndex; simpl; lia). apply copy_b_sub_ok.
  - (* the [m_repeat] loop: rows of sub-blocks [0 .. t] done *)
    simpl in Hb2, Hc2 |- *. rewrite fold_left_map_comm.
    match goal with |- context [fold_left ?F (zseq (MRepeat bc - 1)) ?s] =>
      pose proof (fold_zseq_inv (fun t (st : (Z -> T) * (Z -> T)) =>
                    blocks_done c st.2 (fun m' _ => m' <=? t)) F (MRepeat bc - 1) s) as HM;
      revert HM; generalize (fold_left F (zseq (MRepeat bc - 1)) s) end.
    intros [pa3 c3] HM. destruct HM as [Hc3 Ho3]; [lia| | |].
    + eapply blocks_done_ext; [|exact Hc2]. intros; zbool.
    + intros t [pa' c'] Ht Hc'. simpl in Hc' |- *.
      eapply blocks_done_ext; [|apply (row_of_blocks _ _ _ _ (1 + t))]; [intros; zbool|lia|apply copy_a_sub_ok| |].
      * intros n Hn. apply Hb2. lia.
      * eapply blocks_done_ext; [|exact Hc']. intros; zbool.
    + simpl. apply (blocks_done_ext c c3 (fun m' _ => m' <=? MRepeat bc - 1)); [intros; zbool|].
      exact (conj Hc3 Ho3).
Qed.

End PipelineTheorem.

Lemma Run_PipelineReadAndCompute_cells {T} (mul f_accum : T -> T -> T) undef bc tid
    (p_a_block p_b_block p_c_thread : Z -> T) :
  blockwise_ctor_ok bc = true -> K bc mod KPerThreadLoop bc = 0 ->
  RowStride (ThreadMatrixC bc) = NPerThread bc ->
  cells_inv mul f_accum bc tid p_a_block p_b_block p_c_thread (K bc)
    (Run_PipelineReadAndCompute mul f_accum undef bc (make_blockwise_gemm bc tid) p_a_block p_b_block p_c_thread).
Proof.
  intros Hok HK HRS. unfold Run_PipelineReadAndCompute. rewrite triple_snd. split.
  - intros i j Hi Hj.
    transitivity (lane_acc mul f_accum bc tid p_a_block p_b_block i j
                    (p_c_thread (GetOffsetFromMultiIndex (ThreadMatrixC bc) i j))); [|reflexivity].
    rewrite <- (chunks_lane_acc mul f_accum bc Hok HK).
    apply (fold_left_proj (fun st : (Z -> T) * (Z -> T) * (Z -> T) => st.2 _)).
    intros [[pa pb] c] kb _. by rewrite (proj1 (pipeline_step_done mul f_accum bc Hok HRS tid _ _ kb pa pb c)).
  - intros x Hx.
    erewrite (fold_left_proj (fun st : (Z -> T) * (Z -> T) * (Z -> T) => st.2 x) _ (fun v _ => v)).
    + simpl. generalize (p_c_thread x). induction (for_range _ _ _); simpl; auto.
    + intros [[pa pb] c] kb _. by rewrite (proj2 (pipeline_step_done mul f_accum bc Hok HRS tid _ _ kb pa pb c)).
Qed.

(** C16: [Run_PipelineReadAndCompute] implements [Run].  When
    [KPerThreadLoop] divides [K] and the lane's C tile is packed
    ([RowStride = NPerThread], the stride the code gives
    [c_thread_sub_mtx]), interleaving the sub-block register copies with
    the sub-block GEMMs leaves the same C registers as [Run], at every
    location. *)
Theorem Run_PipelineReadAndCompute_equiv {T} (mul f_accum : T -> T -> T) (undef : T) bc tid
    (p_a_block p_b_block p_c_thread : Z -> T) :
  blockwise_ctor_ok bc = true -> K bc mod KPerThreadLoop bc = 0 ->
  RowStride (ThreadMatrixC bc) = NPerThread bc ->
  forall x, Run_PipelineReadAndCompute mul f_accum undef bc (make_blockwise_gemm bc tid) p_a_block p_b_block p_c_thread x =
            Run mul f_accum undef bc (make_blockwise_gemm bc tid) p_a_block p_b_block p_c_thread x.
Proof.
  intros Hok HK HRS. apply (cells_inv_ext mul f_accum bc tid p_a_block p_b_block p_c_thread _ _ (K bc) Hok).
  - by apply Run_PipelineReadAndCompute_cells.
  - by apply Run_cells_inv.
Qed.

(** ** Where the variants part from [Run] *)

(** A configuration of the blockwise GEMM of the gridwise kernels: 128
    lanes in a 4 x 4 x 4 x 2 cluster, each with an 8 x 8 C tile. *)
Definition ex_bc : blockwise_config :=
  {| BlockSize := 128; BlockMatrixA := mk_mtx 2 128 128; BlockMatrixB := mk_mtx 2 64 64;
     ThreadMatrixC := mk_mtx 8 8 8; MPerThreadSubC := 4; NPerThreadSubC := 4;
     MLevel0Cluster := 4; NLevel0Cluster := 4; MLevel1Cluster := 4; NLevel1Cluster := 2;
     KPerThreadLoop := 1 |}.

(** The same with four rows of A and B, two per [k_begin] step. *)
Definition ex_bc_kptl2 : blockwise_config :=
  {| BlockSize := 128; BlockMatrixA := mk_mtx 4 128 128; BlockMatrixB := mk_mtx 4 64 64;
     ThreadMatrixC := mk_mtx 8 8 8; MPerThreadSubC := 4; NPerThreadSubC := 4;
     MLevel0Cluster := 4; NLevel0Cluster := 4; MLevel1Cluster := 4; NLevel1Cluster := 2;
     KPerThreadLoop := 2 |}.

Definition ex_a_block (x : Z) : Z := x.
Definition ex_b_block (x : Z) : Z := 7 * x + 3.

Lemma lane_partition_exactly_once_witness :
  blockwise_ctor_ok ex_bc = true /\
  0 <= fst (lane_cell ex_bc 5 6 7) < M ex_bc /\ 0 <= snd (lane_cell ex_bc 5 6 7) < N ex_bc.
Proof.
  split; [reflexivity|].
  apply (proj1 (lane_partition_exactly_once ex_bc eq_refl)); unfold MPerThread, NPerThread; simpl; lia.
Defined.

Lemma Run_correct_witness :
  blockwise_ctor_ok ex_bc = true /\ K ex_bc mod KPerThreadLoop ex_bc = 0 /\
  Run Z.mul Z.add 0 ex_bc (make_blockwise_gemm ex_bc 5) ex_a_block ex_b_block (fun _ => 0)
    (GetOffsetFromMultiIndex (ThreadMatrixC ex_bc) 6 7) =
  lane_acc Z.mul Z.add ex_bc 5 ex_a_block ex_b_block 6 7 0.
Proof.
  split; [reflexivity|]. split; [reflexivity|].
  apply (proj1 (Run_correct Z.mul Z.add 0 ex_bc 5 ex_a_block ex_b_block (fun _ => 0) eq_refl eq_refl));
    unfold MPerThread, NPerThread; simpl; lia.
Defined.

Lemma Run_asm_equiv_witness :
  blockwise_ctor_ok ex_bc = true /\ asm_layout ex_bc = true /\
  Run_asm (fun c a b => c + a * b) 0 ex_bc (make_blockwise_gemm ex_bc 5) ex_a_block ex_b_block (fun _ => 0) 9 =
  Run Z.mul Z.add 0 ex_bc (make_blockwise_gemm ex_bc 5) ex_a_block ex_b_block (fun _ => 0) 9.
Proof.
  split; [reflexivity|]. split; [reflexivity|].
  apply (Run_asm_equiv Z.mul Z.add (fun c a b => c + a * b) 0 ex_bc 5); [reflexivity|reflexivity|reflexivity].
Defined.

Lemma Run_RegisterDoubleBuffer_equiv_witness :
  blockwise_ctor_ok ex_bc = true /\ KPerThreadLoop ex_bc = 1 /\
  Run_RegisterDoubleBuffer Z.mul Z.add 0 ex_bc (make_blockwise_gemm ex_bc 5) ex_a_block ex_b_block (fun _ => 0) 9 =
  Run Z.mul Z.add 0 ex_bc (make_blockwise_gemm ex_bc 5) ex_a_block ex_b_block (fun _ => 0) 9.
Proof.
  split; [reflexivity|]. split; [reflexivity|].
  apply (Run_RegisterDoubleBuffer_equiv Z.mul Z.add 0 ex_bc 5); reflexivity.
Defined.

Lemma Run_PipelineReadAndCompute_equiv_witness :
  blockwise_ctor_ok ex_bc = true /\ K ex_bc mod KPerThreadLoop ex_bc = 0 /\
  RowStride (ThreadMatrixC ex_bc) = NPerThread ex_bc /\
  Run_PipelineReadAndCompute Z.mul Z.add 0 ex_bc (make_blockwise_gemm ex_bc 5) ex_a_block ex_b_block (fun _ => 0) 9 =
  Run Z.mul Z.add 0 ex_bc (make_blockwise_gemm ex_bc 5) ex_a_block ex_b_block (fun _ => 0) 9.
Proof.
  split; [reflexivity|]. split; [reflexivity|]. split; [reflexivity|].
  apply (Run_PipelineReadAndCompute_equiv Z.mul Z.add 0 ex_bc 5); reflexivity.
Defined.

(** Witness of C17 on [ex_bc_kptl2] ([K = 4], [KPerThreadLoop = 2]): lane
    0's first C register holds the GEMMs of rows [0, 1] and [1, 2]. *)
Lemma Run_RegisterDoubleBuffer_rows_witness :
  blockwise_ctor_ok ex_bc_kptl2 = true /\ K ex_bc_kptl2 mod KPerThreadLoop ex_bc_kptl2 = 0 /\
  Run_RegisterDoubleBuffer Z.mul Z.add 0 ex_bc_kptl2 (make_blockwise_gemm ex_bc_kptl2 0) ex_a_block ex_b_block
    (fun _ => 0) (GetOffsetFromMultiIndex (ThreadMatrixC ex_bc_kptl2) 0 0) =
  rdb_acc Z.mul Z.add ex_bc_kptl2 0 ex_a_block ex_b_block 0 0 0.
Proof.
  split; [vm_compute; reflexivity|]. split; [vm_compute; reflexivity|].
  exact (proj1 (Run_RegisterDoubleBuffer_rows Z.mul Z.add 0 ex_bc_kptl2 0 ex_a_block ex_b_block (fun _ => 0)
                  ltac:(vm_compute; reflexivity) ltac:(vm_compute; reflexivity))
           0 0 ltac:(vm_compute; split; congruence) ltac:(vm_compute; split; congruence)).
Defined.
